(* ===== verification/_CoqProject ===== *)
-Q . S2P
Prelude.v
Prims.v
Merkle.v
MerkleLevels.v
MerkleProofs.v
MerkleTheorems.v
CryptoCore.v
Text.v
VrfIndex.v
Ecdsa.v
Envelope.v
Wrap.v
WrapTheorems.v
SignedBytes.v
Channel.v
ChannelTheorems.v
CliError.v
Keystore.v
SoftKeystore.v
HostSigner.v
HostSignerTheorems.v
Delegated.v
Token.v
Lease.v
Broker.v
X509.v
X509Theorems.v
GrantStatus.v
BrokerTls.v
Anchors.v
AnchorsTheorems.v
AnchorCut.v
Watch.v
AnchorsToy.v
Receipts.v
Hybrid.v
HybridTheorems.v
Garnet.v
BrokerKeystore.v
GarnetTheorems.v
GarnetToy.v
BrokerCredential.v
RecipientVerify.v
RecipientTheorems.v
RecipientToy.v
PublishedRoot.v
Names.v
Float64.v
Governor.v
UploadState.v
Transfer.v
Http.v
HttpTheorems.v
Resolve.v
ResolveTheorems.v
Transparency.v
TransparencyTheorems.v
TransparencyToy.v
Sharing.v
SharingTheorems.v
Listing.v
SharingToy.v
KeyCommands.v
KeyTheorems.v
UploadFanout.v
DownloadLoop.v
DownloadTheorems.v
UploadCommand.v
BucketUrl.v
BucketTransport.v
BucketTheorems.v
BucketPool.v
Presigned.v
Enroll.v
EnrollTheorems.v
UploadRun.v
UploadRunTheorems.v
DownloadCommand.v
TransferToy.v
HostChannel.v
