(* ===== verification/Prelude.v ===== *)
(** * Signet Drive: a verification library

    Signet Drive is end-to-end encrypted storage for humans and AI agents.  Its
    repository has the client side only: the cryptography ([crypto/]), the command
    line and its daemons ([cli/]), the delegation channel ([channel/]), a WASM
    binding and the web client.  The server is not published and is not trusted:
    what it answers is an argument of every definition here.  This library models
    the Rust code and proves what makes it correct; the file names below are those
    of the repository's [src/] and of this directory.

    ** The program and how its parts fit

    A file is sealed in chunks under a fresh key ([envelope.rs]); the key is wrapped
    to every reader's two KEM keys ([hybrid_wrap.rs], [hybrid.rs]), whose public
    halves are taken from the directory only after they are checked against signed
    attestations and a public Merkle log ([recipient_verify.rs], [anchors.rs],
    [merkle.rs], [translog.rs]).  Names are ciphertext, so the client resolves paths
    itself ([resolve.rs]).  Every request is signed ([http.rs]); bytes go to an
    object store through pre-signed addresses, in parallel and with resumption
    ([commands.rs], [transfer_governor.rs], [upload_state.rs]).  Private keys live in
    a keystore: files ([software.rs]), a host that serves a container over a shared
    folder ([delegated.rs], [host_signer.rs], [channel/]), or a broker over mutual TLS
    ([keystore/broker.rs], [broker.rs]), which admits an agent by a certificate of the
    deployment CA ([x509.rs]) and a token bound to it ([garnet_token.rs]), and asks the
    server whether the grant still holds ([garnet_revocation.rs]).

    ** The files

    Foundations.
    - [Prelude]: results with [?], bytes, machine widths, UTF-8, the tactics and hint
      databases.  [Prims]: the third-party primitives as classes with their
      documented laws, the notion of a collision among named inputs, and a toy
      instance of each class.  [Text]: strings and JSON documents.  [Float64]: binary64
      and durations.  [CryptoCore]: [aead.rs], [keywrap.rs], [kdf.rs], [ecdh.rs], [jcs.rs],
      [alg.rs], [error.rs].  [CliError]: [cli/src/error.rs].

    Cryptography.
    - [Merkle], [MerkleLevels], [MerkleProofs], [MerkleTheorems]: [merkle.rs].
    - [VrfIndex]: [vrf.rs].  [Ecdsa]: [ecdsa.rs].  [Envelope]: [envelope.rs].
    - [Wrap], [WrapTheorems]: [concatkdf.rs], [pubkey.rs], [wrap.rs], [hybrid_wrap.rs],
      [kem_wrap.rs], [encname.rs].  [SignedBytes]: [translog.rs], [signing.rs], [attest.rs].
    - [Token]: [garnet_token.rs].  [X509], [X509Theorems]: [x509.rs].

    Keystores and their services.
    - [Keystore]: the trait of [keystore/mod.rs] as a class, labels, wire errors; its
      laws are the classes [KeystoreLocal], [KeystoreTyped] ([Delegated]) and [KemHolder]
      ([HybridTheorems]), against which the clients are proved.
    - [SoftKeystore]: [software.rs].  [Channel], [ChannelTheorems]: [channel/src].
      [HostSigner], [HostSignerTheorems]: [host_signer.rs].  [HostChannel]:
      [host_channel.rs].  [Delegated]: [delegated.rs].
    - [Lease]: [garnet_revocation.rs].  [Broker]: [broker.rs], [broker_wire.rs].
      [GrantStatus]: [garnet_grant_status_client.rs].  [BrokerTls]: [broker_tls.rs],
      [broker_client.rs] and the connection handler.  [BrokerCredential]:
      [broker_credential.rs], [broker_provision.rs], [broker_transport_key.rs].
    - [Garnet]: [garnet_credential.rs], [garnet_pickup.rs], [garnet.rs].
      [BrokerKeystore]: [keystore/broker.rs].  [GarnetTheorems], [GarnetToy].

    Trust in keys.
    - [Anchors], [AnchorsTheorems], [AnchorCut], [Watch], [AnchorsToy]: [anchors.rs].
    - [Receipts], [PublishedRoot]: the receipt, signature and root checks of
      [commands.rs].  [RecipientVerify], [RecipientTheorems], [RecipientToy]:
      [recipient_verify.rs].

    Requests, names and transfers.
    - [Hybrid], [HybridTheorems]: [hybrid.rs], the wrap dispatch and the offline commands
      of [commands.rs].  [Http], [HttpTheorems]: [http.rs].  [Resolve], [ResolveTheorems]:
      [resolve.rs].  [Names]: [names.rs].
    - [Governor]: [transfer_governor.rs].  [UploadState]: [upload_state.rs].  [Transfer]:
      chunk plans and the attempts of one transfer.  [UploadFanout], [DownloadLoop],
      [DownloadTheorems]: the pipelines of [commands.rs].  [UploadCommand]:
      the fate of the resume state.  [UploadRun], [UploadRunTheorems]: the whole upload
      command over requests.  [DownloadCommand]: the whole download command.
      [TransferToy]: one of each.
    - [BucketUrl], [BucketTransport], [BucketTheorems], [BucketPool]:
      [bucket_transport.rs], over an interface of sockets.  [Presigned]: the attempt loops
      of [http.rs] on top of it, and that they refine those of [Transfer], with runs on a
      scripted network.

    Commands.
    - [Sharing], [SharingTheorems], [SharingToy]: the commands of [commands.rs] that change
      the drive (folders, moves, renames, removals, sharing, invitations).  [Listing]:
      the ones that only ask.  [Transparency], [TransparencyTheorems], [TransparencyToy]:
      publishing and verifying keys, the watch over the log, signed statements.
    - [KeyCommands], [KeyTheorems]: the paths and values of [config.rs], the resolver of
      the active identity, and the key commands of [commands.rs].
    - [Enroll], [EnrollTheorems]: [enroll.rs].

    A file ending in [Theorems] has the properties of the one it is named after;
    the [Toy] modules have concrete instances, at which the properties with
    hypotheses are applied.

    ** How the code is modelled

    A [Result] is [result]; [u8] is [byte]; wider integers are [Z] with the width
    written where wrap-around, saturation or a cast can show; an [f64] is computed bit
    for bit; a [HashMap] is a [gmap].  State is passed explicitly: the keystore's files,
    the channel folder, the credential file, the world of requests.  The disk's
    failures, the clock, the random generator and every answer of a server are
    arguments or an environment every call may change.  Threads ([UploadFanout],
    [DownloadLoop]) are step relations over all interleavings.  Code that is not in the
    repository is a class or an argument; its laws are what its documentation says,
    never a security assumption (for ML-KEM that decapsulation undoes encapsulation, which
    FIPS 203 has up to a negligible failure rate): where security rests on a primitive, the theorem names
    the forgery or the collision it would take, among the inputs actually computed.
    Error messages are those of the source, without the text of lower-level errors.

    ** What the theorems show

    - Log and keys: a proof the verifiers accept is true of the logs, or a named
      collision; honest proofs are accepted; the anchored epoch never goes back; the
      cut cache judges as the whole files; a clean watch covers the log; a recipient's
      keys are backed by a signed record.
    - Bytes: what is signed or hashed pins every field, and the surfaces are disjoint;
      frames and chunks open only where they were sealed; a hybrid block opens only in
      its whole context, and does open for its recipient.
    - Keystores: a channel reaches its own handle's keys only and learns nothing of
      others, except that a listing fails when one of their files cannot be read; the
      container's keystore behaves as the host's behind the dispatch seam, its listing
      cut to the handle, also when requests or answers are lost; a provisioned channel is
      only added and is served under the container's secret; requests are
      authenticated and replays dropped.
    - Broker: a request changes the keystore only for a certified agent with a token
      bound to its certificate and a grant checked within the budget; the CA's roles
      are separate; every token is sent on its own connection; recoveries are bounded.
    - Transfers: the upload pipeline never hangs and delivers each part once, and the
      serial path does what one worker does; the download
      loop ends; what was uploaded is what is downloaded; a failing upload is
      never orphaned while its state can be written, and the command treats that state
      as the decisions proved about do; an upload wraps its key for exactly the readers of the folder, who
      open it; a download puts the whole file in place or nothing.
    - Storage connections: an exchange ends whatever the other side sends; an answer is
      taken only from a connection with nothing left of an earlier one; an attempt
      without the pool is a fresh flow; a ranged read returns a complete body; a URL
      names the endpoint that is connected to.
    - Enrolment: at most one identity's keys change, none is ever replaced, and the
      waiting ends.
    - Requests and names: each attempt is signed for itself; an attempt that may run
      twice never writes; resolving a path is the lookup in the tree of names.
    - Commands: a command that changes the drive makes its one write last, after all
      that can fail on the client; what an invitation delivers opens for its recipient;
      a query never writes; the resolver never acts as another identity than the one
      named; a delete is confined to the labels that were asked for and confirmed; the
      owner's watch covers every logged entry of the account; a key reported as verified
      is in the log; a statement that verifies is signed by the key it is held to.

    ** What the theorems assume

    Beside the laws of the classes, each theorem states its conditions; those on the
    surroundings are:
    - anchoring an attempt ([anchored_reads] of [Sharing] and [UploadRun]) is any
      computation over the requests of [Http] ([via_http]), as [anchors.rs] is; that it
      only reads is then proved, from the read-only guard of [http.rs];
    - a failed save of the anchor state leaves the file as it was, and the ratchet counts
      from runs that could save ([AnchorsTheorems]); a save of a credential can fail at
      every step, also after part of the bytes, and then a credential cut short does not
      parse ([Garnet]); state files of uploads can be written ([UploadCommand]; the
      theorem [rate_save_can_lose_state] shows why this is needed);
    - writes to a socket are interrupted finitely often, and the clock is a day before
      the last instant, beyond which adding a duration panics ([BucketTheorems]);
    - the generator fills what it is asked to; nothing says that it never repeats, so a
      fresh nonce is one that was drawn for its request ([HttpTheorems]);
    - [roots.jsonl] has LF or CRLF line ends and no line that ends in a carriage return of
      its own ([AnchorCut]);
    - the pool of storage connections is used by one thread; in the code its mutex is held
      only to take or to return a connection ([BucketTransport], [BucketPool]).

    ** Bounds and fuel

    Recursion is structural where the code's is bounded by its data.  Fuel: the name
    search has one step per taken name and one more, which the pigeonhole argument
    shows to be enough ([Names]); reading a chunk has one step per byte wanted and one
    more ([Transfer]); the verifiers' loops over shifted indices have 64 steps, the
    width of [usize] ([Merkle]); provisioning has the twelve attempts of the source
    ([BrokerCredential]); requests have the source's three retries as structural
    recursion ([Http]).  The scan of the log has one step per published
    entry, and ends with exactly that many entries or an error ([TransparencyTheorems]).
    The reading loops of the bucket transport have fuel from the caps and the declared
    length, which is always enough, the writing loop one step per byte
    and per interruption ([BucketTheorems]).  A wait of an enrolment has one poll per interval of its hour and
    one more, enough while the clock is not set back ([EnrollTheorems]).
    Draining pages and walking folders are driven by the server and
    have no bound in the source: they return [None] without fuel, and the theorems give
    the fuel that is enough for a server that ends its listings ([Resolve]).

    ** What is not modelled

    Sockets, TLS, the clock and name resolution (rustls, ureq and the standard library),
    which are interfaces of the model; the
    Secure Enclave and its Swift shim ([secure_enclave.rs], [se_shim.rs], [cli/shim]), which
    are system calls behind the keystore trait; argument parsing, the reading of the
    configuration file, terminal output, launch agents, the menu bar, downloads of
    updates and removal ([main.rs], [output.rs], [install.rs], [menubar.rs], [power.rs], [status.rs], [update.rs],
    [uninstall.rs]); calls of launchctl; progress lines; the
    rendering of tables, sizes and times in [commands.rs]; [mac.rs], which the other
    parts do not use in the flows modelled; the WASM binding, the web client and the
    scripts, which are not Rust or only forward calls. *)

From stdpp Require Export base list gmap strings pretty sorting.
From Stdlib Require Export ZArith Lia ZifyNat.
From Stdlib Require Export Strings.Byte.

#[export] Set Default Goal Selector "!".
Global Open Scope Z_scope.
Global Generalizable All Variables.

(** ** Results

    Rust's [Result<T, E>], with the [?] operator as a bind. *)

Inductive result (E A : Type) : Type :=
| Ok (a : A)
| Err (e : E).
Arguments Ok {E A} a.
Arguments Err {E A} e.

#[export] Instance result_eq_dec `{EqDecision E, EqDecision A} : EqDecision (result E A).
Proof. solve_decision. Defined.

Declare Scope rust_scope.
Delimit Scope rust_scope with rust.

(** [let*? x := r in k] is Rust's [let x = r?; k]. *)
Notation "'let*?' x ':=' r 'in' k" :=
  (match r with Ok x => k | Err e => Err e end)
  (at level 10, x name, r at level 100, k at level 200) : rust_scope.

(** [let*! x := o 'else' e in k] is [let x = o.ok_or(e)?; k]. *)
Notation "'let*!' x ':=' o 'else' e 'in' k" :=
  (match o with Some x => k | None => Err e end)
  (at level 10, x name, o at level 100, e at level 100, k at level 200) : rust_scope.

(** [guard c else e ;; k] is [if !c { return Err(e); } k]. *)
Notation "'guard' c 'else' e ';;' k" :=
  (if c then k else Err e)
  (at level 10, c at level 99, e at level 99, k at level 200) : rust_scope.
Global Open Scope rust_scope.

Definition is_ok {E A} (r : result E A) : bool :=
  match r with Ok _ => true | Err _ => false end.

#[export] Instance Ok_inj {E A} : Inj (=) (=) (@Ok E A).
Proof. by intros a b [=]. Qed.

(** [Result::ok]. *)
Definition ok_opt {E A} (r : result E A) : option A :=
  match r with Ok a => Some a | Err _ => None end.

(** [Result::map_err]. *)
Definition map_err {E F A} (f : E -> F) (r : result E A) : result F A :=
  match r with Ok a => Ok a | Err e => Err (f e) end.

(** ** Bytes

    A Rust [u8] is a [byte], so that a byte string needs no range side
    condition; [u16]/[u32]/[u64]/[usize]/[i64] values are integers of [Z] with
    the width written where the code depends on it. *)

Abbreviation byte := Byte.byte.
Abbreviation bytes := (list Byte.byte).

#[export] Instance byte_eq_dec : EqDecision byte.
Proof.
  refine (fun a b => cast_if (decide (Byte.to_N a = Byte.to_N b))).
  - abstract (apply (f_equal Byte.of_N) in e; rewrite !Byte.of_to_N in e; congruence).
  - abstract congruence.
Defined.

Definition byte_to_Z (b : byte) : Z := Z.of_N (Byte.to_N b).

Definition byte_of_Z (z : Z) : byte := default Byte.x00 (Byte.of_N (Z.to_N (z mod 256))).

#[export] Program Instance byte_countable : Countable byte :=
  inj_countable Byte.to_N Byte.of_N _.
Next Obligation. apply Byte.of_to_N. Qed.

(** The big-endian encoding of [z] on [n] bytes ([to_be_bytes]); [z] is taken
    modulo [256 ^ n], which is what a narrowing [as] cast does first. *)
Fixpoint be_bytes_rec (n : nat) (z : Z) : bytes :=
  match n with
  | O => []
  | S n => be_bytes_rec n (z / 256) ++ [byte_of_Z z]
  end.
Definition be_bytes (n : nat) (z : Z) : bytes := be_bytes_rec n z.

(** The value of a big-endian byte string ([from_be_bytes]). *)
Definition be_value (l : bytes) : Z := foldl (fun acc b => acc * 256 + byte_to_Z b) 0 l.

(** [str::as_bytes]: a Rust string is the byte sequence of its UTF-8 text. *)
Definition str_bytes (s : string) : bytes := String.list_byte_of_string s.
Arguments str_bytes : simpl never.

(** [u32_be(len) ‖ data], the length-prefixed field every framing of the
    repository uses. *)
Definition lp (data : bytes) : bytes := be_bytes 4 (Z.of_nat (length data)) ++ data.

Definition u16_max : Z := 2 ^ 16 - 1.
Definition u32_max : Z := 2 ^ 32 - 1.
Definition u64_max : Z := 2 ^ 64 - 1.
Definition i64_max : Z := 2 ^ 63 - 1.
Definition i64_min : Z := - 2 ^ 63.

Definition is_u16 (z : Z) : Prop := 0 <= z <= u16_max.
Definition is_u32 (z : Z) : Prop := 0 <= z <= u32_max.
Definition is_u64 (z : Z) : Prop := 0 <= z <= u64_max.
Definition is_i64 (z : Z) : Prop := i64_min <= z <= i64_max.

(** [i64::saturating_add] / [saturating_sub], [u64]/[usize]/[u16] likewise. *)
Definition i64_sat (z : Z) : Z := Z.max i64_min (Z.min i64_max z).
(** [i64] addition of a release build, and the cast from [u64]. *)
Definition i64_wrap (z : Z) : Z := (z + 2 ^ 63) mod 2 ^ 64 - 2 ^ 63.
Definition u64_sat (z : Z) : Z := Z.max 0 (Z.min u64_max z).
Definition u16_sat (z : Z) : Z := Z.max 0 (Z.min u16_max z).
Definition u32_sat (z : Z) : Z := Z.max 0 (Z.min u32_max z).

(** A 32-byte array, [[u8; 32]]. *)
Definition is32 (h : bytes) : Prop := length h = 32%nat.

(** ** Automation *)

Create HintDb signet.
Create Rewrite HintDb signet_len.

(** Split every equation between results and options by its head constructor. *)
Ltac inv_ok :=
  repeat match goal with
  | H : Ok _ = Ok _ |- _ => injection H as H; try subst
  | H : Err _ = Err _ |- _ => injection H as H; try subst
  | H : Some _ = Some _ |- _ => injection H as H; try subst
  | H : Ok _ = Err _ |- _ => discriminate H
  | H : Err _ = Ok _ |- _ => discriminate H
  | H : Some _ = None |- _ => discriminate H
  | H : None = Some _ |- _ => discriminate H
  end.

(** Case on the outermost [match] or [if] of a hypothesis, discarding the
    branches its equation refutes. *)
Ltac step_in H :=
  match type of H with
  | context [match ?x with _ => _ end] => destruct x eqn:?; inv_ok; try discriminate
  end.
Ltac steps_in H := repeat (step_in H).

(** [b = true] hypotheses as propositions. *)
Ltac bool_prop :=
  repeat match goal with
  | H : (_ && _)%bool = true |- _ => apply andb_true_iff in H as [? ?]
  | H : (_ || _)%bool = false |- _ => apply orb_false_iff in H as [? ?]
  | H : negb _ = true |- _ => apply negb_true_iff in H
  | H : negb _ = false |- _ => apply negb_false_iff in H
  | H : bool_decide _ = true |- _ => apply bool_decide_eq_true in H
  | H : bool_decide _ = false |- _ => apply bool_decide_eq_false in H
  | H : (_ =? _)%Z = true |- _ => apply Z.eqb_eq in H
  | H : (_ =? _)%Z = false |- _ => apply Z.eqb_neq in H
  | H : (_ <? _)%Z = true |- _ => apply Z.ltb_lt in H
  | H : (_ <? _)%Z = false |- _ => apply Z.ltb_ge in H
  | H : (_ <=? _)%Z = true |- _ => apply Z.leb_le in H
  | H : (_ <=? _)%Z = false |- _ => apply Z.leb_gt in H
  end.

(** Inclusions between concatenations of lists, from the inclusions assumed. *)
Ltac list_sub :=
  let z := fresh "z" in
  intros z;
  repeat match goal with H : (_ : list _) ⊆ _ |- _ => specialize (H z) end;
  rewrite ?elem_of_app, ?elem_of_cons, ?elem_of_app, ?elem_of_cons, ?elem_of_app,
    ?elem_of_nil in *; tauto.

(** ** Lemmas on bytes and integers *)

Lemma byte_to_Z_range b : 0 <= byte_to_Z b < 256.
Proof. unfold byte_to_Z. pose proof (Byte.to_N_bounded b). lia. Qed.

Lemma byte_to_of_Z z : byte_to_Z (byte_of_Z z) = z mod 256.
Proof.
  unfold byte_to_Z, byte_of_Z.
  pose proof (Z.mod_pos_bound z 256 ltac:(lia)) as Hr.
  destruct (Byte.of_N (Z.to_N (z mod 256))) as [b|] eqn:Hb; simpl.
  - apply Byte.to_of_N in Hb. rewrite Hb. lia.
  - apply Byte.of_N_None_iff in Hb. lia.
Qed.

#[export] Instance byte_to_Z_inj : Inj (=) (=) byte_to_Z.
Proof.
  intros a b H. unfold byte_to_Z in H. apply N2Z.inj in H.
  pose proof (Byte.of_to_N a) as Ha. pose proof (Byte.of_to_N b) as Hb.
  rewrite H in Ha. congruence.
Qed.

Lemma byte_of_to_Z b : byte_of_Z (byte_to_Z b) = b.
Proof.
  apply (inj byte_to_Z). rewrite byte_to_of_Z.
  apply Z.mod_small, byte_to_Z_range.
Qed.

Lemma length_be_bytes n z : length (be_bytes n z) = n.
Proof.
  unfold be_bytes. revert z. induction n as [|n IH]; intros z; simpl; [done|].
  rewrite length_app, IH. simpl. lia.
Qed.
#[export] Hint Rewrite @length_app @length_cons @length_nil length_be_bytes : signet_len.

Lemma be_value_snoc l b : be_value (l ++ [b]) = be_value l * 256 + byte_to_Z b.
Proof. unfold be_value. by rewrite foldl_app. Qed.

Lemma be_value_be_bytes n z : be_value (be_bytes n z) = z mod 256 ^ Z.of_nat n.
Proof.
  unfold be_bytes. revert z. induction n as [|n IH]; intros z.
  - simpl. by rewrite Z.mod_1_r.
  - simpl be_bytes_rec. rewrite be_value_snoc, IH, byte_to_of_Z.
    rewrite Nat2Z.inj_succ, Z.pow_succ_r by lia.
    rewrite Z.rem_mul_r; lia.
Qed.

Lemma be_bytes_be_value l : be_bytes (length l) (be_value l) = l.
Proof.
  unfold be_bytes. induction l as [|b l IH] using rev_ind; [done|].
  rewrite length_app, Nat.add_comm. simpl. rewrite be_value_snoc.
  pose proof (byte_to_Z_range b) as Hb. f_equal.
  - rewrite Z.div_add_l by lia. rewrite Z.div_small by lia. by rewrite Z.add_0_r.
  - f_equal. apply (inj byte_to_Z). rewrite byte_to_of_Z.
    rewrite Z.add_comm, Z.mod_add by lia. by apply Z.mod_small.
Qed.

Lemma be_value_range l : 0 <= be_value l < 256 ^ Z.of_nat (length l).
Proof.
  rewrite <- (be_bytes_be_value l), be_value_be_bytes, length_be_bytes.
  apply Z.mod_pos_bound. lia.
Qed.

(** A fixed-width big-endian integer determines its value. *)
Lemma be_bytes_inj n x y :
  0 <= x < 256 ^ Z.of_nat n -> 0 <= y < 256 ^ Z.of_nat n ->
  be_bytes n x = be_bytes n y -> x = y.
Proof.
  intros Hx Hy H. apply (f_equal be_value) in H.
  rewrite !be_value_be_bytes, !Z.mod_small in H by lia. done.
Qed.

(** The most significant byte comes first. *)
Lemma be_bytes_S n z : be_bytes (S n) z = byte_of_Z (z / 256 ^ Z.of_nat n) :: be_bytes n z.
Proof.
  unfold be_bytes. revert z. induction n as [|n IH]; intros z; [simpl; by rewrite Z.div_1_r|].
  change (be_bytes_rec (S (S n)) z) with (be_bytes_rec (S n) (z / 256) ++ [byte_of_Z z]).
  rewrite IH. rewrite Nat2Z.inj_succ, Z.pow_succ_r, Z.div_div by lia. done.
Qed.

(** Only the value modulo the width matters. *)
Lemma be_bytes_mod_eq n x y :
  x mod 256 ^ Z.of_nat n = y mod 256 ^ Z.of_nat n -> be_bytes n x = be_bytes n y.
Proof.
  intros E. rewrite <- (be_bytes_be_value (be_bytes n x)), <- (be_bytes_be_value (be_bytes n y)).
  by rewrite !length_be_bytes, !be_value_be_bytes, E.
Qed.

(** ** UTF-8 *)

Definition byte_in (b : byte) (lo hi : Z) : bool := (lo <=? byte_to_Z b) && (byte_to_Z b <=? hi).

(** [str::from_utf8]: the well-formed byte sequences of the Unicode standard. *)
Fixpoint utf8_valid (l : bytes) : bool :=
  match l with
  | [] => true
  | a :: l1 =>
      if byte_in a 0 127 then utf8_valid l1
      else
        match l1 with
        | [] => false
        | b :: l2 =>
            if byte_in a 194 223 then byte_in b 128 191 && utf8_valid l2
            else
              match l2 with
              | [] => false
              | c :: l3 =>
                  if byte_in a 224 239 then
                    (if byte_to_Z a =? 224 then byte_in b 160 191
                     else if byte_to_Z a =? 237 then byte_in b 128 159
                     else byte_in b 128 191) && byte_in c 128 191 && utf8_valid l3
                  else
                    match l3 with
                    | [] => false
                    | d :: l4 =>
                        byte_in a 240 244 &&
                        (if byte_to_Z a =? 240 then byte_in b 144 191
                         else if byte_to_Z a =? 244 then byte_in b 128 143
                         else byte_in b 128 191)
                        && byte_in c 128 191 && byte_in d 128 191 && utf8_valid l4
                    end
              end
        end
  end.

(** [String::from_utf8]. *)
Definition from_utf8 (l : bytes) : option string :=
  if utf8_valid l then Some (String.string_of_list_byte l) else None.

Lemma from_utf8_str_bytes s : utf8_valid (str_bytes s) = true -> from_utf8 (str_bytes s) = Some s.
Proof.
  unfold from_utf8. intros ->. unfold str_bytes. by rewrite String.string_of_list_byte_of_string.
Qed.

#[export] Instance str_bytes_inj : Inj (=) (=) str_bytes.
Proof.
  intros a b H. unfold str_bytes in H.
  rewrite <- (String.string_of_list_byte_of_string a), H.
  apply String.string_of_list_byte_of_string.
Qed.

(** [str::trim]: the UTF-8 encodings of the characters with the Unicode
    [White_Space] property are removed from both ends. *)
Definition white_space : list bytes :=
  [[Byte.x09]; [Byte.x0a]; [Byte.x0b]; [Byte.x0c]; [Byte.x0d]; [Byte.x20];
   [Byte.xc2; Byte.x85]; [Byte.xc2; Byte.xa0]; [Byte.xe1; Byte.x9a; Byte.x80];
   [Byte.xe2; Byte.x80; Byte.x80]; [Byte.xe2; Byte.x80; Byte.x81]; [Byte.xe2; Byte.x80; Byte.x82];
   [Byte.xe2; Byte.x80; Byte.x83]; [Byte.xe2; Byte.x80; Byte.x84]; [Byte.xe2; Byte.x80; Byte.x85];
   [Byte.xe2; Byte.x80; Byte.x86]; [Byte.xe2; Byte.x80; Byte.x87]; [Byte.xe2; Byte.x80; Byte.x88];
   [Byte.xe2; Byte.x80; Byte.x89]; [Byte.xe2; Byte.x80; Byte.x8a]; [Byte.xe2; Byte.x80; Byte.xa8];
   [Byte.xe2; Byte.x80; Byte.xa9]; [Byte.xe2; Byte.x80; Byte.xaf]; [Byte.xe2; Byte.x81; Byte.x9f];
   [Byte.xe3; Byte.x80; Byte.x80]].

Fixpoint strip_any (pats : list bytes) (l : bytes) : option bytes :=
  match pats with
  | [] => None
  | p :: pats =>
      if decide (take (length p) l = p) then Some (drop (length p) l) else strip_any pats l
  end.

Fixpoint trim_start (fuel : nat) (pats : list bytes) (l : bytes) : bytes :=
  match fuel with
  | O => l
  | S fuel =>
      match strip_any pats l with
      | Some l => trim_start fuel pats l
      | None => l
      end
  end.

Definition trim_bytes (l : bytes) : bytes :=
  let l := trim_start (length l) white_space l in
  rev (trim_start (length l) (map (@rev byte) white_space) (rev l)).

Definition trim (s : string) : string := String.string_of_list_byte (trim_bytes (str_bytes s)).

(** A printable ASCII byte begins and ends no white-space character. *)
Lemma strip_any_ascii pats b l :
  Forall (fun p => exists c p', p = c :: p' /\ c <> b) pats -> strip_any pats (b :: l) = None.
Proof.
  induction 1 as [|p pats (c & p' & -> & Hc) _ IH]; [done|]. simpl.
  rewrite decide_False; [done|]. by intros [= ->].
Qed.

Lemma trim_id s b l m c :
  str_bytes s = b :: l -> str_bytes s = m ++ [c] ->
  byte_in b 33 126 = true -> byte_in c 33 126 = true -> trim s = s.
Proof.
  intros Hb Hc Ib Ic.
  assert (E : trim_bytes (str_bytes s) = str_bytes s).
  { unfold trim_bytes. assert (Es : trim_start (length (str_bytes s)) white_space (str_bytes s) = str_bytes s).
    { rewrite Hb. cbn [trim_start length]. rewrite strip_any_ascii; [done|].
      repeat constructor; eexists _, _; (split; [reflexivity|intros <-; discriminate Ib]). }
    rewrite Es. rewrite Hc at 1 2. rewrite rev_unit, length_app, Nat.add_comm.
    cbn [trim_start length Nat.add]. rewrite strip_any_ascii.
    - change (c :: rev m) with (rev (m ++ [c])) || rewrite <- rev_unit.
      by rewrite rev_involutive.
    - repeat constructor; eexists _, _; (split; [reflexivity|intros <-; discriminate Ic]). }
  unfold trim. rewrite E. apply String.string_of_list_byte_of_string.
Qed.

(** ** Unambiguous framing *)

(** A length-prefixed field is self-delimiting, up to the width of the prefix. *)
Lemma lp_inj a b r s :
  is_u32 (Z.of_nat (length a)) -> is_u32 (Z.of_nat (length b)) ->
  lp a ++ r = lp b ++ s -> a = b /\ r = s.
Proof.
  unfold lp, is_u32, u32_max. intros Ha Hb H. rewrite <- !app_assoc in H.
  apply app_inj_1 in H as [Hl H]; [|by rewrite !length_be_bytes].
  apply be_bytes_inj in Hl; [|simpl; lia..].
  apply app_inj_1 in H; [done|lia].
Qed.

(** Peel equal-length prefixes off an equation between concatenations. *)
Ltac peel H :=
  apply app_inj_1 in H;
  [destruct H as [?Hpeel H]
  | repeat (rewrite ?length_be_bytes, ?length_app; simpl); try done; try congruence; try lia].

Lemma length_lp a : length (lp a) = (4 + length a)%nat.
Proof. unfold lp. by rewrite length_app, length_be_bytes. Qed.
#[export] Hint Rewrite length_lp : signet_len.

(** ** Lists *)

(** Injectivity of [cons], without evaluating the tails. *)
Lemma cons_split {A} (a b : A) l k : a :: l = b :: k -> a = b /\ l = k.
Proof. by intros [= -> ->]. Qed.

Lemma take_app_3 {A} (a b : list A) n : length a = n -> take n (a ++ b) = a.
Proof. intros <-. apply take_app_length. Qed.

Lemma drop_app_3 {A} (a b : list A) n : length a = n -> drop n (a ++ b) = b.
Proof. intros <-. apply drop_app_length. Qed.

#[global] Opaque be_bytes.
Arguments be_value : simpl never.
#[global] Opaque lp.
