(* ===== verification/Prims.v ===== *)
(** * The primitives the repository calls and does not implement

    [signet-crypto] composes off-the-shelf primitives (RustCrypto's [sha2],
    [aes-gcm], [hkdf], [aes-kw], [p256]; the [base64] and [hex] codecs).  None
    of that code is in the repository, so each one is an interface: a class
    with the operations the code calls and the documented laws the code relies
    on.  Every client is stated against the interface, and the module [Toy] at
    the end gives one concrete instance of each, so that the laws are known to
    be satisfiable and every theorem can be evaluated. *)

From S2P Require Import Prelude.

(** SHA-256 ([sha2::Sha256::digest]): a function to 32-byte strings.  No
    collision resistance is assumed anywhere; a theorem that needs it names the
    colliding inputs instead ([collision_in]). *)
Class Sha256 := {
  sha256_digest : bytes -> bytes;
  sha256_digest_length x : length (sha256_digest x) = 32%nat;
}.

(** AES-256-GCM ([aes_gcm::Aes256Gcm]).  [gcm_encrypt] is [None] when the crate
    refuses the plaintext length; [gcm_decrypt] recomputes the tag, so it opens
    exactly the output of an encryption under the same key, nonce and AAD. *)
Class AesGcm := {
  gcm_encrypt : bytes -> bytes -> bytes -> bytes -> option bytes;
  gcm_decrypt : bytes -> bytes -> bytes -> bytes -> option bytes;
  gcm_encrypt_length k n p a c :
    gcm_encrypt k n p a = Some c -> length c = (length p + 16)%nat;
  gcm_decrypt_iff k n c a p :
    gcm_decrypt k n c a = Some p <-> gcm_encrypt k n p a = Some c;
}.

(** HKDF-SHA-256 ([hkdf::Hkdf]): [expand] fills the buffer it is given, and
    refuses only a length over 255 blocks of 32 bytes. *)
Class Hkdf := {
  hkdf_expand : bytes -> bytes -> bytes -> nat -> option bytes;
  hkdf_expand_length ikm salt info n okm :
    hkdf_expand ikm salt info n = Some okm -> length okm = n;
  hkdf_expand_total ikm salt info n :
    (n <= 255 * 32)%nat -> is_Some (hkdf_expand ikm salt info n);
}.

(** AES-256 key wrap ([aes_kw::KekAes256], RFC 3394).  Unwrapping checks the
    integrity block, so it inverts exactly the wraps under the same KEK. *)
Class AesKw := {
  kw_wrap : bytes -> bytes -> option bytes;
  kw_unwrap : bytes -> bytes -> option bytes;
  kw_wrap_length kek d w : kw_wrap kek d = Some w -> length w = (length d + 8)%nat;
  kw_unwrap_iff kek w d :
    (24 <= length w)%nat -> kw_unwrap kek w = Some d <-> kw_wrap kek d = Some w;
  kw_wrap_total kek d :
    (16 <= length d)%nat -> (length d mod 8 = 0)%nat -> is_Some (kw_wrap kek d);
}.

(** base64url without padding ([base64::URL_SAFE_NO_PAD]). *)
Class Base64Url := {
  b64_encode : bytes -> string;
  b64_decode : string -> option bytes;
  b64_decode_encode x : b64_decode (b64_encode x) = Some x;
}.

(** A lowercase hexadecimal digit. *)
Definition is_lower_hex (b : byte) : bool := byte_in b 48 57 || byte_in b 97 102.

(** Lowercase hexadecimal ([hex::encode] / [hex::decode]): two digits a byte. *)
Class Hex := {
  hex_encode : bytes -> string;
  hex_decode : string -> option bytes;
  hex_decode_encode x : hex_decode (hex_encode x) = Some x;
  hex_encode_digits x : forallb is_lower_hex (str_bytes (hex_encode x)) = true;
  hex_encode_length x : length (str_bytes (hex_encode x)) = (2 * length x)%nat;
}.

(** NIST P-256 points and key agreement ([p256]).  [p256_decode] is
    [PublicKey::from_sec1_bytes]; [p256_encode] the uncompressed X9.63 form
    [0x04 ‖ X ‖ Y]. *)
Class P256 := {
  p256_point : Type;
  p256_decode : bytes -> option p256_point;
  p256_x : p256_point -> bytes;
  p256_y : p256_point -> bytes;
  p256_spki_der : p256_point -> bytes;
  p256_scalar : bytes -> option bytes;
  p256_public : bytes -> p256_point;
  p256_dh : bytes -> p256_point -> bytes;
  p256_x_length P : length (p256_x P) = 32%nat;
  p256_y_length P : length (p256_y P) = 32%nat;
  p256_dh_length d P : length (p256_dh d P) = 32%nat;
  p256_dh_comm d e :
    is_Some (p256_scalar d) -> is_Some (p256_scalar e) ->
    p256_dh d (p256_public e) = p256_dh e (p256_public d);
  p256_scalar_id d d' : p256_scalar d = Some d' -> d' = d;
  p256_decode_uncompressed P :
    p256_decode (Byte.x04 :: p256_x P ++ p256_y P) = Some P;
  p256_decode_coords x y P :
    length x = 32%nat -> length y = 32%nat ->
    p256_decode (Byte.x04 :: x ++ y) = Some P -> p256_x P = x /\ p256_y P = y;
}.

(** ECDSA over P-256 with SHA-256 ([p256::ecdsa]): the signature type, its two
    encodings, signing (deterministic, RFC 6979) and verification. *)
Class Ecdsa256 `{P256} := {
  ecdsa_signature : Type;
  signature_from_slice : bytes -> option ecdsa_signature;
  signature_from_der : bytes -> option ecdsa_signature;
  signature_to_bytes : ecdsa_signature -> bytes;
  signature_to_der : ecdsa_signature -> bytes;
  ecdsa_sign : bytes -> bytes -> ecdsa_signature;
  ecdsa_verify : p256_point -> bytes -> ecdsa_signature -> bool;
  signature_to_bytes_length s : length (signature_to_bytes s) = 64%nat;
  signature_from_to_bytes s : signature_from_slice (signature_to_bytes s) = Some s;
  signature_from_to_der s : signature_from_der (signature_to_der s) = Some s;
  signature_to_der_length s : (length (signature_to_der s) <= 72)%nat;
  ecdsa_verify_sign d m :
    is_Some (p256_scalar d) -> ecdsa_verify (p256_public d) m (ecdsa_sign d m) = true;
}.

(** Padded standard base64 ([base64::STANDARD]). *)
Class Base64Std := {
  b64std_encode : bytes -> string;
  b64std_decode : string -> option bytes;
  b64std_decode_encode x : b64std_decode (b64std_encode x) = Some x;
}.

(** The post-quantum crates of the software keystore ([ml_dsa], [ml_kem]):
    ML-DSA-87 from a 32-byte seed with a hedged signature (the last argument is
    the randomness drawn), ML-KEM-1024 from the seeds [d] and [z]. *)
Class PqSoftware := {
  mldsa87_vk : bytes -> bytes;
  mldsa87_sign_randomized : bytes -> bytes -> bytes -> bytes -> option bytes;
  mlkem1024_ek : bytes -> bytes -> bytes;
  mlkem1024_decapsulate : bytes -> bytes -> bytes -> option bytes;
  mldsa87_sign_length seed m ctx r s :
    mldsa87_sign_randomized seed m ctx r = Some s -> length s = Z.to_nat 4627;
  mlkem1024_decapsulate_length d z ct s :
    mlkem1024_decapsulate d z ct = Some s -> length s = 32%nat;
}.

(** The encoding [to_encoded_point(false)]. *)
Definition p256_x963 `{P256} (P : p256_point) : bytes := Byte.x04 :: p256_x P ++ p256_y P.

Lemma p256_x963_length `{P256} P : length (p256_x963 P) = 65%nat.
Proof. unfold p256_x963. simpl. by rewrite length_app, p256_x_length, p256_y_length. Qed.

Lemma b64_encode_inj `{Base64Url} x y : b64_encode x = b64_encode y -> x = y.
Proof. intros E. apply (f_equal b64_decode) in E. rewrite !b64_decode_encode in E. congruence. Qed.

Lemma hex_encode_inj `{Hex} x y : hex_encode x = hex_encode y -> x = y.
Proof. intros E. apply (f_equal hex_decode) in E. rewrite !hex_decode_encode in E. congruence. Qed.

(** ** Hash functions, and collisions among named inputs *)

(** [hash::sha256] (crypto/src/hash.rs). *)
Definition sha256 `{Sha256} (input : bytes) : bytes := sha256_digest input.

Lemma sha256_length `{Sha256} x : is32 (sha256 x).
Proof. apply sha256_digest_length. Qed.
#[export] Hint Resolve sha256_length : signet.

(** Two different members of [Q] with the same digest.  [Q] is always the list
    of inputs a computation of the code hashes, so the statement is not met by
    the collisions every compressing function has. *)
Definition collision_in `{Sha256} (Q : list bytes) : Prop :=
  exists a b, a ∈ Q /\ b ∈ Q /\ a <> b /\ sha256 a = sha256 b.

Lemma collision_in_mono `{Sha256} Q R : collision_in Q -> Q ⊆ R -> collision_in R.
Proof. intros (a & b & Ha & Hb & Hne & He) HQR. exists a, b. by repeat split; try apply HQR. Qed.

(** Equal digests of two members: equal inputs, or a collision. *)
Lemma sha256_eq_or_collision `{Sha256} Q a b :
  a ∈ Q -> b ∈ Q -> sha256 a = sha256 b -> a = b \/ collision_in Q.
Proof.
  intros Ha Hb He. destruct (decide (a = b)) as [|Hne]; [by left|].
  right. by exists a, b.
Qed.

(** ** A concrete instance of every interface *)
Module Toy.

Definition zeros (n : nat) : bytes := replicate n Byte.x00.

(** [fit n l]: [l] cut or zero-padded to [n] bytes. *)
Definition fit (n : nat) (l : bytes) : bytes := take n (l ++ zeros n).

Lemma length_fit n l : length (fit n l) = n.
Proof.
  unfold fit, zeros. rewrite length_take, length_app, length_replicate. lia.
Qed.

(** A digest of the length asked for: the first bytes of the input.  Cheap, so
    that the witnesses evaluate in the kernel. *)
#[export] Instance sha256_toy : Sha256 := {|
  sha256_digest := fit 32;
  sha256_digest_length x := length_fit 32 x;
|}.

Definition gcm_tag (k n p a : bytes) : bytes := fit 16 (rev (k ++ n) ++ a).

Definition gcm_enc (k n p a : bytes) : option bytes := Some (p ++ gcm_tag k n p a).

Definition gcm_dec (k n c a : bytes) : option bytes :=
  let p := take (length c - 16) c in
  if decide (c = p ++ gcm_tag k n p a) then Some p else None.

Lemma gcm_enc_length k n p a c :
  gcm_enc k n p a = Some c -> length c = (length p + 16)%nat.
Proof.
  unfold gcm_enc. intros Hc. apply (inj Some) in Hc as <-.
  rewrite length_app. unfold gcm_tag. by rewrite length_fit.
Qed.

Lemma gcm_dec_iff k n c a p : gcm_dec k n c a = Some p <-> gcm_enc k n p a = Some c.
Proof.
  unfold gcm_dec, gcm_enc. split.
  - case_decide as Hc; [|done]. intros [= <-]. by rewrite <- Hc.
  - intros [= <-].
    assert (Hl : take (length (p ++ gcm_tag k n p a) - 16) (p ++ gcm_tag k n p a) = p).
    { apply take_app_3. rewrite length_app. unfold gcm_tag at 1. rewrite length_fit. lia. }
    rewrite Hl. by rewrite decide_True.
Qed.

#[export] Instance gcm_toy : AesGcm := {|
  gcm_encrypt := gcm_enc;
  gcm_decrypt := gcm_dec;
  gcm_encrypt_length := gcm_enc_length;
  gcm_decrypt_iff := gcm_dec_iff;
|}.

Definition hkdf (ikm salt info : bytes) (n : nat) : option bytes :=
  if decide (n <= 255 * 32)%nat then Some (fit n (rev info ++ ikm ++ salt)) else None.

#[export, refine] Instance hkdf_toy : Hkdf := {| hkdf_expand := hkdf |}.
Proof.
  - unfold hkdf. intros ikm salt info n okm. case_decide; [|done].
    intros Hk. apply (inj Some) in Hk as <-. apply length_fit.
  - unfold hkdf. intros ikm salt info n Hn. rewrite decide_True by done. eauto.
Defined.

Definition kw_tag (kek d : bytes) : bytes := fit 8 (rev kek ++ d).

Definition kw_w (kek d : bytes) : option bytes :=
  if decide (16 <= length d)%nat then Some (kw_tag kek d ++ d) else None.

Definition kw_u (kek w : bytes) : option bytes :=
  let d := drop 8 w in if decide (w = kw_tag kek d ++ d) then Some d else None.

#[export, refine] Instance aeskw_toy : AesKw := {| kw_wrap := kw_w; kw_unwrap := kw_u |}.
Proof.
  - unfold kw_w. intros kek d w. case_decide; [|done]. intros Hw. apply (inj Some) in Hw as <-.
    rewrite length_app. unfold kw_tag. rewrite length_fit. lia.
  - unfold kw_w, kw_u. intros kek w d Hw. split.
    + case_decide as Hd; [|done]. intros [= <-]. rewrite decide_True.
      * by rewrite <- Hd.
      * rewrite length_drop. lia.
    + case_decide; [|done]. intros Hd. apply (inj Some) in Hd as <-.
      rewrite drop_app_3 by apply length_fit. by rewrite decide_True.
  - unfold kw_w. intros kek d Hd _. rewrite decide_True by done. eauto.
Defined.

Definition str_of (l : bytes) : string := String.string_of_list_byte l.
Definition of_str (s : string) : option bytes := Some (str_bytes s).

Lemma of_str_str_of l : of_str (str_of l) = Some l.
Proof. unfold of_str, str_of, str_bytes. by rewrite String.list_byte_of_string_of_list_byte. Qed.

Definition digit (d : Z) : byte := byte_of_Z (if d <? 10 then 48 + d else 87 + d).
Definition undigit (b : byte) : option Z :=
  if byte_in b 48 57 then Some (byte_to_Z b - 48)
  else if byte_in b 97 102 then Some (byte_to_Z b - 87) else None.

Fixpoint digits (l : bytes) : bytes :=
  match l with
  | [] => []
  | b :: l => digit (byte_to_Z b / 16) :: digit (byte_to_Z b mod 16) :: digits l
  end.

Fixpoint undigits (l : bytes) : option bytes :=
  match l with
  | [] => Some []
  | a :: b :: l =>
      match undigit a, undigit b, undigits l with
      | Some x, Some y, Some l => Some (byte_of_Z (16 * x + y) :: l)
      | _, _, _ => None
      end
  | _ => None
  end.

Lemma str_bytes_str_of l : str_bytes (str_of l) = l.
Proof. apply String.list_byte_of_string_of_list_byte. Qed.

#[export, refine] Instance hex_toy : Hex := {|
  hex_encode l := str_of (digits l);
  hex_decode s := undigits (str_bytes s);
|}.
Proof.
  - intros l. rewrite str_bytes_str_of. induction l as [|b l IH]; [done|]. simpl. rewrite IH.
    clear IH. destruct b; reflexivity.
  - intros l. rewrite str_bytes_str_of. induction l as [|b l IH]; [done|]. simpl. rewrite IH.
    clear IH. destruct b; reflexivity.
  - intros l. rewrite str_bytes_str_of. induction l as [|b l IH]; [done|]. simpl. rewrite IH. lia.
Defined.

#[export] Instance b64_toy : Base64Url := {|
  b64_encode := str_of;
  b64_decode := of_str;
  b64_decode_encode := of_str_str_of;
|}.

(** Points are pairs of 32-byte coordinates; agreement is an exclusive or of a
    scalar with a coordinate, so that the two sides of a key agreement meet. *)
Definition point : Type := { xy : bytes * bytes | bool_decide (length xy.1 = 32%nat /\ length xy.2 = 32%nat) }.

Definition mk_point (x y : bytes) : option point :=
  match decide (bool_decide (length x = 32%nat /\ length y = 32%nat)) with
  | left H => Some (exist _ (x, y) H)
  | right _ => None
  end.

Definition point_x (P : point) : bytes := (`P).1.
Definition point_y (P : point) : bytes := (`P).2.

Definition decode (l : bytes) : option point :=
  match l with
  | Byte.x04 :: l => if decide (length l = 64%nat) then mk_point (take 32 l) (drop 32 l) else None
  | _ => None
  end.

Lemma mk_point_Some P : mk_point (point_x P) (point_y P) = Some P.
Proof.
  destruct P as [[x y] H]. unfold mk_point, point_x, point_y; simpl.
  destruct (decide _) as [H'|H']; [|by contradict H'].
  f_equal. f_equal. apply proof_irrel.
Qed.

Definition public (d : bytes) : point :=
  exist _ (fit 32 d, fit 32 d) (bool_decide_pack _ (conj (length_fit 32 d) (length_fit 32 d))).

Definition byte_xor (a b : byte) : byte := byte_of_Z (Z.lxor (byte_to_Z a) (byte_to_Z b)).

Definition agree (d : bytes) (P : point) : bytes := fit 32 (zip_with byte_xor (fit 32 d) (point_x P)).

Lemma zip_byte_xor_comm l k : zip_with byte_xor l k = zip_with byte_xor k l.
Proof.
  revert k. induction l as [|a l IH]; intros [|b k]; [done..|]. simpl.
  unfold byte_xor at 1 3. by rewrite Z.lxor_comm, IH.
Qed.

#[export, refine] Instance p256_toy : P256 := {|
  p256_point := point;
  p256_decode := decode;
  p256_x := point_x;
  p256_y := point_y;
  p256_spki_der P := Byte.x30 :: point_x P ++ point_y P;
  p256_scalar d := if decide (length d = 32%nat) then Some d else None;
  p256_public := public;
  p256_dh := agree;
|}.
Proof.
  - intros P. exact (proj1 (bool_decide_unpack _ (proj2_sig P))).
  - intros P. exact (proj2 (bool_decide_unpack _ (proj2_sig P))).
  - intros d P. apply length_fit.
  - intros d e _ _. unfold agree, public, point_x; simpl. by rewrite zip_byte_xor_comm.
  - intros d d'. case_decide; [|done]. by intros [= <-].
  - intros P. unfold decode.
    destruct (bool_decide_unpack _ (proj2_sig P)) as [Hx Hy].
    fold (point_x P) in Hx. fold (point_y P) in Hy.
    rewrite decide_True by (rewrite length_app; lia).
    rewrite take_app_3, drop_app_3 by done. apply mk_point_Some.
  - intros x y P Hx Hy. unfold decode.
    rewrite decide_True by (rewrite length_app; lia).
    rewrite take_app_3, drop_app_3 by done.
    unfold mk_point. destruct (decide _); [|done]. by intros [= <-].
Defined.

(** A signature is the public coordinate followed by the message, cut to 64
    bytes; its DER form has one tag byte more. *)
Definition signature : Type := { l : bytes | bool_decide (length l = 64%nat) }.

Definition mk_signature (l : bytes) : option signature :=
  match decide (bool_decide (length l = 64%nat)) with
  | left H => Some (exist _ l H)
  | right _ => None
  end.

Definition signature_of (x m : bytes) : signature :=
  exist _ (fit 64 (x ++ rev m)) (bool_decide_pack _ (length_fit 64 (x ++ rev m))).

Lemma mk_signature_Some (s : signature) : mk_signature (`s) = Some s.
Proof.
  destruct s as [l H]. unfold mk_signature; simpl.
  destruct (decide _) as [H'|H']; [|by contradict H'].
  f_equal. f_equal. apply proof_irrel.
Qed.

#[export, refine] Instance es256_toy : Ecdsa256 := {|
  ecdsa_signature := signature;
  signature_from_slice := mk_signature;
  signature_from_der l :=
    match l with Byte.x30 :: l => mk_signature l | _ => None end;
  signature_to_bytes s := `s;
  signature_to_der s := Byte.x30 :: `s;
  ecdsa_sign d m := signature_of (fit 32 d) m;
  ecdsa_verify P m s := bool_decide (`s = proj1_sig (signature_of (point_x P) m));
|}.
Proof.
  - intros s. exact (bool_decide_unpack _ (proj2_sig s)).
  - apply mk_signature_Some.
  - apply mk_signature_Some.
  - intros s. simpl. pose proof (bool_decide_unpack _ (proj2_sig s)) as Hl. simpl in Hl. lia.
  - intros d m _. by apply bool_decide_eq_true.
Defined.

#[export] Instance b64std_toy : Base64Std := {|
  b64std_encode := str_of;
  b64std_decode := of_str;
  b64std_decode_encode := of_str_str_of;
|}.

#[export, refine] Instance pq_toy : PqSoftware := {|
  mldsa87_vk seed := rev seed;
  mldsa87_sign_randomized seed m ctx r := Some (fit (Z.to_nat 4627) (seed ++ m));
  mlkem1024_ek d z := d ++ z;
  mlkem1024_decapsulate d z ct := Some (fit 32 ct);
|}.
Proof.
  - intros seed m ctx r s [= <-]. apply length_fit.
  - intros d z ct s [= <-]. apply length_fit.
Defined.

End Toy.
