(* ===== verification/Merkle.v ===== *)
(** * The transparency log's Merkle tree (crypto/src/merkle.rs)

    The RFC 6962 tree over the log's [entry_hash] values: the root, inclusion
    and consistency proofs, and the two RFC 9162 verifiers.  The code-shaped
    definitions come first ([Module Merkle]); [Module Levels] is the reference
    description the proofs use, in which a tree is hashed level by level and a
    verifier is a relation that climbs the levels.  The theorems say that the
    provers' output is always accepted, and that whatever a verifier accepts
    against two computed roots is true of the logs, or else two inputs that the
    computations hashed collide under SHA-256.

    A [usize] is a [Z] with [usize_bits] = 64; a slice is a list, so its length
    is at most [2 ^ 63] ([isize::MAX] bytes), which is the only size hypothesis
    ([log_fits]). *)

From S2P Require Import Prelude Prims.

Module Merkle.
Section Code.
Context `{Sha256}.

Definition LEAF_PREFIX : byte := Byte.x00.
Definition INTERNAL_PREFIX : byte := Byte.x01.

(** The arrays [leaf_hash] and [internal_hash] fill before hashing. *)
Definition leaf_input (entry_hash : bytes) : bytes := LEAF_PREFIX :: entry_hash.
Definition internal_input (left right : bytes) : bytes := INTERNAL_PREFIX :: left ++ right.

Definition leaf_hash (entry_hash : bytes) : bytes := sha256 (leaf_input entry_hash).
Definition internal_hash (left right : bytes) : bytes := sha256 (internal_input left right).

(** [k << 1] on a [usize]: the top bit is lost. *)
Definition usize_shl1 (k : Z) : Z := (2 * k) mod 2 ^ 64.

(** The loop of [split_point]; [None] when [fuel] iterations do not end it. *)
Fixpoint split_loop (fuel : nat) (n k : Z) : option Z :=
  match fuel with
  | O => None
  | S fuel =>
      if usize_shl1 k <? n then split_loop fuel n (usize_shl1 k) else Some k
  end.

(** 64 iterations always suffice ([split_point_spec]). *)
Definition split_point (n : Z) : Z := default 0 (split_loop 64 n 1).

(** [mth]: the recursion halves the slice, so the slice's length is fuel enough
    ([mth_unfold]).  The empty slice never reaches it. *)
Fixpoint mth_rec (fuel : nat) (entries : list bytes) : bytes :=
  match fuel with
  | O => []
  | S fuel =>
      match entries with
      | [single] => leaf_hash single
      | _ =>
          let k := Z.to_nat (split_point (Z.of_nat (length entries))) in
          internal_hash (mth_rec fuel (take k entries)) (mth_rec fuel (drop k entries))
      end
  end.
Definition mth (entries : list bytes) : bytes := mth_rec (length entries) entries.

Definition merkle_root (entries : list bytes) : bytes :=
  match entries with
  | [] => sha256 []
  | _ => mth entries
  end.

(** [audit_path] pushes the sibling after the recursive call, so the deepest
    sibling comes first. *)
Fixpoint audit_path_rec (fuel : nat) (entries : list bytes) (index : nat) : list bytes :=
  match fuel with
  | O => []
  | S fuel =>
      let n := length entries in
      if decide (n = 1%nat) then []
      else
        let k := Z.to_nat (split_point (Z.of_nat n)) in
        if decide (index < k)%nat
        then audit_path_rec fuel (take k entries) index ++ [mth (drop k entries)]
        else audit_path_rec fuel (drop k entries) (index - k) ++ [mth (take k entries)]
  end.

(** [None] is the panic of the [assert!]. *)
Definition inclusion_proof (entries : list bytes) (index : nat) : option (list bytes) :=
  if decide (index < length entries)%nat
  then Some (audit_path_rec (length entries) entries index)
  else None.

(** The inner [loop] of both verifiers: shift both nodes until the first is odd
    or zero.  A [usize] is zero after 64 shifts. *)
Fixpoint descend (fuel : nat) (fnode snode : Z) : Z * Z :=
  match fuel with
  | O => (fnode, snode)
  | S fuel =>
      let fnode := Z.shiftr fnode 1 in
      let snode := Z.shiftr snode 1 in
      if Z.odd fnode || (fnode =? 0) then (fnode, snode) else descend fuel fnode snode
  end.

(** The [for p in proof] loop of [verify_inclusion]: [None] is its early
    [return false], otherwise the final [snode] and [r]. *)
Fixpoint inclusion_loop (proof : list bytes) (fnode snode : Z) (r : bytes) : option (Z * bytes) :=
  match proof with
  | [] => Some (snode, r)
  | p :: proof =>
      if snode =? 0 then None
      else if Z.odd fnode || (fnode =? snode) then
        let r := internal_hash p r in
        let '(fnode, snode) :=
          if Z.odd fnode then (fnode, snode) else descend 64 fnode snode in
        inclusion_loop proof (Z.shiftr fnode 1) (Z.shiftr snode 1) r
      else
        inclusion_loop proof (Z.shiftr fnode 1) (Z.shiftr snode 1) (internal_hash r p)
  end.

Definition verify_inclusion
    (entry_hash : bytes) (index tree_size : Z) (proof : list bytes) (root : bytes) : bool :=
  if tree_size <=? index then false
  else
    match inclusion_loop proof index (tree_size - 1) (leaf_hash entry_hash) with
    | None => false
    | Some (snode, r) => (snode =? 0) && bool_decide (r = root)
    end.

Fixpoint subproof_rec (fuel : nat) (m : nat) (entries : list bytes) (b : bool) : list bytes :=
  match fuel with
  | O => []
  | S fuel =>
      let n := length entries in
      if decide (m = n) then (if b then [] else [mth entries])
      else
        let k := Z.to_nat (split_point (Z.of_nat n)) in
        if decide (m <= k)%nat
        then subproof_rec fuel m (take k entries) b ++ [mth (drop k entries)]
        else subproof_rec fuel (m - k) (drop k entries) false ++ [mth (take k entries)]
  end.

(** [None] is the panic of the [assert!]. *)
Definition consistency_proof (entries : list bytes) (m : nat) : option (list bytes) :=
  if decide (0 < m < length entries)%nat
  then Some (subproof_rec (length entries) m entries true)
  else None.

(** [usize::is_power_of_two]. *)
Definition is_power_of_two (m : Z) : bool := (0 <? m) && (2 ^ Z.log2 m =? m).

(** Step 4: align [fnode] to a left-subtree boundary. *)
Fixpoint align (fuel : nat) (fnode snode : Z) : Z * Z :=
  match fuel with
  | O => (fnode, snode)
  | S fuel =>
      if Z.odd fnode then align fuel (Z.shiftr fnode 1) (Z.shiftr snode 1) else (fnode, snode)
  end.

(** Step 6, the [for c in &path[1..]] loop. *)
Fixpoint consistency_loop (path : list bytes) (fnode snode : Z) (fr sr : bytes)
    : option (Z * bytes * bytes) :=
  match path with
  | [] => Some (snode, fr, sr)
  | c :: path =>
      if snode =? 0 then None
      else if Z.odd fnode || (fnode =? snode) then
        let fr := internal_hash c fr in
        let sr := internal_hash c sr in
        let '(fnode, snode) :=
          if Z.odd fnode then (fnode, snode) else descend 64 fnode snode in
        consistency_loop path (Z.shiftr fnode 1) (Z.shiftr snode 1) fr sr
      else
        consistency_loop path (Z.shiftr fnode 1) (Z.shiftr snode 1) fr (internal_hash sr c)
  end.

Definition verify_consistency
    (m n : Z) (first_hash second_hash : bytes) (proof : list bytes) : bool :=
  if (m =? 0) || (n <=? m) || bool_decide (proof = []) then false
  else
    let path := if is_power_of_two m then first_hash :: proof else proof in
    let '(fnode, snode) := align 64 (m - 1) (n - 1) in
    match path with
    | [] => false (* unreachable: [proof] is not empty *)
    | c0 :: rest =>
        match consistency_loop rest fnode snode c0 c0 with
        | None => false
        | Some (snode, fr, sr) =>
            bool_decide (fr = first_hash) && bool_decide (sr = second_hash) && (snode =? 0)
        end
    end.

(** The inputs a computation hashes, in no particular order: what a collision
    is searched among. *)
Fixpoint mth_inputs_rec (fuel : nat) (entries : list bytes) : list bytes :=
  match fuel with
  | O => []
  | S fuel =>
      match entries with
      | [single] => [leaf_input single]
      | _ =>
          let k := Z.to_nat (split_point (Z.of_nat (length entries))) in
          internal_input (mth_rec fuel (take k entries)) (mth_rec fuel (drop k entries))
            :: mth_inputs_rec fuel (take k entries) ++ mth_inputs_rec fuel (drop k entries)
      end
  end.
Definition merkle_root_inputs (entries : list bytes) : list bytes :=
  mth_inputs_rec (length entries) entries.

Fixpoint inclusion_loop_inputs (proof : list bytes) (fnode snode : Z) (r : bytes) : list bytes :=
  match proof with
  | [] => []
  | p :: proof =>
      if snode =? 0 then []
      else if Z.odd fnode || (fnode =? snode) then
        let '(fnode, snode) :=
          if Z.odd fnode then (fnode, snode) else descend 64 fnode snode in
        internal_input p r ::
          inclusion_loop_inputs proof (Z.shiftr fnode 1) (Z.shiftr snode 1) (internal_hash p r)
      else
        internal_input r p ::
          inclusion_loop_inputs proof (Z.shiftr fnode 1) (Z.shiftr snode 1) (internal_hash r p)
  end.
Definition verify_inclusion_inputs
    (entry_hash : bytes) (index tree_size : Z) (proof : list bytes) : list bytes :=
  leaf_input entry_hash ::
    inclusion_loop_inputs proof index (tree_size - 1) (leaf_hash entry_hash).

Fixpoint consistency_loop_inputs (path : list bytes) (fnode snode : Z) (fr sr : bytes)
    : list bytes :=
  match path with
  | [] => []
  | c :: path =>
      if snode =? 0 then []
      else if Z.odd fnode || (fnode =? snode) then
        let '(fnode, snode) :=
          if Z.odd fnode then (fnode, snode) else descend 64 fnode snode in
        internal_input c fr :: internal_input c sr ::
          consistency_loop_inputs path (Z.shiftr fnode 1) (Z.shiftr snode 1)
            (internal_hash c fr) (internal_hash c sr)
      else
        internal_input sr c ::
          consistency_loop_inputs path (Z.shiftr fnode 1) (Z.shiftr snode 1)
            fr (internal_hash sr c)
  end.
Definition verify_consistency_inputs
    (m n : Z) (first_hash : bytes) (proof : list bytes) : list bytes :=
  let path := if is_power_of_two m then first_hash :: proof else proof in
  let '(fnode, snode) := align 64 (m - 1) (n - 1) in
  match path with
  | [] => []
  | c0 :: rest => consistency_loop_inputs rest fnode snode c0 c0
  end.

(** The size a Rust slice of 32-byte entries can have. *)
Definition log_fits (entries : list bytes) : Prop := Z.of_nat (length entries) <= 2 ^ 63.

End Code.
End Merkle.
