(* ===== verification/MerkleLevels.v ===== *)
(** * The Merkle tree level by level

    The reference description behind the proofs about [Merkle]: hashing a list
    of nodes in adjacent pairs ([pair_up]) until one is left gives the RFC 6962
    root ([root]); an audit path is one sibling per level ([audit]); the RFC
    9162 verifiers climb the levels ([climb], [cclimb]).  Working level by level
    is what the verifiers do, while the code that builds roots and proofs
    recurses from the top, splitting at a power of two; the [_app] lemmas of
    this file are the bridge between the two. *)

From S2P Require Import Prelude Prims Merkle.
Import Merkle.

Local Open Scope nat_scope.

Ltac Zify.zify_post_hook ::= Z.div_mod_to_equations.
#[local] Arguments Nat.div : simpl never.
#[local] Arguments Nat.modulo : simpl never.

Section Levels.
Context `{Sha256}.
Implicit Types (L : list bytes) (i s m n : nat).

(** One level up: adjacent nodes are hashed together, a lone last node is
    promoted unchanged. *)
Fixpoint pair_up L : list bytes :=
  match L with
  | a :: b :: L => internal_hash a b :: pair_up L
  | _ => L
  end.

Fixpoint root_rec (fuel : nat) L : bytes :=
  match fuel with
  | O => []
  | S fuel => match L with [x] => x | _ => root_rec fuel (pair_up L) end
  end.
Definition root L : bytes := root_rec (length L) L.

(** The sibling of node [i], if it has one. *)
Definition sibling L i : list bytes :=
  option_list (L !! (if decide (i mod 2 = 1) then i - 1 else i + 1)).

Fixpoint audit_rec (fuel : nat) L i : list bytes :=
  match fuel with
  | O => []
  | S fuel =>
      match L with [_] => [] | _ => sibling L i ++ audit_rec fuel (pair_up L) (i / 2) end
  end.
Definition audit L i : list bytes := audit_rec (length L) L i.

(** The inputs hashed on the way to the root. *)
Fixpoint pair_inputs L : list bytes :=
  match L with
  | a :: b :: L => internal_input a b :: pair_inputs L
  | _ => []
  end.
Fixpoint root_inputs_rec (fuel : nat) L : list bytes :=
  match fuel with
  | O => []
  | S fuel =>
      match L with [_] => [] | _ => pair_inputs L ++ root_inputs_rec fuel (pair_up L) end
  end.
Definition root_inputs L : list bytes := root_inputs_rec (length L) L.

(** ** [pair_up] *)

(** Induction two elements at a time. *)
Lemma list_ind2 (P : list bytes -> Prop) :
  P [] -> (forall a, P [a]) -> (forall a b L, P L -> P (a :: b :: L)) -> forall L, P L.
Proof.
  intros H0 H1 H2.
  enough (Hboth : forall L, P L /\ forall a, P (a :: L)) by (intros L; apply Hboth).
  induction L as [|a L [IH IH']]; split; auto.
Qed.

Lemma length_pair_up L : length (pair_up L) = (length L + 1) / 2.
Proof. induction L as [| |a b L IH] using list_ind2; [done..|]. simpl. rewrite IH. lia. Qed.

Lemma length_pair_up_lt L : 2 <= length L -> 0 < length (pair_up L) < length L.
Proof. rewrite length_pair_up. lia. Qed.

Lemma pair_up_lookup L j :
  pair_up L !! j =
    match L !! (2 * j), L !! (2 * j + 1) with
    | Some a, Some b => Some (internal_hash a b)
    | Some a, None => Some a
    | None, _ => None
    end.
Proof.
  revert j. induction L as [|a|a b L IH] using list_ind2; intros j.
  - by rewrite !lookup_nil.
  - destruct j as [|j]; [done|]. simpl. replace (j + S (j + 0)) with (S (2 * j)) by lia. done.
  - destruct j as [|j]; [done|].
    replace (2 * S j) with (S (S (2 * j))) by lia. simpl. rewrite IH.
    by replace (j + (j + 0)) with (2 * j) by lia.
Qed.

Lemma pair_up_app L1 L2 :
  length L1 mod 2 = 0 -> pair_up (L1 ++ L2) = pair_up L1 ++ pair_up L2.
Proof.
  induction L1 as [|a|a b L IH] using list_ind2; intros Heven; [done..|].
  simpl in *. rewrite IH; [done|lia].
Qed.

Lemma pair_inputs_app L1 L2 :
  length L1 mod 2 = 0 -> pair_inputs (L1 ++ L2) = pair_inputs L1 ++ pair_inputs L2.
Proof.
  induction L1 as [|a|a b L IH] using list_ind2; intros Heven; [done..|].
  simpl in *. rewrite IH; [done|lia].
Qed.

Lemma pair_up_is32 L : Forall is32 L -> Forall is32 (pair_up L).
Proof.
  induction L as [|a|a b L IH] using list_ind2; intros HL; [done..|].
  apply Forall_cons in HL as [_ HL]. apply Forall_cons in HL as [_ HL].
  constructor; [apply sha256_length|]. auto.
Qed.

(** ** One level of [root], [audit] and [root_inputs] *)

Lemma root_rec_fuel f g L :
  0 < length L <= f -> length L <= g -> root_rec f L = root_rec g L.
Proof.
  revert g L. induction f as [|f IH]; intros g L Hf Hg; [lia|].
  destruct g as [|g]; [lia|]. simpl. destruct L as [|a [|b L]]; [simpl in *; lia|done|].
  pose proof (length_pair_up_lt (a :: b :: L)). apply IH; simpl in *; lia.
Qed.

Lemma audit_rec_fuel f g L i :
  0 < length L <= f -> length L <= g -> audit_rec f L i = audit_rec g L i.
Proof.
  revert g L i. induction f as [|f IH]; intros g L i Hf Hg; [lia|].
  destruct g as [|g]; [lia|]. simpl. destruct L as [|a [|b L]]; [simpl in *; lia|done|].
  pose proof (length_pair_up_lt (a :: b :: L)). f_equal. apply IH; simpl in *; lia.
Qed.

Lemma root_inputs_rec_fuel f g L :
  0 < length L <= f -> length L <= g -> root_inputs_rec f L = root_inputs_rec g L.
Proof.
  revert g L. induction f as [|f IH]; intros g L Hf Hg; [lia|].
  destruct g as [|g]; [lia|]. simpl. destruct L as [|a [|b L]]; [simpl in *; lia|done|].
  pose proof (length_pair_up_lt (a :: b :: L)). f_equal. apply IH; simpl in *; lia.
Qed.

Lemma root_one x : root [x] = x.
Proof. done. Qed.

Lemma root_pair L : 0 < length L -> root L = root (pair_up L).
Proof.
  intros HL. destruct L as [|a [|b L]]; [simpl in *; lia|done|].
  pose proof (length_pair_up_lt (a :: b :: L)). 
  change (root (a :: b :: L)) with (root_rec (S (length L)) (pair_up (a :: b :: L))).
  apply root_rec_fuel; simpl in *; lia.
Qed.

Lemma audit_pair L i :
  2 <= length L -> audit L i = sibling L i ++ audit (pair_up L) (i / 2).
Proof.
  intros HL. destruct L as [|a [|b L]]; [simpl in *; lia..|].
  pose proof (length_pair_up_lt (a :: b :: L)). 
  change (audit (a :: b :: L) i) with
    (sibling (a :: b :: L) i ++ audit_rec (S (length L)) (pair_up (a :: b :: L)) (i / 2)).
  f_equal. apply audit_rec_fuel; simpl in *; lia.
Qed.

Lemma root_inputs_pair L :
  2 <= length L -> root_inputs L = pair_inputs L ++ root_inputs (pair_up L).
Proof.
  intros HL. destruct L as [|a [|b L]]; [simpl in *; lia..|].
  pose proof (length_pair_up_lt (a :: b :: L)). 
  change (root_inputs (a :: b :: L)) with
    (pair_inputs (a :: b :: L) ++ root_inputs_rec (S (length L)) (pair_up (a :: b :: L))).
  f_equal. apply root_inputs_rec_fuel; simpl in *; lia.
Qed.

(** ** The split at a power of two *)

Lemma pow2_even j : 2 ^ S j mod 2 = 0.
Proof. simpl. lia. Qed.

Lemma pow2_pos j : 0 < 2 ^ j.
Proof. induction j; simpl; lia. Qed.

Lemma pow2_half j : 2 ^ S j / 2 = 2 ^ j.
Proof. simpl. lia. Qed.

(** The shape of one split of the code: a left part whose length is a power of
    two, and a non-empty right part no longer than it. *)
Definition split_at j L1 L2 : Prop := length L1 = 2 ^ j /\ 0 < length L2 <= 2 ^ j.

Lemma split_at_0 L1 L2 : split_at 0 L1 L2 -> exists a b, L1 = [a] /\ L2 = [b].
Proof.
  intros [H1 H2]. simpl in *.
  destruct L1 as [|a [|? ?]]; simpl in *; [lia| |lia].
  destruct L2 as [|b [|? ?]]; simpl in *; [lia| |lia]. eauto.
Qed.

Lemma split_at_S j L1 L2 :
  split_at (S j) L1 L2 ->
  split_at j (pair_up L1) (pair_up L2) /\
  pair_up (L1 ++ L2) = pair_up L1 ++ pair_up L2 /\
  pair_inputs (L1 ++ L2) = pair_inputs L1 ++ pair_inputs L2 /\
  2 <= length L1 /\ length L1 mod 2 = 0 /\ 0 < length L2.
Proof.
  intros [H1 H2]. pose proof (pow2_pos j). pose proof (pow2_even j).
  unfold split_at. rewrite !length_pair_up.
  rewrite pair_up_app, pair_inputs_app by congruence.
  simpl in *. repeat split; lia.
Qed.

Lemma root_app j L1 L2 :
  split_at j L1 L2 -> root (L1 ++ L2) = internal_hash (root L1) (root L2).
Proof.
  revert L1 L2. induction j as [|j IH]; intros L1 L2 Hs.
  - by apply split_at_0 in Hs as (a & b & -> & ->).
  - apply split_at_S in Hs as (Hs & Hup & _ & Hl1 & _ & Hl2).
    rewrite root_pair by (rewrite length_app; lia). rewrite Hup, (IH _ _ Hs).
    rewrite <- !root_pair; [done|lia..].
Qed.

Lemma sibling_app_l L1 L2 i :
  length L1 mod 2 = 0 -> i < length L1 -> sibling (L1 ++ L2) i = sibling L1 i.
Proof.
  intros He Hi. unfold sibling. case_decide; rewrite lookup_app_l; [done|lia|done|lia].
Qed.

Lemma sibling_app_r L1 L2 i :
  length L1 mod 2 = 0 -> length L1 <= i -> sibling (L1 ++ L2) i = sibling L2 (i - length L1).
Proof.
  intros He Hi. unfold sibling.
  assert (Hp : (i - length L1) mod 2 = i mod 2).
  { replace i with ((i - length L1) + length L1 / 2 * 2) at 2 by lia.
    by rewrite Nat.Div0.mod_add. }
  rewrite Hp. case_decide; rewrite lookup_app_r by lia; do 2 f_equal; lia.
Qed.

Lemma audit_app_l j L1 L2 i :
  split_at j L1 L2 -> i < length L1 -> audit (L1 ++ L2) i = audit L1 i ++ [root L2].
Proof.
  revert L1 L2 i. induction j as [|j IH]; intros L1 L2 i Hs Hi.
  - apply split_at_0 in Hs as (a & b & -> & ->). simpl in Hi. by replace i with 0 by lia.
  - apply split_at_S in Hs as (Hs & Hup & _ & Hl1 & He & Hl2).
    rewrite audit_pair by (rewrite length_app; lia).
    rewrite (audit_pair L1), Hup, (IH _ _ _ Hs) by (rewrite ?length_pair_up; lia).
    rewrite sibling_app_l, <- root_pair by lia. by rewrite app_assoc.
Qed.

Lemma audit_app_r j L1 L2 i :
  split_at j L1 L2 -> length L1 <= i < length L1 + length L2 ->
  audit (L1 ++ L2) i = audit L2 (i - length L1) ++ [root L1].
Proof.
  revert L1 L2 i. induction j as [|j IH]; intros L1 L2 i Hs Hi.
  - apply split_at_0 in Hs as (a & b & -> & ->). simpl in Hi. by replace i with 1 by lia.
  - apply split_at_S in Hs as (Hs & Hup & _ & Hl1 & He & Hl2).
    rewrite audit_pair by (rewrite length_app; lia).
    rewrite Hup, (IH _ _ _ Hs) by (rewrite ?length_pair_up; lia).
    rewrite sibling_app_r, <- root_pair by lia.
    replace (i / 2 - length (pair_up L1)) with ((i - length L1) / 2)
      by (rewrite length_pair_up; lia).
    rewrite app_assoc. f_equal. destruct (decide (2 <= length L2)) as [H2|H2].
    + by rewrite <- audit_pair.
    + destruct L2 as [|x [|? ?]]; simpl in *; [lia| |lia].
      replace (i - length L1) with 0 by lia. done.
Qed.

Lemma root_inputs_app j L1 L2 :
  split_at j L1 L2 ->
  root_inputs (L1 ++ L2) ⊆
    internal_input (root L1) (root L2) :: root_inputs L1 ++ root_inputs L2.
Proof.
  revert L1 L2. induction j as [|j IH]; intros L1 L2 Hs.
  - by apply split_at_0 in Hs as (a & b & -> & ->).
  - apply split_at_S in Hs as (Hs & Hup & Hin & Hl1 & _ & Hl2).
    rewrite root_inputs_pair by (rewrite length_app; lia). rewrite Hup, Hin.
    specialize (IH _ _ Hs). rewrite <- !root_pair in IH by lia.
    rewrite (root_inputs_pair L1) by lia.
    assert (HL2 : root_inputs (pair_up L2) ++ pair_inputs L2 ⊆ root_inputs L2).
    { destruct (decide (2 <= length L2)).
      - rewrite (root_inputs_pair L2) by lia. list_sub.
      - destruct L2 as [|x [|? ?]]; simpl in *; [lia|list_sub|lia]. }
    list_sub.
Qed.

(** ** Lookups in the next level *)

Lemma pair_up_odd L i a b :
  i mod 2 = 1 -> L !! (i - 1) = Some a -> L !! i = Some b ->
  pair_up L !! (i / 2) = Some (internal_hash a b).
Proof.
  intros Hi Ha Hb. rewrite pair_up_lookup.
  replace (2 * (i / 2)) with (i - 1) by lia. replace (i - 1 + 1) with i by lia.
  by rewrite Ha, Hb.
Qed.

Lemma pair_up_even L i a b :
  i mod 2 = 0 -> L !! i = Some a -> L !! (i + 1) = Some b ->
  pair_up L !! (i / 2) = Some (internal_hash a b).
Proof.
  intros Hi Ha Hb. rewrite pair_up_lookup.
  replace (2 * (i / 2)) with i by lia. by rewrite Ha, Hb.
Qed.

Lemma pair_up_lone L i a :
  i mod 2 = 0 -> L !! i = Some a -> length L = S i -> pair_up L !! (i / 2) = Some a.
Proof.
  intros Hi Ha Hl. rewrite pair_up_lookup.
  replace (2 * (i / 2)) with i by lia. rewrite Ha.
  by rewrite (lookup_ge_None_2 L (i + 1)) by lia.
Qed.

Lemma pair_inputs_odd L i a b :
  i mod 2 = 1 -> L !! (i - 1) = Some a -> L !! i = Some b -> internal_input a b ∈ pair_inputs L.
Proof.
  revert i. induction L as [|x|x y L IH] using list_ind2; intros i Hi Ha Hb; [done| |].
  - destruct i as [|[|i]]; simpl in *; done.
  - destruct i as [|[|i]]; [done| |].
    + simpl in *. inv_ok. left.
    + simpl. right. apply (IH i); [lia| |done].
      destruct i as [|i]; [done|]. simpl in Ha. by replace (S i - 1) with i by lia.
Qed.

Lemma pair_inputs_even L i a b :
  i mod 2 = 0 -> L !! i = Some a -> L !! (i + 1) = Some b -> internal_input a b ∈ pair_inputs L.
Proof.
  intros Hi Ha Hb. apply (pair_inputs_odd L (i + 1)); [lia| |done].
  by replace (i + 1 - 1) with i by lia.
Qed.

End Levels.
