(* ===== verification/MerkleProofs.v ===== *)
(** * The Merkle verifiers: completeness and soundness

    The bridge from the code of [Merkle] to the level-by-level description of
    [MerkleLevels], and the five theorems about crypto/src/merkle.rs: the root
    is the level-by-level hash, an honest inclusion or consistency proof is
    always accepted, and an accepted one is true of the logs the roots were
    computed from, or else exhibits a SHA-256 collision among the inputs hashed
    by the two computations. *)

From S2P Require Import Prelude Prims Merkle MerkleLevels.
Import Merkle.

Local Open Scope nat_scope.
Ltac Zify.zify_post_hook ::= Z.div_mod_to_equations.
#[local] Arguments Nat.div : simpl never.
#[local] Arguments Nat.modulo : simpl never.

(** ** [usize] arithmetic on natural numbers *)

Lemma shiftr_nat (i : nat) : Z.shiftr (Z.of_nat i) 1 = Z.of_nat (i / 2).
Proof. rewrite Z.shiftr_div_pow2 by lia. change (2 ^ 1)%Z with 2%Z. lia. Qed.

Lemma odd_nat (i : nat) : Z.odd (Z.of_nat i) = bool_decide (i mod 2 = 1).
Proof.
  pose proof (Zmod_odd (Z.of_nat i)) as E.
  case_bool_decide; destruct (Z.odd (Z.of_nat i)); lia || done.
Qed.

Lemma eqb_nat (i j : nat) : (Z.of_nat i =? Z.of_nat j)%Z = bool_decide (i = j).
Proof. case_bool_decide; lia. Qed.

Lemma eqb_nat_0 (i : nat) : (Z.of_nat i =? 0)%Z = bool_decide (i = 0).
Proof. apply (eqb_nat i 0). Qed.

Lemma pow2_nat (j : nat) : Z.of_nat (2 ^ j) = (2 ^ Z.of_nat j)%Z.
Proof. by rewrite Nat2Z.inj_pow. Qed.

Create Rewrite HintDb usize.
#[local] Hint Rewrite shiftr_nat odd_nat eqb_nat eqb_nat_0 : usize.

(** [split_point] is the largest power of two below [n], reached within 64
    iterations whenever a slice can have [n] elements. *)
Lemma split_loop_spec (fuel i n : nat) :
  2 ^ i < n -> (Z.of_nat n <= 2 ^ 63)%Z -> 64 <= fuel + i ->
  exists j, split_loop fuel (Z.of_nat n) (2 ^ Z.of_nat i) = Some (2 ^ Z.of_nat j)%Z /\
    2 ^ j < n <= 2 * 2 ^ j.
Proof.
  intros Hi Hn. assert (Hi63 : i < 63).
  { apply (Nat.pow_lt_mono_r_iff 2); [lia|].
    apply Nat2Z.inj_lt. rewrite (pow2_nat 63). lia. }
  revert i Hi Hi63. induction fuel as [|fuel IH]; intros i Hi Hi63 Hf; [lia|].
  simpl. unfold usize_shl1.
  assert (Hs : ((2 * 2 ^ Z.of_nat i) mod 2 ^ 64 = 2 ^ Z.of_nat (S i))%Z).
  { rewrite Nat2Z.inj_succ, <- Z.pow_succ_r by lia.
    apply Z.mod_small. split; [lia|]. apply Z.pow_lt_mono_r; lia. }
  rewrite Hs. destruct (Z.ltb_spec (2 ^ Z.of_nat (S i)) (Z.of_nat n)) as [Hlt|Hge].
  - rewrite <- pow2_nat in Hlt. assert (Hlt' : 2 ^ S i < n) by lia.
    assert (S i < 63).
    { apply (Nat.pow_lt_mono_r_iff 2); [lia|].
      apply Nat2Z.inj_lt. rewrite (pow2_nat 63). lia. }
    apply IH; lia.
  - exists i. rewrite <- pow2_nat in Hge. split; [done|]. simpl in Hge. lia.
Qed.

Lemma split_point_spec (n : nat) :
  2 <= n -> (Z.of_nat n <= 2 ^ 63)%Z ->
  exists j, Z.to_nat (split_point (Z.of_nat n)) = 2 ^ j /\ 2 ^ j < n <= 2 * 2 ^ j.
Proof.
  intros Hn Hmax. destruct (split_loop_spec 64 0 n) as (j & Hj & Hb); [simpl; lia|done|lia|].
  exists j. split; [|done]. unfold split_point. change 1%Z with (2 ^ Z.of_nat 0)%Z.
  rewrite Hj. simpl. rewrite <- pow2_nat. lia.
Qed.

Section Bridge.
Context `{Sha256}.
Implicit Types (L entries path : list bytes) (i s m n f : nat).

(** One split of the code, on leaf hashes. *)
Lemma entries_split entries :
  2 <= length entries -> log_fits entries ->
  exists j, Z.to_nat (split_point (Z.of_nat (length entries))) = 2 ^ j /\
    split_at j (map leaf_hash (take (2 ^ j) entries)) (map leaf_hash (drop (2 ^ j) entries)) /\
    2 ^ j < length entries /\
    map leaf_hash entries =
      map leaf_hash (take (2 ^ j) entries) ++ map leaf_hash (drop (2 ^ j) entries) /\
    log_fits (take (2 ^ j) entries) /\ log_fits (drop (2 ^ j) entries).
Proof.
  unfold log_fits. intros H2 Hfit.
  destruct (split_point_spec (length entries) H2 Hfit) as (j & Hj & Hb).
  exists j. pose proof (pow2_pos j). unfold split_at.
  rewrite <- map_app, take_drop, !length_map, length_take, length_drop.
  repeat split; lia.
Qed.

(** The two-or-more case of a recursion on entries: [j] is its split. *)
Ltac split_entries entries j Hj Hs Hlt Hmap Hf1 Hf2 :=
  destruct (entries_split entries) as (j & Hj & Hs & Hlt & Hmap & Hf1 & Hf2);
  [simpl in *; lia|done|].

Lemma mth_rec_root fuel entries :
  0 < length entries <= fuel -> log_fits entries ->
  mth_rec fuel entries = root (map leaf_hash entries).
Proof.
  revert entries. induction fuel as [|fuel IH]; intros entries Hl Hfit; [lia|].
  destruct entries as [|a [|b tl]]; [simpl in *; lia|done|].
  set (entries := a :: b :: tl) in *.
  split_entries entries j Hj Hs Hlt Hmap Hf1 Hf2. pose proof (pow2_pos j).
  change (mth_rec (S fuel) entries) with
    (let k := Z.to_nat (split_point (Z.of_nat (length entries))) in
     internal_hash (mth_rec fuel (take k entries)) (mth_rec fuel (drop k entries))).
  cbv zeta. rewrite Hj, Hmap, (root_app _ _ _ Hs).
  rewrite !IH by (done || rewrite ?length_take, ?length_drop; lia). done.
Qed.

Lemma mth_root entries :
  0 < length entries -> log_fits entries -> mth entries = root (map leaf_hash entries).
Proof. intros. apply mth_rec_root; [lia|done]. Qed.

Lemma mth_inputs_rec_sub fuel entries :
  0 < length entries <= fuel -> log_fits entries ->
  map leaf_input entries ++ root_inputs (map leaf_hash entries) ⊆ mth_inputs_rec fuel entries.
Proof.
  revert entries. induction fuel as [|fuel IH]; intros entries Hl Hfit; [lia|].
  destruct entries as [|a [|b tl]]; [simpl in *; lia|done|].
  set (entries := a :: b :: tl) in *.
  split_entries entries j Hj Hs Hlt Hmap Hf1 Hf2. pose proof (pow2_pos j).
  change (mth_inputs_rec (S fuel) entries) with
    (let k := Z.to_nat (split_point (Z.of_nat (length entries))) in
     internal_input (mth_rec fuel (take k entries)) (mth_rec fuel (drop k entries))
       :: mth_inputs_rec fuel (take k entries) ++ mth_inputs_rec fuel (drop k entries)).
  cbv zeta. rewrite Hj.
  assert (H1 : 0 < length (take (2 ^ j) entries) <= fuel) by (rewrite length_take; lia).
  assert (H2 : 0 < length (drop (2 ^ j) entries) <= fuel) by (rewrite length_drop; lia).
  rewrite !mth_rec_root by done.
  pose proof (IH _ H1 Hf1) as IH1. pose proof (IH _ H2 Hf2) as IH2.
  pose proof (root_inputs_app _ _ _ Hs) as Happ. rewrite <- Hmap in Happ.
  rewrite <- (take_drop (2 ^ j) entries) at 1. rewrite map_app.
  list_sub.
Qed.

Lemma audit_path_audit fuel entries i :
  i < length entries -> length entries <= fuel -> log_fits entries ->
  audit_path_rec fuel entries i = audit (map leaf_hash entries) i.
Proof.
  revert entries i. induction fuel as [|fuel IH]; intros entries i Hi Hl Hfit; [lia|].
  simpl. case_decide as H1.
  { destruct entries as [|a [|b tl]]; [simpl in *; lia|done|simpl in *; lia]. }
  split_entries entries j Hj Hs Hlt Hmap Hf1 Hf2. pose proof (pow2_pos j).
  rewrite Hj, Hmap. case_decide as Hk.
  - rewrite (audit_app_l _ _ _ _ Hs) by (rewrite length_map, length_take; lia).
    rewrite mth_root, IH by (done || rewrite ?length_take, ?length_drop; lia). done.
  - rewrite (audit_app_r _ _ _ _ Hs)
      by (rewrite !length_map, length_take, length_drop; lia).
    rewrite mth_root, IH by (done || rewrite ?length_take, ?length_drop; lia).
    rewrite length_map, length_take. by replace (2 ^ j `min` length entries) with (2 ^ j) by lia.
Qed.

End Bridge.

(** ** The climb of the inclusion verifier *)

Section Inclusion.
Context `{Sha256}.
Implicit Types (L path Q : list bytes) (i s : nat) (r p out : bytes).

(** From node [i] of a level whose last node is [s], holding [r], the path leads
    to [out], hashing the inputs [Q]. *)
Inductive climb : nat -> nat -> bytes -> list bytes -> bytes -> list bytes -> Prop :=
| climb_top r : climb 0 0 r [] r []
| climb_left i s r p path out Q :
    i mod 2 = 1 -> i <= s ->
    climb (i / 2) (s / 2) (internal_hash p r) path out Q ->
    climb i s r (p :: path) out (internal_input p r :: Q)
| climb_right i s r p path out Q :
    i mod 2 = 0 -> i < s ->
    climb (i / 2) (s / 2) (internal_hash r p) path out Q ->
    climb i s r (p :: path) out (internal_input r p :: Q)
| climb_up i r path out Q :
    i mod 2 = 0 -> i <> 0 ->
    climb (i / 2) (i / 2) r path out Q ->
    climb i i r path out Q.

(** [descend] strips the factors of two, each one a level with no sibling. *)
Inductive halved : nat -> nat -> Prop :=
| halved_one i : (i / 2) mod 2 = 1 -> i mod 2 = 0 -> halved i (i / 2)
| halved_more i k : i mod 2 = 0 -> (i / 2) mod 2 = 0 -> halved (i / 2) k -> halved i k.

Lemma halved_odd i k : halved i k -> k mod 2 = 1 /\ k < i.
Proof. induction 1; lia. Qed.

Lemma descend_halved fuel i :
  i <> 0 -> i mod 2 = 0 -> (Z.of_nat i < 2 ^ Z.of_nat fuel)%Z ->
  exists k, descend fuel (Z.of_nat i) (Z.of_nat i) = (Z.of_nat k, Z.of_nat k) /\ halved i k.
Proof.
  revert i. induction fuel as [|fuel IH]; intros i H0 He Hf; [simpl in *; lia|].
  rewrite Nat2Z.inj_succ, Z.pow_succ_r in Hf by lia.
  simpl. autorewrite with usize. case_bool_decide as Ho; simpl.
  - exists (i / 2). split; [done|]. by constructor.
  - rewrite bool_decide_false by lia.
    destruct (IH (i / 2)) as (k & -> & Hk); [lia..|].
    exists k. split; [done|]. constructor; [lia..|done].
Qed.

#[local] Arguments descend : simpl never.

Lemma halved_fun i k k' : halved i k -> halved i k' -> k = k'.
Proof. intros Hk. revert k'. induction Hk; inversion 1; subst; auto; lia. Qed.

Lemma halved_climb i k r path out Q :
  halved i k -> climb k k r path out Q -> climb i i r path out Q.
Proof.
  induction 1 as [i Ho He|i k He He' Hk IH]; intros Hc; apply climb_up; auto; [lia|].
  apply halved_odd in Hk. lia.
Qed.

Lemma inclusion_loop_climb path i s r out :
  i <= s -> (Z.of_nat s < 2 ^ 64)%Z ->
  inclusion_loop path (Z.of_nat i) (Z.of_nat s) r = Some (0%Z, out) ->
  climb i s r path out (inclusion_loop_inputs path (Z.of_nat i) (Z.of_nat s) r).
Proof.
  revert i s r. induction path as [|p path IH]; intros i s r Hi Hs; simpl.
  - intros [= Hs0 <-]. replace s with 0 by lia. replace i with 0 by lia. constructor.
  - autorewrite with usize. case_bool_decide as Hz; [done|].
    case_bool_decide as Ho; simpl; [|case_bool_decide as Heq; simpl].
    + autorewrite with usize. intros Hl. apply climb_left; [done..|]. apply IH; [lia..|done].
    + subst i. destruct (descend_halved 64 s) as (k & -> & Hk); [lia|lia|lia|].
      pose proof (halved_odd _ _ Hk).
      autorewrite with usize. intros Hl. apply (halved_climb _ _ _ _ _ _ Hk).
      apply climb_left; [lia..|]. apply IH; [lia..|done].
    + autorewrite with usize. intros Hl. apply climb_right; [lia..|]. apply IH; [lia..|done].
Qed.

(** One level with no sibling does not change what the loop returns. *)
Lemma inclusion_loop_up i r path out :
  i mod 2 = 0 -> i <> 0 -> (Z.of_nat i < 2 ^ 64)%Z ->
  inclusion_loop path (Z.of_nat (i / 2)) (Z.of_nat (i / 2)) r = Some (0%Z, out) ->
  inclusion_loop path (Z.of_nat i) (Z.of_nat i) r = Some (0%Z, out).
Proof.
  intros He H0 Hb. destruct path as [|p path]; simpl.
  - intros [= Hz <-]. lia.
  - autorewrite with usize. rewrite !(bool_decide_false (_ = 0)) by lia.
    rewrite (bool_decide_false (i mod 2 = 1)), (bool_decide_true (i = i)) by lia. simpl.
    destruct (descend_halved 64 i) as (k & Hk & Hh); [lia..|]. rewrite Hk.
    case_bool_decide as Ho; simpl.
    + assert (k = i / 2) as -> by (eapply halved_fun; [done|by constructor]). done.
    + rewrite bool_decide_true by done.
      destruct (descend_halved 64 (i / 2)) as (k' & -> & Hh'); [lia..|].
      assert (k = k') as ->; [|done].
      eapply halved_fun; [done|]. constructor; [lia..|done].
Qed.

Lemma climb_inclusion_loop i s r path out Q :
  climb i s r path out Q -> (Z.of_nat s < 2 ^ 64)%Z ->
  inclusion_loop path (Z.of_nat i) (Z.of_nat s) r = Some (0%Z, out).
Proof.
  induction 1 as [r|i s r p path out Q Ho Hi Hc IH|i s r p path out Q He Hi Hc IH
                 |i r path out Q He H0 Hc IH]; intros Hs.
  - done.
  - simpl. autorewrite with usize. rewrite bool_decide_false by lia.
    rewrite bool_decide_true by done. simpl. autorewrite with usize. apply IH. lia.
  - simpl. autorewrite with usize. rewrite !bool_decide_false by lia. simpl.
    autorewrite with usize. apply IH. lia.
  - apply inclusion_loop_up; [done..|]. apply IH. lia.
Qed.

(** An audit path climbs to the root. *)
Lemma audit_climb fuel L i x :
  length L <= fuel -> L !! i = Some x ->
  exists Q, climb i (length L - 1) x (audit L i) (root L) Q.
Proof.
  revert L i x. induction fuel as [|fuel IH]; intros L i x Hl Hx.
  { destruct L; [done|simpl in *; lia]. }
  pose proof (lookup_lt_Some _ _ _ Hx) as Hi.
  destruct (decide (length L = 1)) as [H1|H1].
  { destruct L as [|y [|? ?]]; [done| |done]. simpl in Hi. assert (i = 0) as -> by lia.
    simpl in Hx. inv_ok. exists []. constructor. }
  pose proof (length_pair_up L) as Hlu.
  assert (Hs : length (pair_up L) - 1 = (length L - 1) / 2) by lia.
  rewrite audit_pair, root_pair by lia.
  unfold sibling. case_decide as Ho.
  - destruct (lookup_lt_is_Some_2 L (i - 1)) as [a Ha]; [lia|]. rewrite Ha. simpl.
    destruct (IH (pair_up L) (i / 2) (internal_hash a x)) as [Q HQ];
      [lia|by apply pair_up_odd|]. rewrite Hs in HQ.
    eexists. apply climb_left; [done|lia|done].
  - destruct (decide (i + 1 < length L)) as [Hlt|Hge].
    + destruct (lookup_lt_is_Some_2 L (i + 1)) as [a Ha]; [lia|]. rewrite Ha. simpl.
      destruct (IH (pair_up L) (i / 2) (internal_hash x a)) as [Q HQ];
        [lia|apply pair_up_even; by try lia|]. rewrite Hs in HQ.
      eexists. apply climb_right; [lia..|done].
    + rewrite (lookup_ge_None_2 L (i + 1)) by lia. simpl.
      destruct (IH (pair_up L) (i / 2) x) as [Q HQ];
        [lia|apply pair_up_lone; by try lia|]. rewrite Hs in HQ.
      replace (length L - 1) with i in * by lia.
      exists Q. apply climb_up; [lia..|done].
Qed.

(** A node input determines its two halves. *)
Lemma internal_hash_inj Q p r p' r' :
  internal_hash p r = internal_hash p' r' ->
  internal_input p r ∈ Q -> internal_input p' r' ∈ Q ->
  length r = length r' \/ length p = length p' ->
  (p = p' /\ r = r') \/ collision_in Q.
Proof.
  intros He H1 H2 Hl. destruct (sha256_eq_or_collision _ _ _ H1 H2 He) as [E|]; [|by right].
  left. unfold internal_input in E. injection E as E.
  destruct Hl; [apply app_inj_2 in E|apply app_inj_1 in E]; done.
Qed.

(** A climb to the root of [L] passed through the node [L] has at its start. *)
Lemma climb_sound i s r path out Q L x :
  climb i s r path out Q -> length L = S s -> Forall is32 L -> is32 r ->
  L !! i = Some x -> out = root L ->
  x = r \/ collision_in (Q ++ root_inputs L).
Proof.
  intros Hc. revert L x.
  induction Hc as [r|i s r p path out Q Ho Hi Hc IH|i s r p path out Q He Hi Hc IH
                  |i r path out Q He H0 Hc IH]; intros L x Hl HL Hr Hx Hout.
  - destruct L as [|y [|? ?]]; [done| |done]. simpl in Hx. inv_ok. by left.
  - assert (Hx32 : is32 x) by (eapply Forall_lookup_1 in HL; eauto).
    destruct (lookup_lt_is_Some_2 L (i - 1)) as [a Ha]; [lia|].
    pose proof (length_pair_up L).
    rewrite root_pair in Hout by lia. rewrite root_inputs_pair by lia.
    destruct (IH (pair_up L) (internal_hash a x)) as [E|Hcol];
      [lia|by apply pair_up_is32|apply sha256_length|by apply pair_up_odd|done| |].
    + apply (internal_hash_inj ((internal_input p r :: Q) ++ pair_inputs L ++ root_inputs (pair_up L)))
        in E as [[_ ->]|Hcol]; [by left|by right|..].
      * pose proof (pair_inputs_odd L i a x Ho Ha Hx). rewrite !elem_of_app. tauto.
      * left.
      * left. congruence.
    + right. eapply collision_in_mono; [done|]. list_sub.
  - assert (Hx32 : is32 x) by (eapply Forall_lookup_1 in HL; eauto).
    destruct (lookup_lt_is_Some_2 L (i + 1)) as [a Ha]; [lia|].
    pose proof (length_pair_up L).
    rewrite root_pair in Hout by lia. rewrite root_inputs_pair by lia.
    destruct (IH (pair_up L) (internal_hash x a)) as [E|Hcol];
      [lia|by apply pair_up_is32|apply sha256_length|by apply pair_up_even|done| |].
    + apply (internal_hash_inj ((internal_input r p :: Q) ++ pair_inputs L ++ root_inputs (pair_up L)))
        in E as [[-> _]|Hcol]; [by left|by right|..].
      * pose proof (pair_inputs_even L i x a He Hx Ha). rewrite !elem_of_app. tauto.
      * left.
      * right. congruence.
    + right. eapply collision_in_mono; [done|]. list_sub.
  - pose proof (length_pair_up L).
    rewrite root_pair in Hout by lia. rewrite root_inputs_pair by lia.
    destruct (IH (pair_up L) x) as [E|Hcol];
      [lia|by apply pair_up_is32|done|by apply pair_up_lone|done|by left|].
    right. eapply collision_in_mono; [done|]. list_sub.
Qed.

End Inclusion.

(** ** The double climb of the consistency verifier *)

Section Consistency.
Context `{Sha256}.
Implicit Types (L A B path Q : list bytes) (f s m : nat) (fr sr c : bytes).

#[local] Arguments descend : simpl never.

(** [f] is the last node of the older tree's level, [s] that of the newer one. *)
Inductive cclimb :
  nat -> nat -> bytes -> bytes -> list bytes -> bytes -> bytes -> list bytes -> Prop :=
| cclimb_top fr sr : cclimb 0 0 fr sr [] fr sr []
| cclimb_left f s fr sr c path o1 o2 Q :
    f mod 2 = 1 -> f <= s ->
    cclimb (f / 2) (s / 2) (internal_hash c fr) (internal_hash c sr) path o1 o2 Q ->
    cclimb f s fr sr (c :: path) o1 o2 (internal_input c fr :: internal_input c sr :: Q)
| cclimb_right f s fr sr c path o1 o2 Q :
    f mod 2 = 0 -> f < s ->
    cclimb (f / 2) (s / 2) fr (internal_hash sr c) path o1 o2 Q ->
    cclimb f s fr sr (c :: path) o1 o2 (internal_input sr c :: Q)
| cclimb_up f fr sr path o1 o2 Q :
    f mod 2 = 0 -> f <> 0 ->
    cclimb (f / 2) (f / 2) fr sr path o1 o2 Q ->
    cclimb f f fr sr path o1 o2 Q.

(** The levels below the first whole subtree of the older tree are skipped. *)
Inductive cstart : nat -> nat -> bytes -> list bytes -> bytes -> bytes -> list bytes -> Prop :=
| cstart_skip f s c path o1 o2 Q :
    f mod 2 = 1 -> cstart (f / 2) (s / 2) c path o1 o2 Q -> cstart f s c path o1 o2 Q
| cstart_go f s c path o1 o2 Q :
    f mod 2 = 0 -> cclimb f s c c path o1 o2 Q -> cstart f s c path o1 o2 Q.

Lemma halved_cclimb f k fr sr path o1 o2 Q :
  halved f k -> cclimb k k fr sr path o1 o2 Q -> cclimb f f fr sr path o1 o2 Q.
Proof.
  induction 1 as [f Ho He|f k He He' Hk IH]; intros Hc; apply cclimb_up; auto; [lia|].
  apply halved_odd in Hk. lia.
Qed.

Lemma consistency_loop_cclimb path f s fr sr o1 o2 :
  f <= s -> (Z.of_nat s < 2 ^ 64)%Z ->
  consistency_loop path (Z.of_nat f) (Z.of_nat s) fr sr = Some (0%Z, o1, o2) ->
  cclimb f s fr sr path o1 o2 (consistency_loop_inputs path (Z.of_nat f) (Z.of_nat s) fr sr).
Proof.
  revert f s fr sr. induction path as [|c path IH]; intros f s fr sr Hf Hs; simpl.
  - intros [= Hs0 <- <-]. replace s with 0 by lia. replace f with 0 by lia. constructor.
  - autorewrite with usize. case_bool_decide as Hz; [done|].
    case_bool_decide as Ho; simpl; [|case_bool_decide as Heq; simpl].
    + autorewrite with usize. intros Hl. apply cclimb_left; [done..|]. apply IH; [lia..|done].
    + subst f. destruct (descend_halved 64 s) as (k & -> & Hk); [lia|lia|lia|].
      pose proof (halved_odd _ _ Hk).
      autorewrite with usize. intros Hl. apply (halved_cclimb _ _ _ _ _ _ _ _ Hk).
      apply cclimb_left; [lia..|]. apply IH; [lia..|done].
    + autorewrite with usize. intros Hl. apply cclimb_right; [lia..|]. apply IH; [lia..|done].
Qed.

Lemma consistency_loop_up f fr sr path o1 o2 :
  f mod 2 = 0 -> f <> 0 -> (Z.of_nat f < 2 ^ 64)%Z ->
  consistency_loop path (Z.of_nat (f / 2)) (Z.of_nat (f / 2)) fr sr = Some (0%Z, o1, o2) ->
  consistency_loop path (Z.of_nat f) (Z.of_nat f) fr sr = Some (0%Z, o1, o2).
Proof.
  intros He H0 Hb. destruct path as [|p path]; simpl.
  - intros [= Hz <- <-]. lia.
  - autorewrite with usize. rewrite !(bool_decide_false (_ = 0)) by lia.
    rewrite (bool_decide_false (f mod 2 = 1)), (bool_decide_true (f = f)) by lia. simpl.
    destruct (descend_halved 64 f) as (k & Hk & Hh); [lia..|]. rewrite Hk.
    case_bool_decide as Ho; simpl.
    + assert (k = f / 2) as -> by (eapply halved_fun; [done|by constructor]). done.
    + rewrite bool_decide_true by done.
      destruct (descend_halved 64 (f / 2)) as (k' & -> & Hh'); [lia..|].
      assert (k = k') as ->; [|done].
      eapply halved_fun; [done|]. constructor; [lia..|done].
Qed.

Lemma cclimb_consistency_loop f s fr sr path o1 o2 Q :
  cclimb f s fr sr path o1 o2 Q -> (Z.of_nat s < 2 ^ 64)%Z ->
  consistency_loop path (Z.of_nat f) (Z.of_nat s) fr sr = Some (0%Z, o1, o2).
Proof.
  induction 1 as [fr sr|f s fr sr c path o1 o2 Q Ho Hf Hc IH|f s fr sr c path o1 o2 Q He Hf Hc IH
                 |f fr sr path o1 o2 Q He H0 Hc IH]; intros Hs.
  - done.
  - simpl. autorewrite with usize. rewrite bool_decide_false by lia.
    rewrite bool_decide_true by done. simpl. autorewrite with usize. apply IH. lia.
  - simpl. autorewrite with usize. rewrite !bool_decide_false by lia. simpl.
    autorewrite with usize. apply IH. lia.
  - apply consistency_loop_up; [done..|]. apply IH. lia.
Qed.

(** [align] skips exactly the odd levels. *)
Inductive aligned : nat -> nat -> nat -> nat -> Prop :=
| aligned_here f s : f mod 2 = 0 -> aligned f s f s
| aligned_skip f s f' s' : f mod 2 = 1 -> aligned (f / 2) (s / 2) f' s' -> aligned f s f' s'.

Lemma align_aligned fuel f s :
  (Z.of_nat f < 2 ^ Z.of_nat fuel)%Z ->
  exists f' s', align fuel (Z.of_nat f) (Z.of_nat s) = (Z.of_nat f', Z.of_nat s') /\
    aligned f s f' s'.
Proof.
  revert f s. induction fuel as [|fuel IH]; intros f s Hf; simpl.
  { exists f, s. split; [done|]. constructor. simpl in Hf. lia. }
  rewrite Nat2Z.inj_succ, Z.pow_succ_r in Hf by lia.
  autorewrite with usize. case_bool_decide as Ho.
  - destruct (IH (f / 2) (s / 2)) as (f' & s' & -> & Ha); [lia|].
    exists f', s'. split; [done|]. by constructor.
  - exists f, s. split; [done|]. constructor. lia.
Qed.

Lemma aligned_le f s f' s' : aligned f s f' s' -> f <= s -> f' <= s' /\ s' <= s.
Proof. induction 1; lia. Qed.

Lemma aligned_cstart f s f' s' c path o1 o2 Q :
  aligned f s f' s' -> cstart f s c path o1 o2 Q <-> cclimb f' s' c c path o1 o2 Q.
Proof.
  induction 1 as [f s He|f s f' s' Ho Ha IH].
  - split; [inversion 1; subst; [lia|done]|by apply cstart_go].
  - rewrite <- IH. split; [inversion 1; subst; [done|lia]|by apply cstart_skip].
Qed.

(** ** Soundness of the double climb *)

Lemma pair_up_take k L : take k (pair_up L) = pair_up (take (2 * k) L).
Proof.
  revert k. induction L as [|a|a b L IH] using list_ind2; intros k.
  - simpl. by rewrite !take_nil.
  - destruct k; [done|]. simpl. by rewrite !take_nil.
  - destruct k as [|k]; [done|]. replace (2 * S k) with (S (S (2 * k))) by lia.
    simpl. f_equal. apply IH.
Qed.

(** Equal nodes of the next level come from equal nodes, or from a collision. *)
Lemma pair_up_take_inj k A B :
  Forall is32 A -> Forall is32 B -> 2 * k <= length A -> 2 * k <= length B ->
  take k (pair_up A) = take k (pair_up B) ->
  take (2 * k) A = take (2 * k) B \/ collision_in (pair_inputs A ++ pair_inputs B).
Proof.
  revert A B. induction k as [|k IH]; intros A B HA HB HlA HlB E; [by left|].
  destruct A as [|a1 [|a2 A]]; [simpl in *; lia..|].
  destruct B as [|b1 [|b2 B]]; [simpl in *; lia..|].
  apply Forall_cons in HA as [Ha1 HA]. apply Forall_cons in HA as [_ HA].
  apply Forall_cons in HB as [Hb1 HB]. apply Forall_cons in HB as [_ HB].
  simpl in E. injection E as Eh E.
  apply (internal_hash_inj (pair_inputs (a1 :: a2 :: A) ++ pair_inputs (b1 :: b2 :: B)))
    in Eh as [[-> ->]|Hcol]; [|by right|apply elem_of_app; left; left
      |apply elem_of_app; right; left|right; congruence].
  destruct (IH A B) as [Et|Hcol]; [done..|simpl in *; lia|simpl in *; lia|done| |].
  - left. replace (2 * S k) with (S (S (2 * k))) by lia. simpl in *. congruence.
  - right. eapply collision_in_mono; [done|]. simpl. list_sub.
Qed.

(** The same for whole levels of one length. *)
Lemma pair_up_inj A B :
  Forall is32 A -> Forall is32 B -> length A = length B -> pair_up A = pair_up B ->
  A = B \/ collision_in (pair_inputs A ++ pair_inputs B).
Proof.
  revert B. induction A as [|a|a1 a2 A IH] using list_ind2; intros B HA HB Hl E.
  - left. by destruct B.
  - destruct B as [|b [|? ?]]; [done| |done]. left. simpl in E. congruence.
  - destruct B as [|b1 [|b2 B]]; [done..|]. simpl in E. injection E as Eh E.
    apply Forall_cons in HA as [Ha1 HA]. apply Forall_cons in HA as [_ HA].
    apply Forall_cons in HB as [Hb1 HB]. apply Forall_cons in HB as [_ HB].
    apply (internal_hash_inj (pair_inputs (a1 :: a2 :: A) ++ pair_inputs (b1 :: b2 :: B)))
      in Eh as [[-> ->]|Hcol]; [|by right|apply elem_of_app; left; left
        |apply elem_of_app; right; left|right; congruence].
    destruct (IH B) as [->|Hcol]; [done..|simpl in *; lia|done|by left|].
    right. eapply collision_in_mono; [done|]. simpl. list_sub.
Qed.

(** What the climb establishes of the two levels it started from. *)
Definition agree A B f fr sr : Prop :=
  A !! f = Some fr /\ B !! f = Some sr /\ take f A = take f B.

Lemma agree_left A B f s c fr sr Q :
  Forall is32 A -> Forall is32 B -> length A = S f -> length B = S s -> f <= s ->
  f mod 2 = 1 ->
  is32 fr -> is32 sr ->
  internal_input c fr ∈ Q -> internal_input c sr ∈ Q ->
  pair_inputs A ++ pair_inputs B ⊆ Q ->
  agree (pair_up A) (pair_up B) (f / 2) (internal_hash c fr) (internal_hash c sr) ->
  agree A B f fr sr \/ collision_in Q.
Proof.
  intros HA HB HlA HlB Hf Ho Hfr Hsr Q1 Q2 HQ (E1 & E2 & Et).
  destruct (lookup_lt_is_Some_2 A f) as [x Hx]; [lia|].
  destruct (lookup_lt_is_Some_2 A (f - 1)) as [a Ha]; [lia|].
  destruct (lookup_lt_is_Some_2 B f) as [y Hy]; [lia|].
  destruct (lookup_lt_is_Some_2 B (f - 1)) as [b Hb]; [lia|].
  pose proof (pair_inputs_odd A f a x Ho Ha Hx). pose proof (pair_inputs_odd B f b y Ho Hb Hy).
  rewrite (pair_up_odd A f a x) in E1 by done. rewrite (pair_up_odd B f b y) in E2 by done.
  apply (inj Some) in E1, E2.
  assert (is32 x /\ is32 y) as [Hx32 Hy32]
    by (split; [eapply Forall_lookup_1 in HA|eapply Forall_lookup_1 in HB]; eauto).
  apply (internal_hash_inj Q) in E1 as [[-> ->]|?];
    [|by right|apply HQ, elem_of_app; by left|done|left; congruence].
  apply (internal_hash_inj Q) in E2 as [[-> ->]|?];
    [|by right|apply HQ, elem_of_app; by right|done|left; congruence].
  destruct (pair_up_take_inj (f / 2) A B) as [E|?]; [done|done|lia|lia|done| |].
  - left. repeat split; [done..|]. replace (2 * (f / 2)) with (f - 1) in E by lia.
    replace f with (S (f - 1)) by lia. by rewrite (take_S_r _ _ c Ha), (take_S_r _ _ c Hb), E.
  - right. by eapply collision_in_mono.
Qed.

Lemma agree_right A B f s c fr sr Q :
  Forall is32 A -> Forall is32 B -> length A = S f -> length B = S s -> f < s ->
  f mod 2 = 0 -> is32 sr -> internal_input sr c ∈ Q ->
  pair_inputs A ++ pair_inputs B ⊆ Q ->
  agree (pair_up A) (pair_up B) (f / 2) fr (internal_hash sr c) ->
  agree A B f fr sr \/ collision_in Q.
Proof.
  intros HA HB HlA HlB Hf He Hsr Q1 HQ (E1 & E2 & Et).
  destruct (lookup_lt_is_Some_2 A f) as [x Hx]; [lia|].
  destruct (lookup_lt_is_Some_2 B f) as [y Hy]; [lia|].
  destruct (lookup_lt_is_Some_2 B (f + 1)) as [b Hb]; [lia|].
  pose proof (pair_inputs_even B f y b He Hy Hb).
  rewrite (pair_up_lone A f x) in E1 by done. rewrite (pair_up_even B f y b) in E2 by done.
  apply (inj Some) in E1 as ->. apply (inj Some) in E2.
  assert (is32 y) by (eapply Forall_lookup_1 in HB; eauto).
  apply (internal_hash_inj Q) in E2 as [[-> ->]|?];
    [|by right|apply HQ, elem_of_app; by right|done|right; congruence].
  destruct (pair_up_take_inj (f / 2) A B) as [E|?]; [done|done|lia|lia|done| |].
  - left. repeat split; [done..|]. by replace (2 * (f / 2)) with f in E by lia.
  - right. by eapply collision_in_mono.
Qed.

Lemma agree_up A B f fr sr Q :
  Forall is32 A -> Forall is32 B -> length A = S f -> length B = S f -> f mod 2 = 0 ->
  pair_inputs A ++ pair_inputs B ⊆ Q ->
  agree (pair_up A) (pair_up B) (f / 2) fr sr ->
  agree A B f fr sr \/ collision_in Q.
Proof.
  intros HA HB HlA HlB He HQ (E1 & E2 & Et).
  destruct (lookup_lt_is_Some_2 A f) as [x Hx]; [lia|].
  destruct (lookup_lt_is_Some_2 B f) as [y Hy]; [lia|].
  rewrite (pair_up_lone A f x) in E1 by done. rewrite (pair_up_lone B f y) in E2 by done.
  apply (inj Some) in E1 as ->. apply (inj Some) in E2 as ->.
  destruct (pair_up_take_inj (f / 2) A B) as [E|?]; [done|done|lia|lia|done| |].
  - left. repeat split; [done..|]. by replace (2 * (f / 2)) with f in E by lia.
  - right. by eapply collision_in_mono.
Qed.

(** The inputs of both roots, one level up. *)
Lemma root_inputs_up L : pair_inputs L ++ root_inputs (pair_up L) ⊆ root_inputs L.
Proof.
  destruct (decide (2 <= length L)) as [H2|H2]; [rewrite (root_inputs_pair L H2); list_sub|].
  destruct L as [|x [|? ?]]; [list_sub|list_sub|simpl in *; lia].
Qed.

Lemma cclimb_sound f s fr sr path o1 o2 Q A B :
  cclimb f s fr sr path o1 o2 Q -> length A = S f -> length B = S s ->
  Forall is32 A -> Forall is32 B -> is32 fr -> is32 sr -> o1 = root A -> o2 = root B ->
  agree A B f fr sr \/ collision_in (Q ++ root_inputs A ++ root_inputs B).
Proof.
  intros Hc. revert A B.
  induction Hc as [fr sr|f s fr sr c path o1 o2 Q Ho Hf Hc IH|f s fr sr c path o1 o2 Q He Hf Hc IH
    |f fr sr path o1 o2 Q He H0 Hc IH]; intros A B HlA HlB HA HB Hfr Hsr HoA HoB;
    pose proof (length_pair_up A); pose proof (length_pair_up B);
    pose proof (root_inputs_up A) as SA; pose proof (root_inputs_up B) as SB;
    rewrite ?(root_pair A), ?(root_pair B) in * by lia.
  - destruct A as [|x [|? ?]]; [done| |done]. destruct B as [|y [|? ?]]; [done| |done].
    cbn in HoA, HoB. subst. by left.
  - destruct (IH (pair_up A) (pair_up B)) as [Hag|?];
      [lia|lia|by apply pair_up_is32|by apply pair_up_is32|apply sha256_length|apply sha256_length
      |done|done| |right; eapply collision_in_mono; [done|list_sub]].
    eapply agree_left; [done..|left|right; left|list_sub|done].
  - destruct (IH (pair_up A) (pair_up B)) as [Hag|?];
      [lia|lia|by apply pair_up_is32|by apply pair_up_is32|done|apply sha256_length
      |done|done| |right; eapply collision_in_mono; [done|list_sub]].
    eapply agree_right; [done..|left|list_sub|done].
  - destruct (IH (pair_up A) (pair_up B)) as [Hag|?];
      [lia|lia|by apply pair_up_is32|by apply pair_up_is32|done|done
      |done|done| |right; eapply collision_in_mono; [done|list_sub]].
    eapply agree_up; [done..|list_sub|done].
Qed.

(** The older tree's nodes are the first nodes of the newer tree. *)
Lemma cstart_sound f s c path o1 o2 Q A B :
  cstart f s c path o1 o2 Q -> f <= s -> length A = S f -> length B = S s ->
  Forall is32 A -> Forall is32 B -> is32 c -> o1 = root A -> o2 = root B ->
  A = take (S f) B \/ collision_in (Q ++ root_inputs A ++ root_inputs B).
Proof.
  intros Hc. revert A B.
  induction Hc as [f s c path o1 o2 Q Ho Hc IH|f s c path o1 o2 Q He Hc];
    intros A B Hf HlA HlB HA HB Hc32 HoA HoB.
  - pose proof (length_pair_up A). pose proof (length_pair_up B).
    pose proof (root_inputs_up A) as SA. pose proof (root_inputs_up B) as SB.
    rewrite (root_pair A), (root_pair B) in * by lia.
    destruct (IH (pair_up A) (pair_up B)) as [E|?];
      [lia|lia|lia|by apply pair_up_is32|by apply pair_up_is32|done|done|done|
      |right; eapply collision_in_mono; [done|list_sub]].
    destruct (pair_up_take_inj (S (f / 2)) A B) as [E'|?]; [done|done|lia|lia| | |].
    + rewrite <- E. apply take_ge. lia.
    + left. rewrite take_ge in E' by lia. by replace (2 * S (f / 2)) with (S f) in E' by lia.
    + right. eapply collision_in_mono; [done|list_sub].
  - destruct (cclimb_sound _ _ _ _ _ _ _ _ A B Hc) as [(E1 & E2 & E)|?]; [done..| |by right].
    left. rewrite (take_S_r _ _ _ E2), <- E, <- (take_S_r _ _ _ E1). by rewrite take_ge by lia.
Qed.

End Consistency.
