(* ===== verification/MerkleTheorems.v ===== *)
(** * Theorems about crypto/src/merkle.rs

    Completeness of the consistency prover, then the five properties of the
    Merkle tree and their evaluated witnesses. *)

From S2P Require Import Prelude Prims Merkle MerkleLevels MerkleProofs.
Import Merkle.

Local Open Scope nat_scope.
Ltac Zify.zify_post_hook ::= Z.div_mod_to_equations.
#[local] Arguments Nat.div : simpl never.
#[local] Arguments Nat.modulo : simpl never.

Section Completeness.
Context `{Sha256}.
Implicit Types (L A B p : list bytes) (f m : nat).

(** The subproof for the first [m] nodes of [L], level by level. *)
Inductive Cproof (b : bool) : list bytes -> nat -> list bytes -> Prop :=
| Cproof_even L m p :
    0 < m -> m mod 2 = 0 -> Cproof b (pair_up L) (m / 2) p -> Cproof b L m p
| Cproof_odd L m x :
    m mod 2 = 1 -> L !! (m - 1) = Some x ->
    Cproof b L m ((if b && bool_decide (m = 1) then [] else [x]) ++ audit L (m - 1)).

Lemma Cproof_app_l b L1 L2 m p j :
  Cproof b L1 m p -> split_at j L1 L2 -> m <= 2 ^ j -> Cproof b (L1 ++ L2) m (p ++ [root L2]).
Proof.
  intros Hc. revert L2 j. induction Hc as [L m p H0 He Hc IH|L m x Ho Hx]; intros L2 j Hs Hm.
  - destruct j as [|j]; [simpl in Hm; lia|].
    apply split_at_S in Hs as (Hs & Hup & _ & _ & _ & Hl2).
    apply Cproof_even; [done..|]. rewrite Hup, root_pair by done.
    apply (IH _ j Hs). simpl in Hm. lia.
  - pose proof (lookup_lt_Some _ _ _ Hx). rewrite <- app_assoc.
    rewrite <- (audit_app_l j) by done.
    apply Cproof_odd; [done|]. by apply lookup_app_l_Some.
Qed.

Lemma Cproof_app_r b L1 L2 m p j :
  Cproof false L2 m p -> split_at j L1 L2 -> m < length L2 ->
  Cproof b (L1 ++ L2) (m + 2 ^ j) (p ++ [root L1]).
Proof.
  intros Hc. revert L1 j. induction Hc as [L m p H0 He Hc IH|L m x Ho Hx]; intros L1 j Hs Hm.
  - destruct j as [|j]; [destruct Hs; simpl in *; lia|].
    apply split_at_S in Hs as (Hs & Hup & _ & Hl1 & _ & Hl2).
    pose proof (length_pair_up L). pose proof (pow2_pos j).
    apply Cproof_even; [lia|simpl; lia|]. rewrite Hup, (root_pair L1) by lia.
    replace ((m + 2 ^ S j) / 2) with (m / 2 + 2 ^ j) by (simpl; lia).
    apply (IH _ j Hs). lia.
  - pose proof Hs as [Hl1 Hl2]. pose proof (pow2_pos j).
    destruct j as [|j]; [simpl in *; lia|]. simpl in *.
    replace (audit L (m - 1)) with (audit L (m + (2 ^ j + (2 ^ j + 0)) - 1 - length L1))
      by (f_equal; lia).
    rewrite <- (audit_app_r (S j)) by (done || lia).
    replace (x :: _) with ((if b && bool_decide (m + (2 ^ j + (2 ^ j + 0)) = 1) then [] else [x])
      ++ audit (L1 ++ L) (m + (2 ^ j + (2 ^ j + 0)) - 1)).
    + apply Cproof_odd; [lia|]. rewrite lookup_app_r by lia.
      rewrite <- Hx. f_equal. lia.
    + rewrite bool_decide_false by lia. by rewrite andb_false_r.
Qed.

(** A whole subtree is its root. *)
Lemma Cproof_full b i L :
  length L = 2 ^ i -> Cproof b L (length L) (if b then [] else [root L]).
Proof.
  revert L. induction i as [|i IH]; intros L Hl.
  - destruct L as [|x [|? ?]]; [done| |done].
    pose proof (Cproof_odd b [x] 1 x eq_refl eq_refl) as Hc.
    by destruct b.
  - pose proof (pow2_pos i). pose proof (length_pair_up L) as Hu. simpl in Hl.
    apply Cproof_even; [lia..|]. rewrite (root_pair L) by lia.
    replace (length L / 2) with (length (pair_up L)) by lia. apply IH. lia.
Qed.

Lemma subproof_Cproof fuel m entries b :
  length entries <= fuel -> log_fits entries ->
  0 < m < length entries \/ (m = length entries /\ exists i, m = 2 ^ i) ->
  Cproof b (map leaf_hash entries) m (subproof_rec fuel m entries b).
Proof.
  revert m entries b. induction fuel as [|fuel IH]; intros m entries b Hl Hfit Hm.
  { destruct Hm as [?|[? [i ->]]]; [lia|]. pose proof (pow2_pos i). lia. }
  simpl. case_decide as Heq.
  - destruct Hm as [?|[-> [i Hi]]]; [lia|]. pose proof (pow2_pos i).
    rewrite mth_root by (done || lia).
    replace (length entries) with (length (map leaf_hash entries)) by apply length_map.
    apply (Cproof_full _ i). by rewrite length_map.
  - destruct Hm as [Hm|[? _]]; [|lia].
    destruct (entries_split entries) as (j & Hj & Hs & Hlt & Hmap & Hf1 & Hf2); [lia|done|].
    pose proof (pow2_pos j). rewrite Hj, Hmap. case_decide as Hk.
    + rewrite mth_root by (done || rewrite length_drop; lia).
      apply (Cproof_app_l _ _ _ _ _ j); [|done|done].
      apply IH; [rewrite length_take; lia|done|]. rewrite length_take.
      destruct (decide (m = 2 ^ j)); [right; split; [lia|by exists j]|left; lia].
    + rewrite mth_root by (done || rewrite length_take; lia).
      replace m with (m - 2 ^ j + 2 ^ j) at 1 by lia.
      apply Cproof_app_r; [|done|rewrite length_map, length_drop; lia].
      apply IH; [rewrite length_drop; lia|done|]. left. rewrite length_drop. lia.
Qed.

(** An audit path of the newer tree carries the older one too. *)
Lemma audit_cclimb fuel A B f fr sr :
  length B <= fuel -> length A = S f -> agree A B f fr sr ->
  exists Q, cclimb f (length B - 1) fr sr (audit B f) (root A) (root B) Q.
Proof.
  revert A B f fr sr. induction fuel as [|fuel IH]; intros A B f fr sr Hl HlA (E1 & E2 & Et).
  { destruct B; [done|simpl in *; lia]. }
  pose proof (lookup_lt_Some _ _ _ E2) as Hf.
  destruct (decide (length B = 1)) as [H1|H1].
  { destruct B as [|y [|? ?]]; [done| |done]. simpl in Hf. assert (f = 0) as -> by lia.
    destruct A as [|x [|? ?]]; [done| |done]. simpl in *. inv_ok.
    exists []. constructor. }
  pose proof (length_pair_up A). pose proof (length_pair_up B).
  assert (Hs : length (pair_up B) - 1 = (length B - 1) / 2) by lia.
  assert (Hup : take (f / 2) (pair_up A) = take (f / 2) (pair_up B)).
  { rewrite !pair_up_take. f_equal.
    apply (f_equal (take (2 * (f / 2)))) in Et.
    by rewrite !take_take, Nat.min_l in Et by lia. }
  rewrite audit_pair, (root_pair A), (root_pair B) by lia.
  unfold sibling. case_decide as Ho.
  - destruct (lookup_lt_is_Some_2 B (f - 1)) as [a Hb]; [lia|]. rewrite Hb. simpl.
    assert (Ha : A !! (f - 1) = Some a).
    { rewrite <- Hb, <- (lookup_take_lt A f (f - 1)), Et by lia. apply lookup_take_lt. lia. }
    destruct (IH (pair_up A) (pair_up B) (f / 2) (internal_hash a fr) (internal_hash a sr))
      as [Q HQ]; [lia|lia|repeat split; [by apply pair_up_odd..|done]|]. rewrite Hs in HQ.
    eexists. apply cclimb_left; [done|lia|done].
  - destruct (decide (f + 1 < length B)) as [Hlt|Hge].
    + destruct (lookup_lt_is_Some_2 B (f + 1)) as [a Hb]; [lia|]. rewrite Hb. simpl.
      destruct (IH (pair_up A) (pair_up B) (f / 2) fr (internal_hash sr a)) as [Q HQ];
        [lia|lia| |].
      { repeat split; [apply pair_up_lone; by try lia|apply pair_up_even; by try lia|done]. }
      rewrite Hs in HQ. eexists. apply cclimb_right; [lia..|done].
    + rewrite (lookup_ge_None_2 B (f + 1)) by lia. simpl.
      destruct (IH (pair_up A) (pair_up B) (f / 2) fr sr) as [Q HQ]; [lia|lia| |].
      { repeat split; [apply pair_up_lone; by try lia..|done]. }
      rewrite Hs in HQ. replace (length B - 1) with f in * by lia.
      exists Q. apply cclimb_up; [lia..|done].
Qed.

Lemma is_power_of_two_double m :
  m mod 2 = 0 -> is_power_of_two (Z.of_nat m) = is_power_of_two (Z.of_nat (m / 2)).
Proof.
  intros He. unfold is_power_of_two. destruct (decide (m = 0)) as [->|H0]; [done|].
  replace (Z.of_nat m) with (2 * Z.of_nat (m / 2))%Z by lia.
  rewrite Z.log2_double, Z.pow_succ_r by (lia || apply Z.log2_nonneg). lia.
Qed.

Lemma is_power_of_two_odd m :
  m mod 2 = 1 -> m <> 1 -> is_power_of_two (Z.of_nat m) = false.
Proof.
  intros Ho H1. unfold is_power_of_two. apply andb_false_iff. right. apply Z.eqb_neq.
  assert (Hp : (0 < Z.log2 (Z.of_nat m))%Z) by (apply Z.log2_pos; lia).
  replace (Z.log2 (Z.of_nat m)) with (Z.succ (Z.pred (Z.log2 (Z.of_nat m)))) by lia.
  rewrite Z.pow_succ_r by lia. lia.
Qed.

(** The path the verifier starts from, and what it leads to. *)
Lemma Cproof_cstart L m p :
  Cproof true L m p -> m < length L ->
  p <> [] /\ exists c rest Q,
    (if is_power_of_two (Z.of_nat m) then root (take m L) :: p else p) = c :: rest /\
    cstart (m - 1) (length L - 1) c rest (root (take m L)) (root L) Q.
Proof.
  induction 1 as [L m p H0 He Hc IH|L m x Ho Hx]; intros Hm.
  - pose proof (length_pair_up L).
    destruct IH as (Hp & c & rest & Q & E & Hs); [lia|]. split; [done|].
    exists c, rest, Q. rewrite is_power_of_two_double by done.
    rewrite pair_up_take in E, Hs. replace (2 * (m / 2)) with m in * by lia.
    rewrite (root_pair L), (root_pair (take m L)) by (rewrite ?length_take; lia).
    split; [done|]. apply cstart_skip; [lia|].
    replace ((m - 1) / 2) with (m / 2 - 1) by lia.
    by replace ((length L - 1) / 2) with (length (pair_up L) - 1) by lia.
  - assert (Hag : agree (take m L) L (m - 1) x x).
    { repeat split; [|done|].
      - rewrite lookup_take_lt by lia. done.
      - rewrite take_take. f_equal. lia. }
    destruct (audit_cclimb (length L) (take m L) L (m - 1) x x) as [Q HQ];
      [done|rewrite length_take; lia|done|].
    apply (cstart_go (m - 1)) in HQ as Hcs; [|lia].
    destruct (decide (m = 1)) as [->|H1]; simpl.
    + split.
      * rewrite audit_pair by lia. destruct (lookup_lt_is_Some_2 L 1) as [y Hy]; [lia|].
        unfold sibling. simpl. by rewrite Hy.
      * exists x, (audit L 0), Q. split; [|done].
        destruct L as [|z L]; [done|]. simpl in *. by inv_ok.
    + rewrite bool_decide_false by done. simpl. split; [done|].
      rewrite is_power_of_two_odd by done. eauto.
Qed.

End Completeness.

(** ** The properties *)

Section Properties.
Context `{Sha256}.
Implicit Types (entries older newer proof : list bytes).

Lemma log_fits_usize entries : log_fits entries -> (Z.of_nat (length entries - 1) < 2 ^ 64)%Z.
Proof. unfold log_fits. lia. Qed.

Lemma merkle_root_root entries :
  0 < length entries -> log_fits entries -> merkle_root entries = root (map leaf_hash entries).
Proof. destruct entries; [simpl; lia|]. apply mth_root. Qed.

Lemma leaf_hashes_is32 entries : Forall is32 (map leaf_hash entries).
Proof. apply Forall_map, Forall_forall. intros. apply sha256_length. Qed.

Lemma root_is32 L : Forall is32 L -> 0 < length L -> is32 (root L).
Proof.
  remember (length L) as n eqn:Hn. revert L Hn.
  induction n as [n IH] using lt_wf_ind; intros L -> HL H0.
  destruct L as [|x [|y L]]; [simpl in *; lia|by apply Forall_cons in HL as [? _]|].
  rewrite root_pair by done. pose proof (length_pair_up_lt (x :: y :: L)).
  eapply IH; [| done |by apply pair_up_is32|]; simpl in *; lia.
Qed.

(** Equal leaf hashes come from equal entries, or from a collision. *)
Lemma map_leaf_hash_inj A B :
  map leaf_hash A = map leaf_hash B ->
  A = B \/ collision_in (map leaf_input A ++ map leaf_input B).
Proof.
  revert B. induction A as [|a A IH]; intros [|b B] E; [by left|done..|].
  simpl in E. injection E as Eh E.
  apply (sha256_eq_or_collision (map leaf_input (a :: A) ++ map leaf_input (b :: B)))
    in Eh as [Eh|?]; [|by right|simpl; left|apply elem_of_app; right; left].
  destruct (IH _ E) as [->|Hcol].
  - left. unfold leaf_input in Eh. congruence.
  - right. eapply collision_in_mono; [done|]. simpl. list_sub.
Qed.

(** A root pins the level it was computed from, up to a collision. *)
Lemma root_inj A B :
  Forall is32 A -> Forall is32 B -> length A = length B -> root A = root B ->
  A = B \/ collision_in (root_inputs A ++ root_inputs B).
Proof.
  remember (length A) as n eqn:Hn. revert A B Hn.
  induction n as [n IH] using lt_wf_ind; intros A B -> HA HB Hl E.
  destruct A as [|a [|a' A]]; [by destruct B; [left|]|destruct B as [|b [|? ?]]; [done| |done]; left; rewrite !root_one in E; congruence|].
  assert (H2 : 2 <= length (a :: a' :: A)) by (simpl; lia).
  set (A' := a :: a' :: A) in *. rewrite (root_pair A'), (root_pair B) in E by lia.
  pose proof (length_pair_up_lt A' H2). pose proof (root_inputs_up A') as SA. pose proof (root_inputs_up B) as SB.
  destruct (IH (length (pair_up A'))) with (A := pair_up A') (B := pair_up B) as [Ep|Hcol];
    [lia|done|by apply pair_up_is32|by apply pair_up_is32|rewrite !length_pair_up; congruence|done| |].
  - destruct (pair_up_inj A' B) as [->|Hcol]; [done..|by left|].
    right. eapply collision_in_mono; [done|]. list_sub.
  - right. eapply collision_in_mono; [done|]. list_sub.
Qed.

(** A log's root pins the log, among logs of its length. *)
Lemma merkle_root_inj A B :
  Forall is32 A -> Forall is32 B -> length A = length B -> log_fits A -> log_fits B ->
  merkle_root A = merkle_root B ->
  A = B \/ collision_in (merkle_root_inputs A ++ merkle_root_inputs B).
Proof.
  intros HA HB Hl HfA HfB E.
  destruct (decide (length A = 0)) as [H0|H0].
  { left. by rewrite (nil_length_inv A H0), (nil_length_inv B ltac:(congruence)). }
  rewrite !merkle_root_root in E by (done || lia).
  pose proof (mth_inputs_rec_sub (length A) A ltac:(lia) HfA) as SA.
  pose proof (mth_inputs_rec_sub (length B) B ltac:(lia) HfB) as SB. unfold merkle_root_inputs.
  apply root_inj in E as [E|Hcol]; [|right; eapply collision_in_mono; [done|]; list_sub
    |apply leaf_hashes_is32..|by rewrite !length_map].
  apply map_leaf_hash_inj in E as [->|Hcol]; [by left|].
  right. eapply collision_in_mono; [done|]. list_sub.
Qed.

(** The root the top-down recursion of [mth] computes (split at the largest
    power of two) is the one obtained by hashing the leaves in adjacent pairs,
    level by level, with a lone last node promoted unchanged. *)
Theorem merkle_root_by_levels entries :
  0 < length entries -> log_fits entries ->
  merkle_root entries = root (map leaf_hash entries).
Proof. apply merkle_root_root. Qed.

(** For every log and every index, the prover's inclusion proof exists and the
    RFC 9162 verifier accepts it against the log's root. *)
Theorem inclusion_complete entries (i : nat) e :
  log_fits entries -> entries !! i = Some e ->
  exists proof, inclusion_proof entries i = Some proof /\
    verify_inclusion e (Z.of_nat i) (Z.of_nat (length entries)) proof (merkle_root entries) = true.
Proof.
  intros Hfit He. pose proof (lookup_lt_Some _ _ _ He) as Hi.
  eexists. split; [unfold inclusion_proof; by rewrite decide_True|].
  rewrite audit_path_audit, merkle_root_root by (done || lia).
  destruct (audit_climb (length entries) (map leaf_hash entries) i (leaf_hash e)) as [Q HQ].
  { by rewrite length_map. }
  { by rewrite list_lookup_fmap, He. }
  rewrite length_map in HQ. apply climb_inclusion_loop in HQ; [|by apply log_fits_usize].
  unfold verify_inclusion. rewrite (proj2 (Z.leb_gt _ _)) by lia.
  replace (Z.of_nat (length entries) - 1)%Z with (Z.of_nat (length entries - 1)) by lia.
  rewrite HQ. simpl. by apply bool_decide_eq_true.
Qed.

(** An accepted inclusion proof pins the entry. *)
Lemma inclusion_entry entries (i : nat) e proof :
  log_fits entries -> Forall is32 entries -> is32 e ->
  verify_inclusion e (Z.of_nat i) (Z.of_nat (length entries)) proof (merkle_root entries) = true ->
  entries !! i = Some e \/
  collision_in (verify_inclusion_inputs e (Z.of_nat i) (Z.of_nat (length entries)) proof
                ++ merkle_root_inputs entries).
Proof.
  unfold verify_inclusion, verify_inclusion_inputs. intros Hfit H32 He Hv.
  destruct (Z.leb_spec (Z.of_nat (length entries)) (Z.of_nat i)) as [|Hi]; [done|].
  steps_in Hv. bool_prop. subst.
  replace (Z.of_nat (length entries) - 1)%Z with (Z.of_nat (length entries - 1)) in * by lia.
  rewrite merkle_root_root in * by (done || lia).
  destruct (lookup_lt_is_Some_2 entries i) as [x Hx]; [lia|].
  assert (Hin : map leaf_input entries ++ root_inputs (map leaf_hash entries)
      ⊆ merkle_root_inputs entries) by (apply mth_inputs_rec_sub; [lia|done]).
  assert (Hxin : leaf_input x ∈ merkle_root_inputs entries).
  { apply Hin, elem_of_app. left. apply list_elem_of_fmap. exists x. split; [done|].
    by eapply list_elem_of_lookup_2. }
  apply inclusion_loop_climb in Heqo; [|lia|by apply log_fits_usize].
  apply (climb_sound _ _ _ _ _ _ (map leaf_hash entries) (leaf_hash x)) in Heqo as [E|Hcol];
    [| |rewrite length_map; lia|apply leaf_hashes_is32|apply sha256_length
     |by rewrite list_lookup_fmap, Hx|done].
  - eapply sha256_eq_or_collision in E as [E|Hcol]; [|by right| |].
    + left. unfold leaf_input in E. congruence.
    + apply elem_of_app. by right.
    + left.
  - right. eapply collision_in_mono; [done|]. list_sub.
Qed.

(** C1: An inclusion proof accepted against the root of a log shows that the log
    has that entry at that index, or else two of the inputs hashed by the
    verifier and by the root computation collide under SHA-256.  [proof] is
    arbitrary: no proof of whatever length or content passes for an absent entry. *)
Theorem inclusion_sound entries (i : nat) e proof :
  log_fits entries -> Forall is32 entries -> is32 e ->
  verify_inclusion e (Z.of_nat i) (Z.of_nat (length entries)) proof (merkle_root entries) = true ->
  entries !! i = Some e \/
  collision_in (verify_inclusion_inputs e (Z.of_nat i) (Z.of_nat (length entries)) proof
                ++ merkle_root_inputs entries).
Proof. apply inclusion_entry. Qed.

(** The prover's consistency proof passes. *)
Lemma consistency_proof_verifies newer (m : nat) :
  log_fits newer -> 0 < m < length newer ->
  exists proof, consistency_proof newer m = Some proof /\
    verify_consistency (Z.of_nat m) (Z.of_nat (length newer))
      (merkle_root (take m newer)) (merkle_root newer) proof = true.
Proof.
  intros Hfit Hm. eexists. split; [unfold consistency_proof; by rewrite decide_True|].
  pose proof (subproof_Cproof (length newer) m newer true ltac:(lia) Hfit (or_introl Hm)) as Hc.
  assert (Hf' : log_fits (take m newer)) by (unfold log_fits in *; rewrite length_take; lia).
  rewrite !merkle_root_root by (done || rewrite ?length_take; lia).
  apply Cproof_cstart in Hc as (Hp & c & rest & Q & E & Hs); [|rewrite length_map; lia].
  rewrite firstn_map in E, Hs. rewrite length_map in Hs.
  unfold verify_consistency.
  rewrite (proj2 (Z.eqb_neq _ _)), (proj2 (Z.leb_gt _ _)), bool_decide_false by (done || lia).
  cbn [orb]. rewrite E.
  replace (Z.of_nat m - 1)%Z with (Z.of_nat (m - 1)) by lia.
  replace (Z.of_nat (length newer) - 1)%Z with (Z.of_nat (length newer - 1)) by lia.
  pose proof (log_fits_usize newer Hfit) as Hu.
  destruct (align_aligned 64 (m - 1) (length newer - 1)) as (f' & s' & -> & Ha); [lia|].
  pose proof (aligned_le _ _ _ _ Ha).
  apply (aligned_cstart _ _ _ _ _ _ _ _ _ Ha) in Hs.
  rewrite (cclimb_consistency_loop _ _ _ _ _ _ _ _ Hs) by lia.
  by rewrite !bool_decide_true.
Qed.

(** An accepted consistency proof shows a prefix. *)
Lemma consistency_prefix older newer proof :
  log_fits newer -> Forall is32 older -> Forall is32 newer -> Forall is32 proof ->
  verify_consistency (Z.of_nat (length older)) (Z.of_nat (length newer))
    (merkle_root older) (merkle_root newer) proof = true ->
  older = take (length older) newer \/
  collision_in (verify_consistency_inputs (Z.of_nat (length older)) (Z.of_nat (length newer))
      (merkle_root older) proof ++ merkle_root_inputs older ++ merkle_root_inputs newer).
Proof.
  unfold verify_consistency, verify_consistency_inputs. intros Hfit Ho32 Hn32 Hp32 Hv.
  destruct ((_ =? 0)%Z || _ || _) eqn:Hg; [done|]. bool_prop.
  assert (Hfo : log_fits older) by (unfold log_fits in *; lia).
  rewrite !merkle_root_root in * by (done || lia).
  replace (Z.of_nat (length older) - 1)%Z with (Z.of_nat (length older - 1)) in * by lia.
  replace (Z.of_nat (length newer) - 1)%Z with (Z.of_nat (length newer - 1)) in * by lia.
  pose proof (log_fits_usize newer Hfit) as Hu.
  destruct (align_aligned 64 (length older - 1) (length newer - 1)) as (f' & s' & Hal & Ha);
    [lia|]. rewrite Hal in *. pose proof (aligned_le _ _ _ _ Ha).
  destruct (if is_power_of_two _ then _ else _) as [|c rest] eqn:Hpath; [done|].
  assert (Hc32 : is32 c).
  { destruct (is_power_of_two _); [injection Hpath as <- _|].
    - apply root_is32; [apply leaf_hashes_is32|rewrite length_map; lia].
    - subst proof. by apply Forall_cons in Hp32 as [? _]. }
  pose proof (mth_inputs_rec_sub (length older) older ltac:(lia) Hfo) as S1.
  pose proof (mth_inputs_rec_sub (length newer) newer ltac:(lia) Hfit) as S2.
  unfold merkle_root_inputs. steps_in Hv. bool_prop. subst.
  apply consistency_loop_cclimb in Heqo; [|lia..].
  apply (aligned_cstart _ _ _ _ _ _ _ _ _ Ha) in Heqo.
  apply (cstart_sound _ _ _ _ _ _ _ (map leaf_hash older) (map leaf_hash newer)) in Heqo as [E|Hcol];
    [| |lia|rewrite length_map; lia|rewrite length_map; lia|apply leaf_hashes_is32..|done|done|done].
  - rewrite firstn_map in E. apply map_leaf_hash_inj in E as [E|Hcol].
    + left. by replace (S (length older - 1)) with (length older) in E by lia.
    + right. eapply collision_in_mono; [done|].
      assert (S3 : map leaf_input (take (S (length older - 1)) newer) ⊆ map leaf_input newer).
      { rewrite <- firstn_map. intros z Hz.
        apply elem_of_take in Hz as (k & Hk & _). by eapply list_elem_of_lookup_2. }
      list_sub.
  - right. eapply collision_in_mono; [done|]. list_sub.
Qed.

(** For every log and every earlier size, the prover's consistency proof
    exists and the RFC 9162 verifier accepts it against the two roots. *)
Theorem consistency_complete newer (m : nat) :
  log_fits newer -> 0 < m < length newer ->
  exists proof, consistency_proof newer m = Some proof /\
    verify_consistency (Z.of_nat m) (Z.of_nat (length newer))
      (merkle_root (take m newer)) (merkle_root newer) proof = true.
Proof. apply consistency_proof_verifies. Qed.

(** C2: A consistency proof accepted against the roots of an older and a newer log
    shows that the older log is a prefix of the newer one, or else two of the
    inputs hashed collide under SHA-256: history cannot be rewritten. *)
Theorem consistency_sound older newer proof :
  log_fits newer -> Forall is32 older -> Forall is32 newer -> Forall is32 proof ->
  verify_consistency (Z.of_nat (length older)) (Z.of_nat (length newer))
    (merkle_root older) (merkle_root newer) proof = true ->
  older = take (length older) newer \/
  collision_in (verify_consistency_inputs (Z.of_nat (length older)) (Z.of_nat (length newer))
      (merkle_root older) proof ++ merkle_root_inputs older ++ merkle_root_inputs newer).
Proof. apply consistency_prefix. Qed.
End Properties.

(** ** Witnesses: a log of five entries, with a concrete digest *)

Import Toy.

Definition demo_log : list bytes :=
  map (fun z => be_bytes 32 z) [11; 22; 33; 44; 55]%Z.

Lemma demo_log_is32 : Forall is32 demo_log.
Proof. repeat constructor. Defined.

Lemma demo_log_fits : log_fits demo_log.
Proof. by vm_compute. Defined.

Lemma merkle_root_by_levels_witness :
  merkle_root demo_log = root (map leaf_hash demo_log).
Proof. apply merkle_root_by_levels; [simpl; lia|apply demo_log_fits]. Defined.

Lemma inclusion_complete_witness :
  exists proof, inclusion_proof demo_log 4 = Some proof /\
    verify_inclusion (be_bytes 32 55) 4 5 proof (merkle_root demo_log) = true.
Proof. apply (inclusion_complete demo_log 4 (be_bytes 32 55)); [apply demo_log_fits|done]. Defined.

Lemma inclusion_sound_witness :
  demo_log !! 2 = Some (be_bytes 32 33) \/
  collision_in (verify_inclusion_inputs (be_bytes 32 33) 2 5
      (default [] (inclusion_proof demo_log 2)) ++ merkle_root_inputs demo_log).
Proof.
  apply (inclusion_sound demo_log 2 (be_bytes 32 33) (default [] (inclusion_proof demo_log 2)));
    [apply demo_log_fits|apply demo_log_is32|done|by vm_compute].
Defined.

Lemma consistency_complete_witness :
  exists proof, consistency_proof demo_log 3 = Some proof /\
    verify_consistency 3 5 (merkle_root (take 3 demo_log)) (merkle_root demo_log) proof = true.
Proof. apply (consistency_complete demo_log 3); [apply demo_log_fits|simpl; lia]. Defined.

Lemma consistency_sound_witness :
  take 3 demo_log = take (length (take 3 demo_log)) demo_log \/
  collision_in (verify_consistency_inputs 3 5 (merkle_root (take 3 demo_log))
      (default [] (consistency_proof demo_log 3)) ++
      merkle_root_inputs (take 3 demo_log) ++ merkle_root_inputs demo_log).
Proof.
  apply (consistency_sound (take 3 demo_log) demo_log (default [] (consistency_proof demo_log 3)));
    [apply demo_log_fits|repeat constructor|apply demo_log_is32| |by vm_compute].
  repeat constructor; by vm_compute.
Defined.
