(* ===== verification/CryptoCore.v ===== *)
(** * The primitive layer of signet-crypto

    The thin wrappers over the interfaces of [Prims]: the error type
    (error.rs), the algorithm registry (alg.rs), AES-256-GCM (aead.rs), AES key
    wrap (keywrap.rs), HKDF (kdf.rs), ECDH (ecdh.rs), and JSON values with the
    canonicalization chokepoint (jcs.rs).  Each one maps the primitive's
    refusals to the crate's errors exactly as the source does. *)

From S2P Require Import Prelude Prims.

(** ** error.rs *)

Inductive CryptoError :=
| Authentication
| InvalidInput (what : string)
| UnknownAlgorithm
| SignatureInvalid.

#[export] Instance CryptoError_eq_dec : EqDecision CryptoError.
Proof. solve_decision. Defined.

Abbreviation cresult := (result CryptoError).

(** [Option::ok_or], [Result::map_err(|_| e)]. *)
Definition ok_or {E A} (e : E) (o : option A) : result E A :=
  match o with Some a => Ok a | None => Err e end.

Lemma ok_or_Ok {E A} (e : E) (o : option A) a : ok_or e o = Ok a <-> o = Some a.
Proof. destruct o; simpl; split; congruence. Qed.

(** [TryFrom<&[u8]> for [u8; N]], with the error the caller maps it to. *)
Definition to_array {E} (n : nat) (e : E) (l : bytes) : result E bytes :=
  if decide (length l = n) then Ok l else Err e.

Lemma to_array_Ok {E} n (e : E) l r : to_array n e l = Ok r <-> l = r /\ length r = n.
Proof.
  unfold to_array. case_decide; split; [intros [= <-]; done|intros [-> _]; done|done|].
  intros [-> ?]. done.
Qed.

(** ** alg.rs *)

Inductive AlgId := A256Gcm | EcdhEsA256Kw | EcdhEsMlKem1024A256Kw | Es256.

#[export] Instance AlgId_eq_dec : EqDecision AlgId.
Proof. solve_decision. Defined.

Definition as_jose (a : AlgId) : string :=
  match a with
  | A256Gcm => "A256GCM"
  | EcdhEsA256Kw => "ECDH-ES+A256KW"
  | EcdhEsMlKem1024A256Kw => "ECDH-ES+ML-KEM-1024+A256KW"
  | Es256 => "ES256"
  end.

Definition from_jose (s : string) : cresult AlgId :=
  if decide (s = "A256GCM") then Ok A256Gcm
  else if decide (s = "ECDH-ES+A256KW") then Ok EcdhEsA256Kw
  else if decide (s = "ECDH-ES+ML-KEM-1024+A256KW") then Ok EcdhEsMlKem1024A256Kw
  else if decide (s = "ES256") then Ok Es256
  else Err UnknownAlgorithm.

Lemma from_jose_as_jose a : from_jose (as_jose a) = Ok a.
Proof. by destruct a. Qed.

Lemma from_jose_Ok s a : from_jose s = Ok a -> s = as_jose a.
Proof. unfold from_jose. repeat case_decide; intros [= <-]; done. Qed.

(** ** aead.rs *)

Section Aead.
Context `{AesGcm}.

Definition seal (key nonce plaintext aad : bytes) : cresult bytes :=
  ok_or (InvalidInput "aes-256-gcm seal") (gcm_encrypt key nonce plaintext aad).

Definition open (key nonce ciphertext_and_tag aad : bytes) : cresult bytes :=
  ok_or Authentication (gcm_decrypt key nonce ciphertext_and_tag aad).

(** Opening is sealing read backwards. *)
Lemma open_iff key nonce c aad p : open key nonce c aad = Ok p <-> seal key nonce p aad = Ok c.
Proof. unfold open, seal. by rewrite !ok_or_Ok, gcm_decrypt_iff. Qed.

Lemma seal_length key nonce p aad c : seal key nonce p aad = Ok c -> length c = (length p + 16)%nat.
Proof. unfold seal. rewrite ok_or_Ok. apply gcm_encrypt_length. Qed.

(** One ciphertext that opens under two different associated data: the event the
    GCM tag is there to exclude.  Theorems about AAD bindings name it. *)
Definition aad_forgery (key nonce c : bytes) (aad aad' : bytes) : Prop :=
  aad <> aad' /\ is_ok (open key nonce c aad) /\ is_ok (open key nonce c aad').

(** The same ciphertext under two bindings: equal bindings, or a forgery. *)
Lemma open_binding key nonce c aad aad' p p' :
  open key nonce c aad = Ok p -> open key nonce c aad' = Ok p' ->
  (aad = aad' /\ p = p') \/ aad_forgery key nonce c aad aad'.
Proof.
  intros H1 H2. destruct (decide (aad = aad')) as [->|Hne]; [left|right].
  - split; [done|congruence].
  - unfold aad_forgery. by rewrite H1, H2.
Qed.

End Aead.

(** ** keywrap.rs *)

Section Keywrap.
Context `{AesKw}.

Definition is_multiple_of_8 (n : nat) : bool := bool_decide (n mod 8 = 0)%nat.

Definition wrap (kek key_data : bytes) : cresult bytes :=
  if bool_decide (length key_data < 16)%nat || negb (is_multiple_of_8 (length key_data))
  then Err (InvalidInput "aes-kw key_data length")
  else ok_or (InvalidInput "aes-kw wrap") (kw_wrap kek key_data).

Definition unwrap (kek wrapped : bytes) : cresult bytes :=
  if bool_decide (length wrapped < 24)%nat || negb (is_multiple_of_8 (length wrapped))
  then Err (InvalidInput "aes-kw wrapped length")
  else ok_or Authentication (kw_unwrap kek wrapped).

Lemma unwrap_iff kek w d : unwrap kek w = Ok d <-> wrap kek d = Ok w.
Proof.
  unfold unwrap, wrap, is_multiple_of_8. split.
  - destruct (_ || _) eqn:E; [done|]. bool_prop. rewrite ok_or_Ok. intros Hu.
    apply kw_unwrap_iff in Hu; [|lia]. pose proof (kw_wrap_length _ _ _ Hu) as Hl.
    rewrite bool_decide_false, bool_decide_true by lia. simpl. by rewrite ok_or_Ok.
  - destruct (_ || _) eqn:E; [done|]. bool_prop. rewrite ok_or_Ok. intros Hw.
    pose proof (kw_wrap_length _ _ _ Hw) as Hl.
    rewrite bool_decide_false, bool_decide_true by lia. simpl. rewrite ok_or_Ok.
    apply kw_unwrap_iff; [lia|done].
Qed.

Lemma wrap_32_total kek k : length k = 32%nat -> exists w, wrap kek k = Ok w.
Proof.
  intros Hk. unfold wrap, is_multiple_of_8. rewrite Hk. simpl.
  destruct (kw_wrap_total kek k) as [w ->]; [lia|by rewrite Hk|]. by exists w.
Qed.

(** One wrap that two different key-encryption keys both open. *)
Definition kek_forgery (w kek kek' : bytes) : Prop :=
  kek <> kek' /\ is_ok (unwrap kek w) /\ is_ok (unwrap kek' w).

End Keywrap.

(** ** kdf.rs *)

Definition hkdf_sha256 `{Hkdf} (ikm salt info : bytes) (out_len : nat) : cresult bytes :=
  ok_or (InvalidInput "hkdf output length") (hkdf_expand ikm salt info out_len).

Lemma hkdf_sha256_32 `{Hkdf} ikm salt info n :
  (n <= 255 * 32)%nat -> exists k, hkdf_sha256 ikm salt info n = Ok k /\ length k = n.
Proof.
  intros Hn. destruct (hkdf_expand_total ikm salt info n Hn) as [k Hk].
  exists k. unfold hkdf_sha256. rewrite ok_or_Ok. split; [done|by eapply hkdf_expand_length].
Qed.

(** ** ecdh.rs *)

Definition ecdh_p256 `{P256} (secret_scalar peer_public_x963 : bytes) : cresult bytes :=
  let*! secret := p256_scalar secret_scalar else InvalidInput "ecdh secret scalar" in
  let*! peer := p256_decode peer_public_x963 else InvalidInput "ecdh peer public key" in
  Ok (p256_dh secret peer).

(** ** JSON values and jcs.rs *)

(** [serde_json::Value].  An object lists its members in the order the map
    iterates them; a number is an integer or the bits of a double. *)
Inductive value :=
| VNull
| VBool (b : bool)
| VNumber (z : Z)
| VFloat (bits : Z)
| VString (s : string)
| VArray (items : list value)
| VObject (members : list (string * value)).

(** [serde_jcs::to_vec], a third-party canonicalizer. *)
Class Jcs := { serde_jcs_to_vec : value -> option bytes }.

Definition key_in_domain (key : string) : bool :=
  forallb (fun b =>
    let z := byte_to_Z b in
    (32 <=? z) && (z <=? 126) && negb (z =? 34) && negb (z =? 92)) (str_bytes key).

(** [check_keys]: every object key, at any depth, is in the domain. *)
Fixpoint check_keys (v : value) : cresult unit :=
  match v with
  | VObject members =>
      (fix go (ms : list (string * value)) : cresult unit :=
         match ms with
         | [] => Ok tt
         | (key, v) :: ms =>
             guard key_in_domain key
             else InvalidInput
               "jcs: object key outside the enforced domain (plain ASCII, no control chars, no quote/backslash)" ;;
             let*? _ := check_keys v in go ms
         end) members
  | VArray items =>
      (fix go (vs : list value) : cresult unit :=
         match vs with
         | [] => Ok tt
         | v :: vs => let*? _ := check_keys v in go vs
         end) items
  | _ => Ok tt
  end.

Definition to_canonical_bytes `{Jcs} (v : value) : cresult bytes :=
  let*? _ := check_keys v in
  ok_or (InvalidInput "jcs canonicalization") (serde_jcs_to_vec v).

(** [jcs::digest]. *)
Definition jcs_digest `{Jcs, Sha256} (v : value) : cresult bytes :=
  let*? b := to_canonical_bytes v in Ok (sha256 b).

(** [value::get] on an object, [Value::as_str]. *)
Definition value_get (v : value) (key : string) : option value :=
  match v with
  | VObject ms => (fun r => r.2.2) <$> list_find (fun kv => kv.1 = key) ms
  | _ => None
  end.
Definition value_as_str (v : value) : option string :=
  match v with VString s => Some s | _ => None end.

(** A value all of whose object keys, at any depth, satisfy [key_in_domain]. *)
Inductive keys_ok : value -> Prop :=
| keys_ok_null : keys_ok VNull
| keys_ok_bool b : keys_ok (VBool b)
| keys_ok_number z : keys_ok (VNumber z)
| keys_ok_float z : keys_ok (VFloat z)
| keys_ok_string s : keys_ok (VString s)
| keys_ok_array vs : Forall keys_ok vs -> keys_ok (VArray vs)
| keys_ok_object ms :
    Forall (fun kv => key_in_domain kv.1 = true /\ keys_ok kv.2) ms -> keys_ok (VObject ms).

Fixpoint value_size (v : value) : nat :=
  match v with
  | VArray vs => S (sum_list_with value_size vs)
  | VObject ms => S (sum_list_with (fun kv => value_size kv.2) ms)
  | _ => 1
  end.


(** The refusal is complete: [check_keys] accepts exactly the in-domain values. *)
Lemma check_keys_keys_ok v : check_keys v = Ok tt <-> keys_ok v.
Proof.
  remember (value_size v) as n eqn:Hn. revert v Hn.
  induction n as [n IH] using lt_wf_ind; intros v ->.
  destruct v as [|b|z|z|s|vs|ms]; try (split; [by constructor|done]).
  - assert (IHv : Forall (fun v => check_keys v = Ok tt <-> keys_ok v) vs).
    { apply Forall_forall. intros v Hv. eapply IH; [|done].
      simpl. apply Nat.lt_succ_r. by apply (sum_list_with_in v value_size). }
    clear IH. split.
    + intros H. constructor. revert H. induction IHv as [|v vs Hv _ IHs]; simpl; [by constructor|].
      destruct (check_keys v) as [[]|] eqn:E; [|done]. intros H. constructor; [by apply Hv|].
      by apply IHs.
    + inversion_clear 1 as [| | | | |vs' HF|]. induction IHv as [|v vs Hv _ IHs]; simpl; [done|].
      apply Forall_cons in HF as [Hk HF]. apply Hv in Hk as ->. by apply IHs.
  - assert (IHv : Forall (fun kv => check_keys kv.2 = Ok tt <-> keys_ok kv.2) ms).
    { apply Forall_forall. intros kv Hv. eapply IH; [|done].
      simpl. apply Nat.lt_succ_r. by apply (sum_list_with_in kv (fun kv => value_size kv.2)). }
    clear IH. split.
    + intros H. constructor. revert H.
      induction IHv as [|[k v] ms Hv _ IHs]; simpl in *; [by constructor|].
      destruct (key_in_domain k) eqn:Ek; [|done].
      destruct (check_keys v) as [[]|] eqn:E; [|done]. intros H.
      constructor; [split; [done|by apply Hv]|]. by apply IHs.
    + inversion_clear 1 as [| | | | | |ms' HF].
      induction IHv as [|[k v] ms Hv _ IHs]; simpl in *; [done|].
      apply Forall_cons in HF as [[Hk Hok] HF]. simpl in *. rewrite Hk.
      apply Hv in Hok as ->. by apply IHs.
Qed.
