(* ===== verification/Text.v ===== *)
(** * Text and JSON documents

    What the code uses of [str] (splitting, lines, ASCII case, integer parsing)
    and of [serde_json::Value] (accessors, the sorted object map, the [json!]
    constructor).  The text form of a document is an interface: reading back
    what was written gives the same document. *)

From S2P Require Import Prelude Prims CryptoCore.

(** ** Strings *)

Definition LF_char : Ascii.ascii := Ascii.ascii_of_byte Byte.x0a.
Definition CR_char : Ascii.ascii := Ascii.ascii_of_byte Byte.x0d.

(** [char::to_ascii_lowercase] on every byte. *)
Definition lower_byte (b : byte) : byte :=
  if byte_in b 65 90 then byte_of_Z (byte_to_Z b + 32) else b.
Definition to_ascii_lowercase (s : string) : string :=
  String.string_of_list_byte (map lower_byte (str_bytes s)).
(** [str::eq_ignore_ascii_case]. *)
Definition eq_ignore_ascii_case (a b : string) : bool :=
  bool_decide (to_ascii_lowercase a = to_ascii_lowercase b).

(** [str::split_once] at a character. *)
Fixpoint split_once (c : Ascii.ascii) (s : string) : option (string * string) :=
  match s with
  | EmptyString => None
  | String.String a s =>
      if decide (a = c) then Some (EmptyString, s)
      else prod_map (String.String a) id <$> split_once c s
  end.

(** [str::split_once] at a string. *)
Fixpoint split_once_str (pat s : string) : option (string * string) :=
  if String.prefix pat s then Some (EmptyString, String.substring (String.length pat) (String.length s) s)
  else match s with
       | EmptyString => None
       | String.String a s => prod_map (String.String a) id <$> split_once_str pat s
       end.

(** [str::starts_with], [str::ends_with], [str::contains]. *)
Definition starts_with (s pat : string) : bool := String.prefix pat s.
Fixpoint ends_with (s pat : string) : bool :=
  bool_decide (s = pat) ||
  match s with EmptyString => false | String.String _ s => ends_with s pat end.
Definition contains (s pat : string) : bool := bool_decide (is_Some (split_once_str pat s)).

(** [str::strip_prefix]. *)
Fixpoint strip_prefix (pat s : string) : option string :=
  match pat, s with
  | EmptyString, _ => Some s
  | String.String a pat, String.String b s => if decide (a = b) then strip_prefix pat s else None
  | _, _ => None
  end.

Definition SLASH : Ascii.ascii := Ascii.ascii_of_byte Byte.x2f.

(** [trim_end_matches(c)]. *)
Fixpoint trim_end_char (c : Ascii.ascii) (s : string) : string :=
  match s with
  | EmptyString => EmptyString
  | String.String a s =>
      let t := trim_end_char c s in
      if bool_decide (t = EmptyString) && bool_decide (a = c) then EmptyString
      else String.String a t
  end.

(** [str::lines]: the text cut after each line feed, with the flag of whether
    the cut was made, then the terminator ([\n] or [\r\n]) removed. *)
Fixpoint split_inclusive (s : string) : list (string * bool) :=
  match s with
  | EmptyString => []
  | String.String a s =>
      if decide (a = LF_char) then (EmptyString, true) :: split_inclusive s
      else match split_inclusive s with
           | [] => [(String.String a EmptyString, false)]
           | (l, t) :: r => (String.String a l, t) :: r
           end
  end.

Fixpoint strip_cr (s : string) : string :=
  match s with
  | EmptyString => EmptyString
  | String.String a EmptyString => if decide (a = CR_char) then EmptyString else s
  | String.String a s => String.String a (strip_cr s)
  end.

Definition lines (s : string) : list string :=
  map (fun lt : string * bool => if lt.2 then strip_cr lt.1 else lt.1) (split_inclusive s).

(** [[..].join("\n")] on strings. *)
Fixpoint join_lines (ls : list string) : string :=
  match ls with
  | [] => EmptyString
  | [l] => l
  | l :: ls => l +:+ String.String LF_char (join_lines ls)
  end.

(** [!l.trim().is_empty()]. *)
Definition not_blank (l : string) : bool := bool_decide (trim l <> EmptyString).

(** [str::parse] to an unsigned integer of at most [max]: an optional [+], then
    at least one decimal digit. *)
Definition digit_val (a : Ascii.ascii) : option Z :=
  let z := byte_to_Z (Ascii.byte_of_ascii a) in
  if (48 <=? z) && (z <=? 57) then Some (z - 48) else None.

Fixpoint digits_val (acc : Z) (s : string) : option Z :=
  match s with
  | EmptyString => Some acc
  | String.String a s => match digit_val a with Some d => digits_val (10 * acc + d) s | None => None end
  end.

Definition PLUS_char : Ascii.ascii := Ascii.ascii_of_byte Byte.x2b.

Definition parse_uint (max : Z) (s : string) : option Z :=
  let t := match s with
           | String.String a s' => if decide (a = PLUS_char) then s' else s
           | EmptyString => s
           end in
  match t with
  | EmptyString => None
  | _ => match digits_val 0 t with
         | Some n => if n <=? max then Some n else None
         | None => None
         end
  end.

(** [String::from_utf8_lossy]: the longest ill-formed prefix of a character is
    replaced by U+FFFD. *)
Definition REPLACEMENT : bytes := [Byte.xef; Byte.xbf; Byte.xbd].

(** Whether [b] can follow the lead byte [a]. *)
Definition second_ok (a b : byte) : bool :=
  if byte_in a 194 223 then byte_in b 128 191
  else if byte_in a 224 224 then byte_in b 160 191
  else if byte_in a 237 237 then byte_in b 128 159
  else if byte_in a 225 239 then byte_in b 128 191
  else if byte_in a 240 240 then byte_in b 144 191
  else if byte_in a 241 243 then byte_in b 128 191
  else if byte_in a 244 244 then byte_in b 128 143
  else false.

Fixpoint lossy (l : bytes) : bytes :=
  match l with
  | [] => []
  | a :: l1 =>
      if byte_in a 0 127 then a :: lossy l1
      else match l1 with
           | [] => REPLACEMENT
           | b :: l2 =>
               if negb (second_ok a b) then REPLACEMENT ++ lossy l1
               else if byte_in a 194 223 then a :: b :: lossy l2
               else match l2 with
                    | [] => REPLACEMENT
                    | c :: l3 =>
                        if negb (byte_in c 128 191) then REPLACEMENT ++ lossy l2
                        else if byte_in a 224 239 then a :: b :: c :: lossy l3
                        else match l3 with
                             | [] => REPLACEMENT
                             | d :: l4 =>
                                 if byte_in d 128 191 then a :: b :: c :: d :: lossy l4
                                 else REPLACEMENT ++ lossy l3
                             end
                    end
           end
  end.

Definition from_utf8_lossy (l : bytes) : string := String.string_of_list_byte (lossy l).

(** [str::rsplit_once] at a character. *)
Fixpoint rsplit_once (c : Ascii.ascii) (s : string) : option (string * string) :=
  match s with
  | EmptyString => None
  | String.String a s =>
      match rsplit_once c s with
      | Some (h, t) => Some (String.String a h, t)
      | None => if decide (a = c) then Some (EmptyString, s) else None
      end
  end.

(** [str::split] at a carriage return and line feed. *)
Fixpoint split_crlf (s : string) : list string :=
  match s with
  | EmptyString => [EmptyString]
  | String.String a s1 =>
      let cons_head ls := match ls with l :: ls => String.String a l :: ls | [] => [] end in
      match s1 with
      | EmptyString => [s]
      | String.String b s2 =>
          if decide (a = CR_char /\ b = LF_char) then EmptyString :: split_crlf s2
          else cons_head (split_crlf s1)
      end
  end.

(** [str::split_whitespace]; [word] is the one being read. *)
Fixpoint words_from (fuel : nat) (word l : bytes) : list bytes :=
  let flush := match word with [] => [] | _ => [word] end in
  match fuel with
  | O => flush
  | S fuel =>
      match l with
      | [] => flush
      | b :: l' =>
          match strip_any white_space l with
          | Some rest => flush ++ words_from fuel [] rest
          | None => words_from fuel (word ++ [b]) l'
          end
      end
  end.
Definition split_whitespace (s : string) : list string :=
  let l := str_bytes s in map String.string_of_list_byte (words_from (S (length l)) [] l).

(** [chars().take(n).collect()]: the bytes of the first [n] characters. *)
Fixpoint take_chars_bytes (n : nat) (l : bytes) : bytes :=
  match l with
  | [] => []
  | b :: l =>
      if byte_in b 128 191 then b :: take_chars_bytes n l
      else match n with O => [] | S n => b :: take_chars_bytes n l end
  end.
Definition take_chars (n : nat) (s : string) : string :=
  String.string_of_list_byte (take_chars_bytes n (str_bytes s)).

Example split_crlf_head : split_crlf ("a" +:+ String.String CR_char (String.String LF_char "b")) = ["a"%string; "b"%string].
Proof. reflexivity. Qed.
Example split_status : split_whitespace "HTTP/1.1  206 Partial" = ["HTTP/1.1"%string; "206"%string; "Partial"%string].
Proof. reflexivity. Qed.

(** ** JSON values *)

Definition value_as_u64 (v : value) : option Z :=
  match v with VNumber z => if (0 <=? z) && (z <=? u64_max) then Some z else None | _ => None end.
Definition value_as_bool (v : value) : option bool :=
  match v with VBool b => Some b | _ => None end.
Definition value_as_array (v : value) : option (list value) :=
  match v with VArray vs => Some vs | _ => None end.
Definition value_as_object (v : value) : option (list (string * value)) :=
  match v with VObject ms => Some ms | _ => None end.
Definition value_is_null (v : value) : bool := match v with VNull => true | _ => false end.

(** [v.get(k).and_then(Value::as_str)] and its siblings. *)
Definition get_str (v : value) (k : string) : option string := value_get v k ≫= value_as_str.
Definition get_u64 (v : value) (k : string) : option Z := value_get v k ≫= value_as_u64.
Definition get_bool (v : value) (k : string) : option bool := value_get v k ≫= value_as_bool.
Definition get_array (v : value) (k : string) : option (list value) := value_get v k ≫= value_as_array.

(** [u16::try_from] of a [u64]. *)
Definition u16_try_from (n : Z) : option Z := if n <=? u16_max then Some n else None.

(** The object map is a [BTreeMap<String, Value>]: members in byte order of
    their keys. *)
Definition key_lt (a b : string) : bool := String.ltb a b.

Fixpoint obj_insert (k : string) (v : value) (ms : list (string * value)) : list (string * value) :=
  match ms with
  | [] => [(k, v)]
  | (k', v') :: ms' =>
      if decide (k = k') then (k, v) :: ms'
      else if key_lt k k' then (k, v) :: ms
      else (k', v') :: obj_insert k v ms'
  end.

Definition obj_of (l : list (string * value)) : list (string * value) :=
  foldl (fun acc kv => obj_insert kv.1 kv.2 acc) [] l.

(** [json!({ k: v, .. })]. *)
Definition json_obj (l : list (string * value)) : value := VObject (obj_of l).

(** [all[k] = v] on an object. *)
Definition value_index_set (all : value) (k : string) (v : value) : value :=
  match all with VObject ms => VObject (obj_insert k v ms) | _ => all end.

(** [json!] of an [Option]. *)
Definition json_opt {A} (f : A -> value) (o : option A) : value :=
  match o with Some a => f a | None => VNull end.

(** A document every object of which has its keys in strict order, and whose
    numbers are integers in range: what the reader returns and the writer keeps
    exactly.  A double is outside: the crate does not promise its round trip. *)
Fixpoint keys_sorted (ks : list string) : bool :=
  match ks with
  | a :: (b :: _) as ks' => key_lt a b && keys_sorted ks'
  | _ => true
  end.

Fixpoint exact (v : value) : bool :=
  match v with
  | VNumber z => (i64_min <=? z) && (z <=? u64_max)
  | VFloat _ => false
  | VArray vs => forallb exact vs
  | VObject ms => keys_sorted (map fst ms) && forallb (fun kv => exact kv.2) ms
  | _ => true
  end.

(** The nesting of arrays and objects; the reader refuses 128 levels. *)
Fixpoint value_depth (v : value) : nat :=
  match v with
  | VArray vs => S (max_list_with value_depth vs)
  | VObject ms => S (max_list_with (fun kv => value_depth kv.2) ms)
  | _ => 0
  end.

Definition stable (v : value) : bool := exact v && bool_decide (value_depth v <= 127)%nat.

(** [serde_json::from_str] (its error is shown in messages),
    [serde_json::to_vec_pretty], and [Display for Value]. *)
Class JsonText := {
  json_from_str : string -> result string value;
  json_to_pretty : value -> string;
  json_display : value -> string;
  json_round_trip v : stable v = true -> json_from_str (json_to_pretty v) = Ok v;
}.

(** ** Lemmas *)

(** *** Decimal integers *)

Lemma digit_val_char x : (x < 10)%N -> digit_val (pretty_N_char x) = Some (Z.of_N x).
Proof. intros H. destruct x as [|p]; [done|]. by do 4 (destruct p as [p|p|]; try done; try lia). Qed.

Lemma digits_val_pretty_go x acc s :
  exists k, digits_val acc (pretty_N_go x s) = digits_val (acc * 10 ^ Z.of_nat k + Z.of_N x) s /\
    (x <> 0%N -> pretty_N_go x s <> EmptyString /\
       (exists d, (d < 10)%N /\ exists t, pretty_N_go x s = String.String (pretty_N_char d) t)).
Proof.
  revert acc s. induction (N.lt_wf_0 x) as [x _ IH]. intros acc s.
  destruct (decide (x = 0%N)) as [->|Hx].
  { exists 0%nat. rewrite pretty_N_go_0. split; [|done]. f_equal. cbn. lia. }
  rewrite pretty_N_go_step by lia.
  assert (Hlt : (x / 10 < x)%N) by (apply N.div_lt; lia).
  assert (Hm : (x mod 10 < 10)%N) by (apply N.mod_lt; lia).
  destruct (IH _ Hlt acc (String.String (pretty_N_char (x mod 10)) s)) as (k & Ek & Hn).
  exists (S k). split.
  - rewrite Ek. cbn [digits_val]. rewrite digit_val_char by done. f_equal.
    rewrite Nat2Z.inj_succ, Z.pow_succ_r by lia.
    pose proof (N.div_mod' x 10) as E. apply (f_equal Z.of_N) in E. lia.
  - intros _. destruct (decide (x / 10 = 0)%N) as [E0|E0]; [|by apply Hn].
    rewrite E0, pretty_N_go_0. split; [done|]. by exists (x mod 10)%N; eauto.
Qed.

Lemma pretty_N_char_not_plus d : (d < 10)%N -> pretty_N_char d <> PLUS_char.
Proof. intros H. destruct d as [|p]; [done|]. by do 4 (destruct p as [p|p|]; try done; try lia). Qed.

(** An integer printed with [to_string] is parsed back. *)
Lemma parse_uint_pretty max n : 0 <= n <= max -> parse_uint max (pretty n) = Some n.
Proof.
  intros Hn. destruct n as [|p|p]; [| |lia].
  - destruct max; [done|done|lia].
  - assert (E : pretty (Z.pos p) = pretty_N_go (N.pos p) EmptyString).
    { change (pretty (Z.pos p)) with (pretty (N.pos p)). unfold pretty, pretty_N. by case_decide. }
    rewrite E. destruct (digits_val_pretty_go (N.pos p) 0 EmptyString) as (k & Ek & Hk).
    destruct Hk as (Hne & d & Hd & t & Et); [done|]. unfold parse_uint. rewrite Et in *.
    rewrite decide_False by by apply pretty_N_char_not_plus. rewrite Ek. cbn [digits_val].
    rewrite Z.mul_0_l, Z.add_0_l. cbn [Z.of_N]. by rewrite (proj2 (Z.leb_le _ _)) by lia.
Qed.

Lemma parse_uint_range max s n : parse_uint max s = Some n -> 0 <= n <= max.
Proof.
  assert (Hd : forall s acc n, 0 <= acc -> digits_val acc s = Some n -> 0 <= n).
  { clear. induction s as [|a s IH]; cbn; intros acc n Ha; [by intros [= <-]|].
    unfold digit_val. destruct (_ && _) eqn:E; [|done]. bool_prop. apply IH. lia. }
  unfold parse_uint. generalize (match s with "" => s | String.String a s' => if decide (a = PLUS_char) then s' else s end).
  intros t. destruct t as [|a t]; [done|]. destruct (digits_val 0 _) as [k|] eqn:E; [|done].
  destruct (k <=? max) eqn:Ek; [|done]. intros [= <-]. bool_prop. split; [|done].
  eapply Hd; [|done]. lia.
Qed.

Lemma str_bytes_app a b : str_bytes (a +:+ b) = str_bytes a ++ str_bytes b.
Proof.
  unfold str_bytes. induction a as [|c a IH]; [done|].
  change (Ascii.byte_of_ascii c :: String.list_byte_of_string (a +:+ b)
          = Ascii.byte_of_ascii c :: (String.list_byte_of_string a ++ String.list_byte_of_string b)).
  by rewrite IH.
Qed.

Lemma string_append_assoc (a b c : string) : (a +:+ b) +:+ c = a +:+ (b +:+ c).
Proof. apply (inj str_bytes). rewrite !str_bytes_app. by rewrite app_assoc. Qed.

Lemma string_append_inj_r (a b c : string) : a +:+ c = b +:+ c -> a = b.
Proof.
  intros H%(f_equal str_bytes). rewrite !str_bytes_app in H. apply (inj str_bytes). by apply (inj (.++ _)) in H.
Qed.

(** *** Objects *)

Lemma key_lt_total a b : a <> b -> key_lt a b = false -> key_lt b a = true.
Proof.
  unfold key_lt, String.ltb. rewrite (String.compare_antisym b a). intros Hne.
  destruct (String.compare a b) eqn:E; simpl; [|done..].
  by apply String.compare_eq_iff in E.
Qed.

Lemma value_get_cons k v ms j :
  value_get (VObject ((k, v) :: ms)) j = if decide (k = j) then Some v else value_get (VObject ms) j.
Proof.
  unfold value_get. cbn. case_decide; [done|]. by destruct (list_find _ ms) as [[? ?]|].
Qed.

Lemma obj_insert_get k v ms j :
  value_get (VObject (obj_insert k v ms)) j = if decide (k = j) then Some v else value_get (VObject ms) j.
Proof.
  induction ms as [|[k' v'] ms IH]; cbn [obj_insert]; [by rewrite value_get_cons|].
  destruct (decide (k = k')) as [<-|E1]; [rewrite !value_get_cons; by case_decide|].
  destruct (key_lt k k'); rewrite !value_get_cons; [done|]. rewrite IH.
  repeat case_decide; congruence.
Qed.

Lemma value_get_index_set ms k v j :
  value_get (value_index_set (VObject ms) k v) j
  = if decide (k = j) then Some v else value_get (VObject ms) j.
Proof. apply obj_insert_get. Qed.

Lemma keys_sorted_cons a ks :
  keys_sorted (a :: ks) = true <->
  (match ks with [] => True | b :: _ => key_lt a b = true end) /\ keys_sorted ks = true.
Proof. destruct ks; cbn; rewrite ?andb_true_iff; tauto. Qed.

Lemma obj_insert_head k v ms :
  exists k0 v0 r, obj_insert k v ms = (k0, v0) :: r /\
    (k0 = k \/ exists v1 r1, ms = (k0, v1) :: r1).
Proof.
  destruct ms as [|[k' v'] ms]; cbn; [naive_solver|].
  case_decide; [naive_solver|]. destruct (key_lt k k'); naive_solver.
Qed.

Lemma obj_insert_sorted k v ms :
  keys_sorted (map fst ms) = true -> keys_sorted (map fst (obj_insert k v ms)) = true.
Proof.
  induction ms as [|[k' v'] ms IH]; intros Hs; [done|]. cbn [obj_insert].
  cbn [map fst] in Hs. apply keys_sorted_cons in Hs as [Hh Ht].
  case_decide as E1; [subst; cbn [map fst]; by apply keys_sorted_cons|].
  destruct (key_lt k k') eqn:E2.
  - cbn [map fst]. apply keys_sorted_cons. split; [done|]. by apply keys_sorted_cons.
  - cbn [map fst]. apply keys_sorted_cons. split; [|by apply IH].
    destruct (obj_insert_head k v ms) as (k0 & v0 & r & -> & [->|(v1 & r1 & ->)]); cbn;
      [by apply key_lt_total|done].
Qed.

Lemma obj_insert_forallb (f : string * value -> bool) k v ms :
  f (k, v) = true -> forallb f ms = true -> forallb f (obj_insert k v ms) = true.
Proof.
  intros Hk. induction ms as [|[k' v'] ms IH]; cbn; rewrite ?andb_true_iff; [done|].
  intros [Hk' Hms]. case_decide; [subst; cbn; by rewrite Hk, Hms|].
  destruct (key_lt k k'); cbn; rewrite ?Hk, ?Hk', ?Hms; [done|]. by apply IH.
Qed.

Lemma obj_insert_depth n k v ms :
  (value_depth v < n)%nat -> (value_depth (VObject ms) <= n)%nat ->
  (value_depth (VObject (obj_insert k v ms)) <= n)%nat.
Proof.
  cbn. intros Hv. induction ms as [|[k' v'] ms IH]; cbn; [lia|]. intros Hms.
  case_decide; [subst; cbn; lia|]. destruct (key_lt k k'); cbn; lia.
Qed.

Lemma stable_insert k v ms :
  exact v = true -> (value_depth v < 127)%nat ->
  stable (VObject ms) = true -> stable (VObject (obj_insert k v ms)) = true.
Proof.
  unfold stable. rewrite !andb_true_iff. intros Hv Hd [[Hs He]%andb_true_iff Hm]. bool_prop.
  split.
  - cbn [exact]. rewrite obj_insert_sorted by done. cbn [andb].
    by apply (obj_insert_forallb (fun kv => exact kv.2)).
  - apply bool_decide_eq_true. by apply obj_insert_depth.
Qed.

(** An object built by [json!] of exact members is exact. *)
Lemma json_obj_exact l :
  forallb (fun kv => exact kv.2) l = true -> exact (json_obj l) = true.
Proof.
  unfold json_obj, obj_of. assert (H0 : exact (VObject []) = true) by done. revert H0.
  generalize (@nil (string * value)). induction l as [|[k v] l IH]; intros acc Ha; [done|].
  cbn [forallb foldl snd fst]. intros [Hv Hl]%andb_true_iff. apply IH; [|done].
  cbn [exact] in *. apply andb_true_iff in Ha as [Hs Ha]. rewrite obj_insert_sorted by done.
  cbn [andb]. by apply (obj_insert_forallb (fun kv => exact kv.2)).
Qed.

Lemma json_obj_depth n l :
  Forall (fun kv => (value_depth kv.2 < n)%nat) l -> (0 < n)%nat -> (value_depth (json_obj l) <= n)%nat.
Proof.
  intros Hl Hn. unfold json_obj, obj_of.
  assert (H0 : (value_depth (VObject []) <= n)%nat) by (cbn; lia). revert H0.
  generalize (@nil (string * value)). induction Hl as [|[k v] l Hv Hl IH]; intros acc Ha; [done|].
  cbn [foldl]. apply IH. by apply obj_insert_depth.
Qed.

(** The last member given for a key is the one read. *)
Lemma json_obj_get l j :
  value_get (json_obj l) j = snd <$> last (filter (fun kv => kv.1 = j) l).
Proof.
  unfold json_obj, obj_of. induction l as [|[k v] l IH] using rev_ind; [done|].
  rewrite foldl_app. cbn [foldl]. rewrite obj_insert_get, filter_app, last_app. cbn [fst snd].
  case_decide as E.
  - subst. rewrite filter_cons_True, filter_nil by done. done.
  - rewrite filter_cons_False by (cbn; congruence). rewrite filter_nil. exact IH.
Qed.

(** *** Lines *)

Fixpoint char_free (c : Ascii.ascii) (s : string) : Prop :=
  match s with EmptyString => True | String.String a s => a <> c /\ char_free c s end.

Lemma char_free_app c s t : char_free c (s +:+ t) <-> char_free c s /\ char_free c t.
Proof.
  induction s as [|a s IH]; [cbn; tauto|].
  change (String.String a s +:+ t) with (String.String a (s +:+ t)). cbn [char_free]. rewrite IH. tauto.
Qed.

Lemma strip_cr_free c s : char_free c s -> char_free c (strip_cr s).
Proof.
  induction s as [|a s IH]; [done|]. intros [Ha Hs]. destruct s as [|b s].
  - cbn. by case_decide.
  - change (strip_cr (String.String a (String.String b s)))
      with (String.String a (strip_cr (String.String b s))). split; [done|by apply IH].
Qed.

Lemma split_inclusive_last l :
  char_free LF_char l -> l <> EmptyString -> split_inclusive l = [(l, false)].
Proof.
  induction l as [|a l IH]; [done|]. intros [Ha Hl] _. cbn. rewrite decide_False by done.
  destruct l; [done|]. by rewrite IH.
Qed.

Lemma split_inclusive_cut l s :
  char_free LF_char l ->
  split_inclusive (l +:+ String.String LF_char s) = (l, true) :: split_inclusive s.
Proof.
  induction l as [|a l IH].
  - done.
  - intros [Ha Hl].
    change (String.String a l +:+ String.String LF_char s)
      with (String.String a (l +:+ String.String LF_char s)).
    cbn [split_inclusive]. rewrite decide_False by done. by rewrite IH.
Qed.

(** What [lines] gives, joined again, has the same lines, if none ends in a carriage
    return that joining would make part of a line end. *)
Lemma lines_join ls :
  Forall (fun l => l <> EmptyString /\ char_free LF_char l /\ strip_cr l = l) ls ->
  lines (join_lines ls) = ls.
Proof.
  unfold lines. induction 1 as [|l ls (Hne & Hlf & Hcr) Hls IH]; [done|].
  destruct ls as [|l' ls].
  - cbn [join_lines]. by rewrite split_inclusive_last.
  - change (join_lines (l :: l' :: ls)) with (l +:+ String.String LF_char (join_lines (l' :: ls))).
    rewrite split_inclusive_cut by done. cbn [map fst snd]. by rewrite Hcr, IH.
Qed.

Lemma split_inclusive_free s : Forall (fun lt => char_free LF_char lt.1) (split_inclusive s).
Proof.
  induction s as [|a s IH]; [constructor|]. cbn. case_decide as E; [by constructor|].
  destruct (split_inclusive s) as [|[l t] r]; [constructor; [cbn; tauto|constructor]|].
  apply Forall_cons in IH as [H1 Hr]. constructor; [cbn in *; tauto|done].
Qed.

Lemma lines_free s : Forall (char_free LF_char) (lines s).
Proof.
  unfold lines. apply Forall_map.
  eapply Forall_impl; [apply split_inclusive_free|]. intros [l []] H1; cbn in *; [by apply strip_cr_free|done].
Qed.

(** ** A concrete text form

    Documents are numbered by the encoding of finite trees; the text is the
    number in binary. *)
Module TextToy.

Abbreviation leaf := (bool + (bool * Z) + string)%type.

Fixpoint to_tree (v : value) : gen_tree leaf :=
  match v with
  | VNull => GenNode 0 []
  | VBool b => GenLeaf (inl (inl b))
  | VNumber z => GenLeaf (inl (inr (true, z)))
  | VFloat z => GenLeaf (inl (inr (false, z)))
  | VString s => GenLeaf (inr s)
  | VArray vs => GenNode 1 (map to_tree vs)
  | VObject ms => GenNode 2 (map (fun kv => GenNode 3 [GenLeaf (inr kv.1); to_tree kv.2]) ms)
  end.

Fixpoint of_tree (t : gen_tree leaf) : value :=
  match t with
  | GenLeaf (inl (inl b)) => VBool b
  | GenLeaf (inl (inr (true, z))) => VNumber z
  | GenLeaf (inl (inr (false, z))) => VFloat z
  | GenLeaf (inr s) => VString s
  | GenNode 1 ts => VArray (map of_tree ts)
  | GenNode 2 ts =>
      VObject (map (fun t => match t with
                             | GenNode 3 [GenLeaf (inr k); t] => (k, of_tree t)
                             | _ => (EmptyString, VNull)
                             end) ts)
  | _ => VNull
  end.

Lemma of_to_tree v : of_tree (to_tree v) = v.
Proof.
  remember (value_size v) as n eqn:Hn. revert v Hn.
  induction n as [n IH] using lt_wf_ind; intros v ->.
  destruct v as [|b|z|z|s|vs|ms]; [done..| |]; cbn [to_tree of_tree]; f_equal; rewrite map_map.
  - rewrite <- (map_id vs) at 2. apply map_ext_in. intros v Hv%list_elem_of_In.
    eapply IH; [|done]. cbn. apply Nat.lt_succ_r. by apply (sum_list_with_in v value_size).
  - rewrite <- (map_id ms) at 2. apply map_ext_in. intros [k v] Hv%list_elem_of_In. cbn. f_equal.
    eapply IH; [|done]. cbn. apply Nat.lt_succ_r.
    by apply (sum_list_with_in (k, v) (fun kv => value_size kv.2)).
Qed.

Definition BIT0 : Ascii.ascii := Ascii.ascii_of_byte Byte.x30.
Definition BIT1 : Ascii.ascii := Ascii.ascii_of_byte Byte.x31.

Fixpoint pos_text (p : positive) : string :=
  match p with
  | xH => EmptyString
  | xO p => String.String BIT0 (pos_text p)
  | xI p => String.String BIT1 (pos_text p)
  end.

Fixpoint text_pos (s : string) : positive :=
  match s with
  | EmptyString => xH
  | String.String a s => if decide (a = BIT1) then xI (text_pos s) else xO (text_pos s)
  end.

Lemma text_pos_text p : text_pos (pos_text p) = p.
Proof. induction p as [p IH|p IH|]; cbn; [by rewrite IH..|done]. Qed.

Definition to_text (v : value) : string := pos_text (encode (to_tree v)).
Definition of_text (s : string) : result string value :=
  match decode (text_pos s) with
  | Some t => Ok (of_tree t)
  | None => Err "not a document"
  end.

#[export] Instance json_toy : JsonText.
Proof.
  refine {| json_from_str := of_text; json_to_pretty := to_text; json_display := to_text |}.
  intros v _. unfold of_text, to_text. by rewrite text_pos_text, decode_encode, of_to_tree.
Defined.

(** The same with short names for some documents: a name is not a text the
    writer produces, which has binary digits only. *)
Definition name_ok (s : string) : bool :=
  negb (forallb (fun b => byte_in b 48 49) (str_bytes s)).

Lemma pos_text_bits p : forallb (fun b => byte_in b 48 49) (str_bytes (pos_text p)) = true.
Proof. induction p as [p IH|p IH|]; [exact IH|exact IH|done]. Qed.

Definition json_table (tbl : list (string * value)) (Htbl : forallb (fun kv => name_ok kv.1) tbl = true) : JsonText.
Proof.
  refine {| json_from_str s :=
              match list_find (fun kv => kv.1 = s) tbl with
              | Some (_, (_, v)) => Ok v
              | None => of_text s
              end;
            json_to_pretty := to_text; json_display := to_text |}.
  intros v Hv. destruct (list_find _ tbl) as [[i [k w]]|] eqn:Ef.
  - apply list_find_Some in Ef as (Hi & Hk & _). cbn in Hk. subst k.
    rewrite forallb_forall in Htbl. apply list_elem_of_lookup_2, list_elem_of_In, Htbl in Hi. cbn in Hi.
    unfold name_ok, to_text in Hi. by rewrite pos_text_bits in Hi.
  - by apply (@json_round_trip json_toy).
Defined.

End TextToy.
