(* ===== verification/VrfIndex.v ===== *)
(** * The log's account index (crypto/src/vrf.rs)

    In an epoch of version 3 a log entry names its account by the output of a
    verifiable random function over the account id.  The VRF itself is the
    vrf-r255 crate, an interface here. *)

From S2P Require Import Prelude Prims CryptoCore.

Module Vrf.

(** The vrf-r255 crate: keys and proofs with their encodings, proving and
    verification.  A proof made with a key verifies under its public key. *)
Class VrfR255 := {
  vrf_sk : Type;
  vrf_pk : Type;
  vrf_proof : Type;
  sk_from_bytes : bytes -> option vrf_sk;
  pk_of : vrf_sk -> vrf_pk;
  pk_to_bytes : vrf_pk -> bytes;
  pk_from_bytes : bytes -> option vrf_pk;
  proof_to_bytes : vrf_proof -> bytes;
  proof_from_bytes : bytes -> option vrf_proof;
  vrf_prove : vrf_sk -> bytes -> vrf_proof;
  vrf_verify : vrf_pk -> bytes -> vrf_proof -> option bytes;
  pk_from_to p : pk_from_bytes (pk_to_bytes p) = Some p;
  proof_from_to pi : proof_from_bytes (proof_to_bytes pi) = Some pi;
  pk_length p : length (pk_to_bytes p) = 32%nat;
  proof_length pi : length (proof_to_bytes pi) = 80%nat;
  vrf_verify_prove s a : is_Some (vrf_verify (pk_of s) a (vrf_prove s a));
  vrf_verify_length p a pi o : vrf_verify p a pi = Some o -> length o = 64%nat;
}.

Definition VRF_SUITE : string := "ECVRF-RISTRETTO255-SHA512".
Definition PUBLIC_KEY_LEN : nat := 32.
Definition PROOF_LEN : nat := 80.
Definition INDEX_LEN : nat := 64.
Definition ALPHA_DOMAIN : bytes := str_bytes "signet-pubkey-log-v3-account-index".

Section Code.
Context `{VrfR255}.

Definition alpha (account_id : bytes) : bytes := ALPHA_DOMAIN ++ [Byte.x00] ++ account_id.

Record VrfSecretKey := mk_VrfSecretKey { sk_bytes : bytes; sk_public : bytes }.

Definition from_bytes (b : bytes) : cresult VrfSecretKey :=
  let*! sk := sk_from_bytes b else InvalidInput "VRF secret key" in
  Ok (mk_VrfSecretKey b (pk_to_bytes (pk_of sk))).

(** [generate]: the draws of the operating system's generator in order, until
    one is a canonical scalar. *)
Fixpoint generate (draws : list bytes) : option VrfSecretKey :=
  match draws with
  | [] => None
  | raw :: draws => match from_bytes raw with Ok key => Some key | Err _ => generate draws end
  end.

Definition verify (public_key account_id proof : bytes) : cresult bytes :=
  let*! pk := pk_from_bytes public_key else InvalidInput "VRF public key" in
  let*! pi := proof_from_bytes proof else InvalidInput "VRF proof" in
  ok_or SignatureInvalid (vrf_verify pk (alpha account_id) pi).

Definition prove (k : VrfSecretKey) (account_id : bytes) : cresult (bytes * bytes) :=
  let*! sk := sk_from_bytes (sk_bytes k) else InvalidInput "VRF secret key" in
  let proof := vrf_prove sk (alpha account_id) in
  let*? index := verify (sk_public k) account_id (proof_to_bytes proof) in
  Ok (index, proof_to_bytes proof).

(** A loaded key proves every account, and anyone derives the same index from
    the proof. *)
Lemma prove_verifies b k account_id :
  from_bytes b = Ok k ->
  exists index proof, prove k account_id = Ok (index, proof) /\
    length index = INDEX_LEN /\ length proof = PROOF_LEN /\
    verify (sk_public k) account_id proof = Ok index.
Proof.
  unfold from_bytes, prove. intros E. destruct (sk_from_bytes b) as [sk|] eqn:Es; [|done].
  apply (inj Ok) in E as <-. cbn [sk_bytes sk_public]. rewrite Es.
  destruct (vrf_verify_prove sk (alpha account_id)) as [o Ho].
  assert (Hv : verify (pk_to_bytes (pk_of sk)) account_id
      (proof_to_bytes (vrf_prove sk (alpha account_id))) = Ok o).
  { unfold verify. by rewrite pk_from_to, proof_from_to, Ho. }
  exists o, (proof_to_bytes (vrf_prove sk (alpha account_id))). rewrite Hv.
  split; [done|]. split; [by eapply vrf_verify_length|]. split; [apply proof_length|done].
Qed.

Lemma verify_length pk a pi index : verify pk a pi = Ok index -> length index = INDEX_LEN.
Proof.
  unfold verify. intros E. steps_in E. apply ok_or_Ok in E. by eapply vrf_verify_length.
Qed.

(** The framing is unambiguous: equal inputs come from equal accounts. *)
#[export] Instance alpha_inj : Inj (=) (=) alpha.
Proof. unfold alpha. intros a b E. by apply app_inv_head, app_inv_head in E. Qed.

End Code.

(** A concrete VRF: the proof repeats the key, and the output is the input cut
    to length. *)
Module VrfToy.
Import Prims.Toy.

Definition fixed (n : nat) : Type := { l : bytes | bool_decide (length l = n) }.
Definition mk_fixed (n : nat) (l : bytes) : option (fixed n) :=
  match decide (bool_decide (length l = n)) with
  | left H => Some (exist _ l H)
  | right _ => None
  end.

Lemma mk_fixed_Some n (x : fixed n) : mk_fixed n (`x) = Some x.
Proof.
  destruct x as [l H]. unfold mk_fixed; simpl.
  destruct (decide _) as [H'|H']; [|by contradict H']. f_equal. f_equal. apply proof_irrel.
Qed.

Definition proof_of (sk : fixed 32) (a : bytes) : fixed 80 :=
  exist _ (fit 80 (`sk)) (bool_decide_pack _ (length_fit 80 (`sk))).

#[export] Instance vrf_toy : VrfR255.
Proof.
  refine {| vrf_sk := fixed 32; vrf_pk := fixed 32; vrf_proof := fixed 80;
    sk_from_bytes := mk_fixed 32; pk_of := id; pk_to_bytes p := `p; pk_from_bytes := mk_fixed 32;
    proof_to_bytes p := `p; proof_from_bytes := mk_fixed 80; vrf_prove := proof_of;
    vrf_verify p a pi :=
      if decide (take 32 (`pi) = `p) then Some (fit 64 (rev a ++ `p)) else None |}.
  - apply mk_fixed_Some.
  - apply mk_fixed_Some.
  - intros p. exact (bool_decide_unpack _ (proj2_sig p)).
  - intros p. exact (bool_decide_unpack _ (proj2_sig p)).
  - intros s a. rewrite decide_True; [eauto|]. cbn. unfold fit.
    pose proof (bool_decide_unpack _ (proj2_sig s)) as Hl. cbn in Hl.
    rewrite take_take, take_app_3; [done|]. lia.
  - intros p a pi o. case_decide; [|done]. intros E. apply (inj Some) in E as <-. apply length_fit.
Defined.

End VrfToy.
End Vrf.
