(* ===== verification/Ecdsa.v ===== *)
(** * ES256 signatures (crypto/src/ecdsa.rs)

    Signing, and verification of either encoding of a signature.  The p256
    crate's arithmetic is the interface [Ecdsa256]. *)

From S2P Require Import Prelude Prims CryptoCore.

Section Code.
Context `{HP : P256, !Ecdsa256}.

Definition sign_es256 (secret_scalar msg : bytes) : cresult bytes :=
  let*! sk := p256_scalar secret_scalar else InvalidInput "es256 secret scalar" in
  Ok (signature_to_bytes (ecdsa_sign sk msg)).

Definition sig_raw_to_der (raw : bytes) : cresult bytes :=
  let*! s := signature_from_slice raw else InvalidInput "es256 raw r‖s" in
  Ok (signature_to_der s).

Definition sig_der_to_raw (der : bytes) : cresult bytes :=
  let*! s := signature_from_der der else InvalidInput "es256 DER" in
  Ok (signature_to_bytes s).

(** [parse_signature]: raw at exactly 64 bytes, DER at any other length up to 72. *)
Definition parse_signature (sig : bytes) : cresult ecdsa_signature :=
  if decide (length sig = 64%nat) then
    ok_or (InvalidInput "es256 raw r‖s") (signature_from_slice sig)
  else if decide (length sig <= 72)%nat then
    ok_or (InvalidInput "es256 DER") (signature_from_der sig)
  else Err (InvalidInput "es256 signature length").

Definition verify_es256 (pubkey_x963 msg sig : bytes) : cresult unit :=
  let*! vk := p256_decode pubkey_x963 else InvalidInput "es256 public key" in
  let*? signature := parse_signature sig in
  guard ecdsa_verify vk msg signature else SignatureInvalid ;;
  Ok tt.

Lemma parse_signature_raw s : parse_signature (signature_to_bytes s) = Ok s.
Proof.
  unfold parse_signature. rewrite decide_True by apply signature_to_bytes_length.
  by rewrite signature_from_to_bytes.
Qed.

Lemma parse_signature_der s :
  length (signature_to_der s) <> 64%nat -> parse_signature (signature_to_der s) = Ok s.
Proof.
  intros Hl. unfold parse_signature. rewrite decide_False by done.
  rewrite decide_True by apply signature_to_der_length. by rewrite signature_from_to_der.
Qed.

Lemma sign_es256_Ok d m sig :
  sign_es256 d m = Ok sig <-> is_Some (p256_scalar d) /\ sig = signature_to_bytes (ecdsa_sign d m).
Proof.
  unfold sign_es256. destruct (p256_scalar d) as [d'|] eqn:E; split.
  - intros [= <-]. apply p256_scalar_id in E as ->. by split; [eexists|].
  - intros [_ ->]. by apply p256_scalar_id in E as ->.
  - done.
  - by intros [[? ?] _].
Qed.

Lemma sign_es256_length d m sig : sign_es256 d m = Ok sig -> length sig = 64%nat.
Proof. intros [_ ->]%sign_es256_Ok. apply signature_to_bytes_length. Qed.

(** A signature verifies under the signer's public key. *)
Lemma verify_sign_es256 d m sig :
  sign_es256 d m = Ok sig -> verify_es256 (p256_x963 (p256_public d)) m sig = Ok tt.
Proof.
  intros [Hd ->]%sign_es256_Ok. unfold verify_es256, p256_x963.
  rewrite p256_decode_uncompressed, parse_signature_raw.
  by rewrite ecdsa_verify_sign.
Qed.

(** The two encodings convert into each other, and (at any DER length other than
    64) verify alike. *)
Lemma raw_der_verify_alike d m raw :
  sign_es256 d m = Ok raw ->
  exists der, sig_raw_to_der raw = Ok der /\ sig_der_to_raw der = Ok raw /\
    (length der <> 64%nat -> verify_es256 (p256_x963 (p256_public d)) m der = Ok tt).
Proof.
  intros [Hd ->]%sign_es256_Ok. unfold sig_raw_to_der.
  rewrite signature_from_to_bytes. eexists; split; [done|]. split.
  - unfold sig_der_to_raw. by rewrite signature_from_to_der.
  - intros Hl. unfold verify_es256, p256_x963.
    rewrite p256_decode_uncompressed, parse_signature_der by done.
    by rewrite ecdsa_verify_sign.
Qed.

End Code.
