(* ===== verification/Envelope.v ===== *)
(** * File envelopes (crypto/src/envelope.rs)

    The single-PUT file frame and the multipart chunk frame, their openers, and
    the inversion of the multipart framing.  The theorems: opening is exactly
    sealing read backwards; a chunk opens only at the position, in the file, and
    with the terminal flag it was sealed with (so truncation, reordering and
    substitution need an AES-GCM forgery, which the statement names); the
    plaintext length of a framed file is recovered from its stored length for
    every size the framing can have. *)

From S2P Require Import Prelude Prims CryptoCore.

Ltac Zify.zify_post_hook ::= Z.div_mod_to_equations.

Module Envelope.
Section Code.
Context `{AesGcm, Hkdf}.

Definition FILE_MAGIC_SINGLE_PUT : byte := Byte.x01.
Definition FILE_ALG_A256GCM : byte := Byte.x01.
Definition FILE_MAGIC_MULTIPART : byte := Byte.x02.
Definition HEADER_LEN : nat := 14.
Definition MIN_ENVELOPE_LEN : nat := 30.
Definition MULTIPART_HEADER_LEN : nat := 18.
Definition MULTIPART_MIN_ENVELOPE_LEN : nat := 34.
Definition MULTIPART_IV_LABEL : bytes := str_bytes "signet-drive-multipart-iv-v1".
Definition MULTIPART_CHUNK_OVERHEAD : Z := 34.

Definition seal_file (dek iv file_id plaintext : bytes) : cresult bytes :=
  let*? sealed := seal dek iv plaintext file_id in
  Ok (FILE_MAGIC_SINGLE_PUT :: FILE_ALG_A256GCM :: iv ++ sealed).

Definition open_file (dek file_id envelope : bytes) : cresult bytes :=
  guard negb (bool_decide (length envelope < MIN_ENVELOPE_LEN)%nat)
  else InvalidInput "file envelope too short" ;;
  guard bool_decide (envelope !! 0%nat = Some FILE_MAGIC_SINGLE_PUT)
  else InvalidInput "file envelope magic" ;;
  guard bool_decide (envelope !! 1%nat = Some FILE_ALG_A256GCM)
  else InvalidInput "file envelope alg" ;;
  let iv := take (HEADER_LEN - 2) (drop 2 envelope) in
  open dek iv (drop HEADER_LEN envelope) file_id.

Definition multipart_iv (dek : bytes) (chunk_index : Z) : cresult bytes :=
  let info := MULTIPART_IV_LABEL ++ be_bytes 4 chunk_index in
  let*? iv := hkdf_sha256 dek [] info 12 in
  to_array 12 (InvalidInput "multipart iv length") iv.

Definition bool_byte (b : bool) : byte := if b then Byte.x01 else Byte.x00.

Definition multipart_aad (file_id : bytes) (chunk_index : Z) (is_last : bool) : bytes :=
  file_id ++ be_bytes 4 chunk_index ++ [bool_byte is_last].

Definition is_last_chunk (chunk_index chunk_count : Z) : cresult bool :=
  if (chunk_count =? 0) || (chunk_count <=? chunk_index)
  then Err (InvalidInput "multipart chunk_index out of range for chunk_count")
  else Ok (chunk_index =? chunk_count - 1).

Definition seal_chunk (dek file_id : bytes) (chunk_index chunk_count : Z) (plaintext : bytes)
    : cresult bytes :=
  let*? is_last := is_last_chunk chunk_index chunk_count in
  let*? iv := multipart_iv dek chunk_index in
  let aad := multipart_aad file_id chunk_index is_last in
  let*? sealed := seal dek iv plaintext aad in
  Ok (FILE_MAGIC_MULTIPART :: FILE_ALG_A256GCM :: be_bytes 4 chunk_index ++ iv ++ sealed).

Definition open_chunk (dek file_id : bytes) (chunk_index chunk_count : Z) (envelope : bytes)
    : cresult bytes :=
  let*? is_last := is_last_chunk chunk_index chunk_count in
  guard negb (bool_decide (length envelope < MULTIPART_MIN_ENVELOPE_LEN)%nat)
  else InvalidInput "multipart chunk too short" ;;
  guard bool_decide (envelope !! 0%nat = Some FILE_MAGIC_MULTIPART)
  else InvalidInput "multipart chunk magic" ;;
  guard bool_decide (envelope !! 1%nat = Some FILE_ALG_A256GCM)
  else InvalidInput "multipart chunk alg" ;;
  let stored_index := be_value (take 4 (drop 2 envelope)) in
  guard (stored_index =? chunk_index)
  else InvalidInput "multipart chunk index mismatch" ;;
  let iv := take (MULTIPART_HEADER_LEN - 6) (drop 6 envelope) in
  let aad := multipart_aad file_id chunk_index is_last in
  open dek iv (drop MULTIPART_HEADER_LEN envelope) aad.

(** The arithmetic is that of a release build: [+] and [*] wrap, and
    [u64::div_ceil] panics on a zero divisor. *)
Inductive panic := DivideByZero.

Definition u64_wrap (z : Z) : Z := z mod 2 ^ 64.

Definition div_ceil (a b : Z) : result panic Z :=
  if b =? 0 then Err DivideByZero else Ok (if a mod b =? 0 then a / b else a / b + 1).

Definition multipart_plaintext_len (ciphertext_len chunk_size : Z) : result panic (option Z) :=
  if (chunk_size =? 0) || (ciphertext_len <? MULTIPART_CHUNK_OVERHEAD) then Ok None
  else
    let per := u64_wrap (chunk_size + MULTIPART_CHUNK_OVERHEAD) in
    let*? q := div_ceil ciphertext_len per in
    let chunks := Z.max q 1 in
    let overhead := u64_wrap (chunks * MULTIPART_CHUNK_OVERHEAD) in
    Ok (if ciphertext_len <? overhead then None else Some (ciphertext_len - overhead)).

End Code.

(** ** Frame lemmas *)

Section Frames.
Context `{AesGcm, Hkdf}.
Implicit Types (dek iv file_id p env : bytes) (i n : Z).

Lemma list_split2 {A} (l : list A) a b :
  l !! 0%nat = Some a -> l !! 1%nat = Some b -> l = a :: b :: drop 2 l.
Proof. destruct l as [|x [|y l]]; simpl; try done. by intros [= ->] [= ->]. Qed.

(** A frame that parses, reassembled: two fixed bytes and what follows. *)
Lemma seal_file_frame dek iv file_id p env :
  length iv = 12%nat ->
  seal_file dek iv file_id p = Ok env <->
  exists c, seal dek iv p file_id = Ok c /\
    env = FILE_MAGIC_SINGLE_PUT :: FILE_ALG_A256GCM :: iv ++ c.
Proof.
  intros Hiv. unfold seal_file. destruct (seal dek iv p file_id) as [c|] eqn:E.
  - split; [intros [= <-]; eauto|]. by intros (c' & [= <-] & ->).
  - split; [done|]. by intros (c' & ? & _).
Qed.

Lemma open_file_frame dek file_id env p :
  open_file dek file_id env = Ok p <->
  exists iv c, length iv = 12%nat /\
    env = FILE_MAGIC_SINGLE_PUT :: FILE_ALG_A256GCM :: iv ++ c /\
    open dek iv c file_id = Ok p.
Proof.
  unfold open_file. split.
  - intros Ho. steps_in Ho. bool_prop. unfold MIN_ENVELOPE_LEN, HEADER_LEN in *.
    exists (take 12 (drop 2 env)), (drop 14 env). split; [|split; [|done]].
    + rewrite length_take, length_drop. lia.
    + rewrite (list_split2 env _ _ Heqb0 Heqb1) at 1. do 2 f_equal.
      by rewrite <- (take_drop 12 (drop 2 env)) at 1; rewrite drop_drop.
  - intros (iv & c & Hiv & -> & Ho). pose proof (seal_length dek iv p file_id c) as Hc.
    rewrite <- open_iff in Hc. specialize (Hc Ho).
    unfold MIN_ENVELOPE_LEN, HEADER_LEN. rewrite !length_cons, length_app.
    rewrite bool_decide_false, !bool_decide_true by (done || lia).
    change (drop 2 (FILE_MAGIC_SINGLE_PUT :: FILE_ALG_A256GCM :: iv ++ c)) with (iv ++ c).
    change (drop 14 (FILE_MAGIC_SINGLE_PUT :: FILE_ALG_A256GCM :: iv ++ c))
      with (drop 12 (iv ++ c)).
    by rewrite take_app_3, drop_app_3 by done.
Qed.

Lemma is_last_chunk_Ok i n b :
  0 <= i -> is_last_chunk i n = Ok b <-> 0 <= i < n /\ b = (i =? n - 1).
Proof.
  unfold is_last_chunk. intros Hi. destruct (_ || _) eqn:E.
  - split; [done|]. intros [? _]. apply orb_true_iff in E as [E|E]; bool_prop; lia.
  - bool_prop. split; [intros [= <-]; split; [lia|done]|]. by intros [_ ->].
Qed.

Lemma multipart_iv_Ok dek i : exists iv, multipart_iv dek i = Ok iv /\ length iv = 12%nat.
Proof.
  unfold multipart_iv. destruct (hkdf_sha256_32 dek [] (MULTIPART_IV_LABEL ++ be_bytes 4 i) 12)
    as (iv & -> & Hl); [lia|]. exists iv. by rewrite to_array_Ok.
Qed.

(** A chunk's associated data determines its file, its index and its flag. *)
Lemma multipart_aad_inj file_id file_id' i i' b b' :
  length file_id = length file_id' -> is_u32 i -> is_u32 i' ->
  multipart_aad file_id i b = multipart_aad file_id' i' b' ->
  file_id = file_id' /\ i = i' /\ b = b'.
Proof.
  unfold multipart_aad, is_u32, u32_max. intros Hl Hi Hi' E.
  peel E. peel E. apply be_bytes_inj in Hpeel0; [|simpl; lia..].
  split; [done|]. split; [done|]. by destruct b, b'.
Qed.

Lemma open_chunk_frame dek file_id i n env p :
  is_u32 i ->
  open_chunk dek file_id i n env = Ok p <->
  i < n /\ exists iv c, length iv = 12%nat /\
    env = FILE_MAGIC_MULTIPART :: FILE_ALG_A256GCM :: be_bytes 4 i ++ iv ++ c /\
    open dek iv c (multipart_aad file_id i (i =? n - 1)) = Ok p.
Proof.
  unfold is_u32, u32_max. intros Hi. unfold open_chunk. split.
  - intros Ho. destruct (is_last_chunk i n) as [b|] eqn:El; [|done].
    apply is_last_chunk_Ok in El as [Hin ->]; [|lia]. split; [lia|].
    steps_in Ho. bool_prop. unfold MULTIPART_MIN_ENVELOPE_LEN, MULTIPART_HEADER_LEN in *.
    exists (take 12 (drop 6 env)), (drop 18 env). split; [|split; [|done]].
    + rewrite length_take, length_drop. lia.
    + rewrite (list_split2 env _ _ Heqb0 Heqb1) at 1. do 2 f_equal.
      rewrite <- (take_drop 4 (drop 2 env)) at 1. f_equal.
      * rewrite <- Heqb2. rewrite <- (be_bytes_be_value (take 4 (drop 2 env))) at 1.
        f_equal. rewrite length_take, length_drop. lia.
      * rewrite drop_drop. symmetry. change (drop 18 env) with (drop (6 + 12) env).
        rewrite <- (drop_drop env 12 6). apply take_drop.
  - intros (Hn & iv & c & Hiv & -> & Ho). 
    rewrite (proj2 (is_last_chunk_Ok i n (i =? n - 1) (proj1 Hi))) by (split; [lia|done]).
    pose proof Ho as Hc. rewrite open_iff in Hc. apply seal_length in Hc.
    unfold MULTIPART_MIN_ENVELOPE_LEN, MULTIPART_HEADER_LEN. rewrite !length_cons, !length_app, length_be_bytes.
    rewrite bool_decide_false, !bool_decide_true by (done || lia). cbn [negb].
    change (drop 2 (FILE_MAGIC_MULTIPART :: FILE_ALG_A256GCM :: be_bytes 4 i ++ iv ++ c))
      with (be_bytes 4 i ++ iv ++ c).
    change (drop 6 (FILE_MAGIC_MULTIPART :: FILE_ALG_A256GCM :: be_bytes 4 i ++ iv ++ c))
      with (drop 4 (be_bytes 4 i ++ iv ++ c)).
    change (drop 18 (FILE_MAGIC_MULTIPART :: FILE_ALG_A256GCM :: be_bytes 4 i ++ iv ++ c))
      with (drop 16 (be_bytes 4 i ++ iv ++ c)).
    assert (E16 : drop 16 (be_bytes 4 i ++ iv ++ c) = c).
    { rewrite app_assoc. apply drop_app_3. rewrite length_app, length_be_bytes. lia. }
    rewrite E16, (take_app_3 (be_bytes 4 i)), drop_app_3, take_app_3
      by (done || apply length_be_bytes).
    rewrite be_value_be_bytes, Z.mod_small by (simpl; lia). by rewrite Z.eqb_refl.
Qed.

End Frames.
End Envelope.
Import Envelope.

(** ** The properties *)

Section Properties.
Context `{AesGcm, Hkdf}.
Implicit Types (dek iv file_id p env : bytes) (i n : Z).

(** [open_file] accepts exactly the frames [seal_file] makes under the same key
    and file id, whatever the nonce, and returns the plaintext they were made
    from: round trip and authenticity in one statement. *)
Theorem open_file_iff_sealed dek file_id env p :
  open_file dek file_id env = Ok p <->
  exists iv, length iv = 12%nat /\ seal_file dek iv file_id p = Ok env.
Proof.
  rewrite open_file_frame. split.
  - intros (iv & c & Hiv & -> & Ho). exists iv. split; [done|].
    apply seal_file_frame; [done|]. exists c. by rewrite <- open_iff.
  - intros (iv & Hiv & Hs). apply seal_file_frame in Hs as (c & Hs & ->); [|done].
    exists iv, c. by rewrite open_iff.
Qed.

(** The chunk frame round-trips: whatever [seal_chunk] makes, [open_chunk]
    opens at the same index and count, and the frame is 34 bytes longer than the
    plaintext.  Sealing succeeds whenever the index is in range and the cipher
    takes the plaintext. *)
Theorem chunk_round_trip dek file_id i n p env :
  is_u32 i -> seal_chunk dek file_id i n p = Ok env ->
  open_chunk dek file_id i n env = Ok p /\
  Z.of_nat (length env) = Z.of_nat (length p) + MULTIPART_CHUNK_OVERHEAD.
Proof.
  intros Hi. unfold seal_chunk, MULTIPART_CHUNK_OVERHEAD.
  destruct (is_last_chunk i n) as [b|] eqn:El; [|done].
  apply is_last_chunk_Ok in El as [Hin ->]; [|apply Hi].
  destruct (multipart_iv_Ok dek i) as (iv & -> & Hiv).
  destruct (seal _ _ _ _) as [c|] eqn:Es; [|done]. intros Henv.
  apply (inj Ok) in Henv as <-. split.
  - apply open_chunk_frame; [done|]. split; [lia|]. exists iv, c. by rewrite open_iff.
  - apply seal_length in Es. rewrite !length_cons, !length_app, length_be_bytes. lia.
Qed.

Lemma chunk_open_binding dek file_id i n p env file_id' i' n' p' :
  is_u32 i -> is_u32 i' -> length file_id = length file_id' ->
  seal_chunk dek file_id i n p = Ok env ->
  open_chunk dek file_id' i' n' env = Ok p' ->
  (file_id = file_id' /\ i = i' /\ (i = n - 1 <-> i' = n' - 1) /\ p = p') \/
  exists iv c, aad_forgery dek iv c
    (multipart_aad file_id i (i =? n - 1)) (multipart_aad file_id' i' (i' =? n' - 1)).
Proof.
  intros Hi Hi' Hl Hs Ho. apply chunk_round_trip in Hs as [Hs _]; [|done].
  apply open_chunk_frame in Hs as (_ & iv & c & Hiv & E1 & H1); [|done].
  apply open_chunk_frame in Ho as (_ & iv' & c' & Hiv' & E2 & H2); [|done].
  rewrite E1 in E2. do 2 apply (inj (cons _)) in E2. peel E2. peel E2. subst iv' c'.
  destruct (open_binding _ _ _ _ _ _ _ H1 H2) as [[Ea ->]|Hf]; [left|by right; exists iv, c].
  apply multipart_aad_inj in Ea as (-> & -> & Eb); [|done..].
  split; [done|]. split; [done|]. split; [|done]. lia.
Qed.

(** C8: A chunk sealed for one file, index and count opens for another file, index
    or terminal position only if one AES-GCM ciphertext opens under two
    different associated data.  In particular dropping the last chunks and
    lowering the count is rejected, since the new last chunk was sealed
    non-terminal. *)
Theorem chunk_binding dek file_id i n p env file_id' i' n' p' :
  is_u32 i -> is_u32 i' -> length file_id = length file_id' ->
  seal_chunk dek file_id i n p = Ok env ->
  open_chunk dek file_id' i' n' env = Ok p' ->
  (file_id = file_id' /\ i = i' /\ (i = n - 1 <-> i' = n' - 1) /\ p = p') \/
  exists iv c, aad_forgery dek iv c
    (multipart_aad file_id i (i =? n - 1)) (multipart_aad file_id' i' (i' =? n' - 1)).
Proof. apply chunk_open_binding. Qed.

(** The number of chunks of a file of [p] plaintext bytes. *)
Definition chunk_count (p chunk_size : Z) : Z := Z.max 1 ((p + chunk_size - 1) / chunk_size).

(** For every plaintext size and every chunk size whose framing fits in 64 bits,
    [multipart_plaintext_len] recovers the plaintext size from the stored size:
    no overflow, no panic, no wrong number. *)
Theorem multipart_plaintext_len_exact (p chunk_size : Z) :
  0 <= p -> 0 < chunk_size -> chunk_size + MULTIPART_CHUNK_OVERHEAD <= u64_max ->
  p + MULTIPART_CHUNK_OVERHEAD * chunk_count p chunk_size <= u64_max ->
  multipart_plaintext_len
    (p + MULTIPART_CHUNK_OVERHEAD * chunk_count p chunk_size) chunk_size = Ok (Some p).
Proof.
  unfold multipart_plaintext_len, chunk_count, MULTIPART_CHUNK_OVERHEAD, u64_max, u64_wrap, div_ceil.
  intros Hp Hc Hper Hfit. set (n := Z.max 1 _) in *.
  assert (Hn : (n - 1) * chunk_size <= p <= n * chunk_size /\ 1 <= n /\ (p = 0 -> n = 1)
               /\ (1 < n -> (n - 1) * chunk_size < p)).
  { subst n. pose proof (Z.div_mod (p + chunk_size - 1) chunk_size).
    pose proof (Z.mod_pos_bound (p + chunk_size - 1) chunk_size).
    destruct (Z.max_spec 1 ((p + chunk_size - 1) / chunk_size)) as [[? ->]|[? ->]]; nia. }
  clearbody n. destruct Hn as (Hn & Hn1 & Hz & Hlt).
  rewrite (proj2 (Z.eqb_neq chunk_size 0)), (proj2 (Z.ltb_ge _ _)) by lia. simpl orb.
  rewrite Z.mod_small by lia. rewrite (proj2 (Z.eqb_neq (chunk_size + 34) 0)) by lia.
  assert (Hq : (if (p + 34 * n) mod (chunk_size + 34) =? 0
                then (p + 34 * n) / (chunk_size + 34)
                else (p + 34 * n) / (chunk_size + 34) + 1) = n).
  { set (a := p + 34 * n) in *. set (b := chunk_size + 34) in *.
    pose proof (Z.div_mod a b ltac:(lia)). pose proof (Z.mod_pos_bound a b ltac:(lia)).
    assert (Ha : (n - 1) * b < a <= n * b) by (subst a b; destruct (decide (1 < n)); nia).
    destruct (Z.eqb_spec (a mod b) 0); nia. }
  rewrite Hq, Z.max_l, (Z.mod_small (n * 34)) by lia.
  rewrite (proj2 (Z.ltb_ge _ _)) by lia. do 2 f_equal. lia.
Qed.

(** The converse fails: a stored length that no framing produces (one whole
    chunk and a lone extra byte, shorter than any chunk's 34 bytes of framing)
    is not refused but given a plaintext length. *)
Theorem multipart_plaintext_len_not_refused :
  exists ct chunk_size q,
    multipart_plaintext_len ct chunk_size = Ok (Some q) /\
    0 < chunk_size /\
    forall p : Z, 0 <= p -> ct <> p + MULTIPART_CHUNK_OVERHEAD * chunk_count p chunk_size.
Proof.
  exists 135, 100, 67. split; [reflexivity|]. split; [lia|].
  unfold chunk_count, MULTIPART_CHUNK_OVERHEAD. intros p Hp E.
  destruct (decide (p <= 100)); lia.
Qed.

End Properties.

(** ** Witnesses *)
Import Toy.

Definition demo_dek : bytes := be_bytes 32 123456789.
Definition demo_file : bytes := be_bytes 16 77.
Definition demo_text : bytes := str_bytes "hello, drive".
Definition demo_chunk : bytes :=
  match seal_chunk demo_dek demo_file 1 3 demo_text with Ok e => e | Err _ => [] end.

Lemma chunk_round_trip_witness :
  open_chunk demo_dek demo_file 1 3 demo_chunk = Ok demo_text /\
  Z.of_nat (length demo_chunk) = Z.of_nat (length demo_text) + MULTIPART_CHUNK_OVERHEAD.
Proof. apply (chunk_round_trip demo_dek demo_file 1 3 demo_text demo_chunk); by vm_compute. Defined.

Lemma chunk_binding_witness :
  (demo_file = demo_file /\ 1 = 1 /\ (1 = 3 - 1 <-> 1 = 3 - 1) /\ demo_text = demo_text) \/
  exists iv c, aad_forgery demo_dek iv c
    (multipart_aad demo_file 1 (1 =? 3 - 1)) (multipart_aad demo_file 1 (1 =? 3 - 1)).
Proof.
  apply (chunk_binding demo_dek demo_file 1 3 demo_text demo_chunk demo_file 1 3 demo_text);
    by vm_compute.
Defined.

Lemma multipart_plaintext_len_exact_witness :
  multipart_plaintext_len (2097152 + 34 * chunk_count 2097152 65536) 65536 = Ok (Some 2097152).
Proof. apply (multipart_plaintext_len_exact 2097152 65536); by vm_compute. Defined.
