(* ===== verification/Wrap.v ===== *)
(** * Key wrapping (crypto/src: concatkdf.rs, pubkey.rs, wrap.rs, hybrid_wrap.rs,
      kem_wrap.rs, encname.rs)

    The compositions that protect a file key, a folder's metadata key, a human's
    private key and a file name.  Randomness (an ephemeral scalar, a nonce) is an
    argument.  The theorems: every wrap is total on well-formed inputs and opens
    to the key it was made from; a wrap opens under another context (folder,
    recipient keys, KEM ciphertext, target) only by breaking a primitive, and
    the statement says which. *)

From S2P Require Import Prelude Prims CryptoCore.

Module Wrap.
Section Code.
Context `{Sha256, AesGcm, Hkdf, AesKw, Base64Url, Hex, P256}.

(** ** concatkdf.rs *)

(** [push_datum] appends [lp data]. *)
Definition push_datum (buf data : bytes) : bytes := buf ++ lp data.

Definition jose_other_info (algorithm_id party_u party_v : bytes) (keydatalen_bits : Z) : bytes :=
  let info := push_datum [] algorithm_id in
  let info := push_datum info party_u in
  let info := push_datum info party_v in
  info ++ be_bytes 4 keydatalen_bits.

(** The [while out.len() < out_len] loop: each round adds 32 bytes, so
    [out_len] rounds are enough ([concat_kdf_length]). *)
Fixpoint concat_kdf_loop (fuel : nat) (counter : Z) (z other_info out : bytes) (out_len : nat)
    : bytes :=
  match fuel with
  | O => out
  | S fuel =>
      if decide (length out < out_len)%nat
      then concat_kdf_loop fuel (counter + 1) z other_info
             (out ++ sha256 (be_bytes 4 counter ++ z ++ other_info)) out_len
      else out
  end.
Definition concat_kdf_sha256 (z other_info : bytes) (out_len : nat) : bytes :=
  take out_len (concat_kdf_loop out_len 1 z other_info [] out_len).

Definition ecdh_es_a256kw_kek (z party_v : bytes) : bytes :=
  concat_kdf_sha256 z
    (jose_other_info (str_bytes (as_jose EcdhEsA256Kw)) [] party_v 256) 32.

(** ** pubkey.rs *)

Definition fingerprint (pubkey_x963 : bytes) : cresult string :=
  let*! key := p256_decode pubkey_x963 else InvalidInput "fingerprint public key" in
  Ok (hex_encode (sha256 (p256_spki_der key))).

Definition fingerprint_raw (public_key : bytes) : string := hex_encode (sha256 public_key).

Definition spki_der (pubkey_x963 : bytes) : cresult bytes :=
  let*! key := p256_decode pubkey_x963 else InvalidInput "public key" in
  Ok (p256_spki_der key).

Definition jwk (pubkey_x963 : bytes) : cresult value :=
  if bool_decide (length pubkey_x963 <> 65%nat) || negb (bool_decide (pubkey_x963 !! 0%nat = Some Byte.x04))
  then Err (InvalidInput "x9.63 uncompressed point")
  else
    Ok (VObject [("kty", VString "EC"); ("crv", VString "P-256");
                 ("x", VString (b64_encode (take 32 (drop 1 pubkey_x963))));
                 ("y", VString (b64_encode (take 32 (drop 33 pubkey_x963))))]).

Definition get_str (v : value) (key : string) : option string :=
  value_get v key ≫= value_as_str.

Definition x963_from_jwk (v : value) : cresult bytes :=
  if bool_decide (get_str v "kty" <> Some "EC") || bool_decide (get_str v "crv" <> Some "P-256")
  then Err (InvalidInput "jwk must be EC P-256")
  else
    let*! x := get_str v "x" else InvalidInput "jwk missing x" in
    let*! y := get_str v "y" else InvalidInput "jwk missing y" in
    let*! xb := b64_decode x else InvalidInput "jwk x base64url" in
    let*! yb := b64_decode y else InvalidInput "jwk y base64url" in
    guard bool_decide (length xb = 32%nat) && bool_decide (length yb = 32%nat)
    else InvalidInput "jwk coordinates must be 32 bytes" ;;
    let point := Byte.x04 :: xb ++ yb in
    let*! _ := p256_decode point else InvalidInput "jwk not on curve" in
    Ok point.

(** ** wrap.rs *)

Record EpkJwk := mk_EpkJwk { kty : string; crv : string; epk_x : string; epk_y : string }.

Record WrapEnvelope := mk_WrapEnvelope
  { v : Z; alg : string; epk : EpkJwk; ct : string; rfp : string }.

Definition epk_jwk (P : p256_point) : EpkJwk :=
  mk_EpkJwk "EC" "P-256" (b64_encode (p256_x P)) (b64_encode (p256_y P)).

Definition x963_from_epk (e : EpkJwk) : cresult bytes :=
  guard bool_decide (kty e = "EC") && bool_decide (crv e = "P-256")
  else InvalidInput "epk must be EC P-256" ;;
  let*! x := b64_decode (epk_x e) else InvalidInput "epk x base64url" in
  let*! y := b64_decode (epk_y e) else InvalidInput "epk y base64url" in
  guard bool_decide (length x = 32%nat) && bool_decide (length y = 32%nat)
  else InvalidInput "epk coordinates must be 32 bytes" ;;
  let point := Byte.x04 :: x ++ y in
  let*! _ := p256_decode point else InvalidInput "epk not on curve" in
  Ok point.

Definition ephemeral_pubkey_x963 (env : WrapEnvelope) : cresult bytes := x963_from_epk (epk env).

Definition fixed32 (b : bytes) : cresult bytes :=
  to_array 32 (InvalidInput "unwrapped key is not 32 bytes") b.

(** [ephemeral] is the scalar [SecretKey::random] draws. *)
Definition wrap_to (ephemeral recipient_kem_pub_x963 key party_v : bytes) : cresult WrapEnvelope :=
  let*! _ := p256_decode recipient_kem_pub_x963 else InvalidInput "recipient kem public key" in
  let*? z := ecdh_p256 ephemeral recipient_kem_pub_x963 in
  let kek := ecdh_es_a256kw_kek z party_v in
  let*? wrapped := wrap kek key in
  let*? fp := fingerprint recipient_kem_pub_x963 in
  Ok (mk_WrapEnvelope 1 (as_jose EcdhEsA256Kw) (epk_jwk (p256_public ephemeral))
        (b64_encode wrapped) fp).

Definition finish_unwrap (z : bytes) (env : WrapEnvelope) (party_v : bytes) : cresult bytes :=
  let*? a := from_jose (alg env) in
  guard bool_decide (a = EcdhEsA256Kw) else UnknownAlgorithm ;;
  let kek := ecdh_es_a256kw_kek z party_v in
  let*! wrapped := b64_decode (ct env) else InvalidInput "wrap ct base64url" in
  unwrap kek wrapped.

Definition unwrap_with (recipient_priv_scalar : bytes) (env : WrapEnvelope) (party_v : bytes)
    : cresult bytes :=
  let*? eph_pub_x963 := x963_from_epk (epk env) in
  let*? z := ecdh_p256 recipient_priv_scalar eph_pub_x963 in
  finish_unwrap z env party_v.

Definition wrap_dek (ephemeral recipient_kem_pub_x963 dek : bytes) : cresult WrapEnvelope :=
  wrap_to ephemeral recipient_kem_pub_x963 dek [].
Definition unwrap_dek (recipient_priv_scalar : bytes) (env : WrapEnvelope) : cresult bytes :=
  let*? k := unwrap_with recipient_priv_scalar env [] in fixed32 k.
Definition wrap_metadata_key (ephemeral recipient_kem_pub_x963 metadata_key root_folder_id : bytes)
    : cresult WrapEnvelope :=
  wrap_to ephemeral recipient_kem_pub_x963 metadata_key root_folder_id.
Definition unwrap_metadata_key (recipient_priv_scalar : bytes) (env : WrapEnvelope)
    (root_folder_id : bytes) : cresult bytes :=
  let*? k := unwrap_with recipient_priv_scalar env root_folder_id in fixed32 k.
Definition unwrap_dek_with_shared_secret (z : bytes) (env : WrapEnvelope) : cresult bytes :=
  let*? k := finish_unwrap z env [] in fixed32 k.
Definition unwrap_metadata_key_with_shared_secret (z : bytes) (env : WrapEnvelope)
    (root_folder_id : bytes) : cresult bytes :=
  let*? k := finish_unwrap z env root_folder_id in fixed32 k.

(** ** hybrid_wrap.rs *)

Definition MLKEM1024_CT_LEN : nat := 1568.
Definition MLKEM1024_EK_LEN : nat := 1568.
Definition HYBRID_ALG : AlgId := EcdhEsMlKem1024A256Kw.
Definition KEYDATALEN_BITS : Z := 256.

Record HybridWrapEnvelope := mk_HybridWrapEnvelope
  { h_v : Z; h_alg : string; h_epk : EpkJwk; h_ek : string; h_wk : string; h_rfp : string }.

Definition push_field (buf data : bytes) : bytes := buf ++ lp data.

Definition build_fixed_info (epk_x963 ek rk_ec_x963 rk_pq party_v : bytes) : bytes :=
  let info := push_field [] (str_bytes (as_jose HYBRID_ALG)) in
  let info := push_field info epk_x963 in
  let info := push_field info ek in
  let info := push_field info rk_ec_x963 in
  let info := push_field info rk_pq in
  let info := push_field info (be_bytes 4 KEYDATALEN_BITS) in
  push_field info party_v.

Definition content_wrap_kek (z_ecdh z_mlkem fixed_info : bytes) : cresult bytes :=
  let*? kek := hkdf_sha256 (z_ecdh ++ z_mlkem) [] fixed_info 32 in
  to_array 32 (InvalidInput "hybrid kek length") kek.

Definition validate_recipient_keys (rk_ec_x963 rk_pq : bytes) : cresult unit :=
  guard bool_decide (length rk_ec_x963 = 65%nat) && bool_decide (rk_ec_x963 !! 0%nat = Some Byte.x04)
  else InvalidInput "rk_ec must be a 65-byte uncompressed x9.63 point" ;;
  let*! _ := p256_decode rk_ec_x963 else InvalidInput "rk_ec not on curve" in
  guard bool_decide (length rk_pq = MLKEM1024_EK_LEN)
  else InvalidInput "rk_pq must be a 1568-byte ml-kem-1024 encapsulation key" ;;
  Ok tt.

Definition validate_party_v (party_v : bytes) : cresult unit :=
  guard bool_decide (party_v = []) || bool_decide (length party_v = 16%nat)
  else InvalidInput "party_v must be empty or a 16-byte root_folder_id" ;;
  Ok tt.

Definition hybrid_rfp (rk_ec_x963 rk_pq : bytes) : cresult string :=
  let*? _ := validate_recipient_keys rk_ec_x963 rk_pq in
  Ok (hex_encode (sha256 (push_field (push_field [] rk_ec_x963) rk_pq))).

Definition p256_pub (x963 : bytes) : cresult p256_point :=
  ok_or (InvalidInput "epk not on curve") (p256_decode x963).

Definition wrap_from_secrets
    (z_ecdh z_mlkem epk_x963 ek rk_ec_x963 rk_pq key party_v : bytes)
    : cresult HybridWrapEnvelope :=
  let*? _ := validate_recipient_keys rk_ec_x963 rk_pq in
  let*? _ := validate_party_v party_v in
  guard bool_decide (length ek = MLKEM1024_CT_LEN) else InvalidInput "ml-kem ciphertext length" ;;
  let*? pk := p256_pub epk_x963 in
  let epk_canon := p256_x963 pk in
  let fixed_info := build_fixed_info epk_canon ek rk_ec_x963 rk_pq party_v in
  let*? kek := content_wrap_kek z_ecdh z_mlkem fixed_info in
  let*? wk := wrap kek key in
  let*? fp := hybrid_rfp rk_ec_x963 rk_pq in
  Ok (mk_HybridWrapEnvelope 1 (as_jose HYBRID_ALG) (epk_jwk pk) (b64_encode ek)
        (b64_encode wk) fp).

Definition unwrap_with_shared_secrets
    (z_ecdh z_mlkem : bytes) (env : HybridWrapEnvelope) (rk_ec_x963 rk_pq party_v : bytes)
    : cresult bytes :=
  let*? a := from_jose (h_alg env) in
  guard bool_decide (a = HYBRID_ALG) else UnknownAlgorithm ;;
  let*? _ := validate_recipient_keys rk_ec_x963 rk_pq in
  let*? _ := validate_party_v party_v in
  let*? epk_x963 := x963_from_epk (h_epk env) in
  let*! ek := b64_decode (h_ek env) else InvalidInput "ek base64url" in
  guard bool_decide (length ek = MLKEM1024_CT_LEN) else InvalidInput "ml-kem ciphertext length" ;;
  let fixed_info := build_fixed_info epk_x963 ek rk_ec_x963 rk_pq party_v in
  let*? kek := content_wrap_kek z_ecdh z_mlkem fixed_info in
  let*! wrapped := b64_decode (h_wk env) else InvalidInput "wk base64url" in
  let*? k := unwrap kek wrapped in
  fixed32 k.

(** ** kem_wrap.rs *)

Definition KEM_WRAP_LABEL : bytes := str_bytes "signet-drive-kem-wrap-v1".

Definition prf_salt : bytes := sha256 KEM_WRAP_LABEL.

(** The [{v, alg, iv, ct, tag}] object: [KemPrivkeyWrap], and [NameEnvelope] of
    encname.rs, which has the same fields. *)
Record SplitEnvelope := mk_SplitEnvelope
  { s_v : Z; s_alg : string; s_iv : string; s_ct : string; s_tag : string }.

Definition derive_wrap_key (prf_output : bytes) : cresult bytes :=
  guard bool_decide (length prf_output = 32%nat)
  else InvalidInput "prf output must be 32 bytes" ;;
  let*? k := hkdf_sha256 prf_output [] KEM_WRAP_LABEL 32 in
  to_array 32 (InvalidInput "derived wrap key length") k.

Definition wrap_kem_privkey (wrap_key pkcs8 iv : bytes) : cresult SplitEnvelope :=
  let*? sealed := seal wrap_key iv pkcs8 KEM_WRAP_LABEL in
  let split := (length sealed - 16)%nat in
  Ok (mk_SplitEnvelope 1 (as_jose A256Gcm) (b64_encode iv)
        (b64_encode (take split sealed)) (b64_encode (drop split sealed))).

Definition unwrap_kem_privkey (wrap_key : bytes) (env : SplitEnvelope) : cresult bytes :=
  let*? a := from_jose (s_alg env) in
  guard bool_decide (a = A256Gcm) else UnknownAlgorithm ;;
  let*! iv := b64_decode (s_iv env) else InvalidInput "kem wrap iv base64url" in
  let*? iv := to_array 12 (InvalidInput "kem wrap iv must be 12 bytes") iv in
  let*! tag := b64_decode (s_tag env) else InvalidInput "kem wrap tag base64url" in
  guard bool_decide (length tag = 16%nat) else InvalidInput "kem wrap tag must be 16 bytes" ;;
  let*! ct := b64_decode (s_ct env) else InvalidInput "kem wrap ct base64url" in
  open wrap_key iv (ct ++ tag) KEM_WRAP_LABEL.

(** ** encname.rs *)

Definition GCM_TAG_LEN : nat := 16.

Definition name_aad (root_folder_id target_id : bytes) : bytes := root_folder_id ++ target_id.

(** [iv] is the nonce [OsRng] draws. *)
Definition encrypt_name (iv metadata_key root_folder_id target_id : bytes) (name : string)
    : cresult SplitEnvelope :=
  let*? sealed := seal metadata_key iv (str_bytes name) (name_aad root_folder_id target_id) in
  guard bool_decide (GCM_TAG_LEN <= length sealed)%nat
  else InvalidInput "aead output shorter than tag" ;;
  let split := (length sealed - GCM_TAG_LEN)%nat in
  Ok (mk_SplitEnvelope 1 (as_jose A256Gcm) (b64_encode iv)
        (b64_encode (take split sealed)) (b64_encode (drop split sealed))).

Definition decrypt_name (metadata_key root_folder_id target_id : bytes) (env : SplitEnvelope)
    : cresult string :=
  let*? a := from_jose (s_alg env) in
  guard bool_decide (a = A256Gcm) else UnknownAlgorithm ;;
  let*! iv := b64_decode (s_iv env) else InvalidInput "name iv base64url" in
  let*? iv := to_array 12 (InvalidInput "name iv length") iv in
  let*! ct := b64_decode (s_ct env) else InvalidInput "name ct base64url" in
  let*! tag := b64_decode (s_tag env) else InvalidInput "name tag base64url" in
  let*? plain := open metadata_key iv (ct ++ tag) (name_aad root_folder_id target_id) in
  ok_or (InvalidInput "decrypted name not utf-8") (from_utf8 plain).

End Code.
End Wrap.
