(* ===== verification/WrapTheorems.v ===== *)
(** * Theorems about key wrapping *)

From S2P Require Import Prelude Prims CryptoCore Wrap.
Import Wrap.

Section Lemmas.
Context `{Sha256, AesGcm, Hkdf, AesKw, Base64Url, Hex, P256}.

(** ** The Concat KDF *)

Lemma concat_kdf_loop_length fuel counter z info out n :
  (n <= length out + fuel)%nat ->
  (n <= length (concat_kdf_loop fuel counter z info out n))%nat.
Proof.
  revert counter out. induction fuel as [|fuel IH]; intros counter out Hf; simpl; [lia|].
  case_decide; [|lia]. apply IH. rewrite length_app.
  pose proof (sha256_length (be_bytes 4 counter ++ z ++ info)) as Hl. unfold is32 in Hl. lia.
Qed.

(** The single round every caller asks for. *)
Lemma concat_kdf_32 z info : concat_kdf_sha256 z info 32 = sha256 (be_bytes 4 1 ++ z ++ info).
Proof.
  unfold concat_kdf_sha256.
  pose proof (sha256_length (be_bytes 4 1 ++ z ++ info)) as Hl. unfold is32 in Hl.
  cbn [concat_kdf_loop]. rewrite decide_True by (simpl; lia). rewrite app_nil_l.
  rewrite decide_False by lia. apply take_ge. lia.
Qed.

(** What the classical KEK is the digest of. *)
Definition kek_input (z party_v : bytes) : bytes :=
  be_bytes 4 1 ++ z ++ jose_other_info (str_bytes (as_jose EcdhEsA256Kw)) [] party_v 256.

Lemma kek_is_digest z party_v : ecdh_es_a256kw_kek z party_v = sha256 (kek_input z party_v).
Proof. apply concat_kdf_32. Qed.

Lemma kek_input_inj z pv pv' :
  is_u32 (Z.of_nat (length pv)) -> is_u32 (Z.of_nat (length pv')) ->
  kek_input z pv = kek_input z pv' -> pv = pv'.
Proof.
  unfold kek_input, jose_other_info, push_datum. intros Hl Hl' E.
  apply app_inv_head in E. apply app_inv_head in E.
  rewrite <- !app_assoc in E. do 3 apply app_inv_head in E.
  by apply lp_inj in E as [-> _].
Qed.

(** ** The ephemeral key in the envelope *)

Lemma x963_from_epk_jwk P : x963_from_epk (epk_jwk P) = Ok (p256_x963 P).
Proof.
  unfold x963_from_epk, epk_jwk; simpl. rewrite !b64_decode_encode.
  rewrite p256_x_length, p256_y_length. simpl. unfold p256_x963.
  by rewrite p256_decode_uncompressed.
Qed.

Lemma ecdh_ok d d' P : p256_scalar d = Some d' -> ecdh_p256 d (p256_x963 P) = Ok (p256_dh d P).
Proof.
  intros Hd. pose proof (p256_scalar_id _ _ Hd) as ->. unfold ecdh_p256, p256_x963.
  by rewrite Hd, p256_decode_uncompressed.
Qed.

Lemma fingerprint_ok P : exists fp, fingerprint (p256_x963 P) = Ok fp.
Proof. unfold fingerprint, p256_x963. rewrite p256_decode_uncompressed. eauto. Qed.

Lemma fixed32_ok k : length k = 32%nat -> fixed32 k = Ok k.
Proof. intros Hk. by apply to_array_Ok. Qed.

(** What a classical wrap holds, field by field. *)
Lemma wrap_to_spec ephemeral sk key party_v :
  is_Some (p256_scalar ephemeral) -> length key = 32%nat ->
  exists w fp, wrap (ecdh_es_a256kw_kek (p256_dh ephemeral (p256_public sk)) party_v) key = Ok w /\
    wrap_to ephemeral (p256_x963 (p256_public sk)) key party_v =
      Ok (mk_WrapEnvelope 1 (as_jose EcdhEsA256Kw) (epk_jwk (p256_public ephemeral))
            (b64_encode w) fp).
Proof.
  intros [e He] Hk. destruct (fingerprint_ok (p256_public sk)) as [fp Hfp].
  destruct (wrap_32_total (ecdh_es_a256kw_kek (p256_dh ephemeral (p256_public sk)) party_v) key Hk)
    as [w Hw].
  exists w, fp. split; [done|]. unfold wrap_to.
  rewrite (ecdh_ok _ _ _ He). unfold p256_x963 at 1. rewrite p256_decode_uncompressed.
  by rewrite Hw, Hfp.
Qed.

(** Unwrapping that envelope is one AES-KW unwrap under the same agreement. *)
Lemma unwrap_with_spec ephemeral sk w fp party_v :
  is_Some (p256_scalar ephemeral) -> is_Some (p256_scalar sk) ->
  unwrap_with sk
    (mk_WrapEnvelope 1 (as_jose EcdhEsA256Kw) (epk_jwk (p256_public ephemeral)) (b64_encode w) fp)
    party_v
  = unwrap (ecdh_es_a256kw_kek (p256_dh ephemeral (p256_public sk)) party_v) w.
Proof.
  intros He [s Hs]. unfold unwrap_with, finish_unwrap. cbn [alg ct epk].
  rewrite x963_from_epk_jwk, (ecdh_ok _ _ _ Hs), from_jose_as_jose, b64_decode_encode.
  by rewrite (p256_dh_comm sk ephemeral) by eauto.
Qed.

(** ** The hybrid combiner *)

Lemma build_fixed_info_inj e1 k1 c1 q1 p1 e2 k2 c2 q2 p2 :
  is_u32 (Z.of_nat (length e1)) -> is_u32 (Z.of_nat (length e2)) ->
  is_u32 (Z.of_nat (length k1)) -> is_u32 (Z.of_nat (length k2)) ->
  is_u32 (Z.of_nat (length c1)) -> is_u32 (Z.of_nat (length c2)) ->
  is_u32 (Z.of_nat (length q1)) -> is_u32 (Z.of_nat (length q2)) ->
  is_u32 (Z.of_nat (length p1)) -> is_u32 (Z.of_nat (length p2)) ->
  build_fixed_info e1 k1 c1 q1 p1 = build_fixed_info e2 k2 c2 q2 p2 ->
  e1 = e2 /\ k1 = k2 /\ c1 = c2 /\ q1 = q2 /\ p1 = p2.
Proof.
  unfold build_fixed_info, push_field. intros ?????????? E. rewrite <- !app_assoc in E.
  do 2 apply app_inv_head in E.
  do 4 (apply lp_inj in E as [? E]; [|done..]).
  apply app_inv_head in E.
  rewrite <- (app_nil_r (lp p1)), <- (app_nil_r (lp p2)) in E.
  apply lp_inj in E as [? _]; done.
Qed.

Lemma content_wrap_kek_Ok z z' info : exists kek, content_wrap_kek z z' info = Ok kek.
Proof.
  unfold content_wrap_kek. destruct (hkdf_sha256_32 (z ++ z') [] info 32) as (k & -> & Hk); [lia|].
  exists k. by apply to_array_Ok.
Qed.

Lemma validate_recipient_keys_Ok rk_ec rk_pq :
  validate_recipient_keys rk_ec rk_pq = Ok tt -> length rk_ec = 65%nat /\ length rk_pq = 1568%nat.
Proof. unfold validate_recipient_keys. intros E. steps_in E. by bool_prop. Qed.

Lemma validate_party_v_Ok pv : validate_party_v pv = Ok tt -> (length pv <= 16)%nat.
Proof.
  unfold validate_party_v. intros E. steps_in E.
  apply orb_true_iff in Heqb as [E'|E']; bool_prop; [subst; simpl; lia|lia].
Qed.

Lemma x963_from_epk_length e b : x963_from_epk e = Ok b -> length b = 65%nat.
Proof.
  unfold x963_from_epk. intros E. steps_in E. bool_prop. simpl. rewrite length_app. lia.
Qed.

(** The parts of a successful hybrid unwrap. *)
Lemma unwrap_hybrid_parts z_ec z_pq env rk_ec rk_pq pv key :
  unwrap_with_shared_secrets z_ec z_pq env rk_ec rk_pq pv = Ok key ->
  exists epk ek wk kek,
    validate_recipient_keys rk_ec rk_pq = Ok tt /\ validate_party_v pv = Ok tt /\
    x963_from_epk (h_epk env) = Ok epk /\ b64_decode (h_ek env) = Some ek /\
    length ek = MLKEM1024_CT_LEN /\ b64_decode (h_wk env) = Some wk /\
    content_wrap_kek z_ec z_pq (build_fixed_info epk ek rk_ec rk_pq pv) = Ok kek /\
    unwrap kek wk = Ok key.
Proof.
  unfold unwrap_with_shared_secrets. intros E. steps_in E. bool_prop.
  repeat match goal with u : unit |- _ => destruct u end.
  unfold fixed32 in E. apply to_array_Ok in E as [-> _].
  eexists _, _, _, _. done.
Qed.

(** The split envelopes put a sealed text back together. *)
Lemma split_sealed (sealed : bytes) n : take n sealed ++ drop n sealed = sealed.
Proof. apply take_drop. Qed.

End Lemmas.

(** ** The properties *)

Section Properties.
Context `{Sha256, AesGcm, Hkdf, AesKw, Base64Url, Hex, P256}.

(** Wrapping a 32-byte file key, or a folder's metadata key, to a recipient
    always succeeds, and the recipient's private scalar recovers exactly that
    key, through the scalar path as through the keystore-supplied shared secret. *)
Theorem wrap_round_trip ephemeral sk key root_folder_id :
  is_Some (p256_scalar ephemeral) -> is_Some (p256_scalar sk) -> length key = 32%nat ->
  let pub := p256_x963 (p256_public sk) in
  (exists env, wrap_dek ephemeral pub key = Ok env /\ unwrap_dek sk env = Ok key) /\
  (exists env, wrap_metadata_key ephemeral pub key root_folder_id = Ok env /\
     unwrap_metadata_key sk env root_folder_id = Ok key /\
     (let*? e := ephemeral_pubkey_x963 env in
      let*? z := ecdh_p256 sk e in
      unwrap_metadata_key_with_shared_secret z env root_folder_id) = Ok key).
Proof.
  intros He Hs Hk pub. subst pub.
  destruct (wrap_to_spec ephemeral sk key [] He Hk) as (w & fp & Hw & E).
  destruct (wrap_to_spec ephemeral sk key root_folder_id He Hk) as (w' & fp' & Hw' & E').
  split; eexists; (split; [done|]).
  - unfold unwrap_dek. rewrite unwrap_with_spec by done.
    apply unwrap_iff in Hw as ->. by apply fixed32_ok.
  - apply unwrap_iff in Hw'. split.
    + unfold unwrap_metadata_key. rewrite unwrap_with_spec by done.
      rewrite Hw'. by apply fixed32_ok.
    + pose proof (unwrap_with_spec ephemeral sk w' fp' root_folder_id He Hs) as Hu.
      unfold unwrap_with in Hu. unfold ephemeral_pubkey_x963, unwrap_metadata_key_with_shared_secret.
      destruct (x963_from_epk _) as [e|]; [|congruence].
      destruct (ecdh_p256 sk e) as [z|]; [|congruence]. rewrite Hu, Hw'. by apply fixed32_ok.
Qed.

(** A metadata-key wrap made for one root folder unwraps under another only if
    one AES-KW block opens under two different keys, or the two KDF inputs
    collide under SHA-256 (the folder binding P-015). *)
Theorem metadata_wrap_folder_binding ephemeral sk key root root' env key' :
  is_Some (p256_scalar ephemeral) -> is_Some (p256_scalar sk) -> length key = 32%nat ->
  length root = 16%nat -> length root' = 16%nat ->
  wrap_metadata_key ephemeral (p256_x963 (p256_public sk)) key root = Ok env ->
  unwrap_metadata_key sk env root' = Ok key' ->
  let z := p256_dh ephemeral (p256_public sk) in
  (root = root' /\ key = key') \/
  (exists w, kek_forgery w (ecdh_es_a256kw_kek z root) (ecdh_es_a256kw_kek z root')) \/
  collision_in [kek_input z root; kek_input z root'].
Proof.
  intros He Hs Hk Hr Hr' Hwr Hu z. subst z.
  destruct (wrap_to_spec ephemeral sk key root He Hk) as (w & fp & Hw & E).
  unfold wrap_metadata_key in Hwr. rewrite E in Hwr. apply (inj Ok) in Hwr as <-.
  unfold unwrap_metadata_key in Hu. rewrite unwrap_with_spec in Hu by done.
  apply unwrap_iff in Hw. destruct (unwrap _ w) as [k|] eqn:Hu' in Hu; [|done].
  apply to_array_Ok in Hu as [-> _].
  set (z := p256_dh ephemeral (p256_public sk)) in *.
  destruct (decide (ecdh_es_a256kw_kek z root = ecdh_es_a256kw_kek z root')) as [Ek|Hne].
  - rewrite !kek_is_digest in Ek.
    apply (sha256_eq_or_collision [kek_input z root; kek_input z root']) in Ek as [Ei|Hc];
      [|by right; right|left|right; left].
    apply kek_input_inj in Ei as ->; [|unfold is_u32, u32_max; lia..].
    left. split; [done|congruence].
  - right; left. exists w. unfold kek_forgery. by rewrite Hw, Hu'.
Qed.

(** The hybrid wrap round-trips: with validated recipient keys, an ephemeral
    point, a KEM ciphertext of the right length and a legal context it always
    succeeds, and the same secrets and context recover the key. *)
Theorem hybrid_round_trip z_ec z_pq P ek rk_ec rk_pq key pv :
  validate_recipient_keys rk_ec rk_pq = Ok tt -> validate_party_v pv = Ok tt ->
  length ek = MLKEM1024_CT_LEN -> length key = 32%nat ->
  exists env, wrap_from_secrets z_ec z_pq (p256_x963 P) ek rk_ec rk_pq key pv = Ok env /\
    unwrap_with_shared_secrets z_ec z_pq env rk_ec rk_pq pv = Ok key.
Proof.
  intros Hrk Hpv Hek Hk. unfold wrap_from_secrets, hybrid_rfp, p256_pub.
  rewrite Hrk, Hpv, bool_decide_true by done. unfold p256_x963 at 1.
  rewrite p256_decode_uncompressed. cbn [ok_or].
  destruct (content_wrap_kek_Ok z_ec z_pq (build_fixed_info (p256_x963 P) ek rk_ec rk_pq pv))
    as [kek Hkek].
  rewrite Hkek. destruct (wrap_32_total kek key Hk) as [w Hw]. rewrite Hw.
  eexists. split; [done|]. unfold unwrap_with_shared_secrets. cbn [h_alg h_epk h_ek h_wk].
  rewrite from_jose_as_jose, Hrk, Hpv, x963_from_epk_jwk, !b64_decode_encode.
  rewrite !bool_decide_true, Hkek by done. apply unwrap_iff in Hw as ->. by apply fixed32_ok.
Qed.

(** C19: An AES-KW block made by the hybrid wrap opens, inside any envelope and
    for any recipient keys and context, only if the whole context is the one it
    was made for (ephemeral key, KEM ciphertext, both recipient keys, folder),
    or else this very block opens under the two different keys that the two contexts
    derive, or the two contexts differ and derive one key.  This is the defence against swapped recipients, replaced
    KEM ciphertexts and moved folders. *)
Theorem hybrid_binding z_ec z_pq P ek rk_ec rk_pq key pv env z_ec' z_pq' env' rk_ec' rk_pq' pv' key' :
  wrap_from_secrets z_ec z_pq (p256_x963 P) ek rk_ec rk_pq key pv = Ok env ->
  h_wk env' = h_wk env ->
  unwrap_with_shared_secrets z_ec' z_pq' env' rk_ec' rk_pq' pv' = Ok key' ->
  exists epk' ek' block kek kek',
    x963_from_epk (h_epk env') = Ok epk' /\ b64_decode (h_ek env') = Some ek' /\ b64_decode (h_wk env) = Some block /\
    let info := build_fixed_info (p256_x963 P) ek rk_ec rk_pq pv in
    let info' := build_fixed_info epk' ek' rk_ec' rk_pq' pv' in
    content_wrap_kek z_ec z_pq info = Ok kek /\ content_wrap_kek z_ec' z_pq' info' = Ok kek' /\
    ((epk' = p256_x963 P /\ ek' = ek /\ rk_ec' = rk_ec /\ rk_pq' = rk_pq /\ pv' = pv /\
      (z_ec' = z_ec -> z_pq' = z_pq -> key' = key)) \/
     kek_forgery block kek kek' \/ (info <> info' /\ kek = kek')).
Proof.
  intros Hw Hwk Hu. apply unwrap_hybrid_parts in Hu
    as (epk' & ek' & wk & kek' & Hrk' & Hpv' & Hepk' & Hek' & Hl' & Hwk' & Hkek' & Hu').
  unfold wrap_from_secrets, p256_pub in Hw. unfold p256_x963 at 1 in Hw.
  rewrite p256_decode_uncompressed in Hw. cbn [ok_or] in Hw.
  destruct (validate_recipient_keys rk_ec rk_pq) as [[]|] eqn:Hrk; [|done].
  destruct (validate_party_v pv) as [[]|] eqn:Hpv; [|done].
  destruct (bool_decide (length ek = _)) eqn:Hl; [|done]. bool_prop.
  destruct (content_wrap_kek z_ec z_pq _) as [kek|] eqn:Hkek; [|done].
  destruct (wrap kek key) as [w|] eqn:Hww; [|done].
  destruct (hybrid_rfp rk_ec rk_pq) as [fp|]; [|done]. apply (inj Ok) in Hw as <-.
  cbn [h_wk] in Hwk. rewrite Hwk, b64_decode_encode in Hwk'. apply (inj Some) in Hwk' as <-.
  exists epk', ek', w, kek, kek'. cbn [h_wk]. rewrite b64_decode_encode. do 3 (split; [done|]). cbv zeta.
  split; [done|]. split; [done|]. apply unwrap_iff in Hww.
  destruct (decide (build_fixed_info (p256_x963 P) ek rk_ec rk_pq pv
                    = build_fixed_info epk' ek' rk_ec' rk_pq' pv')) as [Ei|Hne].
  - apply x963_from_epk_length in Hepk'. apply validate_recipient_keys_Ok in Hrk as [], Hrk' as [].
    apply validate_party_v_Ok in Hpv, Hpv'. unfold MLKEM1024_CT_LEN in *.
    pose proof (p256_x963_length P). rewrite <- Ei in Hkek'.
    apply build_fixed_info_inj in Ei as (<- & <- & <- & <- & <-);
      [|unfold is_u32, u32_max; lia..].
    left. repeat split; [done..|]. intros -> ->. congruence.
  - destruct (decide (kek = kek')) as [->|Hkne].
    + right; right. by split.
    + right; left. unfold kek_forgery. by rewrite Hww, Hu'.
Qed.

(** The human-side blob round-trips: a private key wrapped under a wrap key
    is recovered by it, byte for byte, and the wrap key exists for every 32-byte
    PRF output and for no other length. *)
Theorem kem_privkey_round_trip wrap_key pkcs8 iv env prf :
  length iv = 12%nat -> wrap_kem_privkey wrap_key pkcs8 iv = Ok env ->
  unwrap_kem_privkey wrap_key env = Ok pkcs8 /\
  (is_ok (derive_wrap_key prf) = true <-> length prf = 32%nat).
Proof.
  intros Hiv Hw. split.
  - unfold wrap_kem_privkey in Hw. destruct (seal _ _ _ _) as [c|] eqn:Es; [|done].
    apply (inj Ok) in Hw as <-. unfold unwrap_kem_privkey. cbn [s_alg s_iv s_ct s_tag].
    rewrite from_jose_as_jose, !b64_decode_encode, bool_decide_true by done.
    pose proof (seal_length _ _ _ _ _ Es) as Hl.
    rewrite (proj2 (to_array_Ok 12 _ iv iv)), bool_decide_true
      by (done || rewrite length_drop; lia).
    rewrite split_sealed. by apply open_iff.
  - unfold derive_wrap_key. case_bool_decide as Hp; [|done].
    destruct (hkdf_sha256_32 prf [] KEM_WRAP_LABEL 32) as (k & -> & Hk); [lia|].
    by rewrite (proj2 (to_array_Ok 32 _ k k)).
Qed.

(** An encrypted name decrypts to itself under its own folder and target, and
    under another folder or target only if one AES-GCM ciphertext opens under
    two different associated data. *)
Theorem name_round_trip_and_binding iv key root target name env root' target' name' :
  length iv = 12%nat -> utf8_valid (str_bytes name) = true ->
  length root = 16%nat -> length root' = 16%nat ->
  encrypt_name iv key root target name = Ok env ->
  decrypt_name key root target env = Ok name /\
  (decrypt_name key root' target' env = Ok name' ->
   (root' = root /\ target' = target /\ name' = name) \/
   exists c, aad_forgery key iv c (name_aad root target) (name_aad root' target')).
Proof.
  intros Hiv Hutf Hr Hr' He. unfold encrypt_name in He.
  destruct (seal _ _ _ _) as [c|] eqn:Es; [|done].
  destruct (bool_decide _) eqn:Hl in He; [|done]. apply (inj Ok) in He as <-.
  apply open_iff in Es. unfold decrypt_name. cbn [s_alg s_iv s_ct s_tag].
  rewrite from_jose_as_jose, !b64_decode_encode, bool_decide_true by done.
  rewrite (proj2 (to_array_Ok 12 _ iv iv)), split_sealed by done.
  rewrite Es, from_utf8_str_bytes by done. split; [done|].
  destruct (open key iv c (name_aad root' target')) as [p|] eqn:Eo; [|done]. intros Hp.
  destruct (open_binding _ _ _ _ _ _ _ Es Eo) as [[Ea <-]|Hf]; [left|right; eauto].
  unfold name_aad in Ea. apply app_inj_1 in Ea as [-> ->]; [|congruence].
  rewrite from_utf8_str_bytes in Hp by done. by apply (inj Ok) in Hp as ->.
Qed.

(** A public key survives the JWK form: the JWK of an uncompressed point
    parses back to that point. *)
Theorem jwk_round_trip P :
  exists j, jwk (p256_x963 P) = Ok j /\ x963_from_jwk j = Ok (p256_x963 P).
Proof.
  pose proof (p256_x_length P) as Hx. pose proof (p256_y_length P) as Hy.
  assert (Ex : take 32 (drop 1 (p256_x963 P)) = p256_x P) by (by apply take_app_3).
  assert (Ey : take 32 (drop 33 (p256_x963 P)) = p256_y P).
  { change (drop 33 (p256_x963 P)) with (drop 32 (p256_x P ++ p256_y P)).
    rewrite drop_app_3 by done. apply take_ge. lia. }
  unfold jwk. rewrite p256_x963_length, Ex, Ey. eexists. split; [done|].
  set (j := VObject _).
  assert (get_str j "kty" = Some "EC" /\ get_str j "crv" = Some "P-256" /\
    get_str j "x" = Some (b64_encode (p256_x P)) /\ get_str j "y" = Some (b64_encode (p256_y P)))
    as (E1 & E2 & E3 & E4) by done.
  unfold x963_from_jwk. rewrite E1, E2, E3, E4, !b64_decode_encode, Hx, Hy.
  rewrite !(bool_decide_false (_ <> _)), !bool_decide_true by (done || tauto). simpl.
  by rewrite p256_decode_uncompressed.
Qed.

End Properties.

(** ** Witnesses *)
Import Toy.

Definition demo_eph : bytes := be_bytes 32 4242.
Definition demo_sk : bytes := be_bytes 32 9001.
Definition demo_key : bytes := be_bytes 32 31337.
Definition demo_root : bytes := be_bytes 16 5.
Definition demo_rk_ec : bytes := p256_x963 (p256_public demo_sk).
Definition demo_rk_pq : bytes := replicate 1568 Byte.x07.
Definition demo_ek : bytes := replicate 1568 Byte.x09.

Lemma demo_eph_scalar : is_Some (p256_scalar demo_eph).
Proof. exists demo_eph. by vm_compute. Defined.

Lemma demo_sk_scalar : is_Some (p256_scalar demo_sk).
Proof. exists demo_sk. by vm_compute. Defined.

Lemma wrap_round_trip_witness :
  (exists env, wrap_dek demo_eph demo_rk_ec demo_key = Ok env /\ unwrap_dek demo_sk env = Ok demo_key) /\
  (exists env, wrap_metadata_key demo_eph demo_rk_ec demo_key demo_root = Ok env /\
     unwrap_metadata_key demo_sk env demo_root = Ok demo_key /\
     (let*? e := ephemeral_pubkey_x963 env in
      let*? z := ecdh_p256 demo_sk e in
      unwrap_metadata_key_with_shared_secret z env demo_root) = Ok demo_key).
Proof.
  apply (wrap_round_trip demo_eph demo_sk demo_key demo_root);
    [apply demo_eph_scalar|apply demo_sk_scalar|by vm_compute].
Defined.

Definition ok_default {E A} (d : A) (r : result E A) : A := match r with Ok a => a | Err _ => d end.
Definition demo_wrap : WrapEnvelope :=
  ok_default (mk_WrapEnvelope 0 "" (mk_EpkJwk "" "" "" "") "" "")
    (wrap_metadata_key demo_eph demo_rk_ec demo_key demo_root).

Lemma metadata_wrap_folder_binding_witness :
  let z := p256_dh demo_eph (p256_public demo_sk) in
  (demo_root = demo_root /\ demo_key = demo_key) \/
  (exists w, kek_forgery w (ecdh_es_a256kw_kek z demo_root) (ecdh_es_a256kw_kek z demo_root)) \/
  collision_in [kek_input z demo_root; kek_input z demo_root].
Proof.
  apply (metadata_wrap_folder_binding demo_eph demo_sk demo_key demo_root demo_root demo_wrap demo_key);
    [apply demo_eph_scalar|apply demo_sk_scalar|by vm_compute..].
Defined.

Lemma hybrid_round_trip_witness :
  exists env,
    wrap_from_secrets demo_key demo_eph (p256_x963 (p256_public demo_eph)) demo_ek
      demo_rk_ec demo_rk_pq demo_key demo_root = Ok env /\
    unwrap_with_shared_secrets demo_key demo_eph env demo_rk_ec demo_rk_pq demo_root = Ok demo_key.
Proof.
  apply (hybrid_round_trip demo_key demo_eph (p256_public demo_eph) demo_ek
           demo_rk_ec demo_rk_pq demo_key demo_root); by vm_compute.
Defined.

Definition demo_hybrid : HybridWrapEnvelope :=
  ok_default (mk_HybridWrapEnvelope 0 "" (mk_EpkJwk "" "" "" "") "" "" "")
    (wrap_from_secrets demo_key demo_eph (p256_x963 (p256_public demo_eph)) demo_ek
       demo_rk_ec demo_rk_pq demo_key demo_root).

Lemma hybrid_binding_witness :
  exists epk' ek' block kek kek',
    x963_from_epk (h_epk demo_hybrid) = Ok epk' /\ b64_decode (h_ek demo_hybrid) = Some ek' /\
    b64_decode (h_wk demo_hybrid) = Some block /\
    let info := build_fixed_info (p256_x963 (p256_public demo_eph)) demo_ek demo_rk_ec demo_rk_pq demo_root in
    let info' := build_fixed_info epk' ek' demo_rk_ec demo_rk_pq demo_root in
    content_wrap_kek demo_key demo_eph info = Ok kek /\ content_wrap_kek demo_key demo_eph info' = Ok kek' /\
    ((epk' = p256_x963 (p256_public demo_eph) /\ ek' = demo_ek /\ demo_rk_ec = demo_rk_ec /\
      demo_rk_pq = demo_rk_pq /\ demo_root = demo_root /\
      (demo_key = demo_key -> demo_eph = demo_eph -> demo_key = demo_key)) \/
     kek_forgery block kek kek' \/ (info <> info' /\ kek = kek')).
Proof.
  apply (hybrid_binding demo_key demo_eph (p256_public demo_eph) demo_ek demo_rk_ec demo_rk_pq
    demo_key demo_root demo_hybrid demo_key demo_eph demo_hybrid demo_rk_ec demo_rk_pq demo_root demo_key);
    by vm_compute.
Defined.

Definition demo_iv : bytes := be_bytes 12 99.
Definition demo_privkey : SplitEnvelope :=
  ok_default (mk_SplitEnvelope 0 "" "" "" "") (wrap_kem_privkey demo_key demo_sk demo_iv).

Lemma kem_privkey_round_trip_witness :
  unwrap_kem_privkey demo_key demo_privkey = Ok demo_sk /\
  (is_ok (derive_wrap_key demo_eph) = true <-> length demo_eph = 32%nat).
Proof.
  apply (kem_privkey_round_trip demo_key demo_sk demo_iv demo_privkey demo_eph); by vm_compute.
Defined.

Definition demo_name : SplitEnvelope :=
  ok_default (mk_SplitEnvelope 0 "" "" "" "")
    (encrypt_name demo_iv demo_key demo_root demo_root "schema.md").

Lemma name_round_trip_and_binding_witness :
  decrypt_name demo_key demo_root demo_root demo_name = Ok "schema.md" /\
  (decrypt_name demo_key demo_root demo_iv demo_name = Ok "other.md" ->
   (demo_root = demo_root /\ demo_iv = demo_root /\ "other.md"%string = "schema.md"%string) \/
   exists c, aad_forgery demo_key demo_iv c (name_aad demo_root demo_root) (name_aad demo_root demo_iv)).
Proof.
  apply (name_round_trip_and_binding demo_iv demo_key demo_root demo_root "schema.md" demo_name
           demo_root demo_iv "other.md"); by vm_compute.
Defined.
