(* ===== verification/SignedBytes.v ===== *)
(** * The bytes that are hashed and signed (crypto/src: translog.rs, signing.rs,
      attest.rs)

    The transparency log's entry preimages in their three versions, the epoch
    payload, and the signing inputs of the four signature surfaces (requests,
    log receipts, verification responses, enrolment).  The theorems: an entry
    hash pins every field of the entry; the three entry versions cannot be
    confused; a signed request pins every element of the request; no signing
    input of one surface is one of another. *)

From S2P Require Import Prelude Prims CryptoCore.

Module TransLog.
Section Code.
Context `{Sha256, Jcs}.

Inductive KeyPurpose := Epoch | Signing | Kem | SigningPq | KemPq.

Definition as_byte (p : KeyPurpose) : byte :=
  match p with
  | Epoch => Byte.x00
  | Signing => Byte.x01
  | Kem => Byte.x02
  | SigningPq => Byte.x03
  | KemPq => Byte.x04
  end.

(** [vrf::INDEX_LEN]. *)
Definition INDEX_LEN : nat := 64.

Definition ENTRY_VERSION_V2 : byte := Byte.x02.
Definition ENTRY_VERSION_V3 : byte := Byte.x03.
Definition EPOCH_ALGORITHM : string := "signet-translog-v2".
Definition EPOCH_ALGORITHM_V3 : string := "signet-translog-v3".
Definition EPOCH_PAYLOAD_V3_TAG : bytes := str_bytes "signet-pubkey-log-v3-epoch".

(** The buffers the three functions fill. *)
Definition entry_bytes (entry_id : Z) (account_id : bytes) (key_purpose : KeyPurpose)
    (algorithm : string) (public_key : bytes) (created_at : Z) (prev_entry_hash : bytes) : bytes :=
  be_bytes 8 entry_id ++ account_id ++ [as_byte key_purpose] ++ lp (str_bytes algorithm)
  ++ public_key ++ be_bytes 8 created_at ++ prev_entry_hash.

Definition entry_hash (entry_id : Z) (account_id : bytes) (key_purpose : KeyPurpose)
    (algorithm : string) (public_key : bytes) (created_at : Z) (prev_entry_hash : bytes) : bytes :=
  sha256 (entry_bytes entry_id account_id key_purpose algorithm public_key created_at prev_entry_hash).

Definition entry_bytes_v2 (entry_id : Z) (account_id : option bytes) (key_purpose : KeyPurpose)
    (algorithm : string) (public_key : bytes) (created_at : Z) (prev_entry_hash : bytes) : bytes :=
  [ENTRY_VERSION_V2] ++ be_bytes 8 entry_id ++ default (replicate 16 Byte.x00) account_id
  ++ [as_byte key_purpose] ++ lp (str_bytes algorithm) ++ lp public_key
  ++ be_bytes 8 created_at ++ prev_entry_hash.

Definition entry_hash_v2 (entry_id : Z) (account_id : option bytes) (key_purpose : KeyPurpose)
    (algorithm : string) (public_key : bytes) (created_at : Z) (prev_entry_hash : bytes) : bytes :=
  sha256 (entry_bytes_v2 entry_id account_id key_purpose algorithm public_key created_at
            prev_entry_hash).

Definition entry_bytes_v3 (entry_id : Z) (account_index : option bytes) (key_purpose : KeyPurpose)
    (algorithm : string) (public_key : bytes) (created_at : Z) (prev_entry_hash : bytes) : bytes :=
  [ENTRY_VERSION_V3] ++ be_bytes 8 entry_id ++ default (replicate INDEX_LEN Byte.x00) account_index
  ++ [as_byte key_purpose] ++ lp (str_bytes algorithm) ++ lp public_key
  ++ be_bytes 8 created_at ++ prev_entry_hash.

Definition entry_hash_v3 (entry_id : Z) (account_index : option bytes) (key_purpose : KeyPurpose)
    (algorithm : string) (public_key : bytes) (created_at : Z) (prev_entry_hash : bytes) : bytes :=
  sha256 (entry_bytes_v3 entry_id account_index key_purpose algorithm public_key created_at
            prev_entry_hash).

Definition epoch_payload_v3 (epoch prev_epoch_size : Z) (prev_epoch_root vrf_public_key : bytes)
    : bytes :=
  EPOCH_PAYLOAD_V3_TAG ++ [Byte.x00] ++ be_bytes 2 epoch ++ be_bytes 8 prev_epoch_size
  ++ prev_epoch_root ++ sha256 vrf_public_key.

(** String literals of the source end in a line feed. *)
Definition LF : byte := Byte.x0a.

Definition RECEIPT_PREFIX : bytes := str_bytes "signet-pubkey-log-receipt-v1" ++ [LF].

Definition receipt_signing_input (receipt : value) : cresult bytes :=
  let*? b := to_canonical_bytes receipt in Ok (RECEIPT_PREFIX ++ b).

End Code.
End TransLog.

Module Attest.
Section Code.
Context `{Jcs}.
Import TransLog.

Definition VERIFY_PREFIX : bytes := str_bytes "signet-server-attestation-verify-v1" ++ [LF].

Definition verification_signing_input (attestation : value) (server_key_id : string) (signed_at : Z)
    : cresult bytes :=
  let*? b := to_canonical_bytes attestation in
  Ok (VERIFY_PREFIX ++ b ++ [LF] ++ str_bytes server_key_id ++ [LF] ++ str_bytes (pretty signed_at)).

Definition ENROLL_POP_PREFIX : bytes := str_bytes "signet-enroll-pop-v1" ++ [LF].

Definition enroll_pop_signing_base (challenge : bytes) : bytes := ENROLL_POP_PREFIX ++ challenge.

End Code.
End Attest.

Module Signing.
Section Code.
Context `{Sha256, Hex}.
Import TransLog.

Definition SIGNET_V1 : string := "SIGNET-V1".

(** [[..].join("\n")]. *)
Fixpoint join_lf (parts : list bytes) : bytes :=
  match parts with
  | [] => []
  | [p] => p
  | p :: parts => p ++ [LF] ++ join_lf parts
  end.

Definition signet_v1_canonical_bytes (method path_and_query : string) (body : bytes)
    (timestamp nonce fingerprint : string) : bytes :=
  let body_hash := hex_encode (sha256 body) in
  join_lf (map str_bytes
    [SIGNET_V1; method; path_and_query; body_hash; timestamp; nonce; fingerprint]).

End Code.
End Signing.
Import TransLog Attest Signing.

(** ** Framing lemmas *)

Section Lemmas.
Context `{Sha256}.

#[export] Instance as_byte_inj : Inj (=) (=) as_byte.
Proof. by intros [] []. Qed.

(** The fields every version has, after the account. *)
Lemma entry_tail_inj p p' a a' k k' r r' :
  is_u32 (Z.of_nat (length (str_bytes a))) -> is_u32 (Z.of_nat (length (str_bytes a'))) ->
  [as_byte p] ++ lp (str_bytes a) ++ k ++ r = [as_byte p'] ++ lp (str_bytes a') ++ k' ++ r' ->
  p = p' /\ a = a' /\ k ++ r = k' ++ r'.
Proof.
  intros Ha Ha' E. apply cons_split in E as [Ep E]. apply (inj as_byte) in Ep as ->.
  apply lp_inj in E as [Es E]; [|done..]. by apply (inj str_bytes) in Es as ->.
Qed.

(** The last two fields have fixed widths, so they can be cut off from the end. *)
Lemma entry_end_inj k k' t t' h h' :
  is_u64 t -> is_u64 t' -> is32 h -> is32 h' ->
  k ++ be_bytes 8 t ++ h = k' ++ be_bytes 8 t' ++ h' -> k = k' /\ t = t' /\ h = h'.
Proof.
  unfold is_u64, u64_max, is32. intros Ht Ht' Hh Hh' E.
  apply app_inj_2 in E as [-> E]; [|rewrite !length_app, !length_be_bytes; congruence].
  peel E. by apply be_bytes_inj in Hpeel; [|simpl; lia..].
Qed.

Lemma be8_inj i i' r r' :
  is_u64 i -> is_u64 i' -> be_bytes 8 i ++ r = be_bytes 8 i' ++ r' -> i = i' /\ r = r'.
Proof.
  unfold is_u64, u64_max. intros Hi Hi' E. peel E. by apply be_bytes_inj in Hpeel; [|simpl; lia..].
Qed.

End Lemmas.

(** The well-formed arguments of an entry hash: machine widths, and an
    algorithm name whose length fits its prefix. *)
Definition entry_args_ok (entry_id : Z) (algorithm : string) (public_key : bytes) (created_at : Z)
    (prev : bytes) : Prop :=
  is_u64 entry_id /\ is_u32 (Z.of_nat (length (str_bytes algorithm))) /\
  is_u32 (Z.of_nat (length public_key)) /\ is_u64 created_at /\ is32 prev.

Section EntryProperties.
Context `{Sha256}.

Lemma entry_bytes_inj i a p g k t h i' a' p' g' k' t' h' :
  entry_args_ok i g k t h -> entry_args_ok i' g' k' t' h' -> length a = length a' ->
  entry_bytes i a p g k t h = entry_bytes i' a' p' g' k' t' h' ->
  i = i' /\ a = a' /\ p = p' /\ g = g' /\ k = k' /\ t = t' /\ h = h'.
Proof.
  unfold entry_bytes. intros (Hi & Hg & Hk & Ht & Hh) (Hi' & Hg' & Hk' & Ht' & Hh') Hl E.
  apply be8_inj in E as [-> E]; [|done..]. apply app_inj_1 in E as [-> E]; [|done].
  apply entry_tail_inj in E as (-> & -> & E); [|done..].
  by apply entry_end_inj in E as (-> & -> & ->).
Qed.

(** v2 and v3 share their layout after the version byte. *)
Lemma entry_v23_inj i a p g k t h i' a' p' g' k' t' h' :
  entry_args_ok i g k t h -> entry_args_ok i' g' k' t' h' -> length a = length a' ->
  be_bytes 8 i ++ a ++ [as_byte p] ++ lp (str_bytes g) ++ lp k ++ be_bytes 8 t ++ h =
  be_bytes 8 i' ++ a' ++ [as_byte p'] ++ lp (str_bytes g') ++ lp k' ++ be_bytes 8 t' ++ h' ->
  i = i' /\ a = a' /\ p = p' /\ g = g' /\ k = k' /\ t = t' /\ h = h'.
Proof.
  intros (Hi & Hg & Hk & Ht & Hh) (Hi' & Hg' & Hk' & Ht' & Hh') Hl E.
  apply be8_inj in E as [-> E]; [|done..]. apply app_inj_1 in E as [-> E]; [|done].
  apply entry_tail_inj in E as (-> & -> & E); [|done..].
  apply lp_inj in E as [-> E]; [|done..].
  change (be_bytes 8 t ++ h) with ([] ++ be_bytes 8 t ++ h) in E.
  change (be_bytes 8 t' ++ h') with ([] ++ be_bytes 8 t' ++ h') in E.
  by apply entry_end_inj in E as (_ & -> & ->).
Qed.

(** An entry hash pins the whole entry.  Two entries of the same format version
    with equal hashes have equal fields (id, account, purpose, algorithm, key,
    time, previous hash), or their preimages are a SHA-256 collision.  An absent
    account of v2/v3 is the all-zero one, and nothing else is conflated. *)
Theorem entry_hash_binding i a p g k t h i' a' p' g' k' t' h' o o' :
  entry_args_ok i g k t h -> entry_args_ok i' g' k' t' h' ->
  length a = 16%nat -> length a' = 16%nat ->
  (forall x, o = Some x -> length x = INDEX_LEN) -> (forall x, o' = Some x -> length x = INDEX_LEN) ->
  (entry_hash i a p g k t h = entry_hash i' a' p' g' k' t' h' ->
   (i, a, p, g, k, t, h) = (i', a', p', g', k', t', h') \/
   collision_in [entry_bytes i a p g k t h; entry_bytes i' a' p' g' k' t' h']) /\
  (entry_hash_v2 i (Some a) p g k t h = entry_hash_v2 i' (Some a') p' g' k' t' h' ->
   (i, a, p, g, k, t, h) = (i', a', p', g', k', t', h') \/
   collision_in [entry_bytes_v2 i (Some a) p g k t h; entry_bytes_v2 i' (Some a') p' g' k' t' h']) /\
  (entry_hash_v3 i o p g k t h = entry_hash_v3 i' o' p' g' k' t' h' ->
   (i, default (replicate INDEX_LEN Byte.x00) o, p, g, k, t, h) =
   (i', default (replicate INDEX_LEN Byte.x00) o', p', g', k', t', h') \/
   collision_in [entry_bytes_v3 i o p g k t h; entry_bytes_v3 i' o' p' g' k' t' h']).
Proof.
  intros Hok Hok' Ha Ha' Ho Ho'.
  assert (Hlo : length (default (replicate INDEX_LEN Byte.x00) o)
    = length (default (replicate INDEX_LEN Byte.x00) o')).
  { destruct o as [x|], o' as [x'|]; simpl; rewrite ?(Ho x), ?(Ho' x'); done. }
  split; [|split]; intros E;
    (eapply sha256_eq_or_collision in E as [E|?]; [left|by right|left|right; left]).
  - apply entry_bytes_inj in E; [|done|done|congruence]. naive_solver.
  - unfold entry_bytes_v2 in E. apply (inj (cons _)) in E.
    apply entry_v23_inj in E; [|done|done|simpl; congruence]. naive_solver.
  - unfold entry_bytes_v3 in E. apply (inj (cons _)) in E.
    apply entry_v23_inj in E as (-> & -> & -> & -> & -> & -> & ->); done.
Qed.

(** The entry versions are separated: a v2 and a v3 preimage always differ, and
    a v1 preimage differs from both as long as the v1 entry id is below
    [2 ^ 57] (its top byte is then below every version byte).  So equal hashes
    across versions are a SHA-256 collision. *)
Theorem entry_versions_separated i a p g k t h i' a' p' g' k' t' h' i'' a'' p'' g'' k'' t'' h'' :
  0 <= i < 2 ^ 57 ->
  entry_bytes i a p g k t h <> entry_bytes_v2 i' a' p' g' k' t' h' /\
  entry_bytes i a p g k t h <> entry_bytes_v3 i'' a'' p'' g'' k'' t'' h'' /\
  entry_bytes_v2 i' a' p' g' k' t' h' <> entry_bytes_v3 i'' a'' p'' g'' k'' t'' h''.
Proof.
  intros Hi. unfold entry_bytes, entry_bytes_v2, entry_bytes_v3.
  rewrite (be_bytes_S 7 i). simpl app.
  assert (Hb : byte_to_Z (byte_of_Z (i / 256 ^ Z.of_nat 7)) < 2).
  { rewrite byte_to_of_Z. change (256 ^ Z.of_nat 7) with (2 ^ 56).
    assert (0 <= i / 2 ^ 56 < 2) by (split; [apply Z.div_pos; lia|apply Z.div_lt_upper_bound; lia]).
    rewrite Z.mod_small; lia. }
  assert (Hne : forall b l l', 2 <= byte_to_Z b -> byte_of_Z (i / 256 ^ Z.of_nat 7) :: l <> b :: l').
  { intros b l l' H2 E. apply cons_split in E as [E _]. rewrite E in Hb. lia. }
  split; [by apply Hne|]. split; [by apply Hne|done].
Qed.
End EntryProperties.

(** ** Requests and domain separation *)

Section SigningProperties.
Context `{Sha256, Hex}.

Definition lf_free (s : string) : Prop := LF ∉ str_bytes s.

#[export] Instance lf_free_dec s : Decision (lf_free s).
Proof. unfold lf_free. apply _. Defined.

Lemma hex_lf_free x : lf_free (hex_encode x).
Proof.
  unfold lf_free. intros Hin. pose proof (hex_encode_digits x) as Hd.
  rewrite forallb_forall in Hd. apply list_elem_of_In in Hin. by specialize (Hd _ Hin).
Qed.

(** Lists of line-feed-free parts are recovered from their join. *)
Lemma join_lf_inj (ps qs : list string) :
  length ps = length qs -> Forall lf_free ps -> Forall lf_free qs ->
  join_lf (map str_bytes ps) = join_lf (map str_bytes qs) -> ps = qs.
Proof.
  assert (Hcut : forall a b r s, LF ∉ a -> LF ∉ b -> a ++ [LF] ++ r = b ++ [LF] ++ s ->
      a = b /\ r = s).
  { induction a as [|x a IH]; intros [|y b] r s Ha Hb E; simpl in E.
    - by injection E.
    - injection E as <- _. contradict Hb. left.
    - injection E as -> _. contradict Ha. left.
    - rewrite elem_of_cons in Ha, Hb. injection E as -> E.
      destruct (IH b r s) as [-> ->]; [tauto|tauto|done|done]. }
  revert qs. induction ps as [|p ps IH]; intros [|q qs] Hl Hp Hq E; [done..|].
  apply Forall_cons in Hp as [Hp Hps]. apply Forall_cons in Hq as [Hq Hqs].
  destruct ps as [|p' ps], qs as [|q' qs]; [|done|done|].
  - simpl in E. by apply (inj str_bytes) in E as ->.
  - apply Hcut in E as [E E']; [|done..]. apply (inj str_bytes) in E as ->.
    f_equal. apply IH; [simpl in *; lia|done..].
Qed.

(** The signed bytes of a request pin the request.  When the header values have
    no line feed, equal canonical bytes mean equal method, path, timestamp,
    nonce and fingerprint, and equal bodies or a SHA-256 collision between them. *)
Theorem canonical_bytes_binding m q b t n f m' q' b' t' n' f' :
  Forall lf_free [m; q; t; n; f; m'; q'; t'; n'; f'] ->
  signet_v1_canonical_bytes m q b t n f = signet_v1_canonical_bytes m' q' b' t' n' f' ->
  m = m' /\ q = q' /\ t = t' /\ n = n' /\ f = f' /\ (b = b' \/ collision_in [b; b']).
Proof.
  intros HF E. unfold signet_v1_canonical_bytes in E.
  repeat match type of HF with
  | Forall _ (_ :: _) => let h := fresh "Hf" in apply Forall_cons in HF as [h HF]
  end.
  assert (HV : lf_free SIGNET_V1) by (by apply (bool_decide_unpack _)).
  apply join_lf_inj in E; [|done|repeat constructor; auto using hex_lf_free..].
  injection E as -> -> Eb -> -> ->. apply hex_encode_inj in Eb.
  repeat split. apply sha256_eq_or_collision; [left|right; left|done].
Qed.

End SigningProperties.

(** Domain separation: whatever is signed, a request, a log receipt, a
    verification response and an enrolment proof are never the same bytes, so a
    signature made on one surface is never valid on another by being over the
    same message. *)
Theorem signing_surfaces_separated `{Sha256, Hex, Jcs} m q b t n f receipt rb att kid at_ vb ch :
  receipt_signing_input receipt = Ok rb ->
  verification_signing_input att kid at_ = Ok vb ->
  NoDup [signet_v1_canonical_bytes m q b t n f; rb; vb; enroll_pop_signing_base ch].
Proof.
  intros Hr Hv. unfold receipt_signing_input, verification_signing_input in *.
  destruct (to_canonical_bytes receipt) as [x|]; [|done]. apply (inj Ok) in Hr as <-.
  destruct (to_canonical_bytes att) as [y|]; [|done]. apply (inj Ok) in Hv as <-.
  assert (Hne : forall l l' : bytes, take 8 l <> take 8 l' -> l <> l') by congruence.
  repeat constructor; rewrite ?elem_of_cons, ?elem_of_nil;
    repeat match goal with
    | |- ~ (_ \/ _) => intros [?|?]
    | |- ~ False => tauto
    | H : _ = _ |- False => revert H; apply Hne; vm_compute; done
    | H : _ \/ _ |- False => destruct H
    | H : False |- False => done
    end.
Qed.

(** ** Witnesses *)
Import Toy.

#[export] Instance jcs_toy : Jcs := {| serde_jcs_to_vec _ := Some (str_bytes "{}") |}.

Definition demo_acct : bytes := be_bytes 16 3.
Definition demo_prev : bytes := be_bytes 32 8.

Lemma demo_args_ok : entry_args_ok 7 "ES256" demo_prev 1700000000 demo_prev.
Proof. by repeat split; vm_compute. Defined.

Lemma entry_hash_binding_witness :
  let e := (7, demo_acct, Signing, "ES256"%string, demo_prev, 1700000000, demo_prev) in
  let b := entry_bytes 7 demo_acct Signing "ES256" demo_prev 1700000000 demo_prev in
  e = e \/ collision_in [b; b].
Proof.
  apply (entry_hash_binding 7 demo_acct Signing "ES256" demo_prev 1700000000 demo_prev
           7 demo_acct Signing "ES256" demo_prev 1700000000 demo_prev None None);
    [apply demo_args_ok|apply demo_args_ok|done..].
Defined.

Lemma entry_versions_separated_witness :
  entry_bytes 7 demo_acct Signing "ES256" demo_prev 0 demo_prev <>
  entry_bytes_v2 7 (Some demo_acct) Signing "ES256" demo_prev 0 demo_prev /\
  entry_bytes 7 demo_acct Signing "ES256" demo_prev 0 demo_prev <>
  entry_bytes_v3 7 None Signing "ES256" demo_prev 0 demo_prev /\
  entry_bytes_v2 7 (Some demo_acct) Signing "ES256" demo_prev 0 demo_prev <>
  entry_bytes_v3 7 None Signing "ES256" demo_prev 0 demo_prev.
Proof. apply entry_versions_separated. lia. Defined.

Lemma canonical_bytes_binding_witness :
  "GET"%string = "GET"%string /\ "/v1"%string = "/v1"%string /\ "17"%string = "17"%string /\
  "00"%string = "00"%string /\ "ab"%string = "ab"%string /\
  (([] : bytes) = [] \/ collision_in [[]; []]).
Proof.
  apply (canonical_bytes_binding "GET" "/v1" [] "17" "00" "ab" "GET" "/v1" [] "17" "00" "ab");
    [apply (bool_decide_unpack _); by vm_compute|done].
Defined.

Lemma signing_surfaces_separated_witness :
  NoDup [signet_v1_canonical_bytes "GET" "/v1" [] "17" "00" "ab";
         RECEIPT_PREFIX ++ str_bytes "{}";
         VERIFY_PREFIX ++ str_bytes "{}" ++ [LF] ++ str_bytes "k" ++ [LF] ++ str_bytes (pretty 5);
         enroll_pop_signing_base []].
Proof.
  apply (signing_surfaces_separated "GET" "/v1" [] "17" "00" "ab" VNull _ VNull "k" 5 _ []); done.
Defined.
