(* ===== verification/Channel.v ===== *)
(** * The delegation channel (channel/src: error.rs, wire.rs, auth.rs, transport.rs)

    A container delegates its key operations to the host over a shared folder.
    [Wire] has the messages, [Auth] the sealed frames and the replay guard,
    [Transport] the client and the server that move frames through the folder.

    The folder is a finite map from file names to contents; a nonce and a
    request id drawn from the system generator are arguments; the outcome of a
    file operation the code ignores the failure of is an argument too
    ([fs_faults]).  serde_json's derived (de)serializers of the two message types are
    not in the repository: they are the class [WireCodec], with the round-trip
    law serde documents. *)

From S2P Require Import Prelude Prims CryptoCore.

Inductive ChannelError :=
| Auth
| Replay
| MalformedFrame
| Serialization (what : string)
| Io (what : string)
| Timeout.

Abbreviation chresult := (result ChannelError).

Module Wire.

Definition PROTOCOL_VERSION : Z := 1.

Inductive Op :=
| Keygen (label algorithm : string)
| Sign (label : string) (msg : bytes)
| Ecdh (label : string) (peer_pub_x963 : bytes)
| MlKemDecapsulate (label : string) (ek : bytes)
| MlDsaSign (label : string) (msg ctx : bytes)
| Meta (label : string)
| Exists (label : string)
| List
| Identity
| Delete (label : string).

Record KeyEntry := mk_KeyEntry
  { ke_label : string; ke_purpose : string; ke_algorithm : string;
    ke_fingerprint : string; ke_public_key : bytes }.

Inductive OpOk :=
| OkKeygen (public_key : bytes) (fingerprint algorithm : string)
| OkSign (signature : bytes)
| OkEcdh (shared_secret : bytes)
| OkMlKemDecapsulate (shared_secret : bytes)
| OkMlDsaSign (signature : bytes)
| OkMeta (public_key : bytes) (fingerprint algorithm purpose : string)
| OkExists (exists_ : bool)
| OkList (keys : list KeyEntry)
| OkIdentity (handle : option string)
| OkDelete.

Record OpErr := mk_OpErr { oe_code : string; oe_message : string }.

Inductive Response :=
| ROk (r : OpOk)
| RErr (e : OpErr).

(** serde_json on the derived implementations of [Op] and [Response]. *)
Class WireCodec := {
  op_to_vec : Op -> option bytes;
  op_from_slice : bytes -> option Op;
  op_from_to o b : op_to_vec o = Some b -> op_from_slice b = Some o;
  response_to_vec : Response -> option bytes;
  response_from_slice : bytes -> option Response;
  response_from_to r b : response_to_vec r = Some b -> response_from_slice b = Some r;
}.

Section Bodies.
Context `{WireCodec}.

Definition op_to_bytes (o : Op) : chresult bytes := ok_or (Serialization "op") (op_to_vec o).
Definition op_from_bytes (b : bytes) : chresult Op := ok_or (Serialization "op") (op_from_slice b).
Definition response_to_bytes (r : Response) : chresult bytes :=
  ok_or (Serialization "response") (response_to_vec r).
Definition response_from_bytes (b : bytes) : chresult Response :=
  ok_or (Serialization "response") (response_from_slice b).

End Bodies.
End Wire.

Module AuthLayer.
Section Code.
Context `{AesGcm, Hkdf}.

Definition NONCE_LEN : nat := 12.
Definition REQUEST_KEY_INFO : bytes := str_bytes "signet-channel/v1/request-key".
Definition RESPONSE_KEY_INFO : bytes := str_bytes "signet-channel/v1/response-key".
Definition DOMAIN_REQUEST : bytes := str_bytes "signet-channel/v1/request".
Definition DOMAIN_RESPONSE : bytes := str_bytes "signet-channel/v1/response".

(** The [expect] never fires: HKDF refuses no 32-byte output ([derive_key_length]). *)
Definition derive_key (secret info : bytes) : bytes :=
  match hkdf_sha256 secret [] info 32 with Ok okm => okm | Err _ => [] end.

Definition push_lp (buf field : bytes) : bytes := buf ++ lp field.

Definition request_aad (channel_id req_id : string) : bytes :=
  let aad := push_lp [] DOMAIN_REQUEST in
  let aad := aad ++ be_bytes 2 Wire.PROTOCOL_VERSION in
  let aad := push_lp aad (str_bytes channel_id) in
  push_lp aad (str_bytes req_id).

Definition response_aad (channel_id req_id : string) (request_nonce : bytes) : bytes :=
  let aad := push_lp [] DOMAIN_RESPONSE in
  let aad := aad ++ be_bytes 2 Wire.PROTOCOL_VERSION in
  let aad := push_lp aad (str_bytes channel_id) in
  let aad := push_lp aad (str_bytes req_id) in
  push_lp aad request_nonce.

(** [nonce] is the draw of [OsRng]; [None] is the panic of the [expect]. *)
Definition seal_with (key aad body nonce : bytes) : option bytes :=
  ok_opt (seal key nonce body aad) ≫= fun ct => Some (nonce ++ ct).

Definition open_with (key aad frame : bytes) : chresult bytes :=
  guard negb (bool_decide (length frame < NONCE_LEN)%nat) else MalformedFrame ;;
  map_err (fun _ => Auth) (open key (take NONCE_LEN frame) (drop NONCE_LEN frame) aad).

Definition seal_request (secret : bytes) (channel_id req_id : string) (body nonce : bytes)
    : option bytes :=
  seal_with (derive_key secret REQUEST_KEY_INFO) (request_aad channel_id req_id) body nonce.

Definition open_request (secret : bytes) (channel_id req_id : string) (frame : bytes)
    : chresult bytes :=
  open_with (derive_key secret REQUEST_KEY_INFO) (request_aad channel_id req_id) frame.

Definition seal_response (secret : bytes) (channel_id req_id : string)
    (request_nonce body nonce : bytes) : option bytes :=
  seal_with (derive_key secret RESPONSE_KEY_INFO)
    (response_aad channel_id req_id request_nonce) body nonce.

Definition open_response (secret : bytes) (channel_id req_id : string)
    (request_nonce frame : bytes) : chresult bytes :=
  open_with (derive_key secret RESPONSE_KEY_INFO)
    (response_aad channel_id req_id request_nonce) frame.

Definition frame_nonce (frame : bytes) : chresult bytes :=
  guard negb (bool_decide (length frame < NONCE_LEN)%nat) else MalformedFrame ;;
  Ok (take NONCE_LEN frame).

(** The replay guard: a set for membership, a queue for eviction order. *)
Record ReplayGuard := mk_ReplayGuard { seen : gset bytes; order : list bytes; capacity : nat }.

Definition new_guard (capacity : nat) : ReplayGuard := mk_ReplayGuard ∅ [] (capacity `max` 1).
Definition with_default_capacity : ReplayGuard := new_guard (Z.to_nat 4096).

Definition check_and_record (g : ReplayGuard) (nonce : bytes) : chresult unit * ReplayGuard :=
  if decide (nonce ∈ seen g) then (Err Replay, g)
  else
    let g :=
      if bool_decide (capacity g <= length (order g))%nat then
        match order g with
        | evicted :: rest => mk_ReplayGuard (seen g ∖ {[evicted]}) rest (capacity g)
        | [] => g
        end
      else g in
    (Ok tt, mk_ReplayGuard ({[nonce]} ∪ seen g) (order g ++ [nonce]) (capacity g)).

End Code.
End AuthLayer.

Module Transport.
Import Wire AuthLayer.

(** The channel folder: file name to contents. *)
Abbreviation folder := (gmap string bytes).

Section Code.
Context `{AesGcm, Hkdf, WireCodec}.

(** Which file operations fail, by name. *)
Record fs_faults := mk_fs_faults
  { read_ok : string -> bool; write_ok : string -> bool; remove_ok : string -> bool }.

Definition req_path (req_id : string) : string := (req_id +:+ ".req")%string.
Definition resp_path (req_id : string) : string := (req_id +:+ ".resp")%string.

(** [Path::file_stem] and [Path::extension]: the name is cut at its last dot,
    unless that dot opens the name.  The result is the stem and the extension. *)
Definition DOT : Ascii.ascii := Ascii.ascii_of_byte Byte.x2e.
Fixpoint last_dot (name : string) : option (string * string) :=
  match name with
  | EmptyString => None
  | String.String c rest =>
      match last_dot rest with
      | Some (stem, ext) => Some (String.String c stem, ext)
      | None => if decide (c = DOT) then Some (EmptyString, rest) else None
      end
  end.
Definition split_name (name : string) : string * option string :=
  match last_dot name with
  | Some (EmptyString, _) | None => (name, None)
  | Some (stem, ext) => (stem, Some ext)
  end.

(** [write_atomic]: the temporary file is renamed over [path], or nothing shows. *)
Definition write_atomic (flt : fs_faults) (dir : folder) (path : string) (b : bytes)
    : chresult unit * folder :=
  if write_ok flt path then (Ok tt, <[path := b]> dir) else (Err (Io "write"), dir).

Definition remove_file (flt : fs_faults) (dir : folder) (path : string) : folder :=
  if remove_ok flt path then delete path dir else dir.

Record ChannelClient := mk_client { c_channel_id : string; c_secret : bytes }.
Record Pending := mk_Pending { p_req_id : string; p_req_nonce : bytes }.

(** [send]: [req_id] and [nonce] are the random draws; the [option] is the panic
    of [seal_request]. *)
Definition send (c : ChannelClient) (flt : fs_faults) (dir : folder)
    (req_id : string) (nonce : bytes) (op : Op) : option (chresult Pending * folder) :=
  match op_to_bytes op with
  | Err e => Some (Err e, dir)
  | Ok body =>
      frame ← seal_request (c_secret c) (c_channel_id c) req_id body nonce;
      match frame_nonce frame with
      | Err e => Some (Err e, dir)
      | Ok req_nonce =>
          let '(w, dir) := write_atomic flt dir (req_path req_id) frame in
          Some (match w with Ok _ => Ok (mk_Pending req_id req_nonce) | Err e => Err e end, dir)
      end
  end.

Definition cleanup (flt : fs_faults) (dir : folder) (req_id : string) : folder :=
  remove_file flt (remove_file flt dir (resp_path req_id)) (req_path req_id).

(** One iteration of the [loop] of [await_response]: [read] is what [fs::read] of
    the response returned and [expired] whether the time is up afterwards.
    [None] is another turn. *)
Inductive read_outcome := Present (frame : bytes) | NotFound | ReadError (what : string).

Definition await_step (c : ChannelClient) (flt : fs_faults) (dir : folder) (p : Pending)
    (read : read_outcome) (expired : bool) : option (chresult Response) * folder :=
  let timed_out :=
    if expired then (Some (Err Timeout), cleanup flt dir (p_req_id p)) else (None, dir) in
  match read with
  | Present frame =>
      match open_response (c_secret c) (c_channel_id c) (p_req_id p) (p_req_nonce p) frame with
      | Ok body =>
          match response_from_bytes body with
          | Ok resp => (Some (Ok resp), cleanup flt dir (p_req_id p))
          | Err e => (Some (Err e), dir)
          end
      | Err _ => timed_out
      end
  | NotFound => timed_out
  | ReadError w => (Some (Err (Io w)), dir)
  end.

(** The whole wait: each turn reads the folder as the host has left it by then
    and the clock.  [None] when the turns listed do not end it. *)
Definition read_file (flt : fs_faults) (dir : folder) (path : string) : read_outcome :=
  match dir !! path with
  | Some b => if read_ok flt path then Present b else ReadError "read"
  | None => NotFound
  end.

Fixpoint await_response (c : ChannelClient) (flt : fs_faults) (p : Pending)
    (turns : list (folder * bool)) : option (chresult Response * folder) :=
  match turns with
  | [] => None
  | (dir, expired) :: turns =>
      match await_step c flt dir p (read_file flt dir (resp_path (p_req_id p))) expired with
      | (Some r, dir) => Some (r, dir)
      | (None, _) => await_response c flt p turns
      end
  end.

Record ChannelServer := mk_server
  { s_channel_id : string; s_secret : bytes; s_replay : ReplayGuard }.

Definition new_server (channel_id : string) (secret : bytes) : ChannelServer :=
  mk_server channel_id secret with_default_capacity.

Section Server.
(** The handler is a [FnMut]: it has a state of its own. *)
Context {S : Type} (handler : S -> Op -> S * Response).

Definition set_replay (s : ChannelServer) (g : ReplayGuard) : ChannelServer :=
  mk_server (s_channel_id s) (s_secret s) g.

(** [process]: the result, the server and the handler's state after it.
    [nonce] is the draw for the response; [None] is the panic of [seal_response]. *)
Definition process (s : ChannelServer) (st : S) (req_id : string) (frame nonce : bytes)
    : option (chresult bytes * ChannelServer * S) :=
  match frame_nonce frame with
  | Err e => Some (Err e, s, st)
  | Ok req_nonce =>
      match open_request (s_secret s) (s_channel_id s) req_id frame with
      | Err e => Some (Err e, s, st)
      | Ok body =>
          let '(r, g) := check_and_record (s_replay s) req_nonce in
          let s := set_replay s g in
          match r with
          | Err e => Some (Err e, s, st)
          | Ok _ =>
              match op_from_bytes body with
              | Err e => Some (Err e, s, st)
              | Ok op =>
                  let '(st, response) := handler st op in
                  match response_to_bytes response with
                  | Err e => Some (Err e, s, st)
                  | Ok resp_body =>
                      f ← seal_response (s_secret s) (s_channel_id s) req_id req_nonce
                            resp_body nonce;
                      Some (Ok f, s, st)
                  end
              end
          end
      end
  end.

(** What a pass threads: the count of answers, the server, the handler's state
    and the folder. *)
Record pass := mk_pass { answered : Z; p_server : ChannelServer; p_state : S; p_dir : folder }.

(** One file of the snapshot. *)
Definition poll_file (flt : fs_faults) (path : string) (nonce : bytes) (a : pass) : option pass :=
  let req_id := (split_name path).1 in
  if negb (utf8_valid (str_bytes req_id)) then Some a
  else
    match read_file flt (p_dir a) path with
    | Present frame =>
        '(r, s, st) ← process (p_server a) (p_state a) req_id frame nonce;
        let '(answered, dir) :=
          match r with
          | Ok resp_frame =>
              (answered a + 1, (write_atomic flt (p_dir a) (resp_path req_id) resp_frame).2)
          | Err _ => (answered a, p_dir a)
          end in
        Some (mk_pass answered s st (remove_file flt dir path))
    | _ => Some a
    end.

Fixpoint poll_files (flt : fs_faults) (files : list (string * bytes)) (a : pass) : option pass :=
  match files with
  | [] => Some a
  | (path, nonce) :: files => a ← poll_file flt path nonce a; poll_files flt files a
  end.

Definition is_req (path : string) : bool := bool_decide ((split_name path).2 = Some "req").

(** [poll_once] over the directory listing, whose order is the system's; each
    file comes with the nonce drawn for its answer. *)
Definition poll_once (flt : fs_faults) (s : ChannelServer) (st : S) (dir : folder)
    (listing : list (string * bytes)) : option pass :=
  poll_files flt (filter (fun pn => is_req pn.1) listing) (mk_pass 0 s st dir).

End Server.

(** The pauses of [serve], in milliseconds, and its idle counter. *)
Definition idle_backoff (idle_rounds : Z) : Z := Z.min (Z.shiftl 1 (Z.min idle_rounds 6)) 50.
Definition CLIENT_POLL : Z := 1.
Definition serve_pause (idle answered : Z) : Z * Z :=
  if 0 <? answered then (0, CLIENT_POLL)
  else let idle := u32_sat (idle + 1) in (idle, idle_backoff idle).

End Code.
End Transport.
