(* ===== verification/ChannelTheorems.v ===== *)
(** * Theorems about the delegation channel *)

From S2P Require Import Prelude Prims CryptoCore Channel.
Import Wire AuthLayer Transport.

(** ** Frames *)

Section Frames.
Context `{AesGcm, Hkdf}.
Implicit Types (key aad body nonce frame secret : bytes) (ch rid : string).

Lemma derive_key_length secret info : length (derive_key secret info) = 32%nat.
Proof.
  unfold derive_key. destruct (hkdf_sha256_32 secret [] info 32) as (k & -> & Hk); [lia|done].
Qed.

Lemma seal_with_Some key aad body nonce f :
  seal_with key aad body nonce = Some f <->
  exists ct, seal key nonce body aad = Ok ct /\ f = nonce ++ ct.
Proof.
  unfold seal_with. destruct (seal key nonce body aad) as [ct|]; simpl; split.
  - intros Hf. apply (inj Some) in Hf as <-. eauto.
  - by intros (c & [= <-] & ->).
  - done.
  - by intros (c & ? & _).
Qed.

Lemma open_with_frame key aad nonce ct body :
  length nonce = NONCE_LEN ->
  open_with key aad (nonce ++ ct) = Ok body <-> open key nonce ct aad = Ok body.
Proof.
  intros Hn. unfold open_with. rewrite length_app, Hn.
  rewrite bool_decide_false by (unfold NONCE_LEN; lia). cbn [negb].
  rewrite take_app_3, drop_app_3 by done. destruct (open key nonce ct aad); simpl; split; congruence.
Qed.

Lemma open_seal_with key aad body nonce f :
  length nonce = NONCE_LEN -> seal_with key aad body nonce = Some f -> open_with key aad f = Ok body.
Proof.
  intros Hn Hs. apply seal_with_Some in Hs as (ct & Hs & ->).
  apply open_with_frame; [done|]. by apply open_iff.
Qed.

Lemma frame_nonce_app nonce ct : length nonce = NONCE_LEN -> frame_nonce (nonce ++ ct) = Ok nonce.
Proof.
  intros Hn. unfold frame_nonce. rewrite length_app, Hn.
  rewrite bool_decide_false by (unfold NONCE_LEN; lia). cbn [negb]. by rewrite take_app_3.
Qed.

(** A string short enough for its length prefix. *)
Definition lp_ok (s : string) : Prop := is_u32 (Z.of_nat (length (str_bytes s))).

Lemma aad_fields_inj d d' ch rid r ch' rid' r' :
  is_u32 (Z.of_nat (length d)) -> is_u32 (Z.of_nat (length d')) ->
  lp_ok ch -> lp_ok rid -> lp_ok ch' -> lp_ok rid' ->
  (((lp d ++ be_bytes 2 PROTOCOL_VERSION) ++ lp (str_bytes ch)) ++ lp (str_bytes rid)) ++ r =
  (((lp d' ++ be_bytes 2 PROTOCOL_VERSION) ++ lp (str_bytes ch')) ++ lp (str_bytes rid')) ++ r' ->
  d = d' /\ ch = ch' /\ rid = rid' /\ r = r'.
Proof.
  intros Hd Hd' ?? ?? E. rewrite <- !app_assoc in E.
  apply lp_inj in E as [-> E]; [|done..]. apply app_inv_head in E.
  apply lp_inj in E as [Ec E]; [|done..]. apply lp_inj in E as [Er ->]; [|done..].
  by apply (inj str_bytes) in Ec as ->, Er as ->.
Qed.

Lemma domain_len : is_u32 (Z.of_nat (length DOMAIN_REQUEST)) /\ is_u32 (Z.of_nat (length DOMAIN_RESPONSE)).
Proof. by vm_compute. Qed.

Lemma request_aad_inj ch rid ch' rid' :
  lp_ok ch -> lp_ok rid -> lp_ok ch' -> lp_ok rid' ->
  request_aad ch rid = request_aad ch' rid' -> ch = ch' /\ rid = rid'.
Proof.
  intros ???? E. destruct domain_len as [? _].
  unfold request_aad, push_lp in E. apply (f_equal (fun l => l ++ [])) in E.
  by apply aad_fields_inj in E as (_ & -> & -> & _).
Qed.

Lemma response_aad_inj ch rid n ch' rid' n' :
  lp_ok ch -> lp_ok rid -> lp_ok ch' -> lp_ok rid' ->
  length n = NONCE_LEN -> length n' = NONCE_LEN ->
  response_aad ch rid n = response_aad ch' rid' n' -> ch = ch' /\ rid = rid' /\ n = n'.
Proof.
  intros ???? Hn Hn' E. destruct domain_len as [_ ?].
  unfold response_aad, push_lp in E.
  apply aad_fields_inj in E as (_ & -> & -> & E); [|done..].
  rewrite <- (app_nil_r (lp n)), <- (app_nil_r (lp n')) in E.
  apply lp_inj in E as [-> _]; [done|unfold is_u32, u32_max, NONCE_LEN in *; lia..].
Qed.

(** A sealed request opens for the channel and request id it was sealed for,
    and a sealed response for its channel, request id and request nonce; under
    any other binding, opening needs an AES-GCM forgery. *)
Theorem frames_round_trip_and_bind secret ch rid rn body nonce f ch' rid' rn' body' :
  lp_ok ch -> lp_ok rid -> lp_ok ch' -> lp_ok rid' ->
  length nonce = NONCE_LEN -> length rn = NONCE_LEN -> length rn' = NONCE_LEN ->
  (seal_request secret ch rid body nonce = Some f ->
   open_request secret ch rid f = Ok body /\
   (open_request secret ch' rid' f = Ok body' ->
    (ch' = ch /\ rid' = rid /\ body' = body) \/
    exists k ct, aad_forgery k nonce ct (request_aad ch rid) (request_aad ch' rid'))) /\
  (seal_response secret ch rid rn body nonce = Some f ->
   open_response secret ch rid rn f = Ok body /\
   (open_response secret ch' rid' rn' f = Ok body' ->
    (ch' = ch /\ rid' = rid /\ rn' = rn /\ body' = body) \/
    exists k ct, aad_forgery k nonce ct (response_aad ch rid rn) (response_aad ch' rid' rn'))).
Proof.
  unfold seal_request, seal_response, open_request, open_response.
  intros ???? Hn Hr Hr'. split; intros Hs; pose proof Hs as Hs';
    apply seal_with_Some in Hs' as (ct & Hc & ->); apply open_iff in Hc;
    (split; [eapply open_seal_with; [|exact Hs]; done|]); intros Ho; apply open_with_frame in Ho; try done;
    destruct (open_binding _ _ _ _ _ _ _ Hc Ho) as [[Ea <-]|Hf]; try (by right; eauto); left.
  - by apply request_aad_inj in Ea as [-> ->].
  - by apply response_aad_inj in Ea as (-> & -> & ->).
Qed.

End Frames.

(** ** The replay guard refines a sliding window *)

Section Replay.
Implicit Types (g : ReplayGuard) (h : list bytes) (n : bytes).

(** The specification: the accepted nonces, oldest first, and their last [cap]. *)
Definition window (cap : nat) h : list bytes := drop (length h - cap) h.

Definition spec_step (cap : nat) h n : chresult unit * list bytes :=
  if decide (n ∈ window cap h) then (Err Replay, h) else (Ok tt, h ++ [n]).

Fixpoint run {S} (step : S -> bytes -> chresult unit * S) (s : S) (ns : list bytes)
    : list (chresult unit) * S :=
  match ns with
  | [] => ([], s)
  | n :: ns =>
      let '(r, s) := step s n in
      let '(rs, s) := run step s ns in (r :: rs, s)
  end.

(** The guard holds exactly the window, with no duplicates. *)
Record guard_inv g h : Prop := mk_guard_inv
  { inv_order : order g = window (capacity g) h;
    inv_seen : seen g = list_to_set (order g);
    inv_nodup : NoDup (order g);
    inv_cap : (1 <= capacity g)%nat }.

Lemma window_length cap h : length (window cap h) = (cap `min` length h)%nat.
Proof. unfold window. rewrite length_drop. lia. Qed.

(** Accepting a nonce slides the window by one when it is full. *)
Lemma window_snoc cap h n :
  (1 <= cap)%nat ->
  window cap (h ++ [n]) =
    (if bool_decide (cap <= length (window cap h))%nat then drop 1 (window cap h) else window cap h)
    ++ [n].
Proof.
  intros Hc. rewrite window_length. unfold window. rewrite length_app. simpl.
  rewrite drop_app_le by lia.
  case_bool_decide as Hb.
  - rewrite drop_drop. f_equal. f_equal. lia.
  - f_equal. f_equal. lia.
Qed.

Lemma check_and_record_spec g h n :
  guard_inv g h ->
  (check_and_record g n).1 = (spec_step (capacity g) h n).1 /\
  guard_inv (check_and_record g n).2 (spec_step (capacity g) h n).2 /\
  capacity (check_and_record g n).2 = capacity g.
Proof.
  intros [Ho Hs Hnd Hc]. unfold check_and_record, spec_step.
  assert (Hin : n ∈ seen g <-> n ∈ window (capacity g) h).
  { by rewrite Hs, elem_of_list_to_set, Ho. }
  destruct (decide (n ∈ seen g)) as [H1|H1]; destruct (decide (n ∈ window _ _)) as [H2|H2];
    [|tauto|tauto|]; [split; [done|split; [by constructor|done]]|].
  split; [done|]. pose proof (window_snoc (capacity g) h n Hc) as Hw. rewrite <- Ho in Hw.
  assert (Hno : n ∉ order g) by (intros Hn; apply H1; by rewrite Hs, elem_of_list_to_set).
  destruct (bool_decide (capacity g <= length (order g))%nat) eqn:Hb.
  - destruct (order g) as [|e rest] eqn:He; [bool_prop; simpl in *; lia|].
    apply NoDup_cons in Hnd as [Hne Hnd]. rewrite not_elem_of_cons in Hno.
    split; [|done]. cbn [fst snd seen order capacity]. constructor; cbn [seen order capacity].
    + by rewrite Hw.
    + rewrite Hs, list_to_set_app_L. cbn.
      assert (e ∉ (list_to_set rest : gset bytes)) by (by rewrite elem_of_list_to_set).
      set_solver.
    + apply NoDup_app. split; [done|]. split; [|apply NoDup_singleton].
      intros x Hx ->%list_elem_of_singleton. tauto.
    + done.
  - split; [|done]. cbn [fst snd]. constructor; cbn [seen order capacity].
    + by rewrite Hw.
    + rewrite Hs, list_to_set_app_L. cbn. set_solver.
    + apply NoDup_app. split; [done|]. split; [|apply NoDup_singleton].
      intros x Hx ->%list_elem_of_singleton. done.
    + done.
Qed.

Lemma new_guard_inv cap : guard_inv (new_guard cap) [].
Proof. constructor; cbn; [by rewrite drop_nil|done|constructor|lia]. Qed.

Lemma run_check_and_record g h ns :
  guard_inv g h ->
  (run check_and_record g ns).1 = (run (spec_step (capacity g)) h ns).1 /\
  guard_inv (run check_and_record g ns).2 (run (spec_step (capacity g)) h ns).2.
Proof.
  revert g h. induction ns as [|n ns IH]; intros g h Hg; [done|].
  destruct (check_and_record_spec g h n Hg) as (Hr & Hi & Hc). simpl.
  destruct (check_and_record g n) as [r g'], (spec_step (capacity g) h n) as [r' h'].
  simpl in *. subst r'. destruct (IH g' h' Hi) as [IH1 IH2]. rewrite Hc in IH1, IH2.
  destruct (run check_and_record g' ns), (run (spec_step (capacity g)) h' ns). simpl in *.
  by subst.
Qed.

Lemma check_and_record_capacity g n : capacity (check_and_record g n).2 = capacity g.
Proof. unfold check_and_record. by repeat case_match. Qed.

Lemma run_capacity g ns : capacity (run check_and_record g ns).2 = capacity g.
Proof.
  revert g. induction ns as [|n ns IH]; intros g; [done|]. simpl.
  pose proof (check_and_record_capacity g n) as Hc. destruct (check_and_record g n) as [r g'].
  specialize (IH g'). destruct (run check_and_record g' ns). simpl in *. congruence.
Qed.

(** C22: Refinement of the replay guard: on every sequence of nonces, the set and
    queue of the implementation accept and refuse exactly like the specification
    that keeps the whole history and refuses a nonce among the last [capacity]
    accepted ones; and the memory kept never exceeds the capacity. *)
Theorem replay_guard_refines_window cap ns :
  let cap' := (cap `max` 1)%nat in
  (run check_and_record (new_guard cap) ns).1 = (run (spec_step cap') [] ns).1 /\
  (length (order (run check_and_record (new_guard cap) ns).2) <= cap')%nat /\
  seen (run check_and_record (new_guard cap) ns).2 =
    list_to_set (order (run check_and_record (new_guard cap) ns).2).
Proof.
  intros cap'. destruct (run_check_and_record (new_guard cap) [] ns (new_guard_inv cap)) as [H1 H2].
  split; [done|]. split.
  - rewrite (inv_order _ _ H2), window_length.
    rewrite run_capacity. cbn. lia.
  - apply (inv_seen _ _ H2).
Qed.

End Replay.

(** ** The server *)

Section Server.
Context `{AesGcm, Hkdf, WireCodec} {S : Type} (handler : S -> Op -> S * Response).
Implicit Types (s : ChannelServer) (st : S) (h : list bytes) (frame nonce : bytes) (rid : string).

(** The frames a server processes one after the other. *)
Fixpoint process_all s st (fs : list (string * bytes * bytes)) : option (ChannelServer * S) :=
  match fs with
  | [] => Some (s, st)
  | (rid, frame, nonce) :: fs =>
      '(_, s, st) ← process handler s st rid frame nonce; process_all s st fs
  end.

(** What one call does to the server: nothing, or one more nonce in the guard. *)
Lemma process_step s st rid frame nonce r s' st' :
  process handler s st rid frame nonce = Some (r, s', st') ->
  (s' = s /\ st' = st /\ is_ok r = false) \/
  exists rn body, frame_nonce frame = Ok rn /\
    open_request (s_secret s) (s_channel_id s) rid frame = Ok body /\
    (check_and_record (s_replay s) rn).1 = Ok tt /\
    s' = set_replay s (check_and_record (s_replay s) rn).2 /\
    ((exists op, op_from_bytes body = Ok op /\ st' = (handler st op).1 /\
       (forall f, r = Ok f -> exists rb, response_to_bytes (handler st op).2 = Ok rb /\
          seal_response (s_secret s) (s_channel_id s) rid rn rb nonce = Some f)) \/
     (st' = st /\ is_ok r = false)).
Proof.
  unfold process. intros Hp.
  destruct (frame_nonce frame) as [rn|] eqn:Hn; [|by left; injection Hp as <- <- <-].
  destruct (open_request _ _ rid frame) as [body|] eqn:Ho; [|by left; injection Hp as <- <- <-].
  destruct (check_and_record (s_replay s) rn) as [c g] eqn:Hc.
  destruct c as [[]|e]; [right; exists rn, body|left].
  - split; [done|]. split; [done|]. rewrite Hc. split; [done|]. cbn [snd].
    destruct (op_from_bytes body) as [op|] eqn:Hop.
    + destruct (handler st op) as [st1 resp] eqn:Hh.
      destruct (response_to_bytes resp) as [rb|] eqn:Hr; simpl in Hp.
      * destruct (seal_response _ _ _ _ _ _) as [f|] eqn:Hs in Hp; [|done].
        injection Hp as <- <- <-. split; [done|]. left. exists op. rewrite Hh.
        split; [done|]. split; [done|]. intros f' [= <-]. eauto.
      * injection Hp as <- <- <-. split; [done|]. left. exists op. by rewrite Hh.
    + injection Hp as <- <- <-. split; [done|]. by right.
  - injection Hp as <- <- <-. split; [|done]. unfold check_and_record in Hc.
    case_decide; [|done]. injection Hc as _ <-. by destruct s.
Qed.

Lemma process_history s st rid frame nonce r s' st' h :
  process handler s st rid frame nonce = Some (r, s', st') -> guard_inv (s_replay s) h ->
  exists ext, guard_inv (s_replay s') (h ++ ext) /\ (length ext <= 1)%nat /\
    capacity (s_replay s') = capacity (s_replay s) /\
    (is_ok r = true -> exists rn, frame_nonce frame = Ok rn /\ ext = [rn]).
Proof.
  intros Hp Hg. apply process_step in Hp as [(-> & -> & Hr)|(rn & body & Hn & Ho & Hc & -> & Hr)].
  - exists []. rewrite app_nil_r. split; [done|]. split; [simpl; lia|]. split; [done|congruence].
  - destruct (check_and_record_spec _ _ rn Hg) as (E1 & E2 & E3). rewrite Hc in E1.
    unfold spec_step in E1, E2. case_decide; [done|]. simpl in E2.
    exists [rn]. split; [done|]. split; [simpl; lia|]. split; [done|eauto].
Qed.

Lemma process_all_history s st fs s' st' h :
  process_all s st fs = Some (s', st') -> guard_inv (s_replay s) h ->
  exists ext, guard_inv (s_replay s') (h ++ ext) /\ (length ext <= length fs)%nat /\
    capacity (s_replay s') = capacity (s_replay s).
Proof.
  revert s st h. induction fs as [|[[rid frame] nonce] fs IH]; intros s st h Hp Hg.
  - injection Hp as <- <-. exists []. rewrite app_nil_r. by split.
  - simpl in Hp. destruct (process handler s st rid frame nonce) as [[[r s1] st1]|] eqn:E; [|done].
    simpl in Hp. destruct (process_history _ _ _ _ _ _ _ _ _ E Hg) as (e1 & Hg1 & Hl1 & Hc1 & _).
    destruct (IH _ _ _ Hp Hg1) as (e2 & Hg2 & Hl2 & Hc2).
    exists (e1 ++ e2). rewrite app_assoc, length_app. split; [done|]. split; [simpl; lia|congruence].
Qed.

(** A nonce accepted fewer than [cap] acceptances ago is in the window. *)
Lemma window_recent cap h n ext :
  (length ext < cap)%nat -> n ∈ window cap (h ++ [n] ++ ext).
Proof.
  intros Hl. unfold window. rewrite !length_app. simpl.
  rewrite drop_app_le by lia. apply elem_of_app. right. left.
Qed.

(** Frames whose nonce is in the window change nothing, whatever they decrypt to. *)
Lemma process_replayed s st rid frame nonce rn h :
  guard_inv (s_replay s) h -> frame_nonce frame = Ok rn ->
  rn ∈ window (capacity (s_replay s)) h ->
  exists e, process handler s st rid frame nonce = Some (Err e, s, st).
Proof.
  intros [Ho Hs _ _] Hn Hw. unfold process. rewrite Hn.
  destruct (open_request _ _ rid frame) as [body|e]; [|by exists e].
  unfold check_and_record. rewrite decide_True.
  - exists Replay. by destruct s.
  - by rewrite Hs, elem_of_list_to_set, Ho.
Qed.

(** Replay resistance of a running server: once a request frame has been
    answered, dropping the same frame in the folder again, under any request id,
    after fewer than 4096 other frames, neither reaches the handler nor changes
    the server. *)
Theorem replayed_request_dropped ch secret st0 pre s st rid frame nonce resp s1 st1 fs s2 st2 rid' nonce' :
  process_all (new_server ch secret) st0 pre = Some (s, st) ->
  process handler s st rid frame nonce = Some (Ok resp, s1, st1) ->
  process_all s1 st1 fs = Some (s2, st2) ->
  Z.of_nat (length fs) < 4096 ->
  exists e, process handler s2 st2 rid' frame nonce' = Some (Err e, s2, st2).
Proof.
  intros Hpre Hp Hfs Hlen.
  destruct (process_all_history _ _ _ _ _ [] Hpre (new_guard_inv _)) as (h & Hg & _ & Hc).
  destruct (process_history _ _ _ _ _ _ _ _ _ Hp Hg) as (e1 & Hg1 & _ & Hc1 & Hrec).
  destruct (Hrec eq_refl) as (rn & Hn & ->).
  destruct (process_all_history _ _ _ _ _ _ Hfs Hg1) as (e2 & Hg2 & Hl2 & Hc2).
  eapply process_replayed; [done..|].
  rewrite Hc2, Hc1, Hc. rewrite <- app_assoc. apply window_recent.
  cbn [s_replay new_server with_default_capacity new_guard capacity]. lia.
Qed.

(** A request is authenticated before anything else: if a frame does not open
    under the server's secret, channel and the file's request id, the call
    leaves the guard and the handler's state as they were and produces no
    answer; and every answer was produced by the handler on the operation the
    authenticated body decodes to. *)
Theorem server_dispatches_only_authenticated s st rid frame nonce r s' st' :
  process handler s st rid frame nonce = Some (r, s', st') ->
  (is_ok (open_request (s_secret s) (s_channel_id s) rid frame) = false ->
   s' = s /\ st' = st /\ is_ok r = false) /\
  (forall f, r = Ok f -> exists body op rn rb,
     open_request (s_secret s) (s_channel_id s) rid frame = Ok body /\
     op_from_bytes body = Ok op /\ frame_nonce frame = Ok rn /\ rn ∉ seen (s_replay s) /\
     st' = (handler st op).1 /\ response_to_bytes (handler st op).2 = Ok rb /\
     seal_response (s_secret s) (s_channel_id s) rid rn rb nonce = Some f).
Proof.
  intros Hp. apply process_step in Hp as [(-> & -> & Hr)|(rn & body & Hn & Ho & Hc & -> & Hr)].
  - split; [done|]. intros f ->. done.
  - rewrite Ho. split; [done|]. intros f ->.
    destruct Hr as [(op & Hop & Hst & Hf)|[_ ?]]; [|done].
    destruct (Hf f eq_refl) as (rb & Hrb & Hs). exists body, op, rn, rb.
    repeat split; try done. intros Hin. unfold check_and_record in Hc. by case_decide.
Qed.

End Server.

(** ** One operation, end to end *)

Lemma last_dot_none s : DOT ∉ String.list_ascii_of_string s -> last_dot s = None.
Proof.
  induction s as [|c s IH]; [done|]. simpl. rewrite elem_of_cons. intros Hn.
  rewrite IH by tauto. rewrite decide_False; [done|]. intros ->. tauto.
Qed.

Lemma last_dot_app stem ext :
  DOT ∉ String.list_ascii_of_string ext ->
  last_dot (stem +:+ String.String DOT ext) = Some (stem, ext).
Proof.
  intros He. induction stem as [|c stem IH]; simpl.
  - rewrite last_dot_none by done. done.
  - change (String.append stem (String.String DOT ext)) with (stem +:+ String.String DOT ext).
    by rewrite IH.
Qed.

Lemma split_req_path rid : rid <> ""%string -> split_name (req_path rid) = (rid, Some "req"%string).
Proof.
  intros Hr. unfold split_name, req_path.
  change ".req"%string with (String.String DOT "req").
  rewrite last_dot_app; [by destruct rid|].
  apply (bool_decide_unpack _). by vm_compute.
Qed.

(** Distinct messages have distinct files. *)
Lemma req_resp_path rid : resp_path rid <> req_path rid.
Proof.
  unfold resp_path, req_path. intros E. apply (f_equal last_dot) in E.
  change ".req"%string with (String.String DOT "req") in E.
  change ".resp"%string with (String.String DOT "resp") in E.
  rewrite !last_dot_app in E by (apply (bool_decide_unpack _); by vm_compute). done.
Qed.

Section EndToEnd.
Context `{AesGcm, Hkdf, WireCodec} {S : Type} (handler : S -> Op -> S * Response).

Definition no_faults : fs_faults := mk_fs_faults (fun _ => true) (fun _ => true) (fun _ => true).

(** One delegated operation, end to end.  A client sends a request, the server
    makes a pass over a listing with that file, and the client's next look at
    the folder returns exactly what the handler answered to exactly the
    operation sent; the handler ran once and both files are gone.  The request id
    and the nonces are the draws; the nonce must be one the guard has not seen. *)
Theorem delegated_op_end_to_end c s st dir rid nonce op p dir1 nonce' a resp :
  s_channel_id s = c_channel_id c -> s_secret s = c_secret c ->
  rid <> ""%string -> utf8_valid (str_bytes rid) = true ->
  length nonce = NONCE_LEN -> length nonce' = NONCE_LEN -> nonce ∉ seen (s_replay s) ->
  send c no_faults dir rid nonce op = Some (Ok p, dir1) ->
  handler st op = (p_state a, resp) -> is_Some (response_to_vec resp) ->
  poll_once handler no_faults s st dir1 [(req_path rid, nonce')] = Some a ->
  answered a = 1 /\
  await_response c no_faults p [(p_dir a, false)] =
    Some (Ok resp, delete (req_path rid) (delete (resp_path rid) dir)).
Proof.
  intros Hch Hsec Hrid Hutf Hn Hn' Hfresh Hsend Hh [rb Hrb] Hpoll.
  unfold send in Hsend. destruct (op_to_bytes op) as [body|] eqn:Hop; [|done].
  destruct (seal_request _ _ rid body nonce) as [frame|] eqn:Hseal; [|done]. simpl in Hsend.
  pose proof Hseal as Hf. apply seal_with_Some in Hf as (ct & _ & Hframe).
  rewrite Hframe, frame_nonce_app in Hsend by done. simpl in Hsend.
  rewrite <- Hframe in Hsend. injection Hsend as <- <-.
  unfold poll_once in Hpoll. rewrite filter_cons_True in Hpoll
    by (cbn; unfold is_req; rewrite split_req_path by done; done).
  simpl in Hpoll. unfold poll_file in Hpoll. rewrite split_req_path in Hpoll by done.
  cbn [fst p_dir p_server p_state answered] in Hpoll. rewrite Hutf in Hpoll. simpl in Hpoll.
  unfold read_file in Hpoll. rewrite lookup_insert_eq in Hpoll. simpl in Hpoll.
  unfold process in Hpoll. rewrite Hframe, frame_nonce_app in Hpoll by done. rewrite <- Hframe in Hpoll.
  rewrite Hch, Hsec in Hpoll.
  unfold open_request in Hpoll. rewrite (open_seal_with _ _ _ _ _ Hn Hseal) in Hpoll.
  unfold check_and_record in Hpoll. rewrite decide_False in Hpoll by done.
  unfold op_to_bytes in Hop. apply ok_or_Ok in Hop. unfold op_from_bytes in Hpoll.
  rewrite (op_from_to _ _ Hop) in Hpoll. cbn [ok_or] in Hpoll. rewrite Hh in Hpoll.
  unfold response_to_bytes in Hpoll. rewrite Hrb in Hpoll. cbn [ok_or] in Hpoll.
  set (g := mk_ReplayGuard _ _ _) in Hpoll. unfold set_replay in Hpoll.
  cbn [s_secret s_channel_id] in Hpoll. rewrite Hch, Hsec in Hpoll.
  destruct (seal_response _ _ rid nonce rb nonce') as [f|] eqn:Hresp in Hpoll; [|done].
  simpl in Hpoll. injection Hpoll as <-. cbn [answered p_dir]. split; [done|].
  pose proof (req_resp_path rid) as Hne.
  simpl. unfold read_file, remove_file. simpl.
  rewrite lookup_delete_ne, lookup_insert_eq by done. simpl.
  unfold await_step. cbn [p_req_id p_req_nonce].
  unfold open_response. rewrite (open_seal_with _ _ _ _ _ Hn' Hresp).
  unfold response_from_bytes. rewrite (response_from_to _ _ Hrb). cbn [ok_or].
  unfold cleanup, remove_file. simpl. do 2 f_equal.
  apply map_eq. intros x. destruct (decide (x = req_path rid)) as [->|H1'].
  { by rewrite !lookup_delete_eq. }
  rewrite !(lookup_delete_ne _ (req_path rid)) by done.
  destruct (decide (x = resp_path rid)) as [->|H2']; [by rewrite !lookup_delete_eq|].
  rewrite !lookup_delete_ne, !lookup_insert_ne by done. done.
Qed.

(** The pauses of the serving loop are between 1 and 50 ms, and grow with idleness. *)
Lemma idle_backoff_bounds n : 0 <= n -> 1 <= idle_backoff n <= 50.
Proof.
  intros Hn. unfold idle_backoff. rewrite Z.shiftl_mul_pow2 by lia.
  assert (1 <= 2 ^ Z.min n 6); [|lia]. apply (Z.pow_le_mono_r 2 0); lia.
Qed.

End EndToEnd.

(** ** Witnesses: a codec for one operation, a handler that counts its calls *)
Import Toy.

#[export, refine] Instance wire_toy : WireCodec := {|
  op_to_vec o := match o with Exists l => Some (str_bytes l) | _ => None end;
  op_from_slice b := Some (Exists (String.string_of_list_byte b));
  response_to_vec r := match r with ROk (OkExists true) => Some [Byte.x01] | _ => None end;
  response_from_slice b := Some (ROk (OkExists true));
|}.
Proof.
  - intros [] b E; try done. apply (inj Some) in E as <-. unfold str_bytes.
    by rewrite String.string_of_list_byte_of_string.
  - by intros [[]|] b; repeat case_match.
Defined.

Definition demo_handler (n : nat) (o : Op) : nat * Response := (Datatypes.S n, ROk (OkExists true)).
Definition demo_secret : bytes := be_bytes 32 7.
Definition demo_nonce : bytes := be_bytes 12 100.
Definition demo_nonce' : bytes := be_bytes 12 200.
Definition demo_op : Op := Exists "hlin-ai-signing".
Definition demo_client : ChannelClient := mk_client "hlin-ai" demo_secret.
Definition demo_server : ChannelServer := new_server "hlin-ai" demo_secret.
Definition demo_frame : bytes :=
  default [] (seal_request demo_secret "hlin-ai" "r1" (str_bytes "hlin-ai-signing") demo_nonce).
Definition demo_dir : folder := {[ "r1.req"%string := demo_frame ]}.
Definition demo_pass : pass :=
  default (mk_pass 0 demo_server 0%nat ∅)
    (poll_once demo_handler no_faults demo_server 0%nat demo_dir [("r1.req"%string, demo_nonce')]).
Definition demo_after : bytes * ChannelServer * nat :=
  match process demo_handler demo_server 0%nat "r1" demo_frame demo_nonce' with
  | Some (Ok f, s, n) => (f, s, n)
  | _ => ([], demo_server, 0%nat)
  end.

Lemma frames_round_trip_and_bind_witness :
  open_request demo_secret "hlin-ai" "r1" demo_frame = Ok (str_bytes "hlin-ai-signing") /\
  (open_request demo_secret "other" "r1" demo_frame = Ok [] ->
   ("other"%string = "hlin-ai"%string /\ "r1"%string = "r1"%string /\
    [] = str_bytes "hlin-ai-signing") \/
   exists k ct, aad_forgery k demo_nonce ct (request_aad "hlin-ai" "r1") (request_aad "other" "r1")).
Proof.
  apply (frames_round_trip_and_bind demo_secret "hlin-ai" "r1" demo_nonce
           (str_bytes "hlin-ai-signing") demo_nonce demo_frame "other" "r1" demo_nonce []);
    by vm_compute.
Defined.

Lemma replayed_request_dropped_witness :
  exists e, process demo_handler demo_after.1.2 1%nat "r2" demo_frame demo_nonce
    = Some (Err e, demo_after.1.2, 1%nat).
Proof.
  apply (replayed_request_dropped demo_handler "hlin-ai" demo_secret 0%nat [] demo_server 0%nat
           "r1" demo_frame demo_nonce' demo_after.1.1 demo_after.1.2 1%nat [] demo_after.1.2 1%nat);
    [done|by vm_compute|done|done].
Defined.

Lemma server_dispatches_only_authenticated_witness :
  (is_ok (open_request demo_secret "hlin-ai" "r1" demo_frame) = false ->
   demo_after.1.2 = demo_server /\ 1%nat = 0%nat /\ is_ok (Ok demo_after.1.1 : chresult bytes) = false) /\
  (forall f, Ok demo_after.1.1 = (Ok f : chresult bytes) -> exists body op rn rb,
     open_request demo_secret "hlin-ai" "r1" demo_frame = Ok body /\
     op_from_bytes body = Ok op /\ frame_nonce demo_frame = Ok rn /\ rn ∉ seen (s_replay demo_server) /\
     1%nat = (demo_handler 0%nat op).1 /\ response_to_bytes (demo_handler 0%nat op).2 = Ok rb /\
     seal_response demo_secret "hlin-ai" "r1" rn rb demo_nonce' = Some f).
Proof.
  apply (server_dispatches_only_authenticated demo_handler demo_server 0%nat "r1" demo_frame
           demo_nonce' (Ok demo_after.1.1) demo_after.1.2 1%nat). by vm_compute.
Defined.

Lemma delegated_op_end_to_end_witness :
  answered demo_pass = 1 /\
  await_response demo_client no_faults (mk_Pending "r1" demo_nonce) [(p_dir demo_pass, false)] =
    Some (Ok (ROk (OkExists true)), delete (req_path "r1") (delete (resp_path "r1") ∅)).
Proof.
  apply (delegated_op_end_to_end demo_handler demo_client demo_server 0%nat ∅ "r1" demo_nonce demo_op
           (mk_Pending "r1" demo_nonce) demo_dir demo_nonce' demo_pass (ROk (OkExists true)));
    [done|done|done|done|done|done| |by vm_compute|by vm_compute| |by vm_compute].
  - apply (bool_decide_unpack _). by vm_compute.
  - exists [Byte.x01]. done.
Defined.
