(* ===== verification/CliError.v ===== *)
(** * The CLI's error model (cli/src/error.rs)

    Every failure of the command line carries the numeric exit code, the stable
    machine code and a message; [epoch_moved] marks the ones a command retries
    once from a fresh anchor. *)

From S2P Require Import Prelude CryptoCore.

Record CliError := mk_CliError
  { exit_code : Z; code : string; message : string; epoch_moved : bool }.

#[export] Instance CliError_eq_dec : EqDecision CliError.
Proof. solve_decision. Defined.

Abbreviation cliresult := (result CliError).

Definition cli_new (exit_code : Z) (code message : string) : CliError :=
  mk_CliError exit_code code message false.

Definition generic : string -> CliError := cli_new 1 "error".
Definition invalid_args : string -> CliError := cli_new 2 "invalid_arguments".
Definition authentication_failed : string -> CliError := cli_new 10 "authentication_failed".
Definition key_exists : string -> CliError := cli_new 11 "key_already_exists".
Definition key_not_found : string -> CliError := cli_new 12 "key_not_found".
Definition signature_invalid : string -> CliError := cli_new 13 "signature_invalid".
Definition attestation_expired : string -> CliError := cli_new 14 "attestation_expired".
Definition attestation_revoked : string -> CliError := cli_new 15 "attestation_revoked".
Definition authorization_denied : string -> CliError := cli_new 17 "authorization_denied".
Definition insufficient_storage : string -> CliError := cli_new 18 "insufficient_storage".
Definition filesystem : string -> CliError := cli_new 21 "filesystem_error".
Definition input_read : string -> CliError := cli_new 22 "input_error".
Definition output_write : string -> CliError := cli_new 23 "output_error".
Definition invalid_data : string -> CliError := cli_new 24 "invalid_data".
Definition name_too_long : string -> CliError := cli_new 25 "name_too_long".
Definition not_found : string -> CliError := cli_new 26 "not_found".
Definition conflict : string -> CliError := cli_new 27 "conflict".
Definition transfer_stalled : string -> CliError := cli_new 32 "transfer_stalled".
Definition encryption_failed : string -> CliError := cli_new 40 "encryption_failed".
Definition unsupported_algorithm : string -> CliError := cli_new 41 "unsupported_algorithm".
Definition decrypt_failed : string -> CliError := cli_new 42 "decrypt_failed".
Definition config : string -> CliError := cli_new 50 "config_error".
Definition unsupported_platform : string -> CliError := cli_new 51 "unsupported_platform".
Definition se_locked : string -> CliError := cli_new 52 "se_locked".
Definition transparency_violation : string -> CliError := cli_new 60 "transparency_violation".
Definition identity_mismatch : string -> CliError := cli_new 61 "identity_mismatch".
Definition unanchored : string -> CliError := cli_new 62 "unanchored".

Definition as_epoch_move (e : CliError) : CliError :=
  mk_CliError (exit_code e) (code e) (message e) true.
Definition epoch_changed (m : string) : CliError := as_epoch_move (cli_new 62 "epoch_changed" m).

(** [Display for CryptoError] (crypto/src/error.rs). *)
Definition crypto_to_string (e : CryptoError) : string :=
  match e with
  | Authentication => "authentication failed"
  | InvalidInput what => "invalid input: " +:+ what
  | UnknownAlgorithm => "unknown algorithm identifier"
  | SignatureInvalid => "signature verification failed"
  end.

(** [From<CryptoError> for CliError], which [?] applies. *)
Definition from_crypto (e : CryptoError) : CliError :=
  match e with
  | Authentication => decrypt_failed (crypto_to_string e)
  | SignatureInvalid => cli_new 13 "signature_invalid" (crypto_to_string e)
  | UnknownAlgorithm => unsupported_algorithm (crypto_to_string e)
  | InvalidInput _ => invalid_args (crypto_to_string e)
  end.

Definition lift_crypto {A} (r : cresult A) : cliresult A := map_err from_crypto r.
