(* ===== verification/Keystore.v ===== *)
(** * The keystore interface (cli/src/keystore/mod.rs)

    A key label is a PRSN handle and a purpose; its text form is what travels on
    the wire and names the key files.  The trait [Keystore] is the class of that
    name: its operations take and return the state of the backend, because a
    backend writes files, draws randomness and talks to a host. *)

From S2P Require Import Prelude Prims CryptoCore Channel CliError Text.

(** ** Labels *)

Inductive Purpose := Signing | Kem | SigningPq | KemPq.

#[export] Instance Purpose_eq_dec : EqDecision Purpose.
Proof. solve_decision. Defined.

Definition purpose_str (p : Purpose) : string :=
  match p with
  | Signing => "signing" | Kem => "kem" | SigningPq => "signing-pq" | KemPq => "kem-pq"
  end.

Definition suffix (p : Purpose) : string :=
  match p with
  | Signing => "-signing" | Kem => "-kem" | SigningPq => "-signing-pq" | KemPq => "-kem-pq"
  end.

Definition default_alg (p : Purpose) : string :=
  match p with
  | Signing => "ES256" | Kem => "ECDH-ES+A256KW" | SigningPq => "ML-DSA-87"
  | KemPq => "ML-KEM-1024"
  end.

Inductive Tier := SecureEnclave | Software.

Definition tier_str (t : Tier) : string :=
  match t with SecureEnclave => "secure-enclave" | Software => "software" end.
Definition wire_str (t : Tier) : string :=
  match t with SecureEnclave => "secure_enclave" | Software => "software" end.

Record KeyLabel := mk_KeyLabel { handle : string; purpose : Purpose }.

#[export] Instance KeyLabel_eq_dec : EqDecision KeyLabel.
Proof. solve_decision. Defined.

(** [KeyLabel::full]. *)
Definition full (l : KeyLabel) : string := handle l +:+ suffix (purpose l).

(** [str::strip_suffix]. *)
Fixpoint strip_suffix (s suf : string) : option string :=
  if decide (s = suf) then Some EmptyString
  else match s with
       | EmptyString => None
       | String.String c s => String.String c <$> strip_suffix s suf
       end.

(** [is_ascii_lowercase() || is_ascii_digit()]. *)
Definition is_alnum (b : byte) : bool := byte_in b 97 122 || byte_in b 48 57.
Definition HYPHEN : byte := Byte.x2d.

Definition validate_handle (h : string) : cliresult unit :=
  let b := str_bytes h in
  let n := length b in
  guard bool_decide (2 <= n <= 64)%nat else
    invalid_args ("handle '" +:+ h +:+ "' must be 2–64 characters") ;;
  guard default false (is_alnum <$> b !! 0%nat) && default false (is_alnum <$> b !! (n - 1)%nat) else
    invalid_args ("handle '" +:+ h +:+ "' must start and end with a lowercase letter or digit") ;;
  guard forallb (fun c => is_alnum c || bool_decide (c = HYPHEN)) b else
    invalid_args ("handle '" +:+ h +:+
      "' may contain only lowercase ASCII letters, digits, and hyphens") ;;
  guard bool_decide (is_Some (strip_suffix h "-ai")) else
    invalid_args ("handle '" +:+ h +:+ "' must end in '-ai' (PRSN handle convention)") ;;
  Ok tt.

Definition split_label (label : string) : option (string * Purpose) :=
  match strip_suffix label (suffix SigningPq) with
  | Some h => Some (h, SigningPq)
  | None =>
      match strip_suffix label (suffix KemPq) with
      | Some h => Some (h, KemPq)
      | None =>
          match strip_suffix label (suffix Signing) with
          | Some h => Some (h, Signing)
          | None =>
              match strip_suffix label (suffix Kem) with
              | Some h => Some (h, Kem)
              | None => None
              end
          end
      end
  end.

(** [KeyLabel::parse]. *)
Definition parse (label : string) (expected : option Purpose) : cliresult KeyLabel :=
  match split_label label with
  | None =>
      Err (invalid_args ("label '" +:+ label +:+
        "' must end in '-signing', '-kem', '-signing-pq', or '-kem-pq' (format <prsn-handle>-<purpose>)"))
  | Some (h, p) =>
      match expected with
      | Some e =>
          guard bool_decide (e = p) else
            invalid_args ("label '" +:+ label +:+ "' is a " +:+ purpose_str p +:+ " key, but --"
              +:+ purpose_str e +:+ " was specified") ;;
          let*? _ := validate_handle h in
          Ok (mk_KeyLabel h p)
      | None =>
          let*? _ := validate_handle h in
          Ok (mk_KeyLabel h p)
      end
  end.

Definition from_handle (h : string) (p : Purpose) : cliresult KeyLabel :=
  let*? _ := validate_handle h in Ok (mk_KeyLabel h p).

(** A label the code can hold: its fields are private, so it came out of
    [parse] or [from_handle]. *)
Definition label_ok (l : KeyLabel) : Prop := validate_handle (handle l) = Ok tt.
#[export] Instance label_ok_dec l : Decision (label_ok l).
Proof. unfold label_ok. apply _. Defined.

(** ** The trait *)

Record KeyMeta := mk_KeyMeta
  { km_label : string; km_purpose : string; km_algorithm : string; km_storage : string;
    km_fingerprint : string; km_public_key : bytes }.

#[export] Instance KeyMeta_eq_dec : EqDecision KeyMeta.
Proof. solve_decision. Defined.

Class Keystore (St : Type) := {
  ks_tier : Tier;
  ks_generate : St -> KeyLabel -> string -> cliresult KeyMeta * St;
  ks_meta : St -> KeyLabel -> cliresult KeyMeta * St;
  ks_sign : St -> KeyLabel -> bytes -> cliresult bytes * St;
  ks_ecdh : St -> KeyLabel -> bytes -> cliresult bytes * St;
  ks_ml_kem_decapsulate : St -> KeyLabel -> bytes -> cliresult bytes * St;
  ks_ml_dsa_sign : St -> KeyLabel -> bytes -> bytes -> cliresult bytes * St;
  ks_list : St -> cliresult (list KeyMeta) * St;
  ks_delete : St -> KeyLabel -> cliresult unit * St;
  ks_exists : St -> KeyLabel -> cliresult bool * St;
}.

(** The operations on one label, as data, and what each returns. *)
Inductive kop :=
| KGenerate (algorithm : string) | KMeta | KSign (msg : bytes) | KEcdh (peer : bytes)
| KDecapsulate (ek : bytes) | KMlDsaSign (msg ctx : bytes) | KDelete | KExists.

Inductive kres := RMeta (m : KeyMeta) | RBytes (b : bytes) | RUnit | RBool (b : bool).

(** [Result::map] on an answer. *)
Definition map_ok {E A B} (f : A -> B) (r : result E A) : result E B :=
  match r with Ok a => Ok (f a) | Err e => Err e end.

Definition on_res {E A B St} (f : A -> B) (x : result E A * St) : result E B * St :=
  (map_ok f x.1, x.2).

Definition run_kop `{Keystore St} (st : St) (l : KeyLabel) (o : kop) : cliresult kres * St :=
  match o with
  | KGenerate a => on_res RMeta (ks_generate st l a)
  | KMeta => on_res RMeta (ks_meta st l)
  | KSign m => on_res RBytes (ks_sign st l m)
  | KEcdh p => on_res RBytes (ks_ecdh st l p)
  | KDecapsulate ek => on_res RBytes (ks_ml_kem_decapsulate st l ek)
  | KMlDsaSign m c => on_res RBytes (ks_ml_dsa_sign st l m c)
  | KDelete => on_res (fun _ => RUnit) (ks_delete st l)
  | KExists => on_res RBool (ks_exists st l)
  end.

Definition mutating (o : kop) : bool :=
  match o with KGenerate _ | KDelete => true | _ => false end.

(** What a backend promises to the host signer.  [key_at] is the record a
    backend keeps for a label and [env_eq] relates backends alike in the rest of what an operation can
    depend on (its own sealing key, its randomness, the state of the disk): an
    operation on a label leaves the records of the others alone, answers from
    the record of its own, and key generation never replaces a key. *)
Class KeystoreLocal (St : Type) `{Keystore St} := {
  key_at : St -> KeyLabel -> option bytes;
  env_eq : St -> St -> Prop;
  key_at_other st l l' o : l <> l' -> key_at (run_kop st l o).2 l' = key_at st l';
  key_at_readonly st l l' o :
    mutating o = false -> key_at (run_kop st l o).2 l' = key_at st l';
  key_at_list st l : key_at (ks_list st).2 l = key_at st l;
  generate_exists st l a :
    is_Some (key_at st l) ->
    exists m, ks_generate st l a = (Err (key_exists m), st);
  run_kop_local st st' l o :
    env_eq st st' -> key_at st l = key_at st' l ->
    (run_kop st l o).1 = (run_kop st' l o).1 /\
    env_eq (run_kop st l o).2 (run_kop st' l o).2 /\
    key_at (run_kop st l o).2 l = key_at (run_kop st' l o).2 l;
}.

Definition ML_DSA_87_SIG_LEN : nat := Z.to_nat 4627.

Definition validate_mldsa_ctx (ctx : bytes) : cliresult unit :=
  guard bool_decide (length ctx <= 255)%nat else
    invalid_args ("ML-DSA context must be at most 255 bytes (FIPS 204), got "
      +:+ pretty (length ctx)) ;;
  Ok tt.

(** ** Errors over the wire *)

Definition unexpected : CliError :=
  generic "the keystore backend returned an unexpected response for the request".

Definition cli_error_from_wire (code message : string) : CliError :=
  if decide (code = "key_already_exists") then key_exists message
  else if decide (code = "key_not_found") then key_not_found message
  else if decide (code = "unsupported_algorithm") then unsupported_algorithm message
  else if decide (code = "invalid_arguments") then invalid_args message
  else if decide (code = "invalid_data") then invalid_data message
  else if decide (code = "unsupported_platform") then unsupported_platform message
  else if decide (code = "authorization_denied") then authorization_denied message
  else if decide (code = "filesystem_error") then filesystem message
  else if decide (code = "encryption_failed") then encryption_failed message
  else if decide (code = "decrypt_failed") then decrypt_failed message
  else if decide (code = "access_paused") then cli_new 77 "access_paused" message
  else generic message.

(** ** Launch binding and tier detection *)

Definition check_identity_match (pinned asserted : option string) : cliresult unit :=
  match pinned, asserted with
  | _, None => Ok tt
  | None, Some _ => Ok tt
  | Some p, Some a =>
      if decide (p = a) then Ok tt
      else Err (identity_mismatch ("launch-binding mismatch: this container is wired to PRSN '"
             +:+ p +:+ "' (the host-signer's channel pin), but SIGNET_HANDLE asserts '" +:+ a
             +:+ "'. Refusing to act as the wrong identity (the container's channel mount must point at '"
             +:+ a +:+ "'s channel)."))
  end.

(** [detect_tier]: the two environment variables, and whether the build is for
    an Apple Silicon Mac. *)
Definition detect_tier (SIGNET_KEY_TIER : option string) (host_channel_dir_set apple_silicon : bool)
    : Tier :=
  let auto :=
    if host_channel_dir_set then SecureEnclave
    else if apple_silicon then SecureEnclave else Software in
  match SIGNET_KEY_TIER with
  | Some "software" => Software
  | Some "secure_enclave" | Some "secure-enclave" => SecureEnclave
  | _ => auto
  end.

(** [read_channel_secret]: [text] is what reading the file gave. *)
Definition read_channel_secret `{Hex} (path : string) (text : option string) : cliresult bytes :=
  let*! text := text else config ("reading the host-delegation secret '" +:+ path +:+ "'") in
  let*! b := hex_decode (trim text) else config "the host-delegation secret file must be hex-encoded" in
  to_array 32 (config "the host-delegation secret must be 32 bytes (64 hex chars)") b.

(** ** Lemmas on labels *)

Lemma length_str_cons c s : length (str_bytes (String.String c s)) = S (length (str_bytes s)).
Proof. done. Qed.

Lemma strip_suffix_Some s suf h : strip_suffix s suf = Some h <-> s = h +:+ suf.
Proof.
  revert h. induction s as [|c s IH]; intros h; cbn -[decide].
  - case_decide as E.
    + subst suf. split; [by intros [= <-]|]. intros E. by destruct h.
    + split; [done|]. by destruct h.
  - case_decide as E.
    + subst suf. split; [by intros [= <-]|]. destruct h as [|d h]; [done|].
      intros E. apply (f_equal (fun x => length (str_bytes x))) in E.
      change (String.String d h +:+ String.String c s) with (String.String d (h +:+ String.String c s)) in E.
      rewrite !length_str_cons, str_bytes_app, length_app, length_str_cons in E. lia.
    + rewrite fmap_Some. split.
      * intros (h' & Hh & ->). apply IH in Hh. by subst s.
      * destruct h as [|d h]; [intros Ec; by destruct E|]. intros [= -> ->].
        exists h. split; [by apply IH|done].
Qed.

(** Two texts with different last bytes of their suffixes differ. *)
Lemma suffix_clash h h' p q : p <> q -> h +:+ suffix p <> h' +:+ suffix q.
Proof.
  intros Hpq E. apply (f_equal str_bytes) in E. rewrite !str_bytes_app in E.
  apply (f_equal (@rev byte)) in E. rewrite !rev_app_distr in E.
  by destruct p, q.
Qed.

Lemma strip_other h p q : p <> q -> strip_suffix (h +:+ suffix p) (suffix q) = None.
Proof.
  intros Hpq. destruct (strip_suffix _ _) as [h'|] eqn:E; [|done].
  apply strip_suffix_Some in E. by apply suffix_clash in E.
Qed.

Lemma strip_own h p : strip_suffix (h +:+ suffix p) (suffix p) = Some h.
Proof. by apply strip_suffix_Some. Qed.

Lemma split_label_full h p : split_label (h +:+ suffix p) = Some (h, p).
Proof.
  unfold split_label.
  destruct p; rewrite ?strip_own, ?strip_other by done; rewrite ?strip_own, ?strip_other by done;
    rewrite ?strip_own, ?strip_other by done; rewrite ?strip_own by done; done.
Qed.

Lemma split_label_Some label h p : split_label label = Some (h, p) -> label = h +:+ suffix p.
Proof.
  unfold split_label.
  repeat (case_match; [intros [= <- <-]; by apply strip_suffix_Some|]). done.
Qed.

#[export] Instance full_inj : Inj (=) (=) full.
Proof.
  intros [h p] [h' p'] E. unfold full in E; cbn in E.
  apply (f_equal split_label) in E. rewrite !split_label_full in E. by injection E as -> ->.
Qed.

Lemma parse_Ok label e l :
  parse label e = Ok l <->
  label = full l /\ label_ok l /\ (forall p, e = Some p -> purpose l = p).
Proof.
  split.
  - unfold parse. destruct (split_label label) as [[h p]|] eqn:Es; [|done].
    apply split_label_Some in Es as ->. unfold label_ok.
    destruct e as [e|]; [case_bool_decide as Ee; [|done]|];
      destruct (validate_handle h) as [[]|] eqn:Ev; try done; intros [= <-]; cbn;
      (split; [done|split; [done|]]); by intros ? [= <-].
  - intros (-> & Hv & He). unfold parse, full. rewrite split_label_full.
    unfold label_ok in Hv. destruct l as [h p]; cbn in *.
    destruct e as [e|]; [rewrite bool_decide_true by (symmetry; auto)|]; by rewrite Hv.
Qed.

(** A label survives its text form. *)
Lemma parse_full l : label_ok l -> parse (full l) None = Ok l.
Proof. intros. by apply parse_Ok. Qed.

Lemma from_handle_Ok h p l :
  from_handle h p = Ok l <-> l = mk_KeyLabel h p /\ label_ok l.
Proof.
  unfold from_handle, label_ok. destruct (validate_handle h) as [[]|e] eqn:E; split.
  - intros [= <-]. done.
  - by intros [-> _].
  - done.
  - intros [-> E']; cbn in E'; congruence.
Qed.

(** The shape of a valid handle: its first and last bytes are printable. *)
Lemma is_alnum_printable b : is_alnum b = true -> byte_in b 33 126 = true.
Proof. unfold is_alnum, byte_in. intros H. apply orb_true_iff in H as [H|H]; bool_prop; lia. Qed.

Lemma valid_handle_trim h : validate_handle h = Ok tt -> trim h = h.
Proof.
  unfold validate_handle. intros E.
  destruct (bool_decide (2 <= length (str_bytes h) <= 64)%nat) eqn:En; [|done].
  destruct (default false (is_alnum <$> str_bytes h !! 0%nat) && _)%bool eqn:Ea; [|done].
  clear E. bool_prop.
  destruct (str_bytes h !! 0%nat) as [b|] eqn:Eb; [|done].
  destruct (str_bytes h !! (length (str_bytes h) - 1)%nat) as [c|] eqn:Ec; [|done]. cbn in *.
  assert (El : last (str_bytes h) = Some c) by (rewrite last_lookup, <- Ec; f_equal; lia).
  apply last_Some in El as [m Em].
  destruct (str_bytes h) as [|b' l] eqn:Es; [done|]. injection Eb as ->.
  eapply trim_id; [exact Es|rewrite Es; exact Em|by apply is_alnum_printable..].
Qed.

Lemma valid_handle_nonempty h : validate_handle h = Ok tt -> h <> EmptyString.
Proof. by intros E ->. Qed.
