(* ===== verification/SoftKeystore.v ===== *)
(** * The software keystore (cli/src/keystore/software.rs)

    Keys are files: a JSON record per label, its secret sealed under the
    keystore's own key with the label as associated data.  The state is the
    directory, the sealing key, the faults of the disk and the draws of the
    system generators still to come; serde_json's derived codec of the record is
    the class [StoredCodec]. *)

From S2P Require Import Prelude Prims CryptoCore Ecdsa Wrap Channel CliError Keystore Text.

Record StoredKey := mk_StoredKey
  { sk_label : string; sk_purpose : string; sk_algorithm : string; sk_tier : string;
    sk_fingerprint : string; sk_public_key_b64url : string; sk_scalar_blob_b64 : string }.

(** serde_json on [StoredKey]: the output is UTF-8 text that reads back. *)
Class StoredCodec := {
  stored_to_vec_pretty : StoredKey -> option bytes;
  stored_from_str : string -> option StoredKey;
  stored_utf8 s b : stored_to_vec_pretty s = Some b -> utf8_valid b = true;
  stored_from_to s b :
    stored_to_vec_pretty s = Some b -> stored_from_str (String.string_of_list_byte b) = Some s;
}.

(** What one operation may draw: a P-256 secret scalar, seeds and nonces. *)
Record Entropy := mk_Entropy
  { e_scalar : bytes; e_seed : bytes; e_dz : bytes; e_nonce : bytes; e_hedge : bytes }.

(** Which file operations fail, by file name.  A failed write leaves the file as
    given ([None]: no file). *)
Record Disk := mk_Disk
  { d_read_ok : string -> bool; d_write_fault : string -> option (option bytes);
    d_mode_ok : string -> bool; d_remove_ok : string -> bool; d_dir_ok : bool }.

Record SoftwareKeystore := mk_Soft
  { files : gmap string bytes; kek : bytes; disk : Disk; draws : nat -> Entropy; tick : nat }.

Definition set_files (st : SoftwareKeystore) (f : gmap string bytes) : SoftwareKeystore :=
  mk_Soft f (kek st) (disk st) (draws st) (tick st).
(** The draws of this operation are spent. *)
Definition next_draw (st : SoftwareKeystore) : SoftwareKeystore :=
  mk_Soft (files st) (kek st) (disk st) (draws st) (S (tick st)).
Definition now (st : SoftwareKeystore) : Entropy := draws st (tick st).

Definition AT_REST_AAD_DOMAIN : bytes := str_bytes "signet-cli-keystore-v1" ++ [Byte.x00].
Definition at_rest_aad (l : KeyLabel) : bytes := AT_REST_AAD_DOMAIN ++ str_bytes (full l).

Definition key_path (l : KeyLabel) : string := full l +:+ ".json".

Section Code.
Context `{HG : AesGcm, HS : Sha256, HX : Hex, HB : Base64Url, HT : Base64Std}
  `{HP : P256, !Ecdsa256} `{HQ : PqSoftware, HC : StoredCodec}.

Definition to_meta (stored : StoredKey) : cliresult KeyMeta :=
  let*! public_key := b64_decode (sk_public_key_b64url stored)
    else filesystem "malformed stored public key" in
  Ok (mk_KeyMeta (sk_label stored) (sk_purpose stored) (sk_algorithm stored) (sk_tier stored)
        (sk_fingerprint stored) public_key).

(** [std::fs::read_to_string] of an existing file: the text must be UTF-8. *)
Definition read_to_string (d : Disk) (path : string) (b : bytes) : option string :=
  if d_read_ok d path then from_utf8 b else None.

Definition read_stored (st : SoftwareKeystore) (l : KeyLabel) : cliresult StoredKey :=
  let path := key_path l in
  let*! b := files st !! path else
    key_not_found ("no key '" +:+ full l +:+ "'. 'signet keys list' shows what this keystore holds") in
  let*! text := read_to_string (disk st) path b else filesystem ("reading " +:+ path) in
  let*! stored := stored_from_str text else filesystem ("parsing " +:+ path) in
  Ok stored.

(** [seal_bytes]: the nonce drawn, then the ciphertext, in standard base64. *)
Definition seal_bytes (st : SoftwareKeystore) (nonce : bytes) (l : KeyLabel) (secret : bytes)
    : cliresult string :=
  let*? ct := lift_crypto (seal (kek st) nonce secret (at_rest_aad l)) in
  Ok (b64std_encode (nonce ++ ct)).

Definition open_bytes (st : SoftwareKeystore) (l : KeyLabel) (stored : StoredKey) : cliresult bytes :=
  let*! blob := b64std_decode (sk_scalar_blob_b64 stored)
    else filesystem "malformed stored scalar blob" in
  guard bool_decide (12 <= length blob)%nat else filesystem "stored scalar blob truncated" ;;
  lift_crypto (open (kek st) (take 12 blob) (drop 12 blob) (at_rest_aad l)).

Definition open_scalar (st : SoftwareKeystore) (l : KeyLabel) (stored : StoredKey) : cliresult bytes :=
  let*? plain := open_bytes st l stored in
  to_array 32 (decrypt_failed "decrypted scalar wrong length") plain.

(** [write_secret_file]: the write, then the permissions. *)
Definition write_secret_file (st : SoftwareKeystore) (path : string) (b : bytes)
    : cliresult unit * SoftwareKeystore :=
  match d_write_fault (disk st) path with
  | Some left_behind =>
      (Err (output_write ("writing " +:+ path)),
       set_files st (partial_alter (fun _ => left_behind) path (files st)))
  | None =>
      let st := set_files st (<[path := b]> (files st)) in
      if d_mode_ok (disk st) path then (Ok tt, st)
      else (Err (output_write ("securing " +:+ path)), st)
  end.

(** The secret, public key and fingerprint of a fresh key pair. *)
Definition fresh_pair (e : Entropy) (p : Purpose) : cliresult (bytes * bytes * string) :=
  match p with
  | Signing | Kem =>
      let public := p256_x963 (p256_public (e_scalar e)) in
      let*? fp := lift_crypto (Wrap.fingerprint public) in
      Ok (e_scalar e, public, fp)
  | SigningPq =>
      let public := mldsa87_vk (e_seed e) in
      Ok (e_seed e, public, Wrap.fingerprint_raw public)
  | KemPq =>
      let public := mlkem1024_ek (take 32 (e_dz e)) (drop 32 (e_dz e)) in
      Ok (e_dz e, public, Wrap.fingerprint_raw public)
  end.

Definition stored_of (l : KeyLabel) (algorithm fp : string) (public : bytes) (blob : string)
    : StoredKey :=
  mk_StoredKey (full l) (purpose_str (purpose l)) algorithm (tier_str Software) fp
    (b64_encode public) blob.

Definition generate (st : SoftwareKeystore) (l : KeyLabel) (algorithm : string)
    : cliresult KeyMeta * SoftwareKeystore :=
  match files st !! key_path l with
  | Some _ =>
      (Err (key_exists ("a key '" +:+ full l +:+ "' already exists; delete it first")), st)
  | None =>
      let e := now st in
      let st := next_draw st in
      let prepared :=
        let*? kp := fresh_pair e (purpose l) in
        let '(secret, public, fp) := kp in
        let*? blob := seal_bytes st (e_nonce e) l secret in
        let stored := stored_of l algorithm fp public blob in
        let*! b := stored_to_vec_pretty stored else generic "serializing key record" in
        Ok (stored, public, b) in
      match prepared with
      | Err e => (Err e, st)
      | Ok (stored, public, b) =>
          let '(w, st) := write_secret_file st (key_path l) b in
          match w with
          | Err e => (Err e, st)
          | Ok _ =>
              (Ok (mk_KeyMeta (sk_label stored) (sk_purpose stored) (sk_algorithm stored)
                     (sk_tier stored) (sk_fingerprint stored) public), st)
          end
      end
  end.

Definition meta (st : SoftwareKeystore) (l : KeyLabel) : cliresult KeyMeta :=
  let*? stored := read_stored st l in to_meta stored.

Definition sign (st : SoftwareKeystore) (l : KeyLabel) (msg : bytes) : cliresult bytes :=
  guard bool_decide (purpose l = Signing) else
    unsupported_algorithm "sign requires a signing (ES256) key" ;;
  let*? stored := read_stored st l in
  let*? scalar := open_scalar st l stored in
  lift_crypto (sign_es256 scalar msg).

Definition ecdh (st : SoftwareKeystore) (l : KeyLabel) (peer_pub_x963 : bytes) : cliresult bytes :=
  guard bool_decide (purpose l = Kem) else
    unsupported_algorithm "ecdh requires a KEM (ECDH) key" ;;
  let*? stored := read_stored st l in
  let*? scalar := open_scalar st l stored in
  lift_crypto (ecdh_p256 scalar peer_pub_x963).

Definition ml_kem_decapsulate (st : SoftwareKeystore) (l : KeyLabel) (ek : bytes) : cliresult bytes :=
  guard bool_decide (purpose l = KemPq) else
    unsupported_algorithm "ml-kem decapsulation requires a kem-pq (ML-KEM-1024) key" ;;
  let*? stored := read_stored st l in
  let*? dz := open_bytes st l stored in
  guard bool_decide (length dz = 64%nat) else decrypt_failed "stored ML-KEM seed wrong length" ;;
  guard bool_decide (length ek = Z.to_nat 1568) else
    invalid_data "ml-kem ciphertext must be 1568 bytes" ;;
  let*! ss := mlkem1024_decapsulate (take 32 dz) (drop 32 dz) ek
    else decrypt_failed "ml-kem decapsulation failed" in
  Ok ss.

Definition ml_dsa_sign (st : SoftwareKeystore) (l : KeyLabel) (msg ctx : bytes)
    : cliresult bytes * SoftwareKeystore :=
  let prepared :=
    guard bool_decide (purpose l = SigningPq) else
      unsupported_algorithm "ml-dsa signing requires a signing-pq (ML-DSA-87) key" ;;
    let*? _ := validate_mldsa_ctx ctx in
    let*? stored := read_stored st l in
    let*? seed := open_bytes st l stored in
    guard bool_decide (length seed = 32%nat) else decrypt_failed "stored ML-DSA seed wrong length" ;;
    Ok seed in
  match prepared with
  | Err e => (Err e, st)
  | Ok seed =>
      (ok_or (generic "ml-dsa signing failed")
         (mldsa87_sign_randomized seed msg ctx (e_hedge (now st))), next_draw st)
  end.

(** [list]: the records that parse among the [.json] files, in label order.  The
    order of the directory listing is the system's; here it is the map's. *)
Fixpoint list_entries (d : Disk) (entries : list (string * bytes)) : cliresult (list KeyMeta) :=
  match entries with
  | [] => Ok []
  | (path, b) :: entries =>
      if negb (bool_decide ((Transport.split_name path).2 = Some "json"))
      then list_entries d entries
      else
        let*! text := read_to_string d path b else filesystem ("reading " +:+ path) in
        match stored_from_str text with
        | Some stored =>
            let*? m := to_meta stored in
            let*? rest := list_entries d entries in
            Ok (m :: rest)
        | None => list_entries d entries
        end
  end.

(** [String]'s byte order; [sort_by] is stable. *)
Definition label_le (a b : KeyMeta) : Prop := (String.leb (km_label a) (km_label b)) = true.
#[local] Instance label_le_dec a b : Decision (label_le a b).
Proof. unfold label_le. apply _. Defined.

Definition list_keys (st : SoftwareKeystore) : cliresult (list KeyMeta) :=
  guard d_dir_ok (disk st) else filesystem "reading keystore dir" ;;
  let*? out := list_entries (disk st) (map_to_list (files st)) in
  Ok (merge_sort label_le out).

Definition delete_key (st : SoftwareKeystore) (l : KeyLabel) : cliresult unit * SoftwareKeystore :=
  let path := key_path l in
  match files st !! path with
  | None =>
      (Err (key_not_found ("no key '" +:+ full l
         +:+ "'. 'signet keys list' shows what this keystore holds")), st)
  | Some _ =>
      if d_remove_ok (disk st) path then (Ok tt, set_files st (base.delete path (files st)))
      else (Err (filesystem ("deleting " +:+ path)), st)
  end.

Definition exists_key (st : SoftwareKeystore) (l : KeyLabel) : cliresult bool :=
  Ok (bool_decide (is_Some (files st !! key_path l))).

#[export] Instance soft_keystore : Keystore SoftwareKeystore := {|
  ks_tier := Software;
  ks_generate := generate;
  ks_meta st l := (meta st l, st);
  ks_sign st l m := (sign st l m, st);
  ks_ecdh st l p := (ecdh st l p, st);
  ks_ml_kem_decapsulate st l ek := (ml_kem_decapsulate st l ek, st);
  ks_ml_dsa_sign := ml_dsa_sign;
  ks_list st := (list_keys st, st);
  ks_delete := delete_key;
  ks_exists st l := (exists_key st l, st);
|}.

(** [SoftwareKeystore::open]: the directory is made and secured ([d_dir_ok]), the
    sealing key read or drawn. *)
Definition KEK_FILE : string := "keystore.kek".

Definition load_or_create_kek (st : SoftwareKeystore) (fresh : bytes)
    : cliresult bytes * SoftwareKeystore :=
  match files st !! KEK_FILE with
  | Some b =>
      (if d_read_ok (disk st) KEK_FILE
       then to_array 32 (config "keystore KEK is not 32 bytes") b
       else Err (filesystem "reading keystore KEK"), st)
  | None =>
      let '(w, st) := write_secret_file st KEK_FILE fresh in
      (let*? _ := w in Ok fresh, st)
  end.

Definition open_keystore (f : gmap string bytes) (d : Disk) (r : nat -> Entropy) (fresh : bytes)
    : cliresult SoftwareKeystore * gmap string bytes :=
  let st := mk_Soft f [] d r 0 in
  if d_dir_ok d then
    let '(k, st) := load_or_create_kek st fresh in
    (let*? k := k in Ok (mk_Soft (files st) k d r 0), files st)
  else (Err (filesystem "creating keystore dir"), f).

(** ** The interface of the host signer *)

#[export] Instance key_path_inj : Inj (=) (=) key_path.
Proof.
  intros l l' E. unfold key_path in E. apply (f_equal str_bytes) in E.
  rewrite !str_bytes_app in E. apply app_inv_tail in E.
  by apply (inj str_bytes) in E; apply (inj full) in E.
Qed.

Lemma write_secret_file_other st path path' b :
  path <> path' -> files (write_secret_file st path b).2 !! path' = files st !! path'.
Proof.
  intros Hne. unfold write_secret_file. destruct (d_write_fault _ _) as [lb|]; cbn.
  - by rewrite lookup_partial_alter_ne.
  - case_match; cbn; by rewrite lookup_insert_ne.
Qed.

Lemma generate_other st l l' a :
  l <> l' -> files (generate st l a).2 !! key_path l' = files st !! key_path l'.
Proof.
  intros Hne. unfold generate. destruct (files st !! key_path l); [done|].
  match goal with |- context [match ?x with Ok _ => _ | Err _ => _ end] =>
    destruct x as [[[stored public] b]|e] end; [|done].
  pose proof (write_secret_file_other (next_draw st) (key_path l) (key_path l') b) as Hw.
  destruct (write_secret_file _ _ _) as [[[]|?] st'']; cbn in *; apply Hw; by intros ?%(inj _).
Qed.

Lemma delete_other st l l' :
  l <> l' -> files (delete_key st l).2 !! key_path l' = files st !! key_path l'.
Proof.
  intros Hne. unfold delete_key. destruct (files st !! key_path l); [|done].
  case_match; cbn; [|done]. apply lookup_delete_ne. by intros ?%(inj _).
Qed.

Lemma ml_dsa_sign_files st l m c : files (ml_dsa_sign st l m c).2 = files st.
Proof. unfold ml_dsa_sign. by case_match. Qed.

Definition soft_env_eq (st st' : SoftwareKeystore) : Prop :=
  kek st = kek st' /\ disk st = disk st' /\ draws st = draws st' /\ tick st = tick st'.

Lemma write_secret_file_local f f' k d r t path b :
  let w := write_secret_file (mk_Soft f k d r t) path b in
  let w' := write_secret_file (mk_Soft f' k d r t) path b in
  w.1 = w'.1 /\ soft_env_eq w.2 w'.2 /\ files w.2 !! path = files w'.2 !! path.
Proof.
  cbn. unfold write_secret_file. cbn. destruct (d_write_fault d path) as [lb|]; cbn.
  - by rewrite !lookup_partial_alter_eq.
  - case_match; cbn; by rewrite !lookup_insert_eq.
Qed.

Lemma generate_local f f' k d r t l a :
  f !! key_path l = f' !! key_path l ->
  let g := generate (mk_Soft f k d r t) l a in
  let g' := generate (mk_Soft f' k d r t) l a in
  g.1 = g'.1 /\ soft_env_eq g.2 g'.2 /\ files g.2 !! key_path l = files g'.2 !! key_path l.
Proof.
  intros E. unfold generate. cbn [files]. rewrite E.
  destruct (f' !! key_path l) eqn:E'; [cbn; by rewrite E, E'|].
  unfold now, next_draw, seal_bytes; cbn [draws tick kek files disk].
  match goal with |- context [match ?x with Ok _ => _ | Err _ => _ end] =>
    destruct x as [[[stored public] b]|e] end.
  - pose proof (write_secret_file_local f f' k d r (S t) (key_path l) b) as Hw.
    cbn in Hw. destruct (write_secret_file _ _ _) as [w st1].
    destruct (write_secret_file _ _ _) as [w' st2]. cbn in *.
    destruct Hw as (-> & ? & ?). by destruct w' as [[]|].
  - cbn. by rewrite E, E'.
Qed.

#[export, refine] Instance soft_local : KeystoreLocal SoftwareKeystore := {|
  key_at st l := files st !! key_path l;
  env_eq := soft_env_eq;
|}.
Proof.
  - intros st l l' o Hne. destruct o; cbn; try done.
    + by apply generate_other.
    + by rewrite ml_dsa_sign_files.
    + by apply delete_other.
  - intros st l l' o Ho. destruct o; cbn; try done. by rewrite ml_dsa_sign_files.
  - done.
  - intros st l a [b Hb]. cbn. unfold generate. rewrite Hb. by eexists.
  - intros [f k d r t] [f' k' d' r' t'] l o (Ek & Ed & Er & Et) E. cbn in *. subst k' d' r' t'.
    destruct o; cbn.
    + destruct (generate_local f f' k d r t l algorithm E) as (-> & ? & ?). done.
    + unfold meta, read_stored; cbn. by rewrite E.
    + unfold sign, read_stored, open_scalar, open_bytes; cbn. by rewrite E.
    + unfold ecdh, read_stored, open_scalar, open_bytes; cbn. by rewrite E.
    + unfold ml_kem_decapsulate, read_stored, open_bytes; cbn. by rewrite E.
    + unfold ml_dsa_sign, read_stored, open_bytes; cbn. rewrite E.
      case_match; cbn; by rewrite ?E.
    + unfold delete_key; cbn. rewrite E. destruct (f' !! key_path l) eqn:E'; cbn; [|by rewrite E, E'].
      case_match; cbn; [by rewrite !lookup_delete_eq|by rewrite E, E'].
    + unfold exists_key; cbn. by rewrite E.
Defined.

(** ** What a stored key is worth *)

Definition entropy_ok (e : Entropy) : Prop :=
  is_Some (p256_scalar (e_scalar e)) /\ length (e_scalar e) = 32%nat /\
  length (e_seed e) = 32%nat /\ length (e_dz e) = 64%nat /\ length (e_nonce e) = 12%nat.

Definition secret_of (e : Entropy) (p : Purpose) : bytes :=
  match p with Signing | Kem => e_scalar e | SigningPq => e_seed e | KemPq => e_dz e end.

Lemma fresh_pair_secret e p s public fp :
  fresh_pair e p = Ok (s, public, fp) -> s = secret_of e p.
Proof.
  destruct p; cbn; [destruct (lift_crypto _)|destruct (lift_crypto _)| |]; congruence.
Qed.

(** The record a successful generation writes: it reads back as the receipt, and
    its blob opens to the secret drawn. *)
Lemma generate_Ok st l a m st' :
  generate st l a = (Ok m, st') -> entropy_ok (now st) ->
  d_read_ok (disk st) (key_path l) = true ->
  exists stored, read_stored st' l = Ok stored /\ to_meta stored = Ok m /\
    open_bytes st' l stored = Ok (secret_of (now st) (purpose l)) /\
    exists fp, fresh_pair (now st) (purpose l)
             = Ok (secret_of (now st) (purpose l), km_public_key m, fp).
Proof.
  intros E (_ & _ & _ & _ & Hn) Hr. unfold generate in E.
  destruct (files st !! key_path l) eqn:Ef; [done|].
  destruct (fresh_pair (now st) (purpose l)) as [[[s public] fp]|] eqn:Ep; [|done].
  destruct (seal_bytes _ _ _ _) as [blob|] eqn:Es; [|done].
  destruct (stored_to_vec_pretty _) as [b|] eqn:Ev; [|done].
  unfold write_secret_file in E. cbn [disk next_draw files] in E.
  destruct (d_write_fault _ _); [done|].
  cbn [disk set_files next_draw files] in E. destruct (d_mode_ok _ _); [|done].
  injection E as <- <-.
  exists (stored_of l a fp public blob). split; [|split; [|split]].
  - unfold read_stored, read_to_string. cbn. rewrite lookup_insert_eq.
    unfold set_files, next_draw; cbn. rewrite Hr. unfold from_utf8.
    by rewrite (stored_utf8 _ _ Ev), (stored_from_to _ _ Ev).
  - unfold to_meta, stored_of. cbn. by rewrite b64_decode_encode.
  - rewrite <- (fresh_pair_secret _ _ _ _ _ Ep). unfold open_bytes, stored_of; cbn.
    unfold seal_bytes in Es. cbn in Es.
    destruct (seal _ _ _ _) as [ct|] eqn:Ec; [|done]. cbn in Es. injection Es as <-.
    rewrite b64std_decode_encode, bool_decide_true by (rewrite length_app; lia).
    rewrite take_app_3, drop_app_3 by done. unfold lift_crypto.
    apply open_iff in Ec. by rewrite Ec.
  - exists fp. by rewrite <- (fresh_pair_secret _ _ _ _ _ Ep).
Qed.

Lemma fresh_p256_public e p s public fp :
  p = Signing \/ p = Kem -> fresh_pair e p = Ok (s, public, fp) ->
  public = p256_x963 (p256_public (e_scalar e)).
Proof. intros [-> | ->]; cbn; destruct (lift_crypto _); congruence. Qed.

(** A key the software keystore reports as generated is there and works.  Its
    record reads back as the receipt of the generation; a signing key signs, and
    the signatures verify under the public key of the receipt; a KEM key agrees
    with a peer on the secret the peer computes from that public key; the
    post-quantum keys decapsulate and sign with the very seeds the public key was
    made from. *)
Theorem generated_key_usable st l a m st' :
  entropy_ok (now st) -> d_read_ok (disk st) (key_path l) = true ->
  generate st l a = (Ok m, st') ->
  meta st' l = Ok m /\
  match purpose l with
  | Signing => forall msg, exists sig,
      sign st' l msg = Ok sig /\ verify_es256 (km_public_key m) msg sig = Ok tt
  | Kem => forall d, is_Some (p256_scalar d) -> exists z,
      ecdh st' l (p256_x963 (p256_public d)) = Ok z /\ ecdh_p256 d (km_public_key m) = Ok z
  | KemPq => exists d z, km_public_key m = mlkem1024_ek d z /\
      forall ct ss, length ct = Z.to_nat 1568 -> mlkem1024_decapsulate d z ct = Some ss ->
        ml_kem_decapsulate st' l ct = Ok ss
  | SigningPq => exists seed, km_public_key m = mldsa87_vk seed /\
      forall msg ctx, (length ctx <= 255)%nat ->
        (ml_dsa_sign st' l msg ctx).1 =
        ok_or (generic "ml-dsa signing failed")
          (mldsa87_sign_randomized seed msg ctx (e_hedge (now st')))
  end.
Proof.
  intros He Hr E.
  destruct (generate_Ok _ _ _ _ _ E He Hr) as (stored & Hrd & Hm & Ho & fp & Hp).
  destruct He as (Hs & Hl & Hseed & Hdz & _).
  split; [unfold meta; by rewrite Hrd|].
  destruct (purpose l) eqn:El; cbn [secret_of] in *.
  - intros msg. rewrite (fresh_p256_public _ _ _ _ _ (or_introl eq_refl) Hp).
    exists (signature_to_bytes (ecdsa_sign (e_scalar (now st)) msg)).
    assert (Hsig : sign_es256 (e_scalar (now st)) msg
              = Ok (signature_to_bytes (ecdsa_sign (e_scalar (now st)) msg)))
      by by apply sign_es256_Ok.
    split; [|by apply verify_sign_es256].
    unfold sign, open_scalar. rewrite El, bool_decide_true, Hrd, Ho by done.
    rewrite (proj2 (to_array_Ok 32 _ _ _) (conj eq_refl Hl)). by rewrite Hsig.
  - intros d Hd. rewrite (fresh_p256_public _ _ _ _ _ (or_intror eq_refl) Hp).
    unfold ecdh, open_scalar. rewrite El, bool_decide_true, Hrd, Ho by done.
    rewrite (proj2 (to_array_Ok 32 _ _ _) (conj eq_refl Hl)).
    unfold ecdh_p256, p256_x963. rewrite !p256_decode_uncompressed.
    pose proof (p256_dh_comm _ _ Hs Hd) as Ec. destruct Hs as [s' Hs], Hd as [d' Hd].
    rewrite Hs, Hd. apply p256_scalar_id in Hs as ->. apply p256_scalar_id in Hd as ->.
    rewrite Ec. by eexists.
  - exists (e_seed (now st)). cbn in Hp. split; [congruence|].
    intros msg ctx Hc. unfold ml_dsa_sign, validate_mldsa_ctx.
    by rewrite El, !bool_decide_true, Hrd, Ho, Hseed, bool_decide_true by done.
  - exists (take 32 (e_dz (now st))), (drop 32 (e_dz (now st))). cbn in Hp.
    split; [congruence|]. intros ct ss Hct Hss. unfold ml_kem_decapsulate.
    rewrite El, bool_decide_true, Hrd, Ho by done.
    by rewrite Hdz, Hct, !bool_decide_true, Hss by done.
Qed.

(** A key file is bound to its label.  If the sealed secret of a record opens
    under two labels, the labels are the same or the AES-GCM ciphertext
    authenticates under two different associated data. *)
Theorem key_file_bound_to_label st l l' stored secret secret' :
  open_bytes st l stored = Ok secret -> open_bytes st l' stored = Ok secret' ->
  l = l' \/
  exists blob, b64std_decode (sk_scalar_blob_b64 stored) = Some blob /\
    aad_forgery (kek st) (take 12 blob) (drop 12 blob) (at_rest_aad l) (at_rest_aad l').
Proof.
  unfold open_bytes. destruct (b64std_decode _) as [blob|]; [|done].
  case_bool_decide; [|done]. unfold lift_crypto.
  destruct (open _ _ _ (at_rest_aad l)) as [p|] eqn:E1; [|done].
  destruct (open _ _ _ (at_rest_aad l')) as [p'|] eqn:E2; [|done].
  intros _ _. destruct (decide (l = l')) as [->|Hne]; [by left|]. right.
  exists blob. split; [done|].
  destruct (open_binding _ _ _ _ _ _ _ E1 E2) as [[E _]|Hf]; [|done].
  exfalso. apply Hne. unfold at_rest_aad in E. apply app_inv_head in E.
  by apply (inj str_bytes) in E; apply (inj full) in E.
Qed.

End Code.

(** ** A concrete keystore

    The codec writes the fields of a record on lines; it refuses a record whose
    lines would not read back. *)
Module SoftToy.
Import Prims.Toy.

Definition LF : byte := Byte.x0a.

Fixpoint split_lines (l : bytes) : list bytes :=
  match l with
  | [] => [[]]
  | b :: l =>
      if decide (b = LF) then [] :: split_lines l
      else match split_lines l with x :: r => (b :: x) :: r | [] => [[b]] end
  end.

Definition enc (s : StoredKey) : bytes :=
  mjoin (map (fun f => str_bytes f ++ [LF])
    [sk_label s; sk_purpose s; sk_algorithm s; sk_tier s; sk_fingerprint s;
     sk_public_key_b64url s; sk_scalar_blob_b64 s]).

Definition dec (t : string) : option StoredKey :=
  match map str_of (split_lines (str_bytes t)) with
  | [a; b; c; d; e; f; g; _] => Some (mk_StoredKey a b c d e f g)
  | _ => None
  end.

#[local] Instance StoredKey_eq_dec : EqDecision StoredKey.
Proof. solve_decision. Defined.

#[export, refine] Instance stored_toy : StoredCodec := {|
  stored_to_vec_pretty s :=
    let b := enc s in
    if utf8_valid b && bool_decide (dec (String.string_of_list_byte b) = Some s)
    then Some b else None;
  stored_from_str := dec;
|}.
Proof.
  - intros s b. cbn. destruct (_ && _)%bool eqn:E; [|done]. intros [= <-].
    by apply andb_true_iff in E as [? _].
  - intros s b. cbn. destruct (_ && _)%bool eqn:E; [|done]. intros [= <-].
    apply andb_true_iff in E as [_ E]. by apply bool_decide_eq_true in E.
Defined.

Definition good_disk : Disk :=
  mk_Disk (fun _ => true) (fun _ => None) (fun _ => true) (fun _ => true) true.
Definition sample_draw (n : nat) : Entropy :=
  mk_Entropy (replicate 32 Byte.x41) (replicate 32 Byte.x42) (replicate 64 Byte.x43)
    (replicate 12 Byte.x44) (replicate 32 Byte.x45).
Definition empty_store : SoftwareKeystore :=
  mk_Soft ∅ (replicate 32 Byte.x4b) good_disk sample_draw 0.

Definition mira (p : Purpose) : KeyLabel := mk_KeyLabel "mira-ai" p.

Lemma sample_entropy_ok : entropy_ok (now empty_store).
Proof. unfold entropy_ok. split; [|by vm_compute]. by apply (bool_decide_unpack _); vm_compute. Qed.

End SoftToy.
Import Prims.Toy SoftToy.

(** The generation of a signing key in an empty keystore, and a signature. *)
Lemma generated_key_usable_witness :
  let g := generate SoftToy.empty_store (SoftToy.mira Signing) "ES256" in
  exists m, g.1 = Ok m /\ meta g.2 (SoftToy.mira Signing) = Ok m /\
    exists sig, sign g.2 (SoftToy.mira Signing) [Byte.x01] = Ok sig /\
      verify_es256 (km_public_key m) [Byte.x01] sig = Ok tt.
Proof.
  intros g. destruct g as [[m|e] st'] eqn:E; [|by vm_compute in E].
  destruct (generated_key_usable SoftToy.empty_store (SoftToy.mira Signing) "ES256" m st'
              SoftToy.sample_entropy_ok eq_refl E) as [Hm Hs].
  exists m. split; [done|]. split; [done|]. exact (Hs [Byte.x01]).
Defined.

(** The concrete cipher's tag is too weak to bind the label, and the forgery
    this allows is the one the theorem names. *)
Lemma key_file_bound_to_label_witness :
  let l := SoftToy.mira Kem in
  let l' := SoftToy.mira Signing in
  let stored := mk_StoredKey "" "" "" "" "" ""
    (default "" (ok_opt (seal_bytes SoftToy.empty_store (replicate 12 Byte.x44) l [Byte.x61]))) in
  l = l' \/ exists blob, b64std_decode (sk_scalar_blob_b64 stored) = Some blob /\
    aad_forgery (kek SoftToy.empty_store) (take 12 blob) (drop 12 blob) (at_rest_aad l) (at_rest_aad l').
Proof.
  apply (key_file_bound_to_label SoftToy.empty_store (SoftToy.mira Kem) (SoftToy.mira Signing) _
           [Byte.x61] [Byte.x61]); by vm_compute.
Defined.
