(* ===== verification/HostSigner.v ===== *)
(** * The host signer (cli/src/host_signer.rs)

    The daemon that answers a container's delegated operations with the host's
    keystore.  [dispatch] is generic in the keystore, as in the code; the channel
    state pins a PRSN handle at the first successful key generation; [poll] and
    [round] are the daemon's loop over its channels.  Log lines are left out. *)

From S2P Require Import Prelude Prims CryptoCore Wrap Channel CliError Keystore.
Import Channel.Wire Channel.Transport.

Section Dispatch.
Context `{HK : Keystore St}.

(** [scoped_label]. *)
Definition scoped_label (label prsn_handle : string) : cliresult KeyLabel :=
  let*? parsed := parse label None in
  guard bool_decide (handle parsed = prsn_handle) else
    authorization_denied ("label '" +:+ label +:+ "' does not belong to this channel's PRSN ('"
      +:+ prsn_handle +:+ "')") ;;
  Ok parsed.

(** [let label = scoped_label(..)?; k label]. *)
Definition with_label {A} (st : St) (label prsn_handle : string)
    (k : KeyLabel -> cliresult A * St) : cliresult A * St :=
  match scoped_label label prsn_handle with
  | Ok l => k l
  | Err e => (Err e, st)
  end.

Definition key_entry (m : KeyMeta) : KeyEntry :=
  mk_KeyEntry (km_label m) (km_purpose m) (km_algorithm m) (km_fingerprint m) (km_public_key m).

(** The filter of [Op::List]. *)
Definition listed (prsn_handle : string) (m : KeyMeta) : bool :=
  match parse (km_label m) None with
  | Ok l => bool_decide (handle l = prsn_handle)
  | Err _ => false
  end.

Definition check_ek (ek : bytes) : cliresult unit :=
  guard bool_decide (length ek = Wrap.MLKEM1024_CT_LEN) else
    invalid_args ("ml-kem ciphertext must be " +:+ pretty Wrap.MLKEM1024_CT_LEN +:+ " bytes, got "
      +:+ pretty (length ek)) ;;
  Ok tt.

Definition dispatch (st : St) (prsn_handle : string) (op : Op) : cliresult OpOk * St :=
  match op with
  | Keygen label algorithm =>
      with_label st label prsn_handle (fun l =>
        on_res (fun m => OkKeygen (km_public_key m) (km_fingerprint m) (km_algorithm m))
          (ks_generate st l algorithm))
  | Sign label msg =>
      with_label st label prsn_handle (fun l => on_res OkSign (ks_sign st l msg))
  | Ecdh label peer =>
      with_label st label prsn_handle (fun l => on_res OkEcdh (ks_ecdh st l peer))
  | MlKemDecapsulate label ek =>
      with_label st label prsn_handle (fun l =>
        match check_ek ek with
        | Err e => (Err e, st)
        | Ok _ => on_res OkMlKemDecapsulate (ks_ml_kem_decapsulate st l ek)
        end)
  | MlDsaSign label msg ctx =>
      with_label st label prsn_handle (fun l =>
        match validate_mldsa_ctx ctx with
        | Err e => (Err e, st)
        | Ok _ => on_res OkMlDsaSign (ks_ml_dsa_sign st l msg ctx)
        end)
  | Meta label =>
      with_label st label prsn_handle (fun l =>
        on_res (fun m => OkMeta (km_public_key m) (km_fingerprint m) (km_algorithm m) (km_purpose m))
          (ks_meta st l))
  | Exists label =>
      with_label st label prsn_handle (fun l => on_res OkExists (ks_exists st l))
  | List =>
      on_res (fun ms => OkList (map key_entry (List.filter (listed prsn_handle) ms))) (ks_list st)
  | Identity => (Ok (OkIdentity (Some prsn_handle)), st)
  | Delete label =>
      with_label st label prsn_handle (fun l => on_res (fun _ => OkDelete) (ks_delete st l))
  end.

Definition op_err (e : CliError) : Response := RErr (mk_OpErr (code e) (message e)).

Definition to_response (r : cliresult OpOk) : Response :=
  match r with Ok ok => ROk ok | Err e => op_err e end.

Definition handle_op (st : St) (prsn_handle : string) (op : Op) : Response * St :=
  let '(r, st) := dispatch st prsn_handle op in (to_response r, st).

(** ** The channel's pin

    [pins] is the state directory, a file per channel. *)

Abbreviation pin_store := (gmap string bytes).

Record PinDisk := mk_PinDisk
  { pd_read_ok : bool; pd_dir_ok : bool; pd_write_fault : option (option bytes);
    pd_mode_ok : bool }.

Record ChannelState := mk_ChannelState { pinned_handle : option string; pin_path : string }.

(** [ChannelState::load]. *)
Definition load (channel_id : string) (d : PinDisk) (pins : pin_store) : cliresult ChannelState :=
  let path := (channel_id +:+ ".handle")%string in
  match pins !! path with
  | None => Ok (mk_ChannelState None path)
  | Some b =>
      let*! text := (if pd_read_ok d then from_utf8 b else None)
        else config ("reading pinned handle " +:+ path) in
      let h := trim text in
      Ok (mk_ChannelState (if decide (h = EmptyString) then None else Some h) path)
  end.

Definition persist (c : ChannelState) (d : PinDisk) (pins : pin_store) (h : string)
    : cliresult unit * pin_store :=
  if pd_dir_ok d then
    match pd_write_fault d with
    | Some left_behind =>
        (Err (config ("writing " +:+ pin_path c)),
         partial_alter (fun _ => left_behind) (pin_path c) pins)
    | None =>
        let pins := <[pin_path c := str_bytes h]> pins in
        if pd_mode_ok d then (Ok tt, pins) else (Err (config ("securing " +:+ pin_path c)), pins)
    end
  else (Err (config "creating state dir"), pins).

(** What a channel's handler changes: its own state, the keystore, the pins. *)
Record World := mk_World { w_chan : ChannelState; w_ks : St; w_pins : pin_store }.

(** [ChannelState::handle].  A failure to persist is only logged. *)
Definition chan_handle (d : PinDisk) (w : World) (op : Op) : Response * World :=
  let c := w_chan w in
  match op with
  | Identity => (ROk (OkIdentity (pinned_handle c)), w)
  | _ =>
      match pinned_handle c with
      | Some h =>
          let '(r, st) := handle_op (w_ks w) h op in (r, mk_World c st (w_pins w))
      | None =>
          match op with
          | Keygen label _ =>
              match parse label None with
              | Err e => (op_err e, w)
              | Ok l =>
                  let h := handle l in
                  let '(r, st) := handle_op (w_ks w) h op in
                  match r with
                  | ROk _ =>
                      let c := mk_ChannelState (Some h) (pin_path c) in
                      (r, mk_World c st (persist c d (w_pins w) h).2)
                  | RErr _ => (r, mk_World c st (w_pins w))
                  end
              end
          | _ =>
              (RErr (mk_OpErr "authorization_denied"
                 "this channel has no enrolled PRSN yet (run `signet enroll` first)"), w)
          end
      end
  end.

(** A sequence of operations on one channel. *)
Fixpoint run_ops (d : PinDisk) (w : World) (ops : list Op) : list Response * World :=
  match ops with
  | [] => ([], w)
  | op :: ops =>
      let '(r, w) := chan_handle d w op in
      let '(rs, w) := run_ops d w ops in
      (r :: rs, w)
  end.

End Dispatch.
Arguments World St : clear implicits.
Arguments w_chan {St} _.
Arguments w_ks {St} _.
Arguments w_pins {St} _.
Arguments mk_World {St} _ _ _.

(** ** The daemon *)

Definition EVICT_AFTER_MISSING_POLLS : Z := 20.

Record Active := mk_Active
  { a_server : ChannelServer; a_state : ChannelState; a_id : string; missing_polls : Z }.

Record PollOutcome := mk_PollOutcome { worked : bool; evict : bool }.

(** What reading the channel folder gives at a poll. *)
Inductive folder_read :=
| Listed (flt : fs_faults) (dir : folder) (listing : list (string * bytes))
| FolderGone
| FolderError.

Section Daemon.
Context `{HK : Keystore St} `{AesGcm, Hkdf, WireCodec}.

(** [Active::poll]: the outcome, the channel, and the keystore and pins after it.
    [None] is a panic of the transport. *)
Definition poll (d : PinDisk) (a : Active) (st : St) (pins : gmap string bytes) (rd : folder_read)
    : option (PollOutcome * Active * St * gmap string bytes) :=
  match rd with
  | Listed flt dir listing =>
      p ← poll_once (fun w op => let '(r, w) := chan_handle d w op in (w, r))
            flt (a_server a) (mk_World (a_state a) st pins) dir listing;
      Some (mk_PollOutcome (0 <? answered p) false,
            mk_Active (p_server p) (w_chan (p_state p)) (a_id a) 0,
            w_ks (p_state p), w_pins (p_state p))
  | FolderGone =>
      let n := u32_sat (missing_polls a + 1) in
      Some (mk_PollOutcome false (n =? EVICT_AFTER_MISSING_POLLS),
            mk_Active (a_server a) (a_state a) (a_id a) n, st, pins)
  | FolderError =>
      Some (mk_PollOutcome false false,
            mk_Active (a_server a) (a_state a) (a_id a) 0, st, pins)
  end.

(** One turn of the loop of [run] over the channels: an evicted one is removed. *)
Fixpoint round (d : PinDisk) (reads : string -> folder_read) (cs : list Active) (st : St)
    (pins : gmap string bytes) : option (bool * list Active * St * gmap string bytes) :=
  match cs with
  | [] => Some (false, [], st, pins)
  | a :: cs =>
      '(o, a, st, pins) ← poll d a st pins (reads (a_id a));
      '(wk, cs, st, pins) ← round d reads cs st pins;
      Some (worked o || wk, if evict o then cs else a :: cs, st, pins)
  end.

Definition pause (idle : Z) (worked : bool) : Z * Z :=
  if worked then (0, 1) else let idle := u32_sat (idle + 1) in (idle, idle_backoff idle).

(** The turns of [run] until the shutdown flag is seen; each turn has its folders. *)
Fixpoint run_turns (d : PinDisk) (turns : list (string -> folder_read)) (cs : list Active) (st : St)
    (pins : gmap string bytes) : option (list Active * St * gmap string bytes) :=
  match turns with
  | [] => Some (cs, st, pins)
  | reads :: turns =>
      '(_, cs, st, pins) ← round d reads cs st pins;
      run_turns d turns cs st pins
  end.

End Daemon.

Record ChannelConfig := mk_ChannelConfig { cc_id : string; cc_secret_hex : string }.

Definition parse_secret_hex `{Hex} (hex_str : string) : cliresult bytes :=
  let*! b := hex_decode (trim hex_str) else config "channel secret_hex is not hex" in
  to_array 32 (config "channel secret must be 32 bytes (64 hex chars)") b.

(** The start of [run]: every registered channel, or the first error. *)
Fixpoint start `{Hex} (d : PinDisk) (pins : gmap string bytes) (cfgs : list ChannelConfig)
    : cliresult (list Active) :=
  match cfgs with
  | [] => Ok []
  | cfg :: cfgs =>
      let*? secret := parse_secret_hex (cc_secret_hex cfg) in
      let*? state := load (cc_id cfg) d pins in
      let*? rest := start d pins cfgs in
      Ok (mk_Active (new_server (cc_id cfg) secret) state (cc_id cfg) 0 :: rest)
  end.
