(* ===== verification/HostSignerTheorems.v ===== *)
(** * What the host signer guarantees

    Against the interface [KeystoreLocal]: a channel reaches only the keys of
    the handle it is pinned to, its pin never changes, and what it is answered
    does not depend on the keys of other handles.  The daemon drops a channel
    after twenty polls in a row without its folder, and only then. *)

From S2P Require Import Prelude Prims CryptoCore Ecdsa Wrap Channel ChannelTheorems CliError Keystore SoftKeystore HostSigner.
Import Channel.Wire Channel.Transport.

(** ** The shape of [dispatch] *)

(** The label an operation names, the keystore operation it asks for, the check
    in between, and the answer it builds. *)
Definition op_target (op : Op) : option (string * kop) :=
  match op with
  | Keygen l a => Some (l, KGenerate a)
  | Sign l m => Some (l, KSign m)
  | Ecdh l p => Some (l, KEcdh p)
  | MlKemDecapsulate l ek => Some (l, KDecapsulate ek)
  | MlDsaSign l m c => Some (l, KMlDsaSign m c)
  | Meta l => Some (l, KMeta)
  | Exists l => Some (l, KExists)
  | Delete l => Some (l, KDelete)
  | List | Identity => None
  end.

Definition precheck (op : Op) : cliresult unit :=
  match op with
  | MlKemDecapsulate _ ek => check_ek ek
  | MlDsaSign _ _ ctx => validate_mldsa_ctx ctx
  | _ => Ok tt
  end.

Definition answer (op : Op) (r : kres) : OpOk :=
  match op, r with
  | Keygen _ _, RMeta m => OkKeygen (km_public_key m) (km_fingerprint m) (km_algorithm m)
  | Sign _ _, RBytes b => OkSign b
  | Ecdh _ _, RBytes b => OkEcdh b
  | MlKemDecapsulate _ _, RBytes b => OkMlKemDecapsulate b
  | MlDsaSign _ _ _, RBytes b => OkMlDsaSign b
  | Meta _, RMeta m => OkMeta (km_public_key m) (km_fingerprint m) (km_algorithm m) (km_purpose m)
  | Exists _, RBool b => OkExists b
  | _, _ => OkDelete
  end.

Section Theorems.
Context `{HK : Keystore St}.

Lemma on_res_on_res {E A B C} (f : A -> B) (g : B -> C) (x : result E A * St) :
  on_res g (on_res f x) = on_res (fun a => g (f a)) x.
Proof. by destruct x as [[]]. Qed.

Lemma dispatch_eq st h op label o :
  op_target op = Some (label, o) ->
  dispatch st h op =
  with_label st label h (fun l =>
    match precheck op with
    | Err e => (Err e, st)
    | Ok _ => on_res (answer op) (run_kop st l o)
    end).
Proof.
  destruct op; intros [= <- <-]; unfold dispatch, with_label, run_kop;
    destruct (scoped_label _ _); cbn [precheck]; try done;
    try (destruct (check_ek _)); try (destruct (validate_mldsa_ctx _));
    rewrite ?on_res_on_res; try done.
Qed.

Lemma scoped_label_Ok label h l :
  scoped_label label h = Ok l <-> label = full l /\ label_ok l /\ handle l = h.
Proof.
  unfold scoped_label. split.
  - destruct (parse label None) as [l'|] eqn:E; [|done].
    case_bool_decide; [|done]. intros [= <-]. apply parse_Ok in E as (? & ? & _). done.
  - intros (-> & Hl & Hh). rewrite parse_full by done. by rewrite bool_decide_true.
Qed.

(** Where a dispatched operation leaves the keystore. *)
Lemma dispatch_state st h op :
  (dispatch st h op).2 = st \/
  (op = List /\ (dispatch st h op).2 = (ks_list st).2) \/
  exists label o l, op_target op = Some (label, o) /\ handle l = h /\ label = full l /\
    (dispatch st h op).2 = (run_kop st l o).2.
Proof.
  destruct (op_target op) as [[label o]|] eqn:Et.
  - rewrite (dispatch_eq _ _ _ _ _ Et). unfold with_label.
    destruct (scoped_label label h) as [l|] eqn:Es; [|by left].
    apply scoped_label_Ok in Es as (-> & _ & Hh).
    destruct (precheck op); [|by left]. right; right. exists (full l), o, l. done.
  - destruct op; try done; [right; by left|by left].
Qed.

Context `{HL : !KeystoreLocal St}.

Lemma dispatch_other st h op l :
  handle l <> h -> key_at (dispatch st h op).2 l = key_at st l.
Proof.
  intros Hne. destruct (dispatch_state st h op) as [-> | [[_ ->] | (label & o & l' & _ & Hh & _ & ->)]].
  - done.
  - apply key_at_list.
  - apply key_at_other. by intros ->.
Qed.

Lemma dispatch_keygen st l a :
  label_ok l ->
  dispatch st (handle l) (Keygen (full l) a) =
  on_res (fun m => OkKeygen (km_public_key m) (km_fingerprint m) (km_algorithm m)) (ks_generate st l a).
Proof.
  intros Hl. cbn. unfold with_label.
  by rewrite (proj2 (scoped_label_Ok (full l) (handle l) l)).
Qed.

(** ** One operation on a channel *)

Lemma chan_handle_pinned d w op h :
  pinned_handle (w_chan w) = Some h ->
  w_chan (chan_handle d w op).2 = w_chan w /\
  (w_ks (chan_handle d w op).2 = w_ks w \/
   w_ks (chan_handle d w op).2 = (dispatch (w_ks w) h op).2).
Proof.
  intros Hp. unfold chan_handle. rewrite Hp. destruct w as [c st pins]; cbn in *.
  destruct op; try (unfold handle_op; destruct (dispatch _ _ _); cbn; by split; [|right]).
  by split; [|left].
Qed.

(** The pin of a channel never changes once it is set. *)
Lemma chan_handle_pin_stable d w op h :
  pinned_handle (w_chan w) = Some h -> pinned_handle (w_chan (chan_handle d w op).2) = Some h.
Proof. intros Hp. by destruct (chan_handle_pinned d w op h Hp) as [-> _]. Qed.

(** On an unpinned channel the keystore is reached by key generation alone. *)
Lemma chan_handle_unpinned d w op :
  pinned_handle (w_chan w) = None ->
  w_ks (chan_handle d w op).2 = w_ks w \/
  exists l a, w_ks (chan_handle d w op).2 = (ks_generate (w_ks w) l a).2.
Proof.
  intros Hp. unfold chan_handle. rewrite Hp. destruct w as [c st pins]; cbn in *.
  destruct op; try by left.
  destruct (parse label None) as [l|] eqn:Ep; [|by left].
  apply parse_Ok in Ep as (-> & Hl & _). right. exists l, algorithm.
  unfold handle_op. rewrite dispatch_keygen by done.
  destruct (ks_generate st l algorithm) as [[m|e] st'] eqn:Eg; by cbn.
Qed.

Lemma chan_handle_confined d w op l :
  is_Some (key_at (w_ks w) l) ->
  pinned_handle (w_chan (chan_handle d w op).2) <> Some (handle l) ->
  key_at (w_ks (chan_handle d w op).2) l = key_at (w_ks w) l.
Proof.
  intros Hk Hp. destruct (pinned_handle (w_chan w)) as [h|] eqn:Eh.
  - destruct (chan_handle_pinned d w op h Eh) as [Hc [-> | ->]]; [done|].
    apply dispatch_other. rewrite Hc, Eh in Hp. congruence.
  - destruct (chan_handle_unpinned d w op Eh) as [-> | (l' & a & ->)]; [done|].
    destruct (decide (l' = l)) as [->|Hne].
    + destruct (generate_exists (w_ks w) l a Hk) as [m ->]. done.
    + exact (key_at_other (w_ks w) l' l (KGenerate a) Hne).
Qed.

Lemma run_ops_pin_stable d w ops h :
  pinned_handle (w_chan w) = Some h -> pinned_handle (w_chan (run_ops d w ops).2) = Some h.
Proof.
  revert w. induction ops as [|op ops IH]; intros w Hp; [done|]. cbn.
  pose proof (chan_handle_pin_stable d w op h Hp) as Hp'.
  destruct (chan_handle d w op) as [r w']. cbn in Hp'. specialize (IH w' Hp').
  by destruct (run_ops d w' ops).
Qed.

(** C16: A channel is confined to the handle it ends up pinned to.  Whatever
    operations a container sends, in any order, the pin once set stays; and a key
    that existed before and is not of the pinned handle is left as it was. *)
Theorem channel_confined d w ops :
  (forall h, pinned_handle (w_chan w) = Some h ->
     pinned_handle (w_chan (run_ops d w ops).2) = Some h) /\
  (forall l, is_Some (key_at (w_ks w) l) ->
     pinned_handle (w_chan (run_ops d w ops).2) <> Some (handle l) ->
     key_at (w_ks (run_ops d w ops).2) l = key_at (w_ks w) l).
Proof.
  split; [intros h; apply run_ops_pin_stable|].
  revert w. induction ops as [|op ops IH]; intros w l Hk Hp; [done|]. cbn in *.
  pose proof (chan_handle_confined d w op l Hk) as Hc.
  destruct (chan_handle d w op) as [r w'] eqn:Eh. cbn in Hc.
  specialize (IH w' l). pose proof (run_ops_pin_stable d w' ops (handle l)) as Hst.
  destruct (run_ops d w' ops) as [rs w'']. cbn in *.
  assert (E : key_at (w_ks w') l = key_at (w_ks w) l) by (apply Hc; by intros ?%Hst).
  rewrite <- E. apply IH; [by rewrite E|done].
Qed.

(** ** Non-interference *)

(** Two keystores alike but for the keys of other handles. *)
Definition same_for (h : string) (st st' : St) : Prop :=
  env_eq st st' /\ forall l, handle l = h -> key_at st l = key_at st' l.

Lemma run_kop_same_for h st st' l o :
  same_for h st st' -> handle l = h ->
  (run_kop st l o).1 = (run_kop st' l o).1 /\ same_for h (run_kop st l o).2 (run_kop st' l o).2.
Proof.
  intros [He Hk] Hl. destruct (run_kop_local st st' l o He (Hk l Hl)) as (Hr & He' & Hk').
  split; [done|]. split; [done|]. intros l' Hl'. destruct (decide (l = l')) as [->|Hne]; [done|].
  rewrite !key_at_other by done. by apply Hk.
Qed.

Lemma dispatch_same_for h st st' op :
  same_for h st st' -> op <> List ->
  (dispatch st h op).1 = (dispatch st' h op).1 /\
  same_for h (dispatch st h op).2 (dispatch st' h op).2.
Proof.
  intros Hs Hop. destruct (op_target op) as [[label o]|] eqn:Et.
  - rewrite !(dispatch_eq _ _ _ _ _ Et). unfold with_label.
    destruct (scoped_label label h) as [l|] eqn:El; [|done].
    apply scoped_label_Ok in El as (_ & _ & Hh).
    destruct (precheck op); [|done].
    destruct (run_kop_same_for h st st' l o Hs Hh) as [Hr Hs'].
    unfold on_res; cbn. by rewrite Hr.
  - destruct op; try done.
Qed.

(** Listing shows only labels of the channel's own handle. *)
Lemma list_only_own st h keys e :
  (dispatch st h List).1 = Ok (OkList keys) -> e ∈ keys ->
  exists l, ke_label e = full l /\ label_ok l /\ handle l = h.
Proof.
  cbn. destruct (ks_list st) as [[ms|] st']; [|done]. cbn. intros [= <-] He.
  apply list_elem_of_fmap in He as (m & -> & Hm%list_elem_of_In).
  apply filter_In in Hm as [_ Hm]. unfold listed in Hm.
  destruct (parse _ None) as [l|] eqn:E; [|done].
  apply parse_Ok in E as (E & Hl & _). apply bool_decide_eq_true in Hm. by exists l.
Qed.

(** One operation on a pinned channel. *)
Lemma chan_handle_dispatches d c pins st h op :
  pinned_handle c = Some h ->
  chan_handle d (mk_World c st pins) op =
    match op with
    | Identity => (ROk (OkIdentity (Some h)), mk_World c st pins)
    | _ => (to_response (dispatch st h op).1, mk_World c (dispatch st h op).2 pins)
    end.
Proof.
  intros Hp. unfold chan_handle, handle_op; cbn [w_chan w_ks w_pins]. rewrite Hp.
  by destruct op; try destruct (dispatch _ _ _).
Qed.

Lemma run_ops_list_own d c pins st h ops i keys e :
  pinned_handle c = Some h -> ops !! i = Some List ->
  (run_ops d (mk_World c st pins) ops).1 !! i = Some (ROk (OkList keys)) -> e ∈ keys ->
  exists l, ke_label e = full l /\ label_ok l /\ handle l = h.
Proof.
  intros Hp. revert st i. induction ops as [|op ops IH]; intros st i; [done|]. cbn [run_ops].
  rewrite (chan_handle_dispatches _ _ _ _ _ _ Hp). destruct i as [|i]; cbn [lookup list_lookup].
  - intros [= ->]. destruct (run_ops d _ ops) as [rs w']. cbn [fst list_lookup]. intros [= Hr] He.
    eapply (list_only_own st); [|exact He]. cbn. destruct (ks_list st) as [[ms|] st']; [|done]. cbn in *. congruence.
  - intros Hi. destruct op; match goal with |- context [run_ops d (mk_World c ?a pins) ops] =>
      specialize (IH a i Hi); destruct (run_ops d (mk_World c a pins) ops) end; cbn; exact IH.
Qed.

(** C20: Nothing of another PRSN shows through a channel.  On a channel pinned to a
    handle, two hosts that hold the same keys for that handle, whatever keys they
    hold for others, answer every sequence of operations other than listing with
    the same responses; and a listing anywhere in any sequence, when it is answered,
    names only keys of the handle.  (Whether it is answered can depend on the others:
    it reads every key file and fails on the first that cannot be read.) *)
Theorem pinned_channel_noninterference d c pins st st' h ops :
  pinned_handle c = Some h -> same_for h st st' ->
  (List ∉ ops -> (run_ops d (mk_World c st pins) ops).1 = (run_ops d (mk_World c st' pins) ops).1) /\
  (forall i keys e, ops !! i = Some List ->
     (run_ops d (mk_World c st pins) ops).1 !! i = Some (ROk (OkList keys)) -> e ∈ keys ->
     exists l, ke_label e = full l /\ label_ok l /\ handle l = h).
Proof.
  intros Hp Hs0. split; [|intros i keys e; by apply run_ops_list_own].
  revert st st' Hs0. induction ops as [|op ops IH]; intros st st' Hs Hnl; [done|].
  apply not_elem_of_cons in Hnl as [Hop Hnl]. cbn.
  rewrite !(chan_handle_dispatches _ _ _ _ _ _ Hp).
  destruct (dispatch_same_for h st st' op Hs (not_eq_sym Hop)) as [Hr Hs'].
  rewrite Hr.
  destruct op;
    match goal with
    | |- context [run_ops d (mk_World c ?a pins) ops] =>
        match goal with
        | |- context [run_ops d (mk_World c ?b pins) ops] =>
            lazymatch a with b => fail | _ => idtac end;
            assert (IH' : (run_ops d (mk_World c a pins) ops).1
                        = (run_ops d (mk_World c b pins) ops).1) by (by apply IH);
            destruct (run_ops d (mk_World c a pins) ops), (run_ops d (mk_World c b pins) ops)
        end
    end; cbn in *; by rewrite IH'.
Qed.

(** The first successful key generation pins the channel to a whole handle, not
    to the key it made.  If a PRSN's key exists on the host and another of that
    PRSN's four labels is free, a channel with no pin can generate the free one
    and is then answered with the existing key: its next signature is the one
    that key makes. *)
Theorem fresh_channel_reaches_existing_key d w l free a m st' msg :
  pinned_handle (w_chan w) = None ->
  label_ok l -> label_ok free -> handle free = handle l -> free <> l ->
  is_Some (key_at (w_ks w) l) ->
  ks_generate (w_ks w) free a = (Ok m, st') ->
  key_at st' l = key_at (w_ks w) l /\
  (run_ops d w [Keygen (full free) a; Sign (full l) msg]).1 =
  [ROk (OkKeygen (km_public_key m) (km_fingerprint m) (km_algorithm m));
   to_response (map_ok OkSign (ks_sign st' l msg).1)].
Proof.
  intros Hp Hl Hf Hh Hne Hk Hg. split.
  { pose proof (key_at_other (w_ks w) free l (KGenerate a) Hne) as E. cbn in E. by rewrite Hg in E. }
  cbn [run_ops]. unfold chan_handle at 1. rewrite Hp, parse_full by done.
  unfold handle_op. rewrite dispatch_keygen, Hg by done. cbn.
  unfold handle_op, dispatch, with_label. rewrite (proj2 (scoped_label_Ok (full l) (handle free) l)) by done.
  by destruct (ks_sign st' l msg).
Qed.

End Theorems.

(** ** Restart *)

(** A pin that was persisted is what a restarted daemon loads. *)
Lemma persisted_pin_reloads c d pins h channel_id :
  pin_path c = (channel_id +:+ ".handle")%string -> validate_handle h = Ok tt ->
  utf8_valid (str_bytes h) = true -> pd_read_ok d = true ->
  (persist c d pins h).1 = Ok tt ->
  load channel_id d (persist c d pins h).2 = Ok (mk_ChannelState (Some h) (pin_path c)).
Proof.
  intros Hpath Hv Hu Hr. unfold persist.
  destruct (pd_dir_ok d); [|done]. destruct (pd_write_fault d); [done|].
  destruct (pd_mode_ok d); [|done]. intros _. cbn [snd]. unfold load.
  rewrite <- Hpath, lookup_insert_eq, Hr, from_utf8_str_bytes by done.
  rewrite valid_handle_trim by done.
  by rewrite decide_False by (by apply valid_handle_nonempty).
Qed.

(** ** Eviction *)

(** Does a channel with [n] misses behind it survive these polls? *)
Fixpoint survives (n : nat) (rds : list folder_read) : bool :=
  match rds with
  | [] => true
  | FolderGone :: rds => if decide (S n = 20%nat) then false else survives (S n) rds
  | _ :: rds => survives 0 rds
  end.

(** Twenty polls in a row found no folder. *)
Definition gone_run (rds : list folder_read) : Prop :=
  exists pre post, rds = pre ++ replicate 20 FolderGone ++ post.

Lemma gone_run_cons r rds : gone_run rds -> gone_run (r :: rds).
Proof. intros (pre & post & ->). by exists (r :: pre), post. Qed.

Lemma survives_false n rds :
  (n < 20)%nat ->
  survives n rds = false <->
  (exists post, rds = replicate (20 - n) FolderGone ++ post) \/ gone_run rds.
Proof.
  revert n. induction rds as [|r rds IH]; intros n Hn.
  - split; [done|]. intros [[post E]|(pre & post & E)].
    + replace (20 - n)%nat with (S (19 - n)) in E by lia. done.
    + by destruct pre.
  - assert (Hcons : forall k, (k < 20)%nat -> r <> FolderGone ->
              survives 0 rds = false <->
              (exists post, r :: rds = replicate (20 - k) FolderGone ++ post) \/ gone_run (r :: rds)).
    { intros k Hk Hr. rewrite IH by lia. split.
      - intros [[post ->]|Hg]; right; [|by apply gone_run_cons].
        by exists [r], post.
      - intros [[post E]|(pre & post & E)].
        + replace (20 - k)%nat with (S (19 - k)) in E by lia. by injection E as ->.
        + destruct pre as [|r' pre]; [by injection E as ->|]. injection E as -> ->.
          right. by exists pre, post. }
    destruct r; cbn -[decide]; [by apply Hcons| |by apply Hcons].
    clear Hcons. case_decide as En.
    + split; [|done]. intros _. left. exists rds. by replace (20 - n)%nat with 1%nat by lia.
    + rewrite IH by lia. replace (20 - n)%nat with (S (20 - S n)) by lia. cbn. split.
      * intros [[post ->]|Hg]; [by left; exists post|right; by apply gone_run_cons].
      * intros [[post E]|(pre & post & E)]; [injection E as ->; left; by exists post|].
        destruct pre as [|r' pre].
        -- injection E as ->. left.
           exists (replicate n FolderGone ++ post).
           rewrite app_assoc, <- replicate_add. by replace (19 - n + n)%nat with 19%nat by lia.
        -- injection E as <- ->. right. by exists pre, post.
Qed.

Section Eviction.
Context `{HK : Keystore St} `{AesGcm, Hkdf, WireCodec}.

(** The miss counter of a channel the daemon still serves. *)
Definition count_ok (a : Active) : Prop := 0 <= missing_polls a < 20.

Lemma poll_count d a st pins rd o a' st' pins' rds :
  count_ok a -> poll d a st pins rd = Some (o, a', st', pins') ->
  a_id a' = a_id a /\
  survives (Z.to_nat (missing_polls a)) (rd :: rds) =
    negb (evict o) && survives (Z.to_nat (missing_polls a')) rds /\
  (evict o = false -> count_ok a').
Proof.
  unfold count_ok. intros Hc E. destruct rd as [flt dir listing| |]; cbn -[decide] in *.
  - destruct (poll_once _ _ _ _ _ _) as [p|]; [|done]. injection E as <- <- _ _. cbn. by split_and!.
  - injection E as <- <- _ _. cbn [evict a_id missing_polls].
    assert (Hs : u32_sat (missing_polls a + 1) = missing_polls a + 1)
      by (unfold u32_sat, u32_max; lia).
    rewrite Hs. unfold EVICT_AFTER_MISSING_POLLS. split; [done|].
    replace (Z.to_nat (missing_polls a + 1)) with (S (Z.to_nat (missing_polls a))) by lia.
    destruct (Z.eqb_spec (missing_polls a + 1) 20).
    + rewrite decide_True by lia. done.
    + rewrite decide_False by lia. split; [done|]. intros _. lia.
  - injection E as <- <- _ _. cbn. split_and!; try done; lia.
Qed.

Definition stays (rdss : list (string -> folder_read)) (a : Active) : bool :=
  survives (Z.to_nat (missing_polls a)) (map (fun reads => reads (a_id a)) rdss).

Lemma round_stays d reads rdss cs st pins wk cs' st' pins' :
  Forall count_ok cs -> round d reads cs st pins = Some (wk, cs', st', pins') ->
  Forall count_ok cs' /\
  map a_id (List.filter (stays rdss) cs') = map a_id (List.filter (stays (reads :: rdss)) cs).
Proof.
  revert st pins wk cs' st' pins'.
  induction cs as [|a cs IH]; intros st pins wk cs' st' pins' Hc E; cbn in E.
  - injection E as _ <- _ _. done.
  - apply Forall_cons in Hc as [Ha Hc].
    destruct (poll d a st pins _) as [[[[o a1] st1] pins1]|] eqn:Ep; [|done]. cbn in E.
    destruct (round d reads cs st1 pins1) as [[[[wk1 cs1] st2] pins2]|] eqn:Er; [|done].
    cbn in E. injection E as _ <- _ _.
    destruct (IH _ _ _ _ _ _ Hc Er) as [Hc1 IHe].
    destruct (poll_count d a st pins _ o a1 st1 pins1
                (map (fun r => r (a_id a)) rdss) Ha Ep) as (Hid & Hs & Hk).
    assert (Es : stays (reads :: rdss) a = negb (evict o) && stays rdss a1).
    { unfold stays. rewrite Hid. exact Hs. }
    cbn [List.filter]. rewrite Es. destruct (evict o) eqn:Ee; cbn [negb andb]; [done|].
    split; [by constructor; [apply Hk|]|]. cbn [List.filter].
    destruct (stays rdss a1); cbn [map]; [by rewrite Hid, IHe|done].
Qed.

Lemma run_turns_stays d turns cs st pins cs' st' pins' :
  Forall count_ok cs -> run_turns d turns cs st pins = Some (cs', st', pins') ->
  map a_id cs' = map a_id (List.filter (stays turns) cs).
Proof.
  revert cs st pins. induction turns as [|reads turns IH]; intros cs st pins Hc E; cbn in E.
  - injection E as <- _ _. f_equal. induction cs as [|a cs IHc]; [done|].
    apply Forall_cons in Hc as [_ Hc]. cbn. by rewrite <- IHc.
  - destruct (round d reads cs st pins) as [[[[wk cs1] st1] pins1]|] eqn:Er; [|done]. cbn in E.
    destruct (round_stays _ _ turns _ _ _ _ _ _ _ Hc Er) as [Hc1 <-]. by eapply IH.
Qed.

(** The daemon drops exactly the dead channels.  Over any number of turns, a
    registered channel is served no longer if and only if its folder was missing
    at twenty polls in a row; one bad channel never costs another its place. *)
Theorem evicts_exactly_the_gone d turns cs st pins cs' st' pins' id :
  Forall (fun a => missing_polls a = 0) cs -> id ∈ map a_id cs ->
  run_turns d turns cs st pins = Some (cs', st', pins') ->
  id ∈ map a_id cs' <-> ~ gone_run (map (fun reads => reads id) turns).
Proof.
  intros Hz Hin E.
  assert (Hc : Forall count_ok cs) by (eapply Forall_impl; [exact Hz|]; cbn; intros a Ha; unfold count_ok; lia).
  rewrite (run_turns_stays _ _ _ _ _ _ _ _ Hc E).
  assert (Hs : survives 0 (map (fun reads => reads id) turns) = false <->
               gone_run (map (fun reads => reads id) turns)).
  { rewrite survives_false by lia. split; [|by right]. intros [[post ->]|?]; [by exists [], post|done]. }
  rewrite <- Hs. rewrite not_false_iff_true. split.
  - intros (a & -> & [Ha Hst]%list_elem_of_In%filter_In)%list_elem_of_fmap.
    unfold stays in Hst. rewrite Forall_forall in Hz. by rewrite (Hz a) in Hst by by apply list_elem_of_In.
  - intros Hst. apply list_elem_of_fmap in Hin as (a & -> & Ha).
    apply list_elem_of_fmap. exists a. split; [done|]. apply list_elem_of_In, filter_In.
    split; [by apply list_elem_of_In|]. unfold stays. rewrite Forall_forall in Hz. by rewrite (Hz a).
Qed.
End Eviction.

(** ** Concrete runs *)
Module HostToy.
Import Prims.Toy SoftToy.

Definition disk0 : PinDisk := mk_PinDisk true true None true.
Definition hlin (p : Purpose) : KeyLabel := mk_KeyLabel "hlin-ai" p.
Definition unpinned : ChannelState := mk_ChannelState None "c1.handle".
Definition pinned : ChannelState := mk_ChannelState (Some "hlin-ai") "c1.handle".

(** A host that holds a signing key of the PRSN mira. *)
Definition mira_store : SoftwareKeystore := (generate empty_store (mira Signing) "ES256").2.
Definition mira_world : World SoftwareKeystore := mk_World unpinned mira_store ∅.

(** The same host without it, with everything else alike. *)
Definition bare_store : SoftwareKeystore := set_files mira_store ∅.

Lemma same_for_hlin : same_for "hlin-ai" mira_store bare_store.
Proof.
  split; [done|]. intros l Hl. unfold key_at, soft_local, mira_store.
  rewrite generate_other; [done|]. intros <-. discriminate Hl.
Qed.

End HostToy.
Import Prims.Toy SoftToy HostToy.

(** A channel whose folder disappears for twenty polls, beside one that stays. *)
Lemma evicts_exactly_the_gone_witness :
  let cs := map (fun id => mk_Active (new_server id []) unpinned id 0) ["c1"; "c2"] in
  let turns := replicate 20 (fun id => if decide (id = "c1") then FolderGone else FolderError) in
  exists r, run_turns disk0 turns cs mira_store ∅ = Some r /\
    ("c1" ∈ map a_id r.1.1 <->
     ~ gone_run (map (fun reads : string -> folder_read => reads "c1") turns)) /\
    map a_id r.1.1 = ["c2"].
Proof.
  intros cs turns. destruct (run_turns disk0 turns cs mira_store ∅) as [[[cs' st'] pins']|] eqn:E;
    [|by vm_compute in E].
  exists (cs', st', pins'). split; [done|]. split.
  - refine (evicts_exactly_the_gone disk0 turns cs mira_store ∅ cs' st' pins' "c1" _ _ E).
    + repeat constructor.
    + apply (bool_decide_unpack _). by vm_compute.
  - assert (E' : (map a_id ∘ fst ∘ fst) <$> run_turns disk0 turns cs mira_store ∅ = Some ["c2"])
      by by vm_compute.
    rewrite E in E'. by injection E'.
Defined.

(** A container enrols as hlin and then tries to delete mira's key. *)
Lemma channel_confined_witness :
  let w := run_ops disk0 mira_world [Keygen "hlin-ai-signing" "ES256"; Delete "mira-ai-signing"] in
  pinned_handle (w_chan w.2) = Some "hlin-ai" /\
  key_at (w_ks w.2) (mira Signing) = key_at mira_store (mira Signing).
Proof.
  split; [by vm_compute|].
  apply (proj2 (channel_confined disk0 mira_world _) (mira Signing)).
  - apply (bool_decide_unpack _). by vm_compute.
  - by vm_compute.
Defined.

(** hlin's channel on a host with mira's key and on one without. *)
Lemma pinned_channel_noninterference_witness :
  let ops := [Exists "mira-ai-signing"; Keygen "hlin-ai-kem" "ECDH-ES+A256KW"; Meta "hlin-ai-kem"] in
  (run_ops disk0 (mk_World pinned mira_store ∅) ops).1 =
  (run_ops disk0 (mk_World pinned bare_store ∅) ops).1.
Proof.
  apply (proj1 (pinned_channel_noninterference disk0 pinned ∅ mira_store bare_store "hlin-ai" _ eq_refl same_for_hlin)).
  set_unfold. naive_solver.
Defined.

(** A channel that enrolled nothing of mira's makes her missing KEM key and signs
    with the signing key she had. *)
Lemma fresh_channel_reaches_existing_key_witness :
  let g := generate mira_store (mira Kem) "ECDH-ES+A256KW" in
  exists m, g.1 = Ok m /\
  (run_ops disk0 mira_world
     [Keygen "mira-ai-kem" "ECDH-ES+A256KW"; Sign "mira-ai-signing" [Byte.x01]]).1 =
  [ROk (OkKeygen (km_public_key m) (km_fingerprint m) (km_algorithm m));
   to_response (map_ok OkSign (sign g.2 (mira Signing) [Byte.x01]))].
Proof.
  intros g. destruct g as [[m|e] st'] eqn:E; [|by vm_compute in E]. exists m. split; [done|].
  refine (proj2 (fresh_channel_reaches_existing_key disk0 mira_world (mira Signing) (mira Kem)
            "ECDH-ES+A256KW" m st' [Byte.x01] _ _ _ _ _ _ E)); try by vm_compute.
  apply (bool_decide_unpack _). by vm_compute.
Defined.
