(* ===== verification/Delegated.v ===== *)
(** * The delegating keystore (cli/src/keystore/delegated.rs)

    The keystore of a container: every operation is a request over the channel.
    [request] is the channel client's exchange, [W] whatever it changes; the
    instance [delegated] is the trait implementation.  The theorem at the end
    joins it to the host signer: through a channel pinned to its handle the
    container's keystore behaves as the host's own. *)

From S2P Require Import Prelude Prims CryptoCore Ecdsa Wrap Channel CliError Keystore SoftKeystore HostSigner HostSignerTheorems.
Import Channel.Wire.

(** [Display for ChannelError] (channel/src/error.rs). *)
Definition channel_to_string (e : ChannelError) : string :=
  match e with
  | Auth => "channel message failed authentication"
  | Replay => "channel request nonce already seen (replay)"
  | MalformedFrame => "malformed channel frame"
  | Serialization w => "channel message serialization: " +:+ w
  | Io w => "channel I/O: " +:+ w
  | Timeout => "channel timed out waiting for the peer"
  end.

Definition channel_err (e : ChannelError) : CliError :=
  match e with
  | Timeout => cli_new 30 "network_error"
      "the host-signer did not respond in time (is it running + the container channel mounted?)"
  | Auth => authentication_failed
      "the host-signer rejected the channel message (per-PRSN secret mismatch or tampering)"
  | other => generic ("host-signer channel error: " +:+ channel_to_string other)
  end.

Section Code.
Context {W : Type} (client_request : W -> Op -> chresult Response * W).

(** [DelegatedKeystore::request]. *)
Definition request (w : W) (op : Op) : cliresult OpOk * W :=
  let '(r, w) := client_request w op in
  (match r with
   | Err e => Err (channel_err e)
   | Ok (ROk ok) => Ok ok
   | Ok (RErr e) => Err (cli_error_from_wire (oe_code e) (oe_message e))
   end, w).

(** [match self.request(op)? { .. }]: [f] is the body of the match. *)
Definition requesting {A} (w : W) (op : Op) (f : OpOk -> cliresult A) : cliresult A * W :=
  let '(r, w) := request w op in (let*? ok := r in f ok, w).

Definition meta_from (label purpose algorithm fingerprint : string) (public_key : bytes) : KeyMeta :=
  mk_KeyMeta label purpose algorithm (tier_str SecureEnclave) fingerprint public_key.

Definition pinned_identity (w : W) : cliresult (option string) * W :=
  requesting w Identity (fun ok =>
    match ok with OkIdentity h => Ok h | _ => Err unexpected end).

Definition d_generate (w : W) (l : KeyLabel) (algorithm : string) : cliresult KeyMeta * W :=
  requesting w (Keygen (full l) algorithm) (fun ok =>
    match ok with
    | OkKeygen public_key fp alg =>
        Ok (meta_from (full l) (purpose_str (purpose l)) alg fp public_key)
    | _ => Err unexpected
    end).

Definition d_meta (w : W) (l : KeyLabel) : cliresult KeyMeta * W :=
  requesting w (Meta (full l)) (fun ok =>
    match ok with
    | OkMeta public_key fp alg p => Ok (meta_from (full l) p alg fp public_key)
    | _ => Err unexpected
    end).

Definition d_sign (w : W) (l : KeyLabel) (msg : bytes) : cliresult bytes * W :=
  requesting w (Sign (full l) msg) (fun ok =>
    match ok with
    | OkSign s => to_array 64 (generic "host-signer returned a non-64-byte signature") s
    | _ => Err unexpected
    end).

Definition d_ecdh (w : W) (l : KeyLabel) (peer : bytes) : cliresult bytes * W :=
  requesting w (Ecdh (full l) peer) (fun ok =>
    match ok with
    | OkEcdh z => to_array 32 (generic "host-signer returned a non-32-byte shared secret") z
    | _ => Err unexpected
    end).

Definition d_ml_kem_decapsulate (w : W) (l : KeyLabel) (ek : bytes) : cliresult bytes * W :=
  requesting w (MlKemDecapsulate (full l) ek) (fun ok =>
    match ok with
    | OkMlKemDecapsulate z =>
        to_array 32 (generic "host-signer returned a non-32-byte ml-kem shared secret") z
    | _ => Err unexpected
    end).

Definition d_ml_dsa_sign (w : W) (l : KeyLabel) (msg ctx : bytes) : cliresult bytes * W :=
  match validate_mldsa_ctx ctx with
  | Err e => (Err e, w)
  | Ok _ =>
      requesting w (MlDsaSign (full l) msg ctx) (fun ok =>
        match ok with
        | OkMlDsaSign s =>
            guard bool_decide (length s = ML_DSA_87_SIG_LEN) else
              generic ("host-signer returned a " +:+ pretty (length s)
                +:+ "-byte ml-dsa signature (expected " +:+ pretty ML_DSA_87_SIG_LEN +:+ ")") ;;
            Ok s
        | _ => Err unexpected
        end)
  end.

Definition d_list (w : W) : cliresult (list KeyMeta) * W :=
  requesting w List (fun ok =>
    match ok with
    | OkList keys =>
        Ok (map (fun k => meta_from (ke_label k) (ke_purpose k) (ke_algorithm k)
                            (ke_fingerprint k) (ke_public_key k)) keys)
    | _ => Err unexpected
    end).

Definition d_delete (w : W) (l : KeyLabel) : cliresult unit * W :=
  requesting w (Delete (full l)) (fun ok =>
    match ok with OkDelete => Ok tt | _ => Err unexpected end).

Definition d_exists (w : W) (l : KeyLabel) : cliresult bool * W :=
  requesting w (Exists (full l)) (fun ok =>
    match ok with OkExists b => Ok b | _ => Err unexpected end).

Definition delegated : Keystore W := {|
  ks_tier := SecureEnclave;
  ks_generate := d_generate;
  ks_meta := d_meta;
  ks_sign := d_sign;
  ks_ecdh := d_ecdh;
  ks_ml_kem_decapsulate := d_ml_kem_decapsulate;
  ks_ml_dsa_sign := d_ml_dsa_sign;
  ks_list := d_list;
  ks_delete := d_delete;
  ks_exists := d_exists;
|}.

(** [verify_channel_identity] (keystore/mod.rs): [asserted] is [SIGNET_HANDLE],
    trimmed, unless empty. *)
Definition verify_channel_identity (w : W) (SIGNET_HANDLE : option string) : cliresult unit * W :=
  let asserted :=
    match SIGNET_HANDLE with
    | Some s => if decide (trim s = EmptyString) then None else Some (trim s)
    | None => None
    end in
  let '(p, w) := pinned_identity w in
  (let*? pinned := p in check_identity_match pinned asserted, w).

End Code.

(** ** Errors over the wire *)

(** What the client makes of a host error. *)
Definition over_wire (e : CliError) : CliError := cli_error_from_wire (code e) (message e).

(** The errors the wire carries faithfully: those of the table. *)
Definition wire_codes : list (string * Z) :=
  [("key_already_exists", 11); ("key_not_found", 12); ("unsupported_algorithm", 41);
   ("invalid_arguments", 2); ("invalid_data", 24); ("unsupported_platform", 51);
   ("authorization_denied", 17); ("filesystem_error", 21); ("encryption_failed", 40);
   ("decrypt_failed", 42); ("access_paused", 77)].

Lemma over_wire_table c n m : (c, n) ∈ wire_codes -> over_wire (cli_new n c m) = cli_new n c m.
Proof.
  unfold wire_codes. rewrite !elem_of_cons, elem_of_nil.
  intros H. repeat (destruct H as [H|H]; [by injection H as -> ->|]). done.
Qed.

Lemma over_wire_other e :
  code e ∉ map fst wire_codes -> over_wire e = generic (message e).
Proof.
  unfold wire_codes. cbn [map fst]. rewrite !not_elem_of_cons. intros H.
  unfold over_wire, cli_error_from_wire.
  repeat match type of H with
  | _ /\ _ => let h := fresh "H" in destruct H as [h H]; rewrite decide_False by exact h
  end. done.
Qed.

(** The sizes the Rust types of the trait fix ([[u8; 64]], [[u8; 32]]), and the
    signature length its documentation gives. *)
Class KeystoreTyped (St : Type) `{Keystore St} := {
  ks_sign_length st l m s : (ks_sign st l m).1 = Ok s -> length s = 64%nat;
  ks_ecdh_length st l p z : (ks_ecdh st l p).1 = Ok z -> length z = 32%nat;
  ks_decapsulate_length st l ek z : (ks_ml_kem_decapsulate st l ek).1 = Ok z -> length z = 32%nat;
  ks_ml_dsa_sign_length st l m c s :
    (ks_ml_dsa_sign st l m c).1 = Ok s -> length s = ML_DSA_87_SIG_LEN;
}.

#[export] Instance soft_typed `{AesGcm, Sha256, Hex, Base64Url, Base64Std}
  `{HP : P256, !Ecdsa256} `{PqSoftware, StoredCodec} : KeystoreTyped SoftwareKeystore.
Proof.
  constructor.
  - intros st l m s. cbn. unfold sign. case_bool_decide; [|done].
    destruct (read_stored st l); [|done]. destruct (open_scalar _ _ _); [|done].
    unfold lift_crypto. destruct (sign_es256 _ _) eqn:E; [|done]. intros [= <-].
    by eapply sign_es256_length.
  - intros st l m s. cbn. unfold ecdh. case_bool_decide; [|done].
    destruct (read_stored st l); [|done]. destruct (open_scalar _ _ _); [|done].
    unfold lift_crypto, ecdh_p256. destruct (p256_scalar _); [|done].
    destruct (p256_decode _); [|done]. intros [= <-]. apply p256_dh_length.
  - intros st l ek z. cbn. unfold ml_kem_decapsulate. case_bool_decide; [|done].
    destruct (read_stored st l); [|done]. destruct (open_bytes _ _ _); [|done].
    case_bool_decide; [|done]. case_bool_decide; [|done].
    destruct (mlkem1024_decapsulate _ _ _) eqn:E; [|done]. intros [= <-].
    by eapply mlkem1024_decapsulate_length.
  - intros st l m c s. cbn. unfold ml_dsa_sign.
    match goal with |- context [match ?x with Ok _ => _ | Err _ => _ end] => destruct x end; [|done].
    cbn. intros E%ok_or_Ok. by eapply mldsa87_sign_length.
Defined.

(** ** The container's keystore is the host's *)

Section Refinement.
Context `{HK : Keystore St} `{HT : !KeystoreTyped St}.

(** The exchange over a channel whose server is the host signer. *)
Definition host_exchange (d : PinDisk) (w : World St) (op : Op) : chresult Response * World St :=
  let '(r, w) := chan_handle d w op in (Ok r, w).

(** An exchange that may fail on the way: the request may be lost, or be served and the
    answer lost. *)
Definition carried (d : PinDisk) (exchange : World St -> Op -> chresult Response * World St) : Prop :=
  forall w op, exchange w op = host_exchange d w op \/
    exists e w', exchange w op = (Err e, w') /\ (w' = w \/ w' = (host_exchange d w op).2).

(** What the dispatch seam lets through. *)
Definition seam (o : kop) : cliresult unit :=
  match o with
  | KDecapsulate ek => check_ek ek
  | KMlDsaSign _ ctx => validate_mldsa_ctx ctx
  | _ => Ok tt
  end.

(** The host's keystore behind the seam. *)
Definition host_kop (st : St) (l : KeyLabel) (o : kop) : cliresult kres * St :=
  match seam o with Err e => (Err e, st) | Ok _ => run_kop st l o end.

(** The answer as the client rebuilds it: the receipt names the requested label
    and the Secure Enclave tier. *)
Definition as_seen (l : KeyLabel) (o : kop) (r : kres) : kres :=
  match o, r with
  | KGenerate _, RMeta m =>
      RMeta (meta_from (full l) (purpose_str (purpose l)) (km_algorithm m) (km_fingerprint m)
               (km_public_key m))
  | KMeta, RMeta m =>
      RMeta (meta_from (full l) (km_purpose m) (km_algorithm m) (km_fingerprint m) (km_public_key m))
  | _, r => r
  end.

(** An entry of the listing as the client rebuilds it. *)
Definition relisted (m : KeyMeta) : KeyMeta :=
  meta_from (km_label m) (km_purpose m) (km_algorithm m) (km_fingerprint m) (km_public_key m).

Lemma request_dispatch d w h op :
  pinned_handle (w_chan w) = Some h -> op <> Identity ->
  request (host_exchange d) w op =
  (map_err over_wire (dispatch (w_ks w) h op).1, mk_World (w_chan w) (dispatch (w_ks w) h op).2 (w_pins w)).
Proof.
  intros Hp Hop. unfold request, host_exchange.
  assert (E : chan_handle d w op =
    (to_response (dispatch (w_ks w) h op).1, mk_World (w_chan w) (dispatch (w_ks w) h op).2 (w_pins w))).
  { unfold chan_handle, handle_op. rewrite Hp. by destruct op; try done; destruct (dispatch _ _ _). }
  rewrite E. by destruct (dispatch (w_ks w) h op) as [[r|e] st].
Qed.

Lemma request_pinned d w l op label o :
  pinned_handle (w_chan w) = Some (handle l) -> label_ok l ->
  op_target op = Some (label, o) -> label = full l -> precheck op = seam o ->
  request (host_exchange d) w op =
  (map_err over_wire (map_ok (answer op) (host_kop (w_ks w) l o).1),
   mk_World (w_chan w) (host_kop (w_ks w) l o).2 (w_pins w)).
Proof.
  intros Hp Hl Ht -> Hc. rewrite (request_dispatch _ _ _ _ Hp) by by intros ->.
  rewrite (dispatch_eq _ _ _ _ _ Ht). unfold with_label, host_kop.
  rewrite (proj2 (scoped_label_Ok (full l) (handle l) l)) by done. rewrite Hc.
  destruct (seam o) as [[]|]; [|done]. unfold on_res; cbn [fst snd].
  by destruct (run_kop (w_ks w) l o) as [[r|e] st].
Qed.

Lemma to_array_fit {E} n (e : E) l : length l = n -> to_array n e l = Ok l.
Proof. intros. by apply to_array_Ok. Qed.

(** Over an exchange that does not fail. *)
Lemma delegated_exact d w l o :
  pinned_handle (w_chan w) = Some (handle l) -> label_ok l ->
  @run_kop _ (delegated (host_exchange d)) w l o =
  (map_err over_wire (map_ok (as_seen l o) (host_kop (w_ks w) l o).1),
   mk_World (w_chan w) (host_kop (w_ks w) l o).2 (w_pins w)).
Proof.
  intros Hp Hl.
  destruct o as [a| |m|p|ek|m c| |]; cbn [run_kop ks_generate ks_meta ks_sign ks_ecdh
    ks_ml_kem_decapsulate ks_ml_dsa_sign ks_delete ks_exists delegated];
    unfold d_generate, d_meta, d_sign, d_ecdh, d_ml_kem_decapsulate, d_ml_dsa_sign, d_delete,
      d_exists, requesting.
  - rewrite (request_pinned d w l (Keygen (full l) a) _ (KGenerate a) Hp Hl eq_refl eq_refl eq_refl).
    cbn. by destruct (ks_generate _ _ _) as [[]].
  - rewrite (request_pinned d w l (Meta (full l)) _ KMeta Hp Hl eq_refl eq_refl eq_refl).
    cbn. by destruct (ks_meta _ _) as [[]].
  - rewrite (request_pinned d w l (Sign (full l) m) _ (KSign m) Hp Hl eq_refl eq_refl eq_refl).
    cbn. pose proof (ks_sign_length (w_ks w) l m) as Hs.
    destruct (ks_sign _ _ _) as [[s|]]; [|done]. unfold on_res; cbn -[to_array].
    by rewrite to_array_fit by by apply Hs.
  - rewrite (request_pinned d w l (Ecdh (full l) p) _ (KEcdh p) Hp Hl eq_refl eq_refl eq_refl).
    cbn. pose proof (ks_ecdh_length (w_ks w) l p) as Hs.
    destruct (ks_ecdh _ _ _) as [[s|]]; [|done]. unfold on_res; cbn -[to_array].
    by rewrite to_array_fit by by apply Hs.
  - rewrite (request_pinned d w l (MlKemDecapsulate (full l) ek) _ (KDecapsulate ek) Hp Hl eq_refl eq_refl eq_refl).
    unfold host_kop. cbn [seam]. destruct (check_ek ek) as [[]|]; [|done].
    cbn. pose proof (ks_decapsulate_length (w_ks w) l ek) as Hs.
    destruct (ks_ml_kem_decapsulate _ _ _) as [[s|]]; [|done]. unfold on_res; cbn -[to_array].
    by rewrite to_array_fit by by apply Hs.
  - pose proof (request_pinned d w l (MlDsaSign (full l) m c) _ (KMlDsaSign m c) Hp Hl eq_refl eq_refl eq_refl) as Hr.
    unfold host_kop in *. cbn [seam] in *. destruct (validate_mldsa_ctx c) as [[]|e] eqn:Hc.
    + rewrite Hr. cbn. pose proof (ks_ml_dsa_sign_length (w_ks w) l m c) as Hs.
      destruct (ks_ml_dsa_sign _ _ _ _) as [[s|]]; [|done]. unfold on_res; cbn -[ML_DSA_87_SIG_LEN].
      by rewrite bool_decide_true by by apply Hs.
    + unfold validate_mldsa_ctx in Hc. case_bool_decide; [done|]. injection Hc as <-. by destruct w.
  - rewrite (request_pinned d w l (Delete (full l)) _ KDelete Hp Hl eq_refl eq_refl eq_refl).
    cbn. by destruct (ks_delete _ _) as [[]].
  - rewrite (request_pinned d w l (Exists (full l)) _ KExists Hp Hl eq_refl eq_refl eq_refl).
    cbn. by destruct (ks_exists _ _) as [[]].
Qed.

(** An operation over an exchange that may fail: [x] is what it gives when it does not. *)
Definition or_channel_failure {A} (w : World St) (x y : cliresult A * World St) : Prop :=
  y = x \/ exists e w', y = (Err (channel_err e), w') /\ (w' = w \/ w' = x.2).

Lemma requesting_carried {A} d exchange w op (f : OpOk -> cliresult A) :
  carried d exchange ->
  or_channel_failure w (requesting (host_exchange d) w op f) (requesting exchange w op f).
Proof.
  intros Hc. unfold or_channel_failure, requesting, request.
  destruct (Hc w op) as [->|(e & w' & -> & Hw)]; [by left|right]. exists e, w'. split; [done|].
  destruct (host_exchange d w op) as [r w1]. exact Hw.
Qed.

Lemma or_channel_failure_map {A B} (g : A -> B) w (x y : cliresult A * World St) :
  or_channel_failure w x y -> or_channel_failure w (on_res g x) (on_res g y).
Proof. intros [->|(e & w' & -> & Hw)]; [by left|right]. by exists e, w'. Qed.

Lemma delegated_carried d exchange w l o :
  carried d exchange ->
  or_channel_failure w (@run_kop _ (delegated (host_exchange d)) w l o) (@run_kop _ (delegated exchange) w l o).
Proof.
  intros Hc. destruct o as [a| |m|p|ek|m c| |]; cbn [run_kop ks_generate ks_meta ks_sign ks_ecdh
    ks_ml_kem_decapsulate ks_ml_dsa_sign ks_delete ks_exists delegated]; apply or_channel_failure_map;
    try by apply requesting_carried.
  unfold d_ml_dsa_sign. destruct (validate_mldsa_ctx c); [by apply requesting_carried|by left].
Qed.

(** C21: Delegation is transparent.  Through a channel pinned to a handle, over an
    exchange that may lose a request or lose its answer, the container's keystore gives
    for every label of that handle and every operation on one key what the host's
    keystore gives behind the dispatch seam (which refuses a KEM ciphertext or an ML-DSA
    context of the wrong length), and leaves it in the same state; its listing is the
    host's, cut to the handle; and the identity it asks for is the handle.  Only the
    receipts are restamped and an error is rebuilt from its wire code.  Where the
    exchange failed, the answer is the channel's error and the host has done the whole
    operation or nothing. *)
Theorem delegated_refines_host d exchange w h :
  pinned_handle (w_chan w) = Some h -> carried d exchange ->
  (forall l o, handle l = h -> label_ok l ->
     let host := host_kop (w_ks w) l o in
     or_channel_failure w
       (map_err over_wire (map_ok (as_seen l o) host.1), mk_World (w_chan w) host.2 (w_pins w))
       (@run_kop _ (delegated exchange) w l o)) /\
  (let host := ks_list (w_ks w) in
   or_channel_failure w
     (map_err over_wire (map_ok (fun ms => map relisted (List.filter (listed h) ms)) host.1),
      mk_World (w_chan w) host.2 (w_pins w))
     (@ks_list _ (delegated exchange) w)) /\
  or_channel_failure w (Ok (Some h), w) (pinned_identity exchange w).
Proof.
  intros Hp Hc. split_and!.
  - intros l o <- Hl. cbv zeta. rewrite <- (delegated_exact d) by done. by apply delegated_carried.
  - cbn [ks_list delegated]. unfold d_list.
    match goal with |- or_channel_failure w ?x (requesting exchange w List ?f) =>
      assert (x = requesting (host_exchange d) w List f) as ->; [|by apply requesting_carried] end.
    unfold requesting. rewrite (request_dispatch _ _ _ _ Hp) by done. cbn.
    destruct (ks_list (w_ks w)) as [[ms|] st]; [|done]. cbn. do 2 f_equal. rewrite !map_map. done.
  - unfold pinned_identity.
    match goal with |- or_channel_failure w ?x (requesting exchange w Identity ?f) =>
      assert (x = requesting (host_exchange d) w Identity f) as ->; [|by apply requesting_carried] end.
    unfold requesting, request, host_exchange, chan_handle. by rewrite Hp.
Qed.

(** A locked Secure Enclave on the host reaches the container as a generic
    failure: its exit code 52 becomes 1. *)
Lemma locked_enclave_not_preserved m :
  over_wire (se_locked m) = generic m /\
  exit_code (se_locked m) = 52 /\ exit_code (over_wire (se_locked m)) = 1.
Proof. done. Qed.

End Refinement.

Import Prims.Toy SoftToy HostToy.

(** The answers of the host to key generation are lost on the way; the rest arrives. *)
Definition deaf_to_keygen (w : World SoftwareKeystore) (op : Op) : chresult Response * World SoftwareKeystore :=
  match op with
  | Keygen _ _ => (Err Timeout, (host_exchange disk0 w op).2)
  | _ => host_exchange disk0 w op
  end.

Lemma deaf_carried : carried disk0 deaf_to_keygen.
Proof. intros w [] ; try (by left); right; eexists _, _; split; [reflexivity|by right]. Qed.

(** A container pinned to hlin asks for a key that exists, and for a KEM operation the
    seam refuses. *)
Lemma delegated_refines_host_witness :
  let w := mk_World pinned (generate mira_store (hlin Signing) "ES256").2 ∅ in
  or_channel_failure w
    (map_err over_wire (map_ok (as_seen (hlin Signing) KMeta) (run_kop (w_ks w) (hlin Signing) KMeta).1),
     mk_World pinned (run_kop (w_ks w) (hlin Signing) KMeta).2 ∅)
    (@run_kop _ (delegated deaf_to_keygen) w (hlin Signing) KMeta) /\
  is_ok (@run_kop _ (delegated deaf_to_keygen) w (hlin Signing) KMeta).1.
Proof.
  intros w. split; [|by vm_compute].
  exact (proj1 (delegated_refines_host disk0 deaf_to_keygen w "hlin-ai" eq_refl deaf_carried)
    (hlin Signing) KMeta eq_refl eq_refl).
Defined.
