(* ===== verification/Token.v ===== *)
(** * Garnet access tokens (crypto/src/garnet_token.rs)

    A token is a compact JWS, [base64url(header).base64url(claims).base64url(sig)].
    The minter's signing input and the verifier's fail-closed contract; serde_json
    on the two structures and the uuid crate are interfaces with their round-trip
    laws. *)

From S2P Require Import Prelude Prims CryptoCore Ecdsa Keystore Text.

(** [uuid::Uuid]. *)
Class UuidLib := {
  uuid : Type;
  uuid_eq_dec :: EqDecision uuid;
  uuid_countable :: Countable uuid;
  uuid_to_string : uuid -> string;
  uuid_parse_str : string -> option uuid;
  uuid_parse_to_string u : uuid_parse_str (uuid_to_string u) = Some u;
  uuid_as_bytes : uuid -> bytes;
  uuid_as_bytes_length u : length (uuid_as_bytes u) = 16%nat;
}.

Definition ALG_ES256 : string := "ES256".
Definition TYP_AT_JWT : string := "at+jwt".
Definition ISS : string := "https://drive.mysignet.ca".

Inductive Audience := AudServer | AudBroker.
Definition aud_str (a : Audience) : string :=
  match a with AudServer => "signet-server" | AudBroker => "signet-broker" end.

Record Header := mk_Header { h_alg : string; h_typ : string; h_kid : string }.

Record Claims := mk_Claims
  { c_iss : string; c_sub : string; c_aud : string; c_iat : Z; c_nbf : Z; c_exp : Z;
    c_jti : string; c_grant_id : string; c_cnf : option string }.

Inductive TokenError :=
| Malformed | AlgNotAllowed | TypNotAllowed | KidMalformed | UnknownKid | TokSignatureInvalid
| CnfMissing | CnfMismatch | SubMismatch | AudMismatch | IssMismatch | Expired | NotYetValid.

(** serde_json on [Header] and [Claims]. *)
Class TokenCodec := {
  header_to_vec : Header -> option bytes;
  header_from_slice : bytes -> option Header;
  header_from_to h b : header_to_vec h = Some b -> header_from_slice b = Some h;
  claims_to_vec : Claims -> option bytes;
  claims_from_slice : bytes -> option Claims;
  claims_from_to c b : claims_to_vec c = Some b -> claims_from_slice b = Some c;
}.

Definition DOT : Ascii.ascii := Ascii.ascii_of_byte Byte.x2e.
Definition dot_str : string := String.String DOT EmptyString.

(** [str::split('.')]. *)
Fixpoint split_dot (s : string) : list string :=
  match s with
  | EmptyString => [EmptyString]
  | String.String c s =>
      if decide (c = DOT) then EmptyString :: split_dot s
      else match split_dot s with
           | p :: ps => String.String c p :: ps
           | [] => [String.String c EmptyString]
           end
  end.

Fixpoint dot_free (s : string) : Prop :=
  match s with
  | EmptyString => True
  | String.String c s => c <> DOT /\ dot_free s
  end.

(** The alphabet of base64url has no dot. *)
Class B64NoDot `{Base64Url} := { b64_dot_free x : dot_free (b64_encode x) }.

Section Code.
Context `{HB : Base64Url} `{HP : P256, !Ecdsa256} `{HU : UuidLib} `{HC : TokenCodec}.

Record VerifiedToken := mk_VerifiedToken
  { v_sub : string; v_grant_id : uuid; v_jti : string; v_exp : Z }.

(** [encode_signing_input]; [jti] is the fresh v4 id.  [now + ttl_seconds] wraps
    in a release build. *)
Definition encode_signing_input (kid : uuid) (audience : Audience) (sub cnf_thumbprint : string)
    (grant_id : uuid) (ttl_seconds now : Z) (jti : uuid) : cresult string :=
  let header := mk_Header ALG_ES256 TYP_AT_JWT (uuid_to_string kid) in
  let claims :=
    mk_Claims ISS sub (aud_str audience) now now (i64_wrap (now + ttl_seconds))
      (uuid_to_string jti) (uuid_to_string grant_id) (Some cnf_thumbprint) in
  let*! header_json := header_to_vec header else InvalidInput "garnet token header" in
  let*! claims_json := claims_to_vec claims else InvalidInput "garnet token claims" in
  Ok (b64_encode header_json +:+ dot_str +:+ b64_encode claims_json).

Definition decode_header (part : string) : result TokenError Header :=
  let*! b := b64_decode part else Malformed in
  ok_or Malformed (header_from_slice b).

Definition decode_claims (part : string) : result TokenError Claims :=
  let*! b := b64_decode part else Malformed in
  ok_or Malformed (claims_from_slice b).

Definition pin_header (h : Header) : result TokenError unit :=
  guard bool_decide (h_alg h = ALG_ES256) else AlgNotAllowed ;;
  guard bool_decide (h_typ h = TYP_AT_JWT) else TypNotAllowed ;;
  Ok tt.

Definition extract_kid (jws : string) : result TokenError uuid :=
  match split_dot jws with
  | [p0; _; _] =>
      let*? header := decode_header p0 in
      let*? _ := pin_header header in
      ok_or KidMalformed (uuid_parse_str (h_kid header))
  | _ => Err Malformed
  end.

Definition verify_structural (jws : string) (verify_key : bytes) (expected_audience : Audience)
    (expected_sub presented_cert_thumbprint : string) : result TokenError Claims :=
  match split_dot jws with
  | [p0; p1; p2] =>
      let*? header := decode_header p0 in
      let*? _ := pin_header header in
      let signing_input := p0 +:+ dot_str +:+ p1 in
      let*! sig := b64_decode p2 else Malformed in
      let*? _ := map_err (fun _ => TokSignatureInvalid)
                   (verify_es256 verify_key (str_bytes signing_input) sig) in
      let*? claims := decode_claims p1 in
      guard bool_decide (c_iss claims = ISS) else IssMismatch ;;
      guard bool_decide (c_aud claims = aud_str expected_audience) else AudMismatch ;;
      guard bool_decide (c_sub claims = expected_sub) else SubMismatch ;;
      let*! cnf := c_cnf claims else CnfMissing in
      guard bool_decide (cnf <> EmptyString) else CnfMissing ;;
      guard bool_decide (cnf = presented_cert_thumbprint) else CnfMismatch ;;
      Ok claims
  | _ => Err Malformed
  end.

Definition into_verified (c : Claims) : result TokenError VerifiedToken :=
  let*! grant_id := uuid_parse_str (c_grant_id c) else Malformed in
  Ok (mk_VerifiedToken (c_sub c) grant_id (c_jti c) (c_exp c)).

Definition verify (jws : string) (verify_key : bytes) (expected_audience : Audience)
    (expected_sub presented_cert_thumbprint : string) (now skew_seconds : Z)
    : result TokenError VerifiedToken :=
  let*? claims := verify_structural jws verify_key expected_audience expected_sub
                    presented_cert_thumbprint in
  guard negb (i64_sat (c_exp claims + skew_seconds) <? now) else Expired ;;
  guard negb ((now <? i64_sat (c_nbf claims - skew_seconds))
              || (now <? i64_sat (c_iat claims - skew_seconds))) else NotYetValid ;;
  into_verified claims.

Definition verify_skipping_time (jws : string) (verify_key : bytes) (expected_audience : Audience)
    (expected_sub presented_cert_thumbprint : string) : result TokenError VerifiedToken :=
  let*? claims := verify_structural jws verify_key expected_audience expected_sub
                    presented_cert_thumbprint in
  into_verified claims.

(** The minted token: the signing input, a dot, the signature. *)
Definition compact (signing_input : string) (sig : bytes) : string :=
  signing_input +:+ dot_str +:+ b64_encode sig.

(** ** The contract *)

(** What an accepted token is: its three parts, the pinned header, a signature of
    the first two under the given key, and claims bound to this surface, this
    subject and the certificate of this connection. *)
Record bound_token (jws : string) (key : bytes) (aud : Audience) (sub cnf : string) (c : Claims)
    : Prop := mk_bound {
  bt_parts : exists p0 p1 p2 header b0 b1 sig,
    split_dot jws = [p0; p1; p2] /\
    b64_decode p0 = Some b0 /\ header_from_slice b0 = Some header /\
    h_alg header = ALG_ES256 /\ h_typ header = TYP_AT_JWT /\
    b64_decode p2 = Some sig /\
    verify_es256 key (str_bytes (p0 +:+ dot_str +:+ p1)) sig = Ok tt /\
    b64_decode p1 = Some b1 /\ claims_from_slice b1 = Some c;
  bt_iss : c_iss c = ISS;
  bt_aud : c_aud c = aud_str aud;
  bt_sub : c_sub c = sub;
  bt_cnf : c_cnf c = Some cnf;
  bt_cnf_present : cnf <> EmptyString;
}.

Lemma verify_structural_Ok jws key aud sub cnf c :
  verify_structural jws key aud sub cnf = Ok c <-> bound_token jws key aud sub cnf c.
Proof.
  unfold verify_structural. split.
  - destruct (split_dot jws) as [|p0 [|p1 [|p2 [|]]]] eqn:Es; try done.
    unfold decode_header, decode_claims, pin_header.
    destruct (b64_decode p0) as [b0|] eqn:E0; [|done].
    destruct (header_from_slice b0) as [h|] eqn:Eh; cbn [ok_or]; [|done].
    case_bool_decide as Ea; [|done]. case_bool_decide as Et; [|done].
    destruct (b64_decode p2) as [sig|] eqn:E2; [|done].
    destruct (verify_es256 _ _ _) as [[]|] eqn:Ev; cbn [map_err]; [|done].
    destruct (b64_decode p1) as [b1|] eqn:E1; [|done].
    destruct (claims_from_slice b1) as [c'|] eqn:Ec; cbn [ok_or]; [|done].
    case_bool_decide; [|done]. case_bool_decide; [|done]. case_bool_decide; [|done].
    destruct (c_cnf c') as [cnf'|] eqn:Ecnf; [|done].
    case_bool_decide; [|done]. case_bool_decide; [|done]. intros [= <-]. subst.
    constructor; try done. by exists p0, p1, p2, h, b0, b1, sig.
  - intros [(p0 & p1 & p2 & h & b0 & b1 & sig & -> & E0 & Eh & Ea & Et & E2 & Ev & E1 & Ec)
              Hi Ha Hs Hc Hn].
    unfold decode_header, decode_claims, pin_header. rewrite E0, Eh. cbn [ok_or].
    rewrite !bool_decide_true by done. rewrite E2, Ev. cbn [map_err]. rewrite E1, Ec. cbn [ok_or].
    rewrite !bool_decide_true by done. rewrite Hc. by rewrite !bool_decide_true by done.
Qed.

(** C17: The token verifier accepts exactly the tokens of its contract.  A token is
    accepted for a surface, subject, certificate and time if and only if it has
    three parts with the pinned ES256 / at+jwt header, its ES256 signature over
    the first two parts verifies under the given key, its claims name this
    deployment, this audience, this subject and a non-empty confirmation equal to
    the presented certificate's thumbprint, the time lies in its validity window
    widened by the skew, and its grant id parses; the caller gets those claims. *)
Theorem verify_iff_contract jws key aud sub cnf now skew v :
  verify jws key aud sub cnf now skew = Ok v <->
  exists c g, bound_token jws key aud sub cnf c /\
    now <= i64_sat (c_exp c + skew) /\
    i64_sat (c_nbf c - skew) <= now /\ i64_sat (c_iat c - skew) <= now /\
    uuid_parse_str (c_grant_id c) = Some g /\
    v = mk_VerifiedToken sub g (c_jti c) (c_exp c).
Proof.
  unfold verify, into_verified. split.
  - destruct (verify_structural _ _ _ _ _) as [c|] eqn:Es; [|done].
    apply verify_structural_Ok in Es.
    destruct (i64_sat (c_exp c + skew) <? now) eqn:E1; [done|]. cbn [negb].
    destruct (_ || _)%bool eqn:E2; [done|]. cbn [negb]. bool_prop.
    destruct (uuid_parse_str _) as [g|] eqn:Eg; [|done]. intros [= <-].
    exists c, g. rewrite <- (bt_sub _ _ _ _ _ _ Es) at 2. by split_and!.
  - intros (c & g & Hb & H1 & H2 & H3 & Hg & ->).
    rewrite (proj2 (verify_structural_Ok _ _ _ _ _ _) Hb).
    destruct (Z.ltb_spec (i64_sat (c_exp c + skew)) now); [lia|]. cbn [negb].
    destruct (Z.ltb_spec now (i64_sat (c_nbf c - skew))); [lia|].
    destruct (Z.ltb_spec now (i64_sat (c_iat c - skew))); [lia|]. cbn [negb orb].
    by rewrite Hg, (bt_sub _ _ _ _ _ _ Hb).
Qed.

(** ** Minting and verifying *)

Lemma split_dot_free s : dot_free s -> split_dot s = [s].
Proof.
  induction s as [|c s IH]; [done|]. intros [Hc Hs]. cbn -[decide].
  rewrite decide_False by done. by rewrite IH.
Qed.

Lemma split_dot_app a s : dot_free a -> split_dot (a +:+ dot_str +:+ s) = a :: split_dot s.
Proof.
  induction a as [|c a IH]; [done|]. intros [Hc Ha].
  change (String.String c a +:+ dot_str +:+ s) with (String.String c (a +:+ dot_str +:+ s)).
  cbn -[decide]. rewrite decide_False by done.
  change (a +:+ String.String DOT s) with (a +:+ dot_str +:+ s). by rewrite IH.
Qed.

Lemma string_app_assoc (a b c : string) : (a +:+ b) +:+ c = a +:+ b +:+ c.
Proof.
  apply (inj str_bytes). by rewrite !str_bytes_app, app_assoc.
Qed.

Context `{!B64NoDot}.

(** The parts of a minted token, and what its structural check gives. *)
Lemma minted_structural kid aud sub cnf grant ttl now jti d si sig :
  encode_signing_input kid aud sub cnf grant ttl now jti = Ok si ->
  sign_es256 d (str_bytes si) = Ok sig -> cnf <> EmptyString ->
  extract_kid (compact si sig) = Ok kid /\
  bound_token (compact si sig) (p256_x963 (p256_public d)) aud sub cnf
    (mk_Claims ISS sub (aud_str aud) now now (i64_wrap (now + ttl)) (uuid_to_string jti)
       (uuid_to_string grant) (Some cnf)).
Proof.
  unfold encode_signing_input. intros E Hsig Hc.
  destruct (header_to_vec _) as [hj|] eqn:Eh; [|done].
  destruct (claims_to_vec _) as [cj|] eqn:Ec; [|done]. apply (inj Ok) in E. subst si.
  assert (Hparts : split_dot (compact (b64_encode hj +:+ dot_str +:+ b64_encode cj) sig)
                   = [b64_encode hj; b64_encode cj; b64_encode sig]).
  { unfold compact. rewrite !string_app_assoc.
    rewrite !split_dot_app, split_dot_free by apply b64_dot_free. done. }
  split.
  - unfold extract_kid, decode_header, pin_header. rewrite Hparts, b64_decode_encode.
    rewrite (header_from_to _ _ Eh). cbn [ok_or h_alg h_typ h_kid].
    rewrite !bool_decide_true by done. by rewrite uuid_parse_to_string.
  - constructor; try done.
    eexists _, _, _, _, hj, cj, sig. rewrite Hparts, !b64_decode_encode. split; [done|].
    split; [done|]. split; [exact (header_from_to _ _ Eh)|]. split_and!; try done.
    + by apply verify_sign_es256.
    + exact (claims_from_to _ _ Ec).
Qed.

(** A minted token verifies, for its audience and its certificate alone.  A
    token minted by the holder of the signing key for a subject, certificate and
    grant yields its key id, and verifies under the public key from [skew] before
    its issue to [skew] after its expiry, giving back subject, grant and expiry;
    the same token is refused for the other audience, for any other subject, for
    any other certificate, and outside that window. *)
Theorem minted_token_verifies kid aud sub cnf grant ttl now jti d si sig skew t :
  encode_signing_input kid aud sub cnf grant ttl now jti = Ok si ->
  sign_es256 d (str_bytes si) = Ok sig -> cnf <> EmptyString ->
  is_i64 (now + ttl + skew) -> is_i64 (now - skew) -> is_i64 (now + ttl) ->
  let key := p256_x963 (p256_public d) in
  let jws := compact si sig in
  extract_kid jws = Ok kid /\
  (now - skew <= t <= now + ttl + skew ->
     verify jws key aud sub cnf t skew =
       Ok (mk_VerifiedToken sub grant (uuid_to_string jti) (now + ttl))) /\
  (now + ttl + skew < t -> verify jws key aud sub cnf t skew = Err Expired) /\
  (forall aud', aud' <> aud -> verify jws key aud' sub cnf t skew = Err AudMismatch) /\
  (forall sub', sub' <> sub -> verify jws key aud sub' cnf t skew = Err SubMismatch) /\
  (forall cnf', cnf' <> cnf -> verify jws key aud sub cnf' t skew = Err CnfMismatch).
Proof.
  intros E Hsig Hc H1 H2 H3. cbv zeta.
  destruct (minted_structural _ _ _ _ _ _ _ _ _ _ _ E Hsig Hc) as [Hkid Hb].
  split; [done|].
  assert (Hw : i64_wrap (now + ttl) = now + ttl).
  { unfold i64_wrap. unfold is_i64, i64_min, i64_max in *. rewrite Z.mod_small; lia. }
  assert (Hsat : forall z, is_i64 z -> i64_sat z = z)
    by (unfold is_i64, i64_sat; intros; lia).
  pose proof (proj2 (verify_structural_Ok _ _ _ _ _ _) Hb) as Hs. rewrite Hw in Hs.
  assert (Hrest : forall aud' sub' cnf',
    verify_structural (compact si sig) (p256_x963 (p256_public d)) aud' sub' cnf' =
    if bool_decide (aud_str aud = aud_str aud') then
      if bool_decide (sub = sub') then
        if bool_decide (cnf = cnf') then Ok (mk_Claims ISS sub (aud_str aud) now now (now + ttl)
          (uuid_to_string jti) (uuid_to_string grant) (Some cnf)) else Err CnfMismatch
      else Err SubMismatch
    else Err AudMismatch).
  { intros aud' sub' cnf'.
    destruct Hb as [(p0 & p1 & p2 & h & b0 & b1 & s & Es & E0 & Eh & Ea & Et & E2 & Ev & E1 & Ec) _ _ _ _ _].
    unfold verify_structural, decode_header, decode_claims, pin_header.
    rewrite Es, E0, Eh. cbn [ok_or]. rewrite !bool_decide_true by done.
    rewrite E2, Ev. cbn [map_err]. rewrite E1, Ec. cbn [ok_or c_iss c_aud c_sub c_cnf].
    rewrite (bool_decide_true (ISS = ISS)), Hw by done.
    by rewrite (bool_decide_true (cnf <> EmptyString)) by done. }
  unfold verify, into_verified. rewrite Hs. cbn [c_exp c_nbf c_iat c_grant_id c_sub c_jti].
  rewrite !Hsat by done. split_and!.
  - intros Ht. destruct (Z.ltb_spec (now + ttl + skew) t); [lia|].
    destruct (Z.ltb_spec t (now - skew)); [lia|]. cbn. by rewrite uuid_parse_to_string.
  - intros Ht. by destruct (Z.ltb_spec (now + ttl + skew) t); [|lia].
  - intros aud' Hne. rewrite Hrest, bool_decide_false; [done|]. by destruct aud, aud'.
  - intros sub' Hne. rewrite Hrest, bool_decide_true, bool_decide_false by done. done.
  - intros cnf' Hne. rewrite Hrest, !bool_decide_true, bool_decide_false by done. done.
Qed.

End Code.

(** ** A concrete token *)
Module TokenToy.
Import Prims.Toy.

(** Hexadecimal stands in for base64url: it has no dot either. *)
#[export] Instance b64_of_hex : Base64Url := {|
  b64_encode := hex_encode;
  b64_decode := hex_decode;
  b64_decode_encode := hex_decode_encode;
|}.

Lemma hex_dot_free s : forallb is_lower_hex (str_bytes s) = true -> dot_free s.
Proof.
  induction s as [|c s IH]; [done|].
  change (str_bytes (String.String c s)) with (Ascii.byte_of_ascii c :: str_bytes s). cbn.
  intros [Hc Hs]%andb_true_iff. split; [|by apply IH]. by intros ->.
Qed.

#[export] Instance hex_no_dot : B64NoDot.
Proof. constructor. intros x. apply hex_dot_free, hex_encode_digits. Qed.

#[export] Instance uuid_toy : UuidLib := {|
  uuid := string;
  uuid_to_string u := u;
  uuid_parse_str := Some;
  uuid_parse_to_string u := eq_refl;
  uuid_as_bytes u := fit 16 (str_bytes u);
  uuid_as_bytes_length u := length_fit 16 (str_bytes u);
|}.

Definition sample_header : Header := mk_Header "ES256" "at+jwt" "k1".
Definition sample_claims : Claims :=
  mk_Claims ISS "hlin-ai" "signet-broker" 1000 1000 1900 "j1" "g1" (Some "c1").

#[local] Instance Header_eq_dec : EqDecision Header.
Proof. solve_decision. Defined.
#[local] Instance Claims_eq_dec : EqDecision Claims.
Proof. solve_decision. Defined.

(** A codec of one header and one set of claims. *)
#[refine] Definition codec_of (h0 : Header) (c0 : Claims) : TokenCodec := {|
  header_to_vec h := if decide (h = h0) then Some [Byte.x01] else None;
  header_from_slice b := if decide (b = [Byte.x01]) then Some h0 else None;
  claims_to_vec c := if decide (c = c0) then Some [Byte.x02] else None;
  claims_from_slice b := if decide (b = [Byte.x02]) then Some c0 else None;
|}.
Proof.
  - intros h b. case_decide as E; [|done]. by intros [= <-]; rewrite E.
  - intros c b. case_decide as E; [|done]. by intros [= <-]; rewrite E.
Defined.

#[export] Instance codec_toy : TokenCodec := codec_of sample_header sample_claims.

(** An id of the concrete uuid type. *)
Definition id_of (s : string) : uuid := s.

Definition k1_secret : bytes := replicate 32 Byte.x41.

End TokenToy.
Import Prims.Toy TokenToy.

(** A broker token, checked halfway through its life and against another subject. *)
Lemma minted_token_verifies_witness :
  let key := p256_x963 (p256_public TokenToy.k1_secret) in
  exists si sig,
    encode_signing_input (id_of "k1") AudBroker "hlin-ai" "c1" (id_of "g1") 900 1000 (id_of "j1") = Ok si /\
    sign_es256 TokenToy.k1_secret (str_bytes si) = Ok sig /\
    verify (compact si sig) key AudBroker "hlin-ai" "c1" 1500 30
      = Ok (mk_VerifiedToken "hlin-ai" (id_of "g1") "j1" 1900) /\
    verify (compact si sig) key AudBroker "mira-ai" "c1" 1500 30 = Err SubMismatch.
Proof.
  intros key.
  destruct (encode_signing_input (id_of "k1") AudBroker "hlin-ai" "c1" (id_of "g1") 900 1000 (id_of "j1")) as [si|] eqn:E;
    [|by vm_compute in E].
  exists si. destruct (sign_es256 TokenToy.k1_secret (str_bytes si)) as [sig|] eqn:Es;
    [|by vm_compute in Es].
  exists sig. split; [done|]. split; [done|].
  destruct (minted_token_verifies (id_of "k1") AudBroker "hlin-ai" "c1" (id_of "g1") 900 1000 (id_of "j1")
    TokenToy.k1_secret si sig 30 1500 E Es) as (_ & Hv & _ & _ & Hs & _); [done|by vm_compute..|].
  split; [apply Hv; lia|by apply Hs].
Defined.
