(* ===== verification/Lease.v ===== *)
(** * Check-at-use revocation (cli/src/garnet_revocation.rs)

    The broker's per-grant lease: the decision for an operation, the outcome of a
    grant-status query, the server-supplied service levels.  A [Duration] and an
    [Instant] are integers of nanoseconds; the monotonic clock is an argument of
    each decision. *)

From S2P Require Import Prelude.

Definition NANOS : Z := 10 ^ 9.
Definition from_secs (s : Z) : Z := s * NANOS.
Definition as_secs (d : Z) : Z := d / NANOS.

(** [Instant::saturating_duration_since]. *)
Definition duration_since (now at_ : Z) : Z := Z.max 0 (now - at_).

Record LeaseConfig := mk_LeaseConfig { lease : Z; outage_grace : Z; token_skew : Z }.

Definition LEASE_MIN_SECS : Z := 5.
Definition LEASE_MAX_SECS : Z := 120.
Definition OUTAGE_GRACE_MIN_SECS : Z := 0.
Definition OUTAGE_GRACE_MAX_SECS : Z := 600.

Definition clamp (x lo hi : Z) : Z := Z.max lo (Z.min hi x).

(** [LeaseConfig::with_server_values]; its warning is left out. *)
Definition with_server_values (cfg : LeaseConfig) (lease_seconds outage_grace_seconds : Z)
    : LeaseConfig :=
  let l := from_secs (clamp (Z.max lease_seconds 0) LEASE_MIN_SECS LEASE_MAX_SECS) in
  let g := from_secs (clamp (Z.max outage_grace_seconds 0)
                        OUTAGE_GRACE_MIN_SECS OUTAGE_GRACE_MAX_SECS) in
  let budget := lease cfg + outage_grace cfg in
  if budget <? l + g then cfg else mk_LeaseConfig l g (token_skew cfg).

Record ServerSla := mk_ServerSla { sla_lease_seconds : Z; sla_outage_grace_seconds : Z }.

Inductive GrantStatusOutcome :=
| Live (server_time : Z) (sla : option ServerSla)
| Revoked
| Unreachable.

Inductive FailReason := FRevoked | FUnreachable | FTokenExpired.

Inductive Decision := Serve | ReconfirmRequired | FailClosed (r : FailReason).

#[export] Instance FailReason_eq_dec : EqDecision FailReason.
Proof. solve_decision. Defined.
#[export] Instance Decision_eq_dec : EqDecision Decision.
Proof. solve_decision. Defined.

Record Confirm := mk_Confirm { server_time : Z; confirmed_at : Z }.

Record GrantLease := mk_GrantLease
  { last_confirm : option Confirm; trusted_floor : Z; server_sla : option LeaseConfig }.

Definition new_lease : GrantLease := mk_GrantLease None i64_min None.

Definition effective (g : GrantLease) (defaults : LeaseConfig) : LeaseConfig :=
  default defaults (server_sla g).

Definition token_exp_decision (g : GrantLease) (c : Confirm) (age token_exp : Z) (cfg : LeaseConfig)
    : Decision :=
  let trusted_now := Z.max (i64_sat (server_time c + i64_wrap (as_secs age))) (trusted_floor g) in
  let skew := i64_wrap (as_secs (token_skew cfg)) in
  if i64_sat (token_exp + skew) <? trusted_now then FailClosed FTokenExpired else Serve.

Definition decide_op (g : GrantLease) (now token_exp : Z) (cfg : LeaseConfig) : Decision :=
  let cfg := effective g cfg in
  match last_confirm g with
  | None => ReconfirmRequired
  | Some c =>
      let age := duration_since now (confirmed_at c) in
      if lease cfg <=? age then ReconfirmRequired else token_exp_decision g c age token_exp cfg
  end.

Definition on_grant_status (g : GrantLease) (outcome : GrantStatusOutcome) (now token_exp : Z)
    (cfg : LeaseConfig) : Decision * GrantLease :=
  match outcome with
  | Live st sla =>
      let adopted :=
        match sla with
        | Some s =>
            Some (with_server_values cfg (sla_lease_seconds s) (sla_outage_grace_seconds s))
        | None => server_sla g
        end in
      let anchored := Z.max st (trusted_floor g) in
      let c := mk_Confirm anchored now in
      let g := mk_GrantLease (Some c) anchored adopted in
      (token_exp_decision g c 0 token_exp (effective g cfg), g)
  | Revoked => (FailClosed FRevoked, g)
  | Unreachable =>
      let cfg := effective g cfg in
      (match last_confirm g with
       | Some c =>
           let age := duration_since now (confirmed_at c) in
           if age <? lease cfg + outage_grace cfg then token_exp_decision g c age token_exp cfg
           else FailClosed FUnreachable
       | None => FailClosed FUnreachable
       end, g)
  end.

(** One operation against the lease, as the broker runs it: decide, and where a
    confirm is due, ask ([query] is the answer) and decide again at [now']. *)
Definition check_at_use (g : GrantLease) (now : Z) (query : GrantStatusOutcome) (now' token_exp : Z)
    (cfg : LeaseConfig) : Decision * GrantLease :=
  match decide_op g now token_exp cfg with
  | ReconfirmRequired => on_grant_status g query now' token_exp cfg
  | other => (other, g)
  end.

(** ** The service levels *)

Definition budget (cfg : LeaseConfig) : Z := lease cfg + outage_grace cfg.

(** A configuration the broker can start from. *)
Definition config_ok (cfg : LeaseConfig) : Prop :=
  0 <= lease cfg /\ 0 <= outage_grace cfg /\ budget cfg <= from_secs i64_max /\
  0 <= token_skew cfg <= from_secs i64_max.

Ltac sla_unfold :=
  unfold config_ok, budget, with_server_values, from_secs, clamp, LEASE_MIN_SECS, LEASE_MAX_SECS,
    OUTAGE_GRACE_MIN_SECS, OUTAGE_GRACE_MAX_SECS, NANOS, i64_max in *.

Lemma with_server_values_ok cfg l g : config_ok cfg -> config_ok (with_server_values cfg l g).
Proof. sla_unfold. intros H. case_match eqn:E; bool_prop; cbn in *; lia. Qed.

Lemma with_server_values_budget cfg l g : budget (with_server_values cfg l g) <= budget cfg.
Proof. sla_unfold. case_match eqn:E; bool_prop; cbn in *; lia. Qed.

Lemma with_server_values_skew cfg l g : token_skew (with_server_values cfg l g) = token_skew cfg.
Proof. unfold with_server_values. by case_match. Qed.

(** The server's service levels never stretch the deployment's budget.
    Whatever 64-bit values the server sends, the configuration adopted keeps the
    compiled total of lease and grace as an upper bound and the compiled token
    skew; a pair within the documented ranges whose total fits is adopted as it
    is, and a total over the budget leaves the compiled configuration whole. *)
Theorem server_values_within_budget cfg l g :
  let adopted := with_server_values cfg l g in
  budget adopted <= budget cfg /\ token_skew adopted = token_skew cfg /\
  (5 <= l <= 120 -> 0 <= g <= 600 -> from_secs (l + g) <= budget cfg ->
     adopted = mk_LeaseConfig (from_secs l) (from_secs g) (token_skew cfg)) /\
  (5 <= l <= 120 -> 0 <= g <= 600 -> budget cfg < from_secs (l + g) -> adopted = cfg).
Proof.
  split_and!; [apply with_server_values_budget|apply with_server_values_skew| |];
    intros Hl Hg Hb; sla_unfold;
    replace (Z.max 5 (Z.min 120 (Z.max l 0))) with l by lia;
    replace (Z.max 0 (Z.min 600 (Z.max g 0))) with g by lia;
    case_match eqn:E; bool_prop; lia || done.
Qed.

(** ** The lease and the confirms behind it *)

(** A confirm: when the server answered [Live], and the time it gave. *)
Abbreviation live_answer := (Z * Z)%type.

(** The state of a lease given the [Live] answers received: its confirm is one of
    them, anchored no earlier than the server said, and its service levels are
    within the compiled budget. *)
Record lease_inv (cfg : LeaseConfig) (answers : list live_answer) (g : GrantLease) : Prop := mk_inv {
  inv_confirm c : last_confirm g = Some c ->
    exists st, (confirmed_at c, st) ∈ answers /\ st <= server_time c;
  inv_budget : budget (effective g cfg) <= budget cfg;
  inv_ok : config_ok (effective g cfg);
  inv_skew : token_skew (effective g cfg) = token_skew cfg;
}.

Lemma lease_inv_new cfg : config_ok cfg -> lease_inv cfg [] new_lease.
Proof. intros. constructor; by cbn. Qed.

Lemma lease_inv_weaken cfg a a' g : lease_inv cfg a g -> a ⊆ a' -> lease_inv cfg a' g.
Proof.
  intros [H1 H2 H3 H4] Ha. constructor; try done. intros c Hc.
  destruct (H1 c Hc) as (st & Hin & Hst). exists st. split; [by apply Ha|done].
Qed.

(** The answers an operation adds: the server is asked only when the lease is due. *)
Definition answered (g : GrantLease) (now : Z) (query : GrantStatusOutcome) (now' token_exp : Z)
    (cfg : LeaseConfig) : list live_answer :=
  match decide_op g now token_exp cfg, query with
  | ReconfirmRequired, Live st _ => [(now', st)]
  | _, _ => []
  end.

Lemma check_at_use_inv cfg a g now query now' exp :
  config_ok cfg -> lease_inv cfg a g ->
  lease_inv cfg (answered g now query now' exp cfg ++ a) (check_at_use g now query now' exp cfg).2.
Proof.
  intros Hc Hi. unfold check_at_use, answered.
  destruct (decide_op g now exp cfg); cbn; try done.
  destruct query as [st sla| |]; cbn; try done.
  assert (Hsla : let e := default cfg
      match sla with
      | Some s => Some (with_server_values cfg (sla_lease_seconds s) (sla_outage_grace_seconds s))
      | None => server_sla g
      end in budget e <= budget cfg /\ config_ok e /\ token_skew e = token_skew cfg).
  { destruct sla as [s|]; cbn.
    - split_and!; [apply with_server_values_budget|by apply with_server_values_ok
        |apply with_server_values_skew].
    - destruct Hi as [_ H1 H2 H3]. done. }
  destruct Hsla as (H1 & H2 & H3). constructor; try done.
  cbn. intros c [= <-]. exists st. cbn. split; [by left|lia].
Qed.

(** ** What a served operation implies *)

Lemma i64_sat_mono x y : x <= y -> i64_sat x <= i64_sat y.
Proof. unfold i64_sat. lia. Qed.

Lemma i64_wrap_small z : 0 <= z <= i64_max -> i64_wrap z = z.
Proof. unfold i64_wrap, i64_max. intros H. rewrite Z.mod_small; lia. Qed.

Lemma as_secs_range d : 0 <= d <= from_secs i64_max -> 0 <= as_secs d <= i64_max.
Proof.
  unfold as_secs, from_secs, NANOS. intros H. split; [apply Z.div_pos; lia|].
  apply Z.div_le_upper_bound; lia.
Qed.

Lemma token_serve g c age exp cfg :
  token_exp_decision g c age exp cfg = Serve -> 0 <= age <= from_secs i64_max ->
  0 <= token_skew cfg <= from_secs i64_max ->
  i64_sat (server_time c + as_secs age) <= i64_sat (exp + as_secs (token_skew cfg)).
Proof.
  unfold token_exp_decision. intros E Ha Hs.
  rewrite !i64_wrap_small in E by (by apply as_secs_range).
  case_match eqn:El; [done|]. bool_prop. lia.
Qed.

(** When the decision of an operation is taken. *)
Definition decision_time (g : GrantLease) (now now' token_exp : Z) (cfg : LeaseConfig) : Z :=
  match decide_op g now token_exp cfg with ReconfirmRequired => now' | _ => now end.

(** Served at time [t]: one of the [Live] answers is younger than the budget, and
    the token was not expired, beyond the skew, at the time that answer gave
    advanced by the monotonic clock. *)
Definition backed (cfg : LeaseConfig) (answers : list live_answer) (t exp : Z) : Prop :=
  exists t0 st, (t0, st) ∈ answers /\ t - t0 < Z.max 1 (budget cfg) /\
    i64_sat (st + as_secs (duration_since t t0)) <= i64_sat (exp + as_secs (token_skew cfg)).

Lemma serve_backed cfg answers g c t exp :
  lease_inv cfg answers g -> last_confirm g = Some c ->
  duration_since t (confirmed_at c) < Z.max 1 (budget (effective g cfg)) ->
  token_exp_decision g c (duration_since t (confirmed_at c)) exp (effective g cfg) = Serve ->
  backed cfg answers t exp.
Proof.
  intros [Hc Hb Hok Hs] El Ha E. destruct (Hc c El) as (st & Hin & Hst).
  exists (confirmed_at c), st. split; [done|].
  assert (Hr : 0 <= duration_since t (confirmed_at c) <= from_secs i64_max).
  { unfold config_ok, duration_since in *. unfold from_secs, i64_max, NANOS in *. lia. }
  split; [unfold duration_since in Ha; lia|].
  apply token_serve in E; [|done|by apply Hok]. rewrite <- Hs.
  etransitivity; [apply i64_sat_mono|exact E]. lia.
Qed.

Lemma check_at_use_serve cfg answers g now query now' exp :
  config_ok cfg -> lease_inv cfg answers g ->
  (check_at_use g now query now' exp cfg).1 = Serve ->
  backed cfg (answered g now query now' exp cfg ++ answers)
    (decision_time g now now' exp cfg) exp.
Proof.
  intros Hok Hi E. pose proof (check_at_use_inv cfg answers g now query now' exp Hok Hi) as Hi'.
  unfold check_at_use, decision_time, answered in *.
  destruct (decide_op g now exp cfg) eqn:Ed; cbn in *; [| |done].
  - unfold decide_op in Ed. destruct (last_confirm g) as [c|] eqn:El; [|done].
    case_match eqn:Eg; [done|]. bool_prop.
    apply (serve_backed _ _ g c); try done.
    destruct Hi as [_ _ (? & ? & _) _]. unfold budget. lia.
  - destruct query as [st sla| |]; cbn in *; [|done|].
    + match type of Hi' with lease_inv _ _ ?g' => set (g1 := g') in * end.
      refine (serve_backed cfg _ g1 _ now' exp Hi' eq_refl _ _); cbn;
        replace (duration_since now' now') with 0 by (unfold duration_since; lia); [lia|exact E].
    + destruct (last_confirm g) as [c|] eqn:El; [|done]. case_match eqn:Eg; [|done]. bool_prop.
      apply (serve_backed _ _ g c); try done. unfold budget. lia.
Qed.

(** ** Traces that show two rules of the design not kept *)

Definition default_lease_config : LeaseConfig :=
  mk_LeaseConfig (from_secs 30) (from_secs 90) (from_secs 30).

(** A sequence of operations on one lease: time, answer and token expiry of each. *)
Fixpoint run_lease (cfg : LeaseConfig) (g : GrantLease) (ops : list (Z * GrantStatusOutcome * Z))
    : list Decision :=
  match ops with
  | [] => []
  | (t, query, exp) :: ops =>
      let '(d, g) := check_at_use g (from_secs t) query (from_secs t) exp cfg in
      d :: run_lease cfg g ops
  end.

(** A definitive refusal is forgotten: a grant confirmed at 0 s and refused as
    revoked at 31 s is served again at 32 s, when the server is unreachable. *)
Lemma revoked_grant_served_when_unreachable :
  run_lease default_lease_config new_lease
    [(0, Live 1000 None, 5000); (31, Revoked, 5000); (32, Unreachable, 5000)] =
  [Serve; FailClosed FRevoked; Serve].
Proof. reflexivity. Qed.

(** Trusted time steps back with the server's clock: a token found expired 29 s
    after a confirm is served after a second confirm that gives the same server
    time. *)
Lemma expired_token_served_after_clock_step :
  run_lease default_lease_config new_lease
    [(0, Live 1000 None, 5000); (29, Unreachable, 990); (31, Live 1000 None, 990)] =
  [Serve; FailClosed FTokenExpired; Serve].
Proof. reflexivity. Qed.
