(* ===== verification/Broker.v ===== *)
(** * The Secure-Enclave broker (cli/src/broker.rs, cli/src/broker_wire.rs)

    [Frame] is the length-prefixed framing inside the TLS connection.
    [handle_request] is the per-operation core: the token bound to this
    connection's certificate, the leased grant check, then the keystore.  The
    leases are a map by grant id; the clock readings and the server's answer to
    the grant-status query are arguments.  The TLS handshake, the worker pool and
    its locks are not modelled: a request is one step on the shared state, which
    is what the per-grant lock and the keystore lock make it. *)

From S2P Require Import Prelude Prims CryptoCore Ecdsa Channel CliError Keystore SoftKeystore HostSigner HostSignerTheorems Token Lease.
Import Channel.Wire.

Module Frame.

Definition MAX_FRAME_BYTES : Z := 4 * 1024 * 1024.

Inductive io_error := UnexpectedEof | InvalidData (what : string).

(** [Read::read_exact]: the bytes, and what is left of the stream. *)
Definition read_exact (n : nat) (r : bytes) : result io_error (bytes * bytes) :=
  if decide (n <= length r)%nat then Ok (take n r, drop n r) else Err UnexpectedEof.

Section Code.
Context {T : Type} (to_vec : T -> option bytes) (from_slice : bytes -> option T).

Definition read_frame (r : bytes) : result io_error (T * bytes) :=
  let*? x := read_exact 4 r in
  let len := be_value x.1 in
  guard negb ((len =? 0) || (MAX_FRAME_BYTES <? len)) else
    InvalidData "garnet broker: frame length out of bounds" ;;
  let*? y := read_exact (Z.to_nat len) x.2 in
  let*! v := from_slice y.1 else InvalidData "json" in
  Ok (v, y.2).

(** [write_frame]: the bytes written. *)
Definition write_frame (value : T) : result io_error bytes :=
  let*! body := to_vec value else InvalidData "json" in
  let len := Z.of_nat (length body) in
  guard len <=? MAX_FRAME_BYTES else InvalidData "garnet broker: frame too large" ;;
  Ok (be_bytes 4 len ++ body).

Lemma read_exact_app n (a b : bytes) : length a = n -> read_exact n (a ++ b) = Ok (a, b).
Proof.
  intros Hn. unfold read_exact. rewrite decide_True by (rewrite length_app; lia).
  by rewrite take_app_3, drop_app_3 by done.
Qed.

(** Broker frames round-trip and are bounded.  A message whose encoding is not
    empty and fits the limit is written, reads back from the front of any stream
    that starts with it, and leaves the rest of the stream; one over the limit is
    not written.  Whatever bytes arrive, a frame is read only if its body has
    between one byte and the limit and is there in full. *)
Theorem frame_round_trip (v : T) body rest :
  to_vec v = Some body -> from_slice body = Some v -> body <> [] ->
  (Z.of_nat (length body) <= MAX_FRAME_BYTES ->
     exists out, write_frame v = Ok out /\ read_frame (out ++ rest) = Ok (v, rest)) /\
  (MAX_FRAME_BYTES < Z.of_nat (length body) -> is_ok (write_frame v) = false) /\
  (forall r v' rest', read_frame r = Ok (v', rest') ->
     exists len body', r = be_bytes 4 len ++ body' ++ rest' /\ length body' = Z.to_nat len /\
       1 <= len <= MAX_FRAME_BYTES /\ from_slice body' = Some v').
Proof.
  intros Ht Hf Hne. split_and!.
  - intros Hl. unfold write_frame. rewrite Ht. rewrite (proj2 (Z.leb_le _ _) Hl).
    eexists; split; [done|]. unfold read_frame. rewrite <- app_assoc.
    rewrite read_exact_app by apply length_be_bytes. cbn [fst snd].
    assert (Hv : be_value (be_bytes 4 (Z.of_nat (length body))) = Z.of_nat (length body)).
    { rewrite be_value_be_bytes. apply Z.mod_small. unfold MAX_FRAME_BYTES in Hl. cbn. lia. }
    rewrite Hv. destruct body as [|b body]; [done|].
    destruct (Z.eqb_spec (Z.of_nat (length (b :: body))) 0) as [E|_]; [cbn in E; lia|].
    destruct (Z.ltb_spec MAX_FRAME_BYTES (Z.of_nat (length (b :: body)))); [lia|]. cbn [orb negb].
    rewrite Nat2Z.id, read_exact_app by done. cbn [fst snd]. by rewrite Hf.
  - intros Hl. unfold write_frame. rewrite Ht. by rewrite (proj2 (Z.leb_gt _ _) Hl).
  - intros r v' rest'. unfold read_frame, read_exact.
    case_decide as Hr; [|done]. cbn [fst snd].
    destruct (negb _) eqn:Eb; [|done]. bool_prop.
    case_decide as Hr'; [|done]. cbn [fst snd].
    intros E. destruct (from_slice (take (Z.to_nat (be_value (take 4 r))) (drop 4 r)))
      as [v1|] eqn:Ev; [|done].
    apply (inj Ok) in E. apply pair_eq in E as [<- <-].
    eexists (be_value (take 4 r)), _. split; [|split; [|split; [|exact Ev]]].
    + rewrite take_drop. pose proof (be_bytes_be_value (take 4 r)) as E.
      rewrite length_take, Nat.min_l in E by lia. by rewrite E, take_drop.
    + rewrite length_take, Nat.min_l by lia. done.
    + pose proof (be_value_range (take 4 r)). lia.
Qed.

End Code.
End Frame.

Record BrokerRequest := mk_BrokerRequest { br_token : string; br_op : Op }.

Section Code.
Context `{HK : Keystore St}.
Context `{HB : Base64Url} `{HP : P256, !Ecdsa256} `{HU : UuidLib} `{HC : TokenCodec}.

(** The part of [BrokerContext] that does not change. *)
Record BrokerContext := mk_ctx { k1_verify_key : bytes; lease_cfg : LeaseConfig }.

Record BrokerState := mk_bstate { leases : gmap uuid GrantLease; keystore : St }.

(** One request: the handle and thumbprint of the connection's leaf certificate,
    the request read from it, the clock at the first decision and after the
    query, and what the server answers to the grant-status query. *)
Record Incoming := mk_Incoming
  { in_handle : string; in_cnf : string; in_req : BrokerRequest; in_now : Z; in_now' : Z;
    in_status : uuid -> string -> string -> GrantStatusOutcome }.

Definition broker_err (code message : string) : Response := RErr (mk_OpErr code message).

(** The [Debug] name of a [FailReason]. *)
Definition reason_str (r : FailReason) : string :=
  match r with FRevoked => "Revoked" | FUnreachable => "Unreachable" | FTokenExpired => "TokenExpired" end.

Definition handle_request (ctx : BrokerContext) (st : BrokerState) (i : Incoming)
    : Response * BrokerState :=
  match verify_skipping_time (br_token (in_req i)) (k1_verify_key ctx) AudBroker
          (in_handle i) (in_cnf i) with
  | Err _ => (broker_err "unauthorized" "token verification failed", st)
  | Ok v =>
      let g := default new_lease (leases st !! v_grant_id v) in
      let '(decision, g) :=
        check_at_use g (in_now i) (in_status i (v_grant_id v) (in_handle i) (in_cnf i))
          (in_now' i) (v_exp v) (lease_cfg ctx) in
      let leases := <[v_grant_id v := g]> (leases st) in
      match decision with
      | Serve =>
          let '(r, ks) := handle_op (keystore st) (in_handle i) (br_op (in_req i)) in
          (r, mk_bstate leases ks)
      | FailClosed FTokenExpired =>
          (broker_err "token_expired" "access token expired against trusted server time",
           mk_bstate leases (keystore st))
      | FailClosed reason =>
          (broker_err "access_paused" ("grant not live (" +:+ reason_str reason +:+ ")"),
           mk_bstate leases (keystore st))
      | ReconfirmRequired =>
          (broker_err "internal" "grant check did not resolve", mk_bstate leases (keystore st))
      end
  end.

Fixpoint run_broker (ctx : BrokerContext) (st : BrokerState) (is_ : list Incoming)
    : list Response * BrokerState :=
  match is_ with
  | [] => ([], st)
  | i :: is_ =>
      let '(r, st) := handle_request ctx st i in
      let '(rs, st) := run_broker ctx st is_ in
      (r :: rs, st)
  end.

(** A socket address as [assert_loopback] sees it: [IpAddr::is_loopback] is
    127.0.0.0/8 for IPv4 and [::1] for IPv6. *)
Inductive IpAddr := V4 (a b c d : byte) | V6 (octets : bytes).

Definition is_loopback (ip : IpAddr) : bool :=
  match ip with
  | V4 a _ _ _ => bool_decide (a = Byte.x7f)
  | V6 o => bool_decide (o = replicate 15 Byte.x00 ++ [Byte.x01])
  end.

Definition assert_loopback (ip : IpAddr) (shown : string) : cliresult unit :=
  if is_loopback ip then Ok tt
  else Err (cli_new 70 "internal" ("broker bind address " +:+ shown
         +:+ " is not loopback: refusing (the broker only ever serves this Mac)")).

(** One connection after its handshake: [san] is the handle of the verified leaf,
    [None] where it has none; the result is what is written back, if anything. *)
Definition handle_connection
    (request_from_slice : bytes -> option BrokerRequest) (response_to_vec : Response -> option bytes)
    (ctx : BrokerContext) (st : BrokerState) (san : option string) (cnf : string) (input : bytes)
    (now now' : Z) (status : uuid -> string -> string -> GrantStatusOutcome)
    : option bytes * BrokerState :=
  match san with
  | None => (None, st)
  | Some h =>
      match Frame.read_frame request_from_slice input with
      | Err _ => (None, st)
      | Ok (req, _) =>
          let '(resp, st) := handle_request ctx st (mk_Incoming h cnf req now now' status) in
          (ok_opt (Frame.write_frame response_to_vec resp), st)
      end
  end.

(** ** What the broker serves *)

(** The request's token, where it verifies for this connection. *)
Definition token_of (ctx : BrokerContext) (i : Incoming) : option VerifiedToken :=
  ok_opt (verify_skipping_time (br_token (in_req i)) (k1_verify_key ctx) AudBroker
            (in_handle i) (in_cnf i)).

Definition lease_of (st : BrokerState) (v : VerifiedToken) : GrantLease :=
  default new_lease (leases st !! v_grant_id v).

(** The [Live] answers received, by grant, newest first. *)
Definition request_answers (ctx : BrokerContext) (st : BrokerState) (i : Incoming)
    : list (uuid * live_answer) :=
  match token_of ctx i with
  | None => []
  | Some v =>
      map (pair (v_grant_id v))
        (answered (lease_of st v) (in_now i) (in_status i (v_grant_id v) (in_handle i) (in_cnf i))
           (in_now' i) (v_exp v) (lease_cfg ctx))
  end.

Fixpoint run_answers (ctx : BrokerContext) (st : BrokerState) (is_ : list Incoming)
    (acc : list (uuid * live_answer)) : list (uuid * live_answer) :=
  match is_ with
  | [] => acc
  | i :: is_ =>
      run_answers ctx (handle_request ctx st i).2 is_ (request_answers ctx st i ++ acc)
  end.

Definition answers_for (g : uuid) (a : list (uuid * live_answer)) : list live_answer :=
  omap (fun x => if decide (x.1 = g) then Some x.2 else None) a.

Lemma answers_for_app g a b : answers_for g (a ++ b) = answers_for g a ++ answers_for g b.
Proof. apply omap_app. Qed.

Lemma answers_for_map g g' l :
  answers_for g (map (pair g') l) = if decide (g' = g) then l else [].
Proof.
  unfold answers_for. induction l as [|x l IH]; cbn; [by case_decide|].
  case_decide; by rewrite IH.
Qed.

Definition leases_inv (ctx : BrokerContext) (st : BrokerState) (a : list (uuid * live_answer)) : Prop :=
  forall g l, leases st !! g = Some l -> lease_inv (lease_cfg ctx) (answers_for g a) l.

(** The lease the broker works on satisfies the invariant, also when it is new. *)
Lemma lease_of_inv ctx st a v :
  config_ok (lease_cfg ctx) -> leases_inv ctx st a ->
  lease_inv (lease_cfg ctx) (answers_for (v_grant_id v) a) (lease_of st v).
Proof.
  intros Hok Hi. unfold lease_of. destruct (leases st !! v_grant_id v) as [l|] eqn:E; [by apply Hi|].
  cbn. eapply lease_inv_weaken; [by apply lease_inv_new|]. set_solver.
Qed.

(** Every request leaves the leases as [check_at_use] says, for its own grant. *)
Lemma handle_request_leases ctx st i :
  leases (handle_request ctx st i).2 =
  match token_of ctx i with
  | None => leases st
  | Some v =>
      <[v_grant_id v :=
          (check_at_use (lease_of st v) (in_now i)
             (in_status i (v_grant_id v) (in_handle i) (in_cnf i)) (in_now' i) (v_exp v)
             (lease_cfg ctx)).2]> (leases st)
  end.
Proof.
  unfold handle_request, token_of. destruct (verify_skipping_time _ _ _ _ _) as [v|]; cbn; [|done].
  fold (lease_of st v). destruct (check_at_use _ _ _ _ _ _) as [d g]; cbn.
  destruct d as [| |[]]; try done. by destruct (handle_op _ _ _).
Qed.

Lemma handle_request_inv ctx st i a :
  config_ok (lease_cfg ctx) -> leases_inv ctx st a ->
  leases_inv ctx (handle_request ctx st i).2 (request_answers ctx st i ++ a).
Proof.
  intros Hok Hi g l. rewrite handle_request_leases. unfold request_answers.
  destruct (token_of ctx i) as [v|]; [|apply Hi].
  rewrite answers_for_app, answers_for_map.
  destruct (decide (v_grant_id v = g)) as [<-|Hne].
  - rewrite lookup_insert_eq. intros [= <-].
    by apply check_at_use_inv; [|apply lease_of_inv].
  - rewrite lookup_insert_ne by done. apply Hi.
Qed.

Lemma run_broker_inv ctx st is_ a :
  config_ok (lease_cfg ctx) -> leases_inv ctx st a ->
  leases_inv ctx (run_broker ctx st is_).2 (run_answers ctx st is_ a).
Proof.
  intros Hok. revert st a. induction is_ as [|i is_ IH]; intros st a Hi; [done|]. cbn.
  pose proof (handle_request_inv ctx st i a Hok Hi) as Hi'.
  destruct (handle_request ctx st i) as [r st']. specialize (IH st' _ Hi').
  by destruct (run_broker ctx st' is_).
Qed.

Lemma run_answers_snoc ctx st is_ i a :
  run_answers ctx st (is_ ++ [i]) a =
  request_answers ctx (run_broker ctx st is_).2 i ++ run_answers ctx st is_ a.
Proof.
  revert st a. induction is_ as [|j is_ IH]; intros st a; [done|]. cbn.
  rewrite IH. by destruct (handle_request ctx st j), (run_broker _ _ _).
Qed.

(** A refusal of the broker itself. *)
Definition refusal (r : Response) : Prop :=
  exists c m, r = broker_err c m /\ c ∈ ["unauthorized"; "token_expired"; "access_paused"].

(** [on_grant_status] resolves: the defensive branch is dead. *)
Lemma check_at_use_resolves g now q now' exp cfg :
  (check_at_use g now q now' exp cfg).1 <> ReconfirmRequired.
Proof.
  assert (Ht : forall g c age e cfg', token_exp_decision g c age e cfg' <> ReconfirmRequired)
    by (intros; unfold token_exp_decision; by case_match).
  unfold check_at_use. destruct (decide_op g now exp cfg) eqn:Ed; cbn; [done| |done].
  destruct q; cbn; [apply Ht|done|].
  destruct (last_confirm g); [|done]. case_match; [apply Ht|done].
Qed.

Lemma handle_request_cases ctx st i :
  (refusal (handle_request ctx st i).1 /\ keystore (handle_request ctx st i).2 = keystore st) \/
  exists v, token_of ctx i = Some v /\
    (check_at_use (lease_of st v) (in_now i) (in_status i (v_grant_id v) (in_handle i) (in_cnf i))
       (in_now' i) (v_exp v) (lease_cfg ctx)).1 = Serve /\
    (handle_request ctx st i).1 = (handle_op (keystore st) (in_handle i) (br_op (in_req i))).1 /\
    keystore (handle_request ctx st i).2
      = (handle_op (keystore st) (in_handle i) (br_op (in_req i))).2.
Proof.
  unfold handle_request, token_of. destruct (verify_skipping_time _ _ _ _ _) as [v|]; cbn.
  2:{ left. split; [|done]. eexists _, _. split; [done|]. set_solver. }
  fold (lease_of st v). pose proof (check_at_use_resolves (lease_of st v) (in_now i)
    (in_status i (v_grant_id v) (in_handle i) (in_cnf i)) (in_now' i) (v_exp v) (lease_cfg ctx)) as Hr.
  destruct (check_at_use _ _ _ _ _ _) as [d g] eqn:Ec; cbn in *.
  destruct d as [| |[]]; try done;
    try (left; split; [|done]; eexists _, _; (split; [done|]; set_solver)).
  right. exists v. split; [done|]. rewrite Ec. split; [done|]. by destruct (handle_op _ _ _).
Qed.

Context `{HL : !KeystoreLocal St}.

(** C15: The broker's gate.  After any history of requests from any connections,
    a request either is refused by the broker, and then the keystore is as it was;
    or its token is a broker token signed by the deployment's key and bound to the
    handle and the certificate of this very connection, a [Live] answer for the
    token's own grant is younger than the deployment's revocation budget and the
    token has not expired against that answer's time, the response is the
    keystore's for the authenticated handle, and no key of another handle
    changes. *)
Theorem broker_gate ctx ks history i :
  config_ok (lease_cfg ctx) ->
  let st0 := mk_bstate ∅ ks in
  let st := (run_broker ctx st0 history).2 in
  let r := handle_request ctx st i in
  (refusal r.1 /\ keystore r.2 = keystore st) \/
  exists c v, bound_token (br_token (in_req i)) (k1_verify_key ctx) AudBroker
                (in_handle i) (in_cnf i) c /\
    v_exp v = c_exp c /\ uuid_parse_str (c_grant_id c) = Some (v_grant_id v) /\
    backed (lease_cfg ctx)
      (answers_for (v_grant_id v) (run_answers ctx st0 (history ++ [i]) []))
      (decision_time (lease_of st v) (in_now i) (in_now' i) (v_exp v) (lease_cfg ctx)) (v_exp v) /\
    r.1 = (handle_op (keystore st) (in_handle i) (br_op (in_req i))).1 /\
    forall l, handle l <> in_handle i -> key_at (keystore r.2) l = key_at (keystore st) l.
Proof.
  intros Hok st0 st r. destruct (handle_request_cases ctx st i) as [Hr|(v & Hv & Hs & Hr & Hk)];
    [by left|right].
  assert (Hi : leases_inv ctx st (run_answers ctx st0 history []))
    by (apply run_broker_inv; [done|intros g l E; cbn in E; by rewrite lookup_empty in E]).
  assert (Ha : run_answers ctx st0 (history ++ [i]) []
             = request_answers ctx st i ++ run_answers ctx st0 history [])
    by apply run_answers_snoc.
  unfold token_of in Hv. destruct (verify_skipping_time _ _ _ _ _) as [v'|] eqn:Ev; [|done].
  injection Hv as ->. pose proof Ev as Ev'. unfold verify_skipping_time in Ev.
  destruct (verify_structural _ _ _ _ _) as [c|] eqn:Es; [|done].
  apply verify_structural_Ok in Es. unfold into_verified in Ev.
  destruct (uuid_parse_str _) as [g|] eqn:Eg; [|done]. injection Ev as <-.
  exists c, (mk_VerifiedToken (c_sub c) g (c_jti c) (c_exp c)). split; [done|].
  split; [done|]. split; [done|]. split; [|split; [done|]].
  - rewrite Ha. unfold request_answers, token_of. rewrite Ev'. cbn [ok_opt].
    rewrite answers_for_app, answers_for_map, decide_True by done.
    apply check_at_use_serve; [done|by apply lease_of_inv|exact Hs].
  - intros l Hl. unfold r. rewrite Hk. unfold handle_op.
    pose proof (dispatch_other (keystore st) (in_handle i) (br_op (in_req i)) l Hl) as Hd.
    by destruct (dispatch _ _ _).
Qed.

(** While a grant's lease is in force the server is not asked about the presented
    certificate: its answer makes no difference. *)
Lemma leased_request_ignores_status ctx st i v status :
  token_of ctx i = Some v ->
  decide_op (lease_of st v) (in_now i) (v_exp v) (lease_cfg ctx) = Serve ->
  handle_request ctx st i =
  handle_request ctx st (mk_Incoming (in_handle i) (in_cnf i) (in_req i) (in_now i) (in_now' i) status).
Proof.
  unfold token_of, handle_request; cbn. destruct (verify_skipping_time _ _ _ _ _); [|done].
  intros [= ->] Hd. unfold lease_of in Hd. unfold check_at_use. by rewrite Hd.
Qed.

End Code.

(** ** A concrete request *)
Module BrokerToy.
Import Prims.Toy SoftToy TokenToy.

Definition token : string :=
  match encode_signing_input (id_of "k1") AudBroker "hlin-ai" "c1" (id_of "g1") 900 1000 (id_of "j1") with
  | Ok si => match sign_es256 k1_secret (str_bytes si) with Ok sig => compact si sig | Err _ => "" end
  | Err _ => ""
  end.

Definition ctx0 : BrokerContext :=
  mk_ctx (p256_x963 (p256_public k1_secret)) default_lease_config.

Definition incoming (op : Op) (t : Z) (answer : GrantStatusOutcome) : Incoming :=
  mk_Incoming "hlin-ai" "c1" (mk_BrokerRequest token op) (from_secs t) (from_secs t)
    (fun _ _ _ => answer).

End BrokerToy.
Import Prims.Toy SoftToy TokenToy BrokerToy.

(** hlin's agent asks after a confirm; the request is served from the lease. *)
Lemma broker_gate_witness :
  let st0 := mk_bstate ∅ empty_store in
  let history := [incoming (Exists "hlin-ai-signing") 0 (Live 1000 None)] in
  let i := incoming (Exists "hlin-ai-signing") 10 Revoked in
  let st := (run_broker ctx0 st0 history).2 in
  let r := handle_request ctx0 st i in
  r.1 = ROk (OkExists false) /\
  ((refusal r.1 /\ keystore r.2 = keystore st) \/
   exists c v, bound_token (br_token (in_req i)) (k1_verify_key ctx0) AudBroker
                (in_handle i) (in_cnf i) c /\
    v_exp v = c_exp c /\ uuid_parse_str (c_grant_id c) = Some (v_grant_id v) /\
    backed (lease_cfg ctx0)
      (answers_for (v_grant_id v) (run_answers ctx0 st0 (history ++ [i]) []))
      (decision_time (lease_of st v) (in_now i) (in_now' i) (v_exp v) (lease_cfg ctx0)) (v_exp v) /\
    r.1 = (handle_op (keystore st) (in_handle i) (br_op (in_req i))).1 /\
    forall l, handle l <> in_handle i -> key_at (keystore r.2) l = key_at (keystore st) l).
Proof.
  split; [by vm_compute|].
  apply (broker_gate ctx0 empty_store [incoming (Exists "hlin-ai-signing") 0 (Live 1000 None)]
           (incoming (Exists "hlin-ai-signing") 10 Revoked)).
  by vm_compute.
Defined.

Lemma frame_round_trip_witness :
  exists out, Frame.write_frame Some [Byte.x07] = Ok out /\
    Frame.read_frame Some (out ++ [Byte.x08]) = Ok ([Byte.x07], [Byte.x08]).
Proof.
  apply (proj1 (Frame.frame_round_trip Some Some [Byte.x07] [Byte.x07] [Byte.x08]
           eq_refl eq_refl ltac:(done))).
  by vm_compute.
Defined.
