(* ===== verification/X509.v ===== *)
(** * Garnet certificates (crypto/src/x509.rs)

    The deployment CA: verification of certification requests, issuance of the
    three kinds of leaf, and the depth-1 chain decision of every verifier.  The
    x509-cert and der crates and the PKCS#8 encodings of p256 are the interface
    [X509Lib]: their types are abstract, a certificate is seen through the fields
    the code reads, and the laws are the documented behaviour of the encoders and
    of the certificate builder.  The clock that [Validity::from_now] reads is the
    argument [now]. *)

From S2P Require Import Prelude Prims CryptoCore Ecdsa Text.

Definition ECDSA_WITH_SHA256 : string := "1.2.840.10045.4.3.2".
Definition ID_KP_CLIENT_AUTH : string := "1.3.6.1.5.5.7.3.2".
Definition ID_KP_SERVER_AUTH : string := "1.3.6.1.5.5.7.3.1".
Definition SAN_URN_PREFIX : string := "urn:signet:prsn:".
Definition SAN_URN_BROKER_PREFIX : string := "urn:signet:broker:".
Definition SAN_URN_SERVER_PREFIX : string := "urn:signet:server:".

(** The extension identifiers of RFC 5280. *)
Definition SAN_OID : string := "2.5.29.17".
Definition BASIC_CONSTRAINTS_OID : string := "2.5.29.19".
Definition EKU_OID : string := "2.5.29.37".
Definition KEY_USAGE_OID : string := "2.5.29.15".
Definition SKI_OID : string := "2.5.29.14".
Definition AKI_OID : string := "2.5.29.35".

(** The literals the code gives to [ObjectIdentifier], and those of the
    extensions the builder adds by itself. *)
Definition known_oids : list string :=
  [ECDSA_WITH_SHA256; ID_KP_CLIENT_AUTH; ID_KP_SERVER_AUTH; SAN_OID; BASIC_CONSTRAINTS_OID;
   EKU_OID; KEY_USAGE_OID; SKI_OID; AKI_OID].

Inductive GeneralName :=
| UniformResourceIdentifier (uri : string)
| OtherGeneralName (der : bytes).

Inductive KeyUsages := DigitalSignature | KeyCertSign | CRLSign.

(** The extensions a builder is given or adds, before they are encoded. *)
Inductive AsExtension {oid : Type} :=
| XSubjectAltName (names : list GeneralName)
| XExtendedKeyUsage (usages : list oid)
| XBasicConstraints (ca : bool) (path_len_constraint : option Z)
| XKeyUsage (usages : list KeyUsages)
| XSubjectKeyIdentifier
| XAuthorityKeyIdentifier.
Arguments AsExtension : clear implicits.

Definition associated_oid {oid} (x : AsExtension oid) : string :=
  match x with
  | XSubjectAltName _ => SAN_OID
  | XExtendedKeyUsage _ => EKU_OID
  | XBasicConstraints _ _ => BASIC_CONSTRAINTS_OID
  | XKeyUsage _ => KEY_USAGE_OID
  | XSubjectKeyIdentifier => SKI_OID
  | XAuthorityKeyIdentifier => AKI_OID
  end.

(** [x509_cert::builder::Profile], the two the code uses. *)
Inductive Profile {Name : Type} :=
| ProfileLeaf (issuer : Name) (enable_key_agreement enable_key_encipherment
    include_subject_key_identifier : bool)
| ProfileManual (issuer : option Name).
Arguments Profile : clear implicits.

Definition profile_issuer {Name} (p : Profile Name) (subject : Name) : Name :=
  match p with
  | ProfileLeaf issuer _ _ _ => issuer
  | ProfileManual (Some issuer) => issuer
  | ProfileManual None => subject
  end.

(** An encoded extension: its identifier and the octets of its value. *)
Record Extension {oid : Type} := mk_Extension { extn_id : oid; extn_value : bytes }.
Arguments Extension : clear implicits.
Arguments mk_Extension {oid}.

Class X509Lib `{HP : P256, !Ecdsa256} := {
  oid : Type;
  oid_eq_dec :: EqDecision oid;
  oid_from_str : string -> option oid;
  oid_new_unwrap : string -> oid;
  Name : Type;
  Name_eq_dec :: EqDecision Name;
  name_from_str : string -> option Name;
  Spki : Type;
  spki_to_der : Spki -> option bytes;
  spki_from_der : bytes -> option Spki;
  from_public_key_der : bytes -> option p256_point;
  SerialNumber : Type;
  serial_new : bytes -> option SerialNumber;
  serial_as_bytes : SerialNumber -> bytes;
  Validity : Type;
  validity_from_now : Z -> Z -> option Validity;
  not_before : Validity -> Z;
  not_after : Validity -> Z;
  ia5_new : string -> option string;
  (** certification requests *)
  CertReq : Type;
  csr_from_der : bytes -> option CertReq;
  csr_to_der : CertReq -> option bytes;
  csr_algorithm : CertReq -> oid;
  csr_public_key : CertReq -> Spki;
  csr_info_to_der : CertReq -> option bytes;
  csr_signature : CertReq -> option bytes;
  RequestBuilder : Type;
  request_builder_new : Name -> bytes -> option RequestBuilder;
  request_build : RequestBuilder -> option CertReq;
  (** certificates *)
  Certificate : Type;
  cert_from_der : bytes -> option Certificate;
  cert_to_der : Certificate -> option bytes;
  cert_from_pem : string -> option Certificate;
  cert_to_pem : Certificate -> option string;
  signature_algorithm : Certificate -> oid;
  signature_bits : Certificate -> option bytes;
  tbs_to_der : Certificate -> option bytes;
  tbs_issuer : Certificate -> Name;
  tbs_subject : Certificate -> Name;
  tbs_spki : Certificate -> Spki;
  tbs_serial : Certificate -> SerialNumber;
  tbs_validity : Certificate -> Validity;
  tbs_extensions : Certificate -> option (list (Extension oid));
  san_from_der : bytes -> option (list GeneralName);
  eku_from_der : bytes -> option (list oid);
  basic_constraints_from_der : bytes -> option (bool * option Z);
  (** the certificate builder *)
  CertificateBuilder : Type;
  builder_new : Profile Name -> SerialNumber -> Validity -> Name -> Spki -> bytes ->
    option CertificateBuilder;
  add_extension : CertificateBuilder -> AsExtension oid -> option CertificateBuilder;
  builder_build : CertificateBuilder -> option Certificate;
  profile_extensions : Profile Name -> list (AsExtension oid);
}.

(** An encoded extension carries the value it was made from. *)
Definition encodes `{HX : X509Lib} (e : Extension oid) (x : AsExtension oid) : Prop :=
  extn_id e = oid_new_unwrap (associated_oid x) /\
  match x with
  | XSubjectAltName l => san_from_der (extn_value e) = Some l
  | XExtendedKeyUsage l => eku_from_der (extn_value e) = Some l
  | XBasicConstraints ca n => basic_constraints_from_der (extn_value e) = Some (ca, n)
  | _ => True
  end.

(** What the crates document: parsing inverts encoding, the literals are distinct
    valid identifiers, a leaf profile adds no name, no extended usage and only
    [CA:FALSE], a manual one adds nothing, and a built certificate holds what its
    builder was given, signed with the builder's key in DER form. *)
Class X509Laws `{HX : X509Lib} := {
  oid_known s : s ∈ known_oids -> oid_from_str s = Some (oid_new_unwrap s);
  oid_known_inj s s' :
    s ∈ known_oids -> s' ∈ known_oids -> oid_new_unwrap s = oid_new_unwrap s' -> s = s';
  spki_from_point P :
    exists k, spki_from_der (p256_spki_der P) = Some k /\ spki_to_der k = Some (p256_spki_der P);
  from_public_key_der_point P : from_public_key_der (p256_spki_der P) = Some P;
  validity_window now secs v :
    validity_from_now now secs = Some v -> not_before v = now /\ not_after v = now + secs;
  ia5_new_id s s' : ia5_new s = Some s' -> s' = s;
  csr_from_to c d : csr_to_der c = Some d -> csr_from_der d = Some c;
  request_built subject key b c :
    request_builder_new subject key = Some b -> request_build b = Some c ->
    csr_algorithm c = oid_new_unwrap ECDSA_WITH_SHA256 /\
    spki_to_der (csr_public_key c) = Some (p256_spki_der (p256_public key)) /\
    exists info, csr_info_to_der c = Some info /\
      csr_signature c = Some (signature_to_der (ecdsa_sign key info));
  cert_from_to c d : cert_to_der c = Some d -> cert_from_der d = Some c;
  cert_from_to_pem c p : cert_to_pem c = Some p -> cert_from_pem p = Some c;
  leaf_extensions i a e k x :
    x ∈ profile_extensions (ProfileLeaf i a e k) ->
    match x with
    | XSubjectAltName _ | XExtendedKeyUsage _ => False
    | XBasicConstraints ca _ => ca = false
    | _ => True
    end;
  manual_extensions i : profile_extensions (ProfileManual i) = [];
  builder_holds : CertificateBuilder -> Profile Name -> SerialNumber -> Validity -> Name -> Spki ->
    bytes -> list (AsExtension oid) -> Prop;
  builder_new_holds p sn v s k key b :
    builder_new p sn v s k key = Some b -> builder_holds b p sn v s k key (profile_extensions p);
  add_extension_holds b x b' p sn v s k key xs :
    builder_holds b p sn v s k key xs -> add_extension b x = Some b' ->
    builder_holds b' p sn v s k key (xs ++ [x]);
  builder_built b c p sn v s k key xs :
    builder_holds b p sn v s k key xs -> builder_build b = Some c ->
    tbs_issuer c = profile_issuer p s /\ tbs_subject c = s /\ tbs_spki c = k /\
    tbs_serial c = sn /\ tbs_validity c = v /\
    signature_algorithm c = oid_new_unwrap ECDSA_WITH_SHA256 /\
    (exists es, tbs_extensions c = Some es /\ Forall2 encodes es xs) /\
    exists tbs, tbs_to_der c = Some tbs /\
      signature_bits c = Some (signature_to_der (ecdsa_sign key tbs));
}.

Definition COLON : Ascii.ascii := Ascii.ascii_of_byte Byte.x3a.

(** [s.rsplit(':').next()]: what follows the last colon, the whole string where
    there is none. *)
Fixpoint after_last_colon_from (best s : string) : string :=
  match s with
  | EmptyString => best
  | String.String a t => after_last_colon_from (if decide (a = COLON) then t else best) t
  end.
Definition after_last_colon (s : string) : string := after_last_colon_from s s.

Section Code.
Context `{HS : Sha256} `{HB : Base64Url} `{HH : Hex} `{HX : X509Lib}.

Record VerifiedCsr := mk_VerifiedCsr { vc_spki : Spki; vc_pubkey_x963 : bytes }.

Record IssuedCert := mk_IssuedCert
  { ic_der : bytes; ic_pem : string; ic_serial_hex : string; ic_thumbprint_b64url : string }.

Definition verify_csr (csr_der : bytes) : cresult VerifiedCsr :=
  let*! csr := csr_from_der csr_der else InvalidInput "garnet csr der" in
  guard bool_decide (csr_algorithm csr = oid_new_unwrap ECDSA_WITH_SHA256)
    else InvalidInput "garnet csr signature algorithm" ;;
  let spki := csr_public_key csr in
  let*! spki_der := spki_to_der spki else InvalidInput "garnet csr spki" in
  let*! public_key := from_public_key_der spki_der else InvalidInput "garnet csr key not P-256" in
  let pubkey_x963 := p256_x963 public_key in
  let*! signed := csr_info_to_der csr else InvalidInput "garnet csr info" in
  let*! sig := csr_signature csr else InvalidInput "garnet csr signature bits" in
  let*? _ := verify_es256 pubkey_x963 signed sig in
  Ok (mk_VerifiedCsr spki pubkey_x963).

Definition x509_name (s : string) : cresult Name :=
  ok_or (InvalidInput "garnet x509 name") (name_from_str s).

Definition build_csr (scalar : bytes) (subject_cn : string) : cresult bytes :=
  let*! key := p256_scalar scalar else InvalidInput "garnet csr key" in
  let*? subject := x509_name ("CN=" +:+ subject_cn) in
  let*! b := request_builder_new subject key else InvalidInput "garnet csr builder" in
  let*! csr := request_build b else InvalidInput "garnet csr sign" in
  ok_or (InvalidInput "garnet csr der") (csr_to_der csr).

Definition cert_thumbprint_b64url (der : bytes) : string := b64_encode (sha256_digest der).

Definition finish (cert : Certificate) : cresult IssuedCert :=
  let*! der := cert_to_der cert else InvalidInput "garnet cert der" in
  let*! pem := cert_to_pem cert else InvalidInput "garnet cert pem" in
  Ok (mk_IssuedCert der pem (hex_encode (serial_as_bytes (tbs_serial cert)))
        (cert_thumbprint_b64url der)).

Definition build_leaf (now : Z) (subject_spki : Spki) (san_uri eku_oid : string) (ca_scalar : bytes)
    (issuer_cn : string) (serial : bytes) (validity_secs : Z) : cresult IssuedCert :=
  let*! ca_key := p256_scalar ca_scalar else InvalidInput "garnet ca key" in
  let*? issuer := x509_name ("CN=" +:+ issuer_cn) in
  let subject_cn := after_last_colon san_uri in
  let*? subject := x509_name ("CN=" +:+ subject_cn) in
  let*! serial_number := serial_new serial else InvalidInput "garnet cert serial" in
  let*! validity := validity_from_now now validity_secs else InvalidInput "garnet cert validity" in
  let*! builder := builder_new (ProfileLeaf issuer false false true) serial_number validity subject
      subject_spki ca_key else InvalidInput "garnet cert builder" in
  let*! uri := ia5_new san_uri else InvalidInput "garnet san" in
  let*! builder := add_extension builder (XSubjectAltName [UniformResourceIdentifier uri])
      else InvalidInput "garnet san ext" in
  let*! eku := oid_from_str eku_oid else InvalidInput "garnet eku oid" in
  let*! builder := add_extension builder (XExtendedKeyUsage [eku])
      else InvalidInput "garnet eku ext" in
  let*! cert := builder_build builder else InvalidInput "garnet cert sign" in
  finish cert.

Definition issue_agent_cert (now : Z) (csr_der : bytes) (handle : string) (ca_scalar : bytes)
    (issuer_cn : string) (serial : bytes) (validity_secs : Z) : cresult IssuedCert :=
  let*? verified := verify_csr csr_der in
  build_leaf now (vc_spki verified) (SAN_URN_PREFIX +:+ handle) ID_KP_CLIENT_AUTH ca_scalar
    issuer_cn serial validity_secs.

Definition issue_broker_client_cert (now : Z) (csr_der : bytes) (broker_id : string)
    (ca_scalar : bytes) (issuer_cn : string) (serial : bytes) (validity_secs : Z)
    : cresult IssuedCert :=
  let*? verified := verify_csr csr_der in
  build_leaf now (vc_spki verified) (SAN_URN_BROKER_PREFIX +:+ broker_id) ID_KP_CLIENT_AUTH
    ca_scalar issuer_cn serial validity_secs.

(** [to_public_key_der] of a point does not fail. *)
Definition build_server_leaf (now : Z) (server_pubkey_x963 : bytes) (server_id : string)
    (ca_scalar : bytes) (issuer_cn : string) (serial : bytes) (validity_secs : Z)
    : cresult IssuedCert :=
  let*! public_key := p256_decode server_pubkey_x963
      else InvalidInput "garnet server pubkey not P-256" in
  let*! spki := spki_from_der (p256_spki_der public_key)
      else InvalidInput "garnet server spki der" in
  build_leaf now spki (SAN_URN_SERVER_PREFIX +:+ server_id) ID_KP_SERVER_AUTH ca_scalar issuer_cn
    serial validity_secs.

Definition build_ca_cert (now : Z) (ca_scalar : bytes) (subject_cn : string) (serial : bytes)
    (validity_secs : Z) : cresult IssuedCert :=
  let*! ca_key := p256_scalar ca_scalar else InvalidInput "garnet ca key" in
  let*! spki := spki_from_der (p256_spki_der (p256_public ca_key))
      else InvalidInput "garnet ca spki der" in
  let*? subject := x509_name ("CN=" +:+ subject_cn) in
  let*! serial_number := serial_new serial else InvalidInput "garnet ca serial" in
  let*! validity := validity_from_now now validity_secs else InvalidInput "garnet ca validity" in
  let*! builder := builder_new (ProfileManual (Some subject)) serial_number validity subject spki
      ca_key else InvalidInput "garnet ca builder" in
  let*! builder := add_extension builder (XBasicConstraints true (Some 0))
      else InvalidInput "garnet ca basic constraints" in
  let*! builder := add_extension builder (XKeyUsage [KeyCertSign; CRLSign])
      else InvalidInput "garnet ca key usage" in
  let*! cert := builder_build builder else InvalidInput "garnet ca sign" in
  finish cert.

(** [exts.iter().find(|e| e.extn_id == oid)]. *)
Definition find_extension (exts : list (Extension oid)) (id : string) : option (Extension oid) :=
  List.find (fun e => bool_decide (extn_id e = oid_new_unwrap id)) exts.

(** The loop over the general names: the first URI. *)
Fixpoint first_uri (names : list GeneralName) : option string :=
  match names with
  | [] => None
  | UniformResourceIdentifier uri :: _ => Some uri
  | OtherGeneralName _ :: names => first_uri names
  end.

Definition cert_san_uri (der : bytes) : cresult (option string) :=
  let*! cert := cert_from_der der else InvalidInput "garnet cert der" in
  match tbs_extensions cert with
  | None => Ok None
  | Some exts =>
      match find_extension exts SAN_OID with
      | None => Ok None
      | Some ext =>
          let*! san := san_from_der (extn_value ext) else InvalidInput "garnet san" in
          Ok (first_uri san)
      end
  end.

Definition cert_san_handle (der : bytes) : cresult (option string) :=
  let*? uri := cert_san_uri der in
  Ok (uri ≫= strip_prefix SAN_URN_PREFIX).

Definition cert_validity_window (der : bytes) : cresult (Z * Z) :=
  let*! cert := cert_from_der der else InvalidInput "certificate DER" in
  let v := tbs_validity cert in
  Ok (not_before v, not_after v).

Definition cert_san_broker_id (der : bytes) : cresult (option string) :=
  let*? uri := cert_san_uri der in
  Ok (uri ≫= strip_prefix SAN_URN_BROKER_PREFIX).

(** The [if let] on the basic constraints. *)
Definition leaf_is_not_a_ca (exts : list (Extension oid)) : cresult unit :=
  match find_extension exts BASIC_CONSTRAINTS_OID with
  | Some bc_ext =>
      let*! bc := basic_constraints_from_der (extn_value bc_ext)
          else InvalidInput "garnet leaf basic constraints" in
      guard negb (fst bc) else InvalidInput "garnet leaf is a CA" ;;
      Ok tt
  | None => Ok tt
  end.

Definition verify_leaf_chains_to_ca_uri (leaf_der ca_der : bytes) (required_eku : string)
    (now_unix : Z) : cresult string :=
  let*! leaf := cert_from_der leaf_der else InvalidInput "garnet leaf der" in
  let*! ca := cert_from_der ca_der else InvalidInput "garnet ca der" in
  guard bool_decide (signature_algorithm leaf = oid_new_unwrap ECDSA_WITH_SHA256)
    else InvalidInput "garnet leaf signature algorithm" ;;
  guard bool_decide (tbs_issuer leaf = tbs_subject ca)
    else InvalidInput "garnet leaf issuer mismatch" ;;
  let*! ca_spki_der := spki_to_der (tbs_spki ca) else InvalidInput "garnet ca spki" in
  let*! ca_point := from_public_key_der ca_spki_der else InvalidInput "garnet ca key not P-256" in
  let ca_pubkey := p256_x963 ca_point in
  let*! tbs := tbs_to_der leaf else InvalidInput "garnet leaf tbs" in
  let*! sig := signature_bits leaf else InvalidInput "garnet leaf signature bits" in
  let*? _ := verify_es256 ca_pubkey tbs sig in
  let now := Z.max now_unix 0 in
  guard negb (now <? not_before (tbs_validity leaf)) else InvalidInput "garnet leaf not yet valid" ;;
  guard negb (not_after (tbs_validity leaf) <? now) else InvalidInput "garnet leaf expired" ;;
  let*! exts := tbs_extensions leaf else InvalidInput "garnet leaf extensions" in
  let*? _ := leaf_is_not_a_ca exts in
  let*! want_eku := oid_from_str required_eku else InvalidInput "garnet required eku oid" in
  let*! eku_ext := find_extension exts EKU_OID else InvalidInput "garnet leaf eku missing" in
  let*! eku := eku_from_der (extn_value eku_ext) else InvalidInput "garnet leaf eku" in
  guard bool_decide (want_eku ∈ eku) else InvalidInput "garnet leaf eku mismatch" ;;
  let*? san := cert_san_uri leaf_der in
  ok_or (InvalidInput "garnet leaf san missing") san.

Definition verify_leaf_chains_to_ca (leaf_der ca_der : bytes) (required_eku : string)
    (now_unix : Z) : cresult string :=
  let*? uri := verify_leaf_chains_to_ca_uri leaf_der ca_der required_eku now_unix in
  ok_or (InvalidInput "garnet leaf san handle missing") (strip_prefix SAN_URN_PREFIX uri).

Definition cert_der_to_pem (der : bytes) : cresult string :=
  let*! cert := cert_from_der der else InvalidInput "garnet cert der" in
  ok_or (InvalidInput "garnet cert pem") (cert_to_pem cert).

Definition pem_to_der (pem : string) : cresult bytes :=
  let*! cert := cert_from_pem pem else InvalidInput "garnet cert pem" in
  ok_or (InvalidInput "garnet cert der") (cert_to_der cert).

Definition cert_spki_sha256_b64url (der : bytes) : cresult string :=
  let*! cert := cert_from_der der else InvalidInput "garnet cert der" in
  let*! spki_der := spki_to_der (tbs_spki cert) else InvalidInput "garnet cert spki der" in
  Ok (b64_encode (sha256_digest spki_der)).

Definition cert_pubkey_x963 (der : bytes) : cresult bytes :=
  let*! cert := cert_from_der der else InvalidInput "garnet cert der" in
  let*! spki_der := spki_to_der (tbs_spki cert) else InvalidInput "garnet cert spki der" in
  let*! public_key := from_public_key_der spki_der else InvalidInput "garnet cert key not P-256" in
  Ok (p256_x963 public_key).

Definition csr_spki_sha256_b64url (csr_der : bytes) : cresult string :=
  let*? verified := verify_csr csr_der in
  let*! spki_der := spki_to_der (vc_spki verified) else InvalidInput "garnet csr spki der" in
  Ok (b64_encode (sha256_digest spki_der)).

End Code.
