(* ===== verification/X509Theorems.v ===== *)
(** * What the certificate authority guarantees

    The keystone of issuance, the contract of the chain decision, and that the
    two fit: what the authority issues is accepted in its own role and window and
    in no other role. *)

From S2P Require Import Prelude Prims CryptoCore Ecdsa Text Token X509.

Lemma strip_prefix_app p s : strip_prefix p (p +:+ s) = Some s.
Proof.
  induction p as [|a p IH]; [done|]. change (String.String a p +:+ s) with (String.String a (p +:+ s)).
  cbn [strip_prefix]. by rewrite decide_True.
Qed.

Lemma strip_prefix_Some p s r : strip_prefix p s = Some r -> s = p +:+ r.
Proof.
  revert s. induction p as [|a p IH]; intros s; cbn; [by intros [= ->]|].
  destruct s as [|b s]; [done|]. case_decide as E; [|done]. subst b. intros ->%IH. done.
Qed.

Section Theorems.
Context `{HS : Sha256} `{HB : Base64Url} `{HH : Hex} `{HX : X509Lib} {HL : X509Laws}.

Lemma associated_oid_known (x : AsExtension oid) : associated_oid x ∈ known_oids.
Proof. by destruct x; apply (bool_decide_unpack _); vm_compute. Qed.

(** The first extension with an identifier carries a value given to the builder
    under that identifier. *)
Lemma find_extension_encodes es xs id :
  Forall2 encodes es xs -> id ∈ known_oids ->
  match find_extension es id with
  | Some e => exists x, x ∈ xs /\ associated_oid x = id /\ encodes e x
  | None => forall x, x ∈ xs -> associated_oid x <> id
  end.
Proof.
  intros Hf Hid. induction Hf as [|e x es xs He _ IH]; cbn; [set_solver|].
  case_bool_decide as E.
  - exists x. split_and!; [set_solver| |done]. destruct He as [He _]. rewrite He in E.
    apply oid_known_inj in E; [done|apply associated_oid_known|done].
  - change (List.find _ es) with (find_extension es id).
    destruct (find_extension es id) as [e'|].
    + destruct IH as (x' & ? & ? & ?). exists x'. set_solver.
    + intros x' [->|Hin]%elem_of_cons; [|by apply IH].
      intros <-. apply E, He.
Qed.

(** What a leaf is: everything the verifiers read of it. *)
Record leaf_form (c : Certificate) (spki : Spki) (san eku cn : string) (key : bytes) (now secs : Z)
    : Prop := mk_leaf_form {
  lf_issuer : x509_name ("CN=" +:+ cn) = Ok (tbs_issuer c);
  lf_spki : tbs_spki c = spki;
  lf_window : not_before (tbs_validity c) = now /\ not_after (tbs_validity c) = now + secs;
  lf_algorithm : signature_algorithm c = oid_new_unwrap ECDSA_WITH_SHA256;
  lf_signature : exists tbs, tbs_to_der c = Some tbs /\
    signature_bits c = Some (signature_to_der (ecdsa_sign key tbs));
  lf_extensions : exists es, tbs_extensions c = Some es /\
    (exists e, find_extension es SAN_OID = Some e /\
       san_from_der (extn_value e) = Some [UniformResourceIdentifier san]) /\
    (exists e o, find_extension es EKU_OID = Some e /\ oid_from_str eku = Some o /\
       eku_from_der (extn_value e) = Some [o]) /\
    (forall e, find_extension es BASIC_CONSTRAINTS_OID = Some e ->
       exists n, basic_constraints_from_der (extn_value e) = Some (false, n));
}.

(** The three extensions the verifiers look for, in the encoding of a leaf
    profile's own extensions followed by the name and the usage. *)
Lemma leaf_extensions_found es i a e k san o :
  Forall2 encodes es (profile_extensions (ProfileLeaf i a e k)
    ++ [XSubjectAltName [UniformResourceIdentifier san]; XExtendedKeyUsage [o]]) ->
  (exists e, find_extension es SAN_OID = Some e /\
     san_from_der (extn_value e) = Some [UniformResourceIdentifier san]) /\
  (exists e, find_extension es EKU_OID = Some e /\ eku_from_der (extn_value e) = Some [o]) /\
  (forall e, find_extension es BASIC_CONSTRAINTS_OID = Some e ->
     exists n, basic_constraints_from_der (extn_value e) = Some (false, n)).
Proof.
  intros Hf. split_and!.
  - pose proof (find_extension_encodes _ _ SAN_OID Hf ltac:(apply (bool_decide_unpack _); done)) as H1.
    destruct (find_extension es SAN_OID) as [e'|];
      [|by destruct (H1 (XSubjectAltName [UniformResourceIdentifier san]) ltac:(set_solver))].
    destruct H1 as (x & Hx & Ho & _ & He). exists e'. split; [done|].
    apply elem_of_app in Hx as [Hx%leaf_extensions|Hx]; [by destruct x|].
    destruct x; try done. set_solver.
  - pose proof (find_extension_encodes _ _ EKU_OID Hf ltac:(apply (bool_decide_unpack _); done)) as H1.
    destruct (find_extension es EKU_OID) as [e'|];
      [|by destruct (H1 (XExtendedKeyUsage [o]) ltac:(set_solver))].
    destruct H1 as (x & Hx & Ho & _ & He). exists e'. split; [done|].
    apply elem_of_app in Hx as [Hx%leaf_extensions|Hx]; [by destruct x|].
    destruct x; try done. set_solver.
  - intros e' Hfind.
    pose proof (find_extension_encodes _ _ BASIC_CONSTRAINTS_OID Hf
                  ltac:(apply (bool_decide_unpack _); done)) as H1.
    rewrite Hfind in H1. destruct H1 as (x & Hx & Ho & _ & He).
    apply elem_of_app in Hx as [Hx%leaf_extensions|Hx]; [destruct x; try done; subst; eauto|].
    destruct x; try done. set_solver.
Qed.

Lemma finish_Ok c ic :
  finish c = Ok ic ->
  cert_from_der (ic_der ic) = Some c /\ cert_from_pem (ic_pem ic) = Some c /\
  cert_to_der c = Some (ic_der ic) /\
  ic_thumbprint_b64url ic = cert_thumbprint_b64url (ic_der ic).
Proof.
  unfold finish. intros Hr. steps_in Hr. cbn.
  split_and!; eauto using cert_from_to, cert_from_to_pem.
Qed.

Lemma build_leaf_Ok now spki san eku ca cn serial secs ic :
  build_leaf now spki san eku ca cn serial secs = Ok ic ->
  is_Some (p256_scalar ca) /\
  exists c, finish c = Ok ic /\ leaf_form c spki san eku cn ca now secs.
Proof.
  unfold build_leaf. intros Hr. steps_in Hr.
  repeat match goal with
  | H' : ia5_new _ = Some _ |- _ => apply ia5_new_id in H'; subst
  | H' : p256_scalar _ = Some ?d |- _ =>
      lazymatch goal with K : is_Some (p256_scalar ca) |- _ => fail | _ => idtac end;
      pose proof (mk_is_Some _ _ H'); apply p256_scalar_id in H'; subst
  end.
  split; [done|]. eexists; split; [exact Hr|].
  match goal with H : builder_new _ _ _ _ _ _ = Some _ |- _ => apply builder_new_holds in H as Hb end.
  do 2 match goal with H : add_extension _ _ = Some _ |- _ =>
    eapply add_extension_holds in Hb; [|exact H]; clear H end.
  rewrite <- app_assoc in Hb. cbn [app] in Hb.
  match goal with H : builder_build _ = Some _ |- _ =>
    destruct (builder_built _ _ _ _ _ _ _ _ _ Hb H)
      as (Hi & Hs & Hk & _ & Hv & Ha & (es & Hes & Hf) & Hsig) end.
  apply leaf_extensions_found in Hf as (Hsan & (e' & He' & Heku) & Hbc).
  match goal with H : validity_from_now _ _ = Some _ |- _ => apply validity_window in H as Hw end.
  constructor; try done.
  - rewrite Hi. done.
  - by rewrite Hv.
  - exists es. split_and!; eauto 10.
Qed.

(** What the authority's own certificate is, as far as the verifiers read it. *)
Lemma build_ca_cert_Ok now ca cn serial secs ic :
  build_ca_cert now ca cn serial secs = Ok ic ->
  exists c, finish c = Ok ic /\ x509_name ("CN=" +:+ cn) = Ok (tbs_subject c) /\
    tbs_issuer c = tbs_subject c /\
    spki_to_der (tbs_spki c) = Some (p256_spki_der (p256_public ca)) /\
    exists es, tbs_extensions c = Some es /\
      exists e, find_extension es BASIC_CONSTRAINTS_OID = Some e /\
        basic_constraints_from_der (extn_value e) = Some (true, Some 0).
Proof.
  unfold build_ca_cert. intros Hr. steps_in Hr.
  match goal with H : p256_scalar _ = Some _ |- _ => apply p256_scalar_id in H; subst end.
  eexists; split; [exact Hr|].
  match goal with H : builder_new _ _ _ _ _ _ = Some _ |- _ => apply builder_new_holds in H as Hb end.
  rewrite manual_extensions in Hb.
  do 2 match goal with H : add_extension _ _ = Some _ |- _ =>
    eapply add_extension_holds in Hb; [|exact H]; clear H end.
  cbn [app] in Hb.
  match goal with H : builder_build _ = Some _ |- _ =>
    destruct (builder_built _ _ _ _ _ _ _ _ _ Hb H)
      as (Hi & Hs & Hk & _ & Hv & Ha & (es & Hes & Hf) & Hsig) end.
  split_and!.
  - rewrite Hs. done.
  - by rewrite Hi, Hs.
  - destruct (spki_from_point (p256_public ca)) as (k & Hk' & Hd).
    rewrite Hk. simplify_eq. done.
  - exists es. split; [done|].
    pose proof (find_extension_encodes _ _ BASIC_CONSTRAINTS_OID Hf
                  ltac:(apply (bool_decide_unpack _); done)) as H1.
    destruct (find_extension es BASIC_CONSTRAINTS_OID) as [e'|];
      [|by destruct (H1 (XBasicConstraints true (Some 0)) ltac:(set_solver))].
    destruct H1 as (x & Hx & Ho & _ & He). exists e'. split; [done|].
    destruct x; try done. set_solver.
Qed.

Lemma cert_san_uri_leaf ic c spki san eku cn key now secs :
  finish c = Ok ic -> leaf_form c spki san eku cn key now secs ->
  cert_san_uri (ic_der ic) = Ok (Some san).
Proof.
  intros (Hd & _)%finish_Ok Hl. unfold cert_san_uri. rewrite Hd.
  destruct (lf_extensions _ _ _ _ _ _ _ _ Hl) as (es & -> & (e & -> & ->) & _). done.
Qed.

Lemma leaf_is_not_a_ca_Ok es :
  leaf_is_not_a_ca es = Ok tt <->
  forall e, find_extension es BASIC_CONSTRAINTS_OID = Some e ->
    exists n, basic_constraints_from_der (extn_value e) = Some (false, n).
Proof.
  unfold leaf_is_not_a_ca. destruct (find_extension es BASIC_CONSTRAINTS_OID) as [e|]; [|by split].
  split.
  - intros Hb ? [= <-]. destruct (basic_constraints_from_der _) as [[[] n]|]; try done. eauto.
  - intros Hb. by destruct (Hb e eq_refl) as (n & ->).
Qed.

(** The signature of a certificate is not 64 bytes long, the length at which
    [parse_signature] reads the other encoding. *)
Definition der_signature_read (der : bytes) : Prop :=
  forall c s, cert_from_der der = Some c -> signature_bits c = Some s -> length s <> 64%nat.

(** The chain decision on an issued leaf, at any time and for any role. *)
Definition issued_verdict (san eku : string) (from until : Z) (required : string) (now_unix : Z)
    : cresult string :=
  if Z.max now_unix 0 <? from then Err (InvalidInput "garnet leaf not yet valid")
  else if until <? Z.max now_unix 0 then Err (InvalidInput "garnet leaf expired")
  else if decide (required = eku) then Ok san
  else Err (InvalidInput "garnet leaf eku mismatch").

Lemma verify_issued now0 ca cn serial0 secs0 ica now spki san eku serial secs ic required now_unix :
  build_ca_cert now0 ca cn serial0 secs0 = Ok ica ->
  build_leaf now spki san eku ca cn serial secs = Ok ic ->
  der_signature_read (ic_der ic) -> eku ∈ known_oids -> required ∈ known_oids ->
  verify_leaf_chains_to_ca_uri (ic_der ic) (ic_der ica) required now_unix =
  issued_verdict san eku now (now + secs) required now_unix.
Proof.
  intros (cc & Hcc & Hcs & _ & Hck & _)%build_ca_cert_Ok (Hca & c & Hc & Hl)%build_leaf_Ok Hlen He Hr.
  pose proof (cert_san_uri_leaf _ _ _ _ _ _ _ _ _ Hc Hl) as Hsan.
  apply finish_Ok in Hcc as (Hcd & _). apply finish_Ok in Hc as (Hd & _).
  destruct Hl as [Hi Hk [Hnb Hna] Ha (tbs & Ht & Hs) (es & Hes & _ & (e & o & Hfe & Ho & Hfo) & Hbc)].
  unfold verify_leaf_chains_to_ca_uri. rewrite Hd, Hcd, Ha, bool_decide_true by done.
  rewrite Hcs in Hi. injection Hi as Hi. rewrite Hi, bool_decide_true by done.
  rewrite Hck, from_public_key_der_point, Ht, Hs.
  unfold verify_es256, p256_x963. rewrite p256_decode_uncompressed.
  rewrite parse_signature_der by eauto. rewrite ecdsa_verify_sign by done.
  rewrite Hnb, Hna, Hes. unfold issued_verdict.
  destruct (Z.max now_unix 0 <? now); cbn [negb]; [done|].
  destruct (now + secs <? Z.max now_unix 0); cbn [negb]; [done|].
  rewrite (proj2 (leaf_is_not_a_ca_Ok es) Hbc).
  rewrite (oid_known required) by done. rewrite Hfe, Hfo.
  rewrite oid_known in Ho by done. injection Ho as <-.
  case_decide as E.
  - subst. rewrite bool_decide_true by set_solver. by rewrite Hsan.
  - rewrite bool_decide_false; [done|].
    intros Hin%list_elem_of_singleton. by apply oid_known_inj in Hin.
Qed.

(** C18: The issuance keystone.  A certification request gives the authority a
    public key and nothing else.  When an agent certificate is issued, the request
    verified under its own key, the certificate holds exactly that key and names
    exactly the handle given by the caller, and any other request that verifies
    with the same key - whatever subject and extensions it asks for - gets the
    same certificate. *)
Theorem issuance_keystone now csr handle ca cn serial secs ic :
  issue_agent_cert now csr handle ca cn serial secs = Ok ic ->
  exists v c, verify_csr csr = Ok v /\
    cert_from_der (ic_der ic) = Some c /\ tbs_spki c = vc_spki v /\
    cert_san_handle (ic_der ic) = Ok (Some handle) /\
    ic_thumbprint_b64url ic = cert_thumbprint_b64url (ic_der ic) /\
    pem_to_der (ic_pem ic) = Ok (ic_der ic) /\
    cert_spki_sha256_b64url (ic_der ic) = csr_spki_sha256_b64url csr /\
    forall csr' v', verify_csr csr' = Ok v' -> vc_spki v' = vc_spki v ->
      issue_agent_cert now csr' handle ca cn serial secs = Ok ic.
Proof.
  unfold issue_agent_cert. intros Hi. destruct (verify_csr csr) as [v|] eqn:Ev; [|done].
  destruct (build_leaf_Ok _ _ _ _ _ _ _ _ _ Hi) as (_ & c & Hc & Hl).
  pose proof (cert_san_uri_leaf _ _ _ _ _ _ _ _ _ Hc Hl) as Hsan.
  apply finish_Ok in Hc as (Hd & Hp & Hto & Ht). exists v, c. split_and!; try done.
  - apply Hl.
  - unfold cert_san_handle. rewrite Hsan. cbn [mbind option_bind]. by rewrite strip_prefix_app.
  - unfold pem_to_der. by rewrite Hp, Hto.
  - unfold cert_spki_sha256_b64url, csr_spki_sha256_b64url. rewrite Hd, Ev, (lf_spki _ _ _ _ _ _ _ _ Hl).
    unfold verify_csr in Ev. steps_in Ev. cbn. by simplify_option_eq.
  - intros csr' v' -> ->. done.
Qed.

(** Roles and identities are kept apart.  Under the authority's own
    certificate, an agent certificate is accepted as a client at exactly the times
    of its window and gives the handle it was issued for, and never as a server; a
    broker's client certificate is a valid client of the chain but never an agent;
    a server certificate is accepted as a server and never as a client. *)
Theorem issued_roles_separated now0 ca cn serial0 secs0 ica now_unix now serial secs :
  build_ca_cert now0 ca cn serial0 secs0 = Ok ica ->
  (forall csr handle ic, issue_agent_cert now csr handle ca cn serial secs = Ok ic ->
     der_signature_read (ic_der ic) ->
     (verify_leaf_chains_to_ca (ic_der ic) (ic_der ica) ID_KP_CLIENT_AUTH now_unix = Ok handle <->
        now <= Z.max now_unix 0 <= now + secs) /\
     is_ok (verify_leaf_chains_to_ca_uri (ic_der ic) (ic_der ica) ID_KP_SERVER_AUTH now_unix) = false) /\
  (forall csr id ic, issue_broker_client_cert now csr id ca cn serial secs = Ok ic ->
     der_signature_read (ic_der ic) ->
     (verify_leaf_chains_to_ca_uri (ic_der ic) (ic_der ica) ID_KP_CLIENT_AUTH now_unix =
        Ok (SAN_URN_BROKER_PREFIX +:+ id) <-> now <= Z.max now_unix 0 <= now + secs) /\
     (forall eku, eku ∈ known_oids ->
        is_ok (verify_leaf_chains_to_ca (ic_der ic) (ic_der ica) eku now_unix) = false)) /\
  (forall key id ic, build_server_leaf now key id ca cn serial secs = Ok ic ->
     der_signature_read (ic_der ic) ->
     (verify_leaf_chains_to_ca_uri (ic_der ic) (ic_der ica) ID_KP_SERVER_AUTH now_unix =
        Ok (SAN_URN_SERVER_PREFIX +:+ id) <-> now <= Z.max now_unix 0 <= now + secs) /\
     is_ok (verify_leaf_chains_to_ca_uri (ic_der ic) (ic_der ica) ID_KP_CLIENT_AUTH now_unix) = false).
Proof.
  intros Hca.
  assert (Hw : forall san eku, issued_verdict san eku now (now + secs) eku now_unix = Ok san <->
                 now <= Z.max now_unix 0 <= now + secs).
  { intros san eku. unfold issued_verdict. rewrite decide_True by done.
    destruct (Z.ltb_spec (Z.max now_unix 0) now); [split; [done|lia]|].
    destruct (Z.ltb_spec (now + secs) (Z.max now_unix 0)); [split; [done|lia]|]. split; [lia|done]. }
  assert (Hr : forall san eku eku', eku' <> eku ->
                 is_ok (issued_verdict san eku now (now + secs) eku' now_unix) = false).
  { intros san eku eku' Hne. unfold issued_verdict. rewrite decide_False by done.
    destruct (Z.max now_unix 0 <? now); [done|]. by destruct (now + secs <? Z.max now_unix 0). }
  assert (Kc : ID_KP_CLIENT_AUTH ∈ known_oids) by (apply (bool_decide_unpack _); done).
  assert (Ks : ID_KP_SERVER_AUTH ∈ known_oids) by (apply (bool_decide_unpack _); done).
  split_and!.
  - intros csr handle ic Hi Hlen. unfold issue_agent_cert in Hi. destruct (verify_csr csr); [|done].
    unfold verify_leaf_chains_to_ca.
    rewrite !(verify_issued _ _ _ _ _ _ _ _ _ _ _ _ _ _ _ Hca Hi) by done. split; [|by apply Hr].
    rewrite <- (Hw (SAN_URN_PREFIX +:+ handle) ID_KP_CLIENT_AUTH).
    unfold issued_verdict. rewrite decide_True by done. destruct (Z.max now_unix 0 <? now), (now + secs <? Z.max now_unix 0); try done.
  - intros csr id ic Hi Hlen. unfold issue_broker_client_cert in Hi. destruct (verify_csr csr); [|done].
    split; [by rewrite (verify_issued _ _ _ _ _ _ _ _ _ _ _ _ _ _ _ Hca Hi)|].
    intros eku Hk. unfold verify_leaf_chains_to_ca.
    rewrite (verify_issued _ _ _ _ _ _ _ _ _ _ _ _ _ _ _ Hca Hi) by done.
    unfold issued_verdict. destruct (Z.max now_unix 0 <? now), (now + secs <? Z.max now_unix 0); try done. by case_decide.
  - intros key id ic Hi Hlen. unfold build_server_leaf in Hi. steps_in Hi.
    rewrite !(verify_issued _ _ _ _ _ _ _ _ _ _ _ _ _ _ _ Hca Hi) by done.
    split; [done|by apply Hr].
Qed.

(** The chain decision is exactly its contract.  A leaf is accepted, with a
    URI as its identity, if and only if it parses, declares ecdsa-with-SHA256, is
    issued in the name of the pinned authority, is signed over its own contents
    with the authority's P-256 key, is inside its window, is not itself an
    authority, carries the required usage, and that URI is its first one. *)
Theorem chain_decision_iff leaf_der ca_der eku now uri :
  verify_leaf_chains_to_ca_uri leaf_der ca_der eku now = Ok uri <->
  exists leaf ca, cert_from_der leaf_der = Some leaf /\ cert_from_der ca_der = Some ca /\
    signature_algorithm leaf = oid_new_unwrap ECDSA_WITH_SHA256 /\
    tbs_issuer leaf = tbs_subject ca /\
    (exists kd P tbs sig, spki_to_der (tbs_spki ca) = Some kd /\ from_public_key_der kd = Some P /\
       tbs_to_der leaf = Some tbs /\ signature_bits leaf = Some sig /\
       verify_es256 (p256_x963 P) tbs sig = Ok tt) /\
    not_before (tbs_validity leaf) <= Z.max now 0 <= not_after (tbs_validity leaf) /\
    exists es, tbs_extensions leaf = Some es /\
      (forall e, find_extension es BASIC_CONSTRAINTS_OID = Some e ->
         exists n, basic_constraints_from_der (extn_value e) = Some (false, n)) /\
      (exists o e us, oid_from_str eku = Some o /\ find_extension es EKU_OID = Some e /\
         eku_from_der (extn_value e) = Some us /\ o ∈ us) /\
      (exists e names, find_extension es SAN_OID = Some e /\
         san_from_der (extn_value e) = Some names /\ first_uri names = Some uri).
Proof.
  unfold verify_leaf_chains_to_ca_uri, cert_san_uri. split.
  - intros Hv. destruct (cert_from_der leaf_der) as [leaf|] eqn:El; [|done].
    destruct (cert_from_der ca_der) as [ca|] eqn:Ec; [|done]. exists leaf, ca.
    case_bool_decide; [|done]. case_bool_decide; [|done].
    destruct (spki_to_der (tbs_spki ca)) as [kd|] eqn:Ek; [|done].
    destruct (from_public_key_der kd) as [P|] eqn:EP; [|done].
    destruct (tbs_to_der leaf) as [tbs|] eqn:Et; [|done].
    destruct (signature_bits leaf) as [sig|] eqn:Es; [|done].
    destruct (verify_es256 _ _ _) as [[]|] eqn:Ev; [|done].
    destruct (negb (_ <? _)) eqn:En; [|done]. destruct (negb (not_after _ <? _)) eqn:Ea; [|done].
    bool_prop. destruct (tbs_extensions leaf) as [es|] eqn:Ees; [|done].
    split_and!; try done; [by eauto 10|]. exists es. split; [done|].
    destruct (leaf_is_not_a_ca es) as [[]|] eqn:Eb; [|done]. rewrite leaf_is_not_a_ca_Ok in Eb.
    split; [done|]. steps_in Hv. bool_prop. apply ok_or_Ok in Hv. subst.
    split; [by eauto 10|]. repeat case_match; simplify_eq. eauto 10.
  - intros (leaf & ca & -> & -> & -> & -> & (kd & P & tbs & sig & -> & -> & -> & -> & ->) & Hn
      & es & -> & Hbc & (o & e & us & -> & -> & -> & Ho) & (e' & names & -> & -> & Hu)).
    rewrite !bool_decide_true by done.
    rewrite (proj2 (Z.ltb_ge _ _)) by lia. rewrite (proj2 (Z.ltb_ge _ _)) by lia. cbn [negb].
    rewrite (proj2 (leaf_is_not_a_ca_Ok es) Hbc). by rewrite Hu.
Qed.

(** The agent's request verifies: it carries its key and its own signature. *)
Theorem build_csr_verifies scalar cn csr :
  build_csr scalar cn = Ok csr ->
  (forall c s, csr_from_der csr = Some c -> csr_signature c = Some s -> length s <> 64%nat) ->
  exists v, verify_csr csr = Ok v /\ vc_pubkey_x963 v = p256_x963 (p256_public scalar).
Proof.
  unfold build_csr. intros Hb Hlen. destruct (p256_scalar scalar) as [d|] eqn:Ed; [|done].
  pose proof (mk_is_Some _ _ Ed). apply p256_scalar_id in Ed as ->.
  destruct (x509_name _) as [n|]; [|done].
  destruct (request_builder_new n scalar) as [b|] eqn:Eb; [|done].
  destruct (request_build b) as [c|] eqn:Ec; [|done].
  destruct (request_built _ _ _ _ Eb Ec) as (Ha & Hk & info & Hi & Hs).
  apply ok_or_Ok in Hb. apply csr_from_to in Hb. unfold verify_csr.
  rewrite Hb, Ha, bool_decide_true by done. rewrite Hk, from_public_key_der_point, Hi, Hs.
  unfold verify_es256, p256_x963 at 1. rewrite p256_decode_uncompressed.
  rewrite parse_signature_der by eauto. rewrite ecdsa_verify_sign by done. eauto.
Qed.

End Theorems.

(** ** A concrete authority

    A certificate is what its builder holds; each extension value is its own text;
    the encoding knows the authority's certificate, one leaf of each kind and one
    request. *)
Module X509Toy.
Import Prims.Toy Token.TokenToy.

#[export] Instance Profile_eq_dec : EqDecision (Profile string).
Proof. solve_decision. Defined.
#[export] Instance GeneralName_eq_dec : EqDecision GeneralName.
Proof. solve_decision. Defined.
#[export] Instance KeyUsages_eq_dec : EqDecision KeyUsages.
Proof. solve_decision. Defined.
#[export] Instance AsExtension_eq_dec : EqDecision (AsExtension string).
Proof. solve_decision. Defined.

Record cert := mk_cert
  { c_profile : Profile string; c_serial : bytes; c_validity : Z * Z; c_subject : string;
    c_spki : bytes; c_key : bytes; c_exts : list (AsExtension string) }.
#[export] Instance cert_eq_dec : EqDecision cert.
Proof. solve_decision. Defined.

Definition value_of (x : AsExtension string) : option bytes :=
  match x with
  | XSubjectAltName [UniformResourceIdentifier u] => Some (str_bytes u)
  | XExtendedKeyUsage [o] => Some (str_bytes o)
  | XBasicConstraints true (Some 0) => Some [Byte.x01]
  | XBasicConstraints false None => Some [Byte.x00]
  | XKeyUsage _ => Some []
  | _ => None
  end.

Definition exts_of (p : Profile string) : list (AsExtension string) :=
  match p with
  | ProfileLeaf _ _ _ _ => [XBasicConstraints false None; XKeyUsage [DigitalSignature]]
  | ProfileManual _ => []
  end.

Definition encoded (x : AsExtension string) : Extension string :=
  mk_Extension (associated_oid x) (default [] (value_of x)).

(** The samples: key 'A' is the authority, key 'B' the agent's. *)
Definition ca_key : bytes := replicate 32 Byte.x41.
Definition agent_key : bytes := replicate 32 Byte.x42.
Definition agent_spki : bytes := Byte.x30 :: agent_key ++ agent_key.
Definition ca_cert : cert :=
  mk_cert (ProfileManual (Some "CN=CA")) [Byte.x01] (0, 10000) "CN=CA"
    (Byte.x30 :: ca_key ++ ca_key) ca_key [XBasicConstraints true (Some 0); XKeyUsage [KeyCertSign; CRLSign]].
Definition leaf (san eku : string) : cert :=
  mk_cert (ProfileLeaf "CN=CA" false false true) [Byte.x02] (1000, 1600)
    ("CN=" +:+ after_last_colon san) agent_spki ca_key
    (exts_of (ProfileLeaf "CN=CA" false false true)
       ++ [XSubjectAltName [UniformResourceIdentifier san]; XExtendedKeyUsage [eku]]).
Definition agent_leaf : cert := leaf "urn:signet:prsn:hlin-ai" ID_KP_CLIENT_AUTH.
Definition server_leaf : cert := leaf "urn:signet:server:s1" ID_KP_SERVER_AUTH.

(** The agent's next certificate. *)
Definition renewed_leaf : cert :=
  mk_cert (c_profile agent_leaf) [Byte.x03] (1400, 2000) (c_subject agent_leaf) agent_spki ca_key
    (c_exts agent_leaf).

Definition cert_codes : list (byte * cert) :=
  [(Byte.x01, ca_cert); (Byte.x02, agent_leaf); (Byte.x03, server_leaf); (Byte.x04, renewed_leaf)].

Definition to_der (c : cert) : option bytes :=
  (fun x => [x.1]) <$> List.find (fun x => bool_decide (x.2 = c)) cert_codes.
Definition from_der (b : bytes) : option cert :=
  match b with
  | [t] => snd <$> List.find (fun x => bool_decide (x.1 = t)) cert_codes
  | _ => None
  end.

Lemma from_to_der c d : to_der c = Some d -> from_der d = Some c.
Proof.
  unfold to_der. intros E. destruct (List.find _ _) as [[t c']|] eqn:Ef; [|done].
  injection E as <-. apply List.find_some in Ef as [Hin Hc]. apply bool_decide_eq_true in Hc.
  cbn in Hc. subst c'. cbn in Hin.
  destruct Hin as [[= <- <-]|[[= <- <-]|[[= <- <-]|[[= <- <-]|[]]]]]; reflexivity.
Qed.

Definition csr_bytes (c : string * bytes) : option bytes :=
  if decide (c = ("CN=evil", agent_key)) then Some [Byte.x11]
  else if decide (c = ("CN=agent", agent_key)) then Some [Byte.x12] else None.
Definition csr_parse (b : bytes) : option (string * bytes) :=
  if decide (b = [Byte.x11]) then Some ("CN=evil", agent_key)
  else if decide (b = [Byte.x12]) then Some ("CN=agent", agent_key) else None.

Definition der_sign (key m : bytes) : bytes := signature_to_der (ecdsa_sign key m).

#[export] Instance x509_toy : X509Lib := {|
  oid := string;
  oid_from_str := Some;
  oid_new_unwrap s := s;
  Name := string;
  name_from_str := Some;
  Spki := bytes;
  spki_to_der := Some;
  spki_from_der := Some;
  from_public_key_der b :=
    match b with Byte.x30 :: l => p256_decode (Byte.x04 :: l) | _ => None end;
  SerialNumber := bytes;
  serial_new := Some;
  serial_as_bytes s := s;
  Validity := (Z * Z)%type;
  validity_from_now now d := Some (now, now + d);
  not_before := fst;
  not_after := snd;
  ia5_new := Some;
  CertReq := (string * bytes)%type;
  csr_from_der := csr_parse;
  csr_to_der := csr_bytes;
  csr_algorithm _ := ECDSA_WITH_SHA256;
  csr_public_key c := p256_spki_der (p256_public c.2);
  csr_info_to_der c := Some (str_bytes c.1);
  csr_signature c := Some (der_sign c.2 (str_bytes c.1));
  RequestBuilder := (string * bytes)%type;
  request_builder_new s k := Some (s, k);
  request_build := Some;
  Certificate := cert;
  cert_from_der := from_der;
  cert_to_der := to_der;
  cert_from_pem s := from_der (str_bytes s);
  cert_to_pem c := String.string_of_list_byte <$> to_der c;
  signature_algorithm _ := ECDSA_WITH_SHA256;
  signature_bits c := Some (der_sign (c_key c) (str_bytes (c_subject c)));
  tbs_to_der c := Some (str_bytes (c_subject c));
  tbs_issuer c := profile_issuer (c_profile c) (c_subject c);
  tbs_subject := c_subject;
  tbs_spki := c_spki;
  tbs_serial := c_serial;
  tbs_validity := c_validity;
  tbs_extensions c := Some (map encoded (c_exts c));
  san_from_der b := Some [UniformResourceIdentifier (String.string_of_list_byte b)];
  eku_from_der b := Some [String.string_of_list_byte b];
  basic_constraints_from_der b :=
    if decide (b = [Byte.x01]) then Some (true, Some 0) else Some (false, None);
  CertificateBuilder := cert;
  builder_new p sn v s k key := Some (mk_cert p sn v s k key (exts_of p));
  add_extension c x :=
    match value_of x with
    | Some _ => Some (mk_cert (c_profile c) (c_serial c) (c_validity c) (c_subject c) (c_spki c)
                        (c_key c) (c_exts c ++ [x]))
    | None => None
    end;
  builder_build := Some;
  profile_extensions := exts_of;
|}.

Lemma encoded_ok x : is_Some (value_of x) -> encodes (encoded x) x.
Proof.
  intros [b Hb]. unfold encodes, encoded. rewrite Hb. split; [done|]. destruct x as [l|l|ca n|l| |];
    cbn in Hb; try done.
  - destruct l as [|[u|] [|]]; try done. injection Hb as <-.
    exact (f_equal (fun t => Some [UniformResourceIdentifier t]) (String.string_of_list_byte_of_string u)).
  - destruct l as [|o [|]]; try done. injection Hb as <-.
    exact (f_equal (fun t => Some [t]) (String.string_of_list_byte_of_string o)).
  - destruct ca, n as [[]|]; try done; by injection Hb as <-.
Qed.

#[export, refine] Instance x509_laws_toy : X509Laws := {|
  builder_holds c p sn v s k key xs :=
    c = mk_cert p sn v s k key xs /\ Forall (fun x => is_Some (value_of x)) xs;
|}.
Proof.
  - done.
  - done.
  - intros P. by exists (p256_spki_der P).
  - intros P. exact (p256_decode_uncompressed P).
  - intros now d v [= <-]. done.
  - intros s s' [= <-]. done.
  - intros c d. cbn. unfold csr_bytes, csr_parse.
    case_decide as E1; [intros [= <-]; by rewrite E1|].
    case_decide as E2; [intros [= <-]; by rewrite E2|]. done.
  - intros s k b c [= <-] [= <-]. split_and!; try done. by eexists.
  - apply from_to_der.
  - intros c p. unfold cert_to_pem, cert_from_pem, x509_toy. destruct (to_der c) as [d|] eqn:E; [|done]. intros [= <-].
    unfold str_bytes. rewrite String.list_byte_of_string_of_list_byte. by apply from_to_der.
  - intros i a e k x. cbn. intros Hx. repeat (apply elem_of_cons in Hx as [->|Hx]; [done|]).
    by apply elem_of_nil in Hx.
  - done.
  - intros p sn v s k key b [= <-]. split; [done|]. destruct p; cbn; repeat constructor; by eexists.
  - intros b x b' p sn v s k key xs [-> Hf]. cbn. destruct (value_of x) eqn:E; [|done].
    intros [= <-]. split; [done|]. apply Forall_app. split; [done|]. repeat constructor. by rewrite E.
  - intros b c p sn v s k key xs [-> Hf] [= <-]. split_and!; try done.
    + eexists. split; [done|]. cbn.
      induction Hf; constructor; [by apply encoded_ok|done].
    + by eexists.
Defined.

Definition agent_cert : IssuedCert :=
  Eval vm_compute in
    match issue_agent_cert 1000 [Byte.x12] "hlin-ai" ca_key "CA" [Byte.x02] 600 with
    | Ok ic => ic | Err _ => mk_IssuedCert [] "" "" "" end.
Definition authority_cert : IssuedCert :=
  Eval vm_compute in
    match build_ca_cert 0 ca_key "CA" [Byte.x01] 10000 with
    | Ok ic => ic | Err _ => mk_IssuedCert [] "" "" "" end.

End X509Toy.
Import Prims.Toy Token.TokenToy X509Toy.

(** A request for another name, signed with the agent's key, gets the agent's own
    certificate. *)
Lemma issuance_keystone_witness :
  issue_agent_cert 1000 [Byte.x12] "hlin-ai" ca_key "CA" [Byte.x02] 600 = Ok agent_cert /\
  cert_san_handle (ic_der agent_cert) = Ok (Some "hlin-ai") /\
  issue_agent_cert 1000 [Byte.x11] "hlin-ai" ca_key "CA" [Byte.x02] 600 = Ok agent_cert.
Proof.
  assert (Hi : issue_agent_cert 1000 [Byte.x12] "hlin-ai" ca_key "CA" [Byte.x02] 600 = Ok agent_cert)
    by (vm_compute; reflexivity).
  split; [exact Hi|].
  destruct (issuance_keystone 1000 [Byte.x12] "hlin-ai" ca_key "CA" [Byte.x02] 600 agent_cert Hi)
    as (v & c & Hv & _ & _ & Hs & _ & _ & _ & Hall).
  split; [exact Hs|].
  apply (Hall [Byte.x11] v).
  - rewrite <- Hv. reflexivity.
  - reflexivity.
Defined.

(** The agent's certificate as a client halfway through its window, after it, and
    as a server. *)
Lemma issued_roles_separated_witness :
  verify_leaf_chains_to_ca (ic_der agent_cert) (ic_der authority_cert) ID_KP_CLIENT_AUTH 1300
    = Ok "hlin-ai" /\
  verify_leaf_chains_to_ca (ic_der agent_cert) (ic_der authority_cert) ID_KP_CLIENT_AUTH 1601
    <> Ok "hlin-ai" /\
  is_ok (verify_leaf_chains_to_ca_uri (ic_der agent_cert) (ic_der authority_cert)
           ID_KP_SERVER_AUTH 1300) = false.
Proof.
  assert (Hca : build_ca_cert 0 ca_key "CA" [Byte.x01] 10000 = Ok authority_cert)
    by (vm_compute; reflexivity).
  assert (Hi : issue_agent_cert 1000 [Byte.x12] "hlin-ai" ca_key "CA" [Byte.x02] 600 = Ok agent_cert)
    by (vm_compute; reflexivity).
  assert (Hlen : der_signature_read (ic_der agent_cert)).
  { intros c s Hc Hs. vm_compute in Hc. injection Hc as <-. vm_compute in Hs. injection Hs as <-.
    vm_compute. discriminate. }
  destruct (issued_roles_separated 0 ca_key "CA" [Byte.x01] 10000 authority_cert 1300 1000 [Byte.x02] 600 Hca)
    as (Ha & _).
  destruct (issued_roles_separated 0 ca_key "CA" [Byte.x01] 10000 authority_cert 1601 1000 [Byte.x02] 600 Hca)
    as (Ha' & _).
  destruct (Ha _ _ _ Hi Hlen) as [H1 H2]. destruct (Ha' _ _ _ Hi Hlen) as [H3 _].
  split; [apply H1; lia|]. split; [|exact H2]. intros E%H3. lia.
Defined.

Lemma build_csr_verifies_witness :
  exists v, verify_csr [Byte.x12] = Ok v /\ vc_pubkey_x963 v = p256_x963 (p256_public agent_key).
Proof.
  apply (build_csr_verifies agent_key "agent" [Byte.x12]).
  - vm_compute. reflexivity.
  - intros c s Hc Hs. vm_compute in Hc. injection Hc as <-. vm_compute in Hs. injection Hs as <-.
    vm_compute. discriminate.
Defined.
