(* ===== verification/GrantStatus.v ===== *)
(** * The grant-status query (cli/src/garnet_grant_status_client.rs)

    What the broker makes of the server's answer to a grant-status query, and its
    one retry.  ureq and serde are interfaces: a call is an answer with a status
    below 400, a refusal with a status from 400 (ureq's [Error::Status]), or a
    transport error. *)

From S2P Require Import Prelude Lease.

Record GrantStatusBody := mk_GrantStatusBody
  { gb_status : string; gb_enrollment_confirmed : bool; gb_cert_revoked : bool;
    gb_server_time : string; gb_lease_seconds : option Z; gb_outage_grace_seconds : option Z }.

(** [serde_json::from_str::<GrantStatusBody>] and the RFC 3339 parser. *)
Class GrantStatusLib := {
  grant_status_from_str : string -> option GrantStatusBody;
  parse_rfc3339_unix : string -> option Z;
}.

(** The result of a ureq call; the body is [None] where [into_string] fails. *)
Inductive UreqResult :=
| UreqOk (status : Z) (body : option string)
| UreqStatus (status : Z) (body : option string)
| UreqTransport.

Section Code.
Context `{HG : GrantStatusLib}.

Definition map_response (status : Z) (body : string) : GrantStatusOutcome :=
  if negb (status =? 200) then Unreachable
  else
    match grant_status_from_str body with
    | None => Unreachable
    | Some b =>
        if bool_decide (gb_status b = "active") && gb_enrollment_confirmed b && negb (gb_cert_revoked b)
        then
          match parse_rfc3339_unix (gb_server_time b) with
          | Some server_time =>
              let sla :=
                match gb_lease_seconds b, gb_outage_grace_seconds b with
                | Some l, Some g => Some (mk_ServerSla l g)
                | _, _ => None
                end in
              Live server_time sla
          | None => Unreachable
          end
        else Revoked
    end.

Context {W : Type} (call : W -> UreqResult * W).

(** [HttpGrantStatusClient::attempt]: [Err(())] on any error of the call. *)
Definition attempt (w : W) : result unit GrantStatusOutcome * W :=
  let '(r, w) := call w in
  (match r with
   | UreqOk status body => Ok (map_response status (default EmptyString body))
   | UreqStatus _ _ | UreqTransport => Err tt
   end, w).

Definition query_with_one_retry (w : W) : GrantStatusOutcome * W :=
  let '(r, w) := attempt w in
  match r with
  | Ok outcome => (outcome, w)
  | Err _ =>
      let '(r, w) := attempt w in
      (match r with Ok outcome => outcome | Err _ => Unreachable end, w)
  end.

(** The answer the outcome stands on: the first, or the second after an error. *)
Definition deciding (w : W) : UreqResult :=
  match call w with
  | (UreqOk s b, _) => UreqOk s b
  | (_, w) => (call w).1
  end.

(** A body that says the grant is live. *)
Definition affirmative (b : GrantStatusBody) : Prop :=
  gb_status b = "active" /\ gb_enrollment_confirmed b = true /\ gb_cert_revoked b = false.

Lemma map_response_spec status body :
  match map_response status body with
  | Revoked => exists b, status = 200 /\ grant_status_from_str body = Some b /\ ~ affirmative b
  | Live t sla => exists b, status = 200 /\ grant_status_from_str body = Some b /\ affirmative b /\
      parse_rfc3339_unix (gb_server_time b) = Some t /\
      (forall l, sla = Some l -> gb_lease_seconds b = Some (sla_lease_seconds l) /\
                                 gb_outage_grace_seconds b = Some (sla_outage_grace_seconds l))
  | Unreachable => status <> 200 \/ grant_status_from_str body = None \/
      exists b, grant_status_from_str body = Some b /\ affirmative b /\
        parse_rfc3339_unix (gb_server_time b) = None
  end.
Proof.
  unfold map_response, affirmative. destruct (Z.eqb_spec status 200) as [->|Hs]; cbn [negb]; [|by left].
  destruct (grant_status_from_str body) as [b|] eqn:Eb; [|by right; left].
  destruct (bool_decide (gb_status b = "active")) eqn:E1; bool_prop.
  2:{ cbn. exists b. split_and!; try done. intros (? & ? & ?); congruence. }
  destruct (gb_enrollment_confirmed b) eqn:E2; [|cbn; exists b; split_and!; try done; intros (? & ? & ?); congruence].
  destruct (gb_cert_revoked b) eqn:E3; [cbn; exists b; split_and!; try done; intros (? & ? & ?); congruence|]. cbn.
  destruct (parse_rfc3339_unix (gb_server_time b)) as [t|] eqn:Et; [|right; right; by exists b].
  exists b. split_and!; try done; destruct (gb_lease_seconds b), (gb_outage_grace_seconds b);
    try done; intros l [= <-]; done.
Qed.

(** The query fails safe.  A grant is reported revoked exactly when the
    answer it stands on is a 200 whose body parses and is not an affirmative one,
    and live only on a 200 with an affirmative body and a readable server time,
    with service levels only when the body gives both; anything else is
    unreachable.  Whatever the network does, at most two calls are made, and one
    only when the first is answered below 400. *)
Theorem query_fails_safe w :
  let r := query_with_one_retry w in
  (r.1 = Revoked <-> exists body b, deciding w = UreqOk 200 body /\
     grant_status_from_str (default EmptyString body) = Some b /\ ~ affirmative b) /\
  (forall t sla, r.1 = Live t sla -> exists body b, deciding w = UreqOk 200 body /\
     grant_status_from_str (default EmptyString body) = Some b /\ affirmative b /\
     parse_rfc3339_unix (gb_server_time b) = Some t /\
     (forall l, sla = Some l -> gb_lease_seconds b = Some (sla_lease_seconds l) /\
                                gb_outage_grace_seconds b = Some (sla_outage_grace_seconds l))) /\
  (r.2 = (call w).2 /\ (exists s b, (call w).1 = UreqOk s b) \/ r.2 = (call (call w).2).2).
Proof.
  cbv zeta. unfold query_with_one_retry, attempt, deciding.
  assert (Hm : forall s body, (map_response s (default EmptyString body) = Revoked <->
      exists body' b, UreqOk s body = UreqOk 200 body' /\
        grant_status_from_str (default EmptyString body') = Some b /\ ~ affirmative b) /\
    forall t sla, map_response s (default EmptyString body) = Live t sla ->
      exists body' b, UreqOk s body = UreqOk 200 body' /\
        grant_status_from_str (default EmptyString body') = Some b /\ affirmative b /\
        parse_rfc3339_unix (gb_server_time b) = Some t /\
        (forall l, sla = Some l -> gb_lease_seconds b = Some (sla_lease_seconds l) /\
                                   gb_outage_grace_seconds b = Some (sla_outage_grace_seconds l))).
  { intros s body. pose proof (map_response_spec s (default EmptyString body)) as Hs.
    destruct (map_response s (default EmptyString body)) as [t' sla'| |].
    - destruct Hs as (b & -> & Hb & Ha & Ht & Hl). split.
      + split; [done|]. intros (body' & b' & [= <-] & Hb' & Hn). by simplify_eq.
      + intros t sla [= -> ->]. eauto 10.
    - destruct Hs as (b & -> & Hb & Ha). split; [|done]. split; [eauto 10|done].
    - split; [|done]. split; [done|]. intros (body' & b' & [= -> <-] & Hb' & Hn).
      destruct Hs as [?|[?|(b & ? & ? & _)]]; by simplify_eq. }
  destruct (call w) as [[s body|s body|] w1] eqn:E1; cbn [fst snd].
  - destruct (Hm s body) as [H1 H2]. split_and!; eauto.
  - destruct (call w1) as [[s' body'|s' body'|] w2] eqn:E2; cbn [fst snd].
    + destruct (Hm s' body') as [H1 H2]. split_and!; eauto.
    + split_and!; [naive_solver|done|by right].
    + split_and!; [naive_solver|done|by right].
  - destruct (call w1) as [[s' body'|s' body'|] w2] eqn:E2; cbn [fst snd].
    + destruct (Hm s' body') as [H1 H2]. split_and!; eauto.
    + split_and!; [naive_solver|done|by right].
    + split_and!; [naive_solver|done|by right].
Qed.

(** A refusal of the server, a status from 400, is asked again like a broken
    connection. *)
Theorem refusal_requeried w status body w1 :
  call w = (UreqStatus status body, w1) ->
  query_with_one_retry w = (match (attempt w1).1 with Ok o => o | Err _ => Unreachable end, (call w1).2).
Proof.
  intros E. unfold query_with_one_retry, attempt. rewrite E. by destruct (call w1).
Qed.

End Code.

Lemma refusal_requeried_witness :
  let G := {| grant_status_from_str _ := Some (mk_GrantStatusBody "active" true false "t" None None);
              parse_rfc3339_unix _ := Some 5 |} in
  let call := fun n : nat =>
    match n with O => (UreqStatus 403 None, 1%nat) | _ => (UreqOk 200 None, 2%nat) end in
  @query_with_one_retry G nat call 0%nat = (Live 5 None, 2%nat).
Proof.
  intros G call. exact (@refusal_requeried G nat call 0%nat 403 None 1%nat eq_refl).
Defined.
