(* ===== verification/BrokerTls.v ===== *)
(** * The broker's channel (cli/src/broker_tls.rs, broker.rs, broker_client.rs)

    The two certificate verifiers that the TLS configurations install, the
    connection handler of the broker behind the first and the broker client
    behind the second.  The handshake itself is rustls: it is complete when the
    installed verifier accepts the peer's chain and the peer proves possession of
    the leaf's key, which is the argument [proof].  The theorems join the
    certificate authority, the token and the broker: who can reach the keystore,
    and which broker an agent will talk to. *)

From S2P Require Import Prelude Prims CryptoCore Ecdsa Channel CliError Keystore SoftKeystore HostSigner HostSignerTheorems Token Lease Broker Text X509 X509Theorems.
Import Channel.Wire.

(** [rustls::Error], the cases the verifiers return. *)
Inductive TlsError :=
| UnknownIssuer | BadEncoding | ApplicationVerificationFailure | General (what : string).

#[export] Instance TlsError_eq_dec : EqDecision TlsError.
Proof. solve_decision. Defined.

Inductive SignatureScheme := ECDSA_NISTP256_SHA256.

(** [K2ClientCertVerifier::client_auth_mandatory], [supported_verify_schemes] and
    the TLS 1.2 signature methods, which always refuse. *)
Definition client_auth_mandatory : bool := true.
Definition supported_verify_schemes : list SignatureScheme := [ECDSA_NISTP256_SHA256].
Definition server_verify_tls12_signature : result TlsError unit :=
  Err (General "garnet broker: TLS 1.2 is not supported").
Definition client_verify_tls12_signature : result TlsError unit :=
  Err (General "garnet client: TLS 1.2 is not supported").

Section Code.
Context `{HS : Sha256} `{HB : Base64Url} `{HH : Hex} `{HX : X509Lib}.

(** [K2ClientCertVerifier::verify_client_cert]; [now] is [UnixTime::as_secs]. *)
Definition verify_client_cert (ca_anchor_der end_entity : bytes) (intermediates : list bytes) (now : Z)
    : result TlsError unit :=
  guard bool_decide (intermediates = []) else UnknownIssuer ;;
  let*? _ := map_err (fun _ => UnknownIssuer)
      (verify_leaf_chains_to_ca end_entity ca_anchor_der ID_KP_CLIENT_AUTH (i64_wrap now)) in
  Ok tt.

(** [K2ServerCertVerifier::verify_server_cert]. *)
Definition verify_server_cert (ca_anchor_der : bytes) (pinned_broker_spki : option string)
    (end_entity : bytes) (intermediates : list bytes) (now : Z) : result TlsError unit :=
  guard bool_decide (intermediates = []) else UnknownIssuer ;;
  let*? _ := map_err (fun _ => UnknownIssuer)
      (verify_leaf_chains_to_ca_uri end_entity ca_anchor_der ID_KP_SERVER_AUTH (i64_wrap now)) in
  match pinned_broker_spki with
  | Some pin =>
      let*? presented := map_err (fun _ => BadEncoding) (cert_spki_sha256_b64url end_entity) in
      guard bool_decide (presented = pin) else ApplicationVerificationFailure ;;
      Ok tt
  | None => Ok tt
  end.

(** [k2_pinned_client_config] and [broker_pinned_client_config] differ in the pin
    they install. *)
Record ClientConfig := mk_ClientConfig
  { cc_ca_anchor_der : bytes; cc_client_cert_chain : list bytes; cc_client_key : bytes;
    cc_pinned_broker_spki : option string }.

Definition k2_pinned_client_config (ca_anchor_der : bytes) (client_cert_chain : list bytes)
    (client_key : bytes) : ClientConfig :=
  mk_ClientConfig ca_anchor_der client_cert_chain client_key None.

Definition broker_pinned_client_config (ca_anchor_der : bytes) (client_cert_chain : list bytes)
    (client_key : bytes) (broker_spki_pin : string) : ClientConfig :=
  mk_ClientConfig ca_anchor_der client_cert_chain client_key (Some broker_spki_pin).

(** A completed server handshake: the leaf that [peer_certificates().first()]
    gives.  Client authentication is mandatory, so an empty chain fails. *)
Definition server_handshake (ca_anchor_der : bytes) (proof : bytes -> bool) (chain : list bytes)
    (now : Z) : option bytes :=
  match chain with
  | [] => None
  | leaf :: intermediates =>
      if is_ok (verify_client_cert ca_anchor_der leaf intermediates now) && proof leaf
      then Some leaf else None
  end.

(** What [conn.complete_io] gives [BrokerClient::perform] on a connection made with the
    configuration.  The handshake itself is rustls'; of it only what the client
    distinguishes is kept: no certificate arrives (the empty chain: the socket failed
    or the broker hung up before), the configured verifier refuses the one that did, or
    the rest ([proof]: the broker's proof of its key and the remaining flights) fails or
    succeeds.  [Some e] is an [io::Error] that carries the verifier's error, [None] any
    other failure, a handshake that is still going on included: the code answers
    all of them alike. *)
Definition client_handshake (config : ClientConfig) (proof : bytes -> bool) (server_chain : list bytes)
    (now : Z) : result (option TlsError) unit :=
  match server_chain with
  | [] => Err None
  | leaf :: intermediates =>
      let*? _ := map_err Some (verify_server_cert (cc_ca_anchor_der config)
          (cc_pinned_broker_spki config) leaf intermediates now) in
      guard proof leaf else None ;;
      Ok tt
  end.

Definition is_pin_mismatch (e : option TlsError) : bool :=
  bool_decide (e = Some ApplicationVerificationFailure).

Definition broker_unreachable : CliError :=
  cli_new 69 "broker_unreachable"
    "the Signet broker mutual-TLS handshake failed (broker down, or a rejected/expired credential)".

Definition pin_mismatch : CliError :=
  cli_new 69 "broker_pin_mismatch"
    "the local broker presented an identity that does not match this credential's pinned broker key; the broker may have been re-provisioned (its identity rotates on re-provision)".

(** [BrokerClient::perform] up to the handshake: [connected] is whether the socket
    opened. *)
Definition establish (config : ClientConfig) (connected : bool) (proof : bytes -> bool)
    (server_chain : list bytes) (now : Z) : cliresult unit :=
  guard connected else
    cli_new 69 "broker_unreachable" "could not reach the Signet broker" ;;
  match client_handshake config proof server_chain now with
  | Err e => Err (if is_pin_mismatch e then pin_mismatch else broker_unreachable)
  | Ok _ => Ok tt
  end.

(** [BrokerClient::perform]: [exchange] is what the handshaken stream does with
    the framed request, a [broker_unreachable] where a frame fails. *)
Definition perform (config : ClientConfig) (connected : bool) (proof : bytes -> bool)
    (server_chain : list bytes) (now : Z) (exchange : BrokerRequest -> cliresult Response)
    (broker_token : string) (op : Op) : cliresult Response :=
  let*? _ := establish config connected proof server_chain now in
  exchange (mk_BrokerRequest broker_token op).

(** ** The listener *)

Context `{HK : Keystore St} `{HU : UuidLib} `{HC : TokenCodec}.

(** One connection of the listener, from its handshake to the response written. *)
Definition serve_connection
    (request_from_slice : bytes -> option BrokerRequest) (response_to_vec : Response -> option bytes)
    (ca_anchor_der : bytes) (ctx : BrokerContext) (st : BrokerState)
    (proof : bytes -> bool) (chain : list bytes) (tls_now : Z) (input : bytes) (now now' : Z)
    (status : uuid -> string -> string -> GrantStatusOutcome) : option bytes * BrokerState :=
  match server_handshake ca_anchor_der proof chain tls_now with
  | None => (None, st)
  | Some leaf =>
      handle_connection request_from_slice response_to_vec ctx st
        (match cert_san_handle leaf with Ok (Some h) => Some h | _ => None end)
        (cert_thumbprint_b64url leaf) input now now' status
  end.

(** The identity a leaf is accepted with is the one read from it afterwards. *)
Lemma chain_san_uri leaf ca eku now uri :
  verify_leaf_chains_to_ca_uri leaf ca eku now = Ok uri -> cert_san_uri leaf = Ok (Some uri).
Proof.
  unfold verify_leaf_chains_to_ca_uri. intros Hv. steps_in Hv. apply ok_or_Ok in Hv. by subst.
Qed.

Lemma chain_handle leaf ca eku now h :
  verify_leaf_chains_to_ca leaf ca eku now = Ok h -> cert_san_handle leaf = Ok (Some h).
Proof.
  unfold verify_leaf_chains_to_ca, cert_san_handle. intros Hv. steps_in Hv.
  apply ok_or_Ok in Hv. erewrite chain_san_uri by done. cbn [mbind option_bind]. by rewrite Hv.
Qed.

Lemma server_handshake_Some ca proof chain now leaf :
  server_handshake ca proof chain now = Some leaf <->
  chain = [leaf] /\ proof leaf = true /\
  exists h, verify_leaf_chains_to_ca leaf ca ID_KP_CLIENT_AUTH (i64_wrap now) = Ok h.
Proof.
  unfold server_handshake, verify_client_cert. destruct chain as [|l inter]; [split; [done|naive_solver]|].
  case_bool_decide as Ei.
  - subst inter. destruct (verify_leaf_chains_to_ca l ca ID_KP_CLIENT_AUTH (i64_wrap now)) as [h|] eqn:Ev; cbn.
    + destruct (proof l) eqn:Ep; split.
      * intros [= <-]. eauto.
      * intros ([= ->] & _). done.
      * done.
      * intros ([= ->] & ? & _). congruence.
    + split; [done|]. intros ([= ->] & _ & h & Eh). congruence.
  - split; [done|]. intros ([= -> ->] & _). done.
Qed.

End Code.

Section Theorems.
Context `{HS : Sha256} `{HB : Base64Url} `{HH : Hex} `{HX : X509Lib} {HLaws : X509Laws}.
Context `{HK : Keystore St} `{HU : UuidLib} `{HC : TokenCodec} {HLoc : KeystoreLocal St} {HD : B64NoDot}.
Context (request_from_slice : bytes -> option BrokerRequest) (response_to_vec : Response -> option bytes).

(** C14: Only certified agents with their own token reach the keystore.  Whatever
    chain, bytes and clock a connection brings, either nothing is served and the
    keystore is untouched, or the chain is a single leaf the pinned authority
    issued for a PRSN handle as a client, the peer proved possession of its key,
    and the request read carries a broker token signed by the deployment's key for
    that handle and for exactly that leaf; then no key of another handle changes. *)
Theorem connection_gate ca ctx st proof chain tls_now input now now' status :
  let r := serve_connection request_from_slice response_to_vec ca ctx st proof chain tls_now input
             now now' status in
  keystore r.2 = keystore st \/
  exists leaf h req rest c,
    chain = [leaf] /\ proof leaf = true /\
    verify_leaf_chains_to_ca leaf ca ID_KP_CLIENT_AUTH (i64_wrap tls_now) = Ok h /\
    Frame.read_frame request_from_slice input = Ok (req, rest) /\
    bound_token (br_token req) (k1_verify_key ctx) AudBroker h (cert_thumbprint_b64url leaf) c /\
    forall l, handle l <> h -> key_at (keystore r.2) l = key_at (keystore st) l.
Proof.
  cbv zeta. unfold serve_connection.
  destruct (server_handshake ca proof chain tls_now) as [leaf|] eqn:Eh; [|by left].
  apply server_handshake_Some in Eh as (Hc & Hp & h & Hv).
  rewrite (chain_handle _ _ _ _ _ Hv). unfold handle_connection.
  destruct (Frame.read_frame request_from_slice input) as [[req rest]|] eqn:Er; [|by left].
  set (i := mk_Incoming h (cert_thumbprint_b64url leaf) req now now' status).
  pose proof (handle_request_cases ctx st i) as Hcases.
  destruct (handle_request ctx st i) as [resp st'] eqn:Ei. cbn [fst snd] in *.
  destruct Hcases as [[_ Hk]|(v & Ht & _ & _ & Hk)]; [by left|right].
  unfold token_of in Ht. destruct (verify_skipping_time _ _ _ _ _) as [v'|] eqn:Es; [|done].
  unfold verify_skipping_time in Es.
  destruct (verify_structural _ _ _ _ _) as [c|] eqn:Ec; [|done].
  apply verify_structural_Ok in Ec. exists leaf, h, req, rest, c. split_and!; try done.
  intros l Hl. rewrite Hk. unfold handle_op.
  pose proof (dispatch_other (keystore st) h (br_op req) l Hl) as Hd.
  cbn [in_handle in_req i]. by destruct (dispatch _ _ _).
Qed.

(** An enrolled agent is admitted as itself.  The authority issues a
    certificate for a handle, the token service mints a broker token for that
    handle bound to the certificate's thumbprint; then at any time in the
    certificate's window the broker completes the handshake, and the request is
    answered by the check-at-use core as that handle with that token's grant.  The
    same token presented with any certificate of another thumbprint does not
    verify. *)
Theorem enrolled_agent_admitted now0 ca cn serial0 secs0 ica now csr h serial secs ic
    k1 kid gid ttl tnow jti si sig ctx st proof tls_now input op rest n n' status :
  build_ca_cert now0 ca cn serial0 secs0 = Ok ica ->
  issue_agent_cert now csr h ca cn serial secs = Ok ic -> der_signature_read (ic_der ic) ->
  encode_signing_input kid AudBroker h (ic_thumbprint_b64url ic) gid ttl tnow jti = Ok si ->
  sign_es256 k1 (str_bytes si) = Ok sig -> ic_thumbprint_b64url ic <> EmptyString ->
  k1_verify_key ctx = p256_x963 (p256_public k1) ->
  now <= i64_wrap tls_now <= now + secs -> 0 <= i64_wrap tls_now -> proof (ic_der ic) = true ->
  Frame.read_frame request_from_slice input = Ok (mk_BrokerRequest (compact si sig) op, rest) ->
  let i := mk_Incoming h (ic_thumbprint_b64url ic) (mk_BrokerRequest (compact si sig) op) n n' status in
  token_of ctx i = Some (mk_VerifiedToken h gid (uuid_to_string jti) (i64_wrap (tnow + ttl))) /\
  serve_connection request_from_slice response_to_vec (ic_der ica) ctx st proof [ic_der ic] tls_now
    input n n' status =
  (ok_opt (Frame.write_frame response_to_vec (handle_request ctx st i).1), (handle_request ctx st i).2) /\
  forall cnf' h', cnf' <> ic_thumbprint_b64url ic ->
    is_ok (verify_skipping_time (compact si sig) (k1_verify_key ctx) AudBroker h' cnf') = false.
Proof.
  intros Hca Hi Hlen Hsi Hsig Hne Hk1 Hw H0' Hp Hr. cbv zeta.
  destruct (minted_structural _ _ _ _ _ _ _ _ _ _ _ Hsi Hsig Hne) as [_ Hb].
  pose proof (proj2 (verify_structural_Ok _ _ _ _ _ _) Hb) as Hst.
  split_and!.
  - unfold token_of, verify_skipping_time. cbn [br_token in_req in_handle in_cnf].
    rewrite Hk1, Hst. unfold into_verified. cbn [c_grant_id c_sub c_jti c_exp].
    by rewrite uuid_parse_to_string.
  - unfold issue_agent_cert in Hi. destruct (verify_csr csr) as [v|]; [|done].
    assert (Kc : ID_KP_CLIENT_AUTH ∈ known_oids) by (apply (bool_decide_unpack _); done).
    pose proof (verify_issued _ _ _ _ _ _ _ _ _ _ _ _ _ ID_KP_CLIENT_AUTH (i64_wrap tls_now)
                  Hca Hi Hlen Kc Kc) as Hu.
    unfold issued_verdict in Hu. rewrite Z.max_l in Hu by done.
    rewrite (proj2 (Z.ltb_ge _ _)) in Hu by lia. rewrite (proj2 (Z.ltb_ge _ _)) in Hu by lia.
    rewrite decide_True in Hu by done.
    assert (Hh : verify_leaf_chains_to_ca (ic_der ic) (ic_der ica) ID_KP_CLIENT_AUTH (i64_wrap tls_now)
                 = Ok h) by (unfold verify_leaf_chains_to_ca; by rewrite Hu, strip_prefix_app).
    unfold serve_connection.
    rewrite (proj2 (server_handshake_Some _ _ _ _ _)) by eauto.
    rewrite (chain_handle _ _ _ _ _ Hh). unfold handle_connection. rewrite Hr.
    apply build_leaf_Ok in Hi as (_ & c & (_ & _ & _ & <-)%finish_Ok & _).
    by destruct (handle_request _ _ _).
  - intros cnf' h' Hc. unfold verify_skipping_time. rewrite Hk1.
    destruct (verify_structural (compact si sig) _ AudBroker h' cnf') as [c'|] eqn:E; [|done].
    exfalso. apply Hc. apply verify_structural_Ok in E.
    destruct E as [(p0 & p1 & p2 & hd & b0 & b1 & sg & E0 & _ & _ & _ & _ & _ & _ & E1 & E2) _ _ _ Hc' _].
    destruct Hb as [(q0 & q1 & q2 & hd' & d0 & d1 & sg' & F0 & _ & _ & _ & _ & _ & _ & F1 & F2) _ _ _ _ _].
    rewrite E0 in F0. simplify_eq. by cbn in Hc'; simplify_eq.
Qed.

(** C25: An agent talks only to its own broker.  A channel is established, and a
    request sent, exactly when the presented chain is one leaf that the pinned
    authority issued as a server, whose public key has the pinned hash and whose
    holder proved possession of it.  A leaf with the authority's signature but
    another key - what a holder of the authority's key can mint - is exactly what
    is reported as a pin mismatch, the only failure a re-pickup recovers. *)
Theorem agent_pins_its_broker anchor chain key pin connected proof server_chain now :
  let config := broker_pinned_client_config anchor chain key pin in
  (establish config connected proof server_chain now = Ok tt <->
     exists leaf uri, connected = true /\ server_chain = [leaf] /\ proof leaf = true /\
       verify_leaf_chains_to_ca_uri leaf anchor ID_KP_SERVER_AUTH (i64_wrap now) = Ok uri /\
       cert_spki_sha256_b64url leaf = Ok pin) /\
  (establish config connected proof server_chain now = Err pin_mismatch <->
     exists leaf uri pin', connected = true /\ server_chain = [leaf] /\
       verify_leaf_chains_to_ca_uri leaf anchor ID_KP_SERVER_AUTH (i64_wrap now) = Ok uri /\
       cert_spki_sha256_b64url leaf = Ok pin' /\ pin' <> pin) /\
  (forall exchange token op,
     is_ok (establish config connected proof server_chain now) = false ->
     is_ok (perform config connected proof server_chain now exchange token op) = false).
Proof.
  cbv zeta. split_and!; [| |].
  3:{ intros exchange token op. unfold perform. by destruct (establish _ _ _ _ _). }
  - unfold establish, client_handshake, verify_server_cert, broker_pinned_client_config.
    cbn [cc_ca_anchor_der cc_pinned_broker_spki]. split.
    + intros He. destruct connected; [|done]. destruct server_chain as [|leaf inter]; [done|].
      case_bool_decide as Ei; [subst inter|by cbn in He].
      destruct (verify_leaf_chains_to_ca_uri _ _ _ _) as [uri|] eqn:Ev; cbn [map_err] in He; [|done].
      destruct (cert_spki_sha256_b64url leaf) as [p|] eqn:Es; cbn [map_err] in He; [|done].
      case_bool_decide as Ep; [subst p|by cbn in He]. cbn [map_err] in He.
      destruct (proof leaf) eqn:Epf; [|done]. eauto 10.
    + intros (leaf & uri & -> & -> & Hp & Hv & Hs). rewrite bool_decide_true by done.
      rewrite Hv, Hs. cbn [map_err]. by rewrite bool_decide_true, Hp by done.
  - unfold establish, client_handshake, verify_server_cert, broker_pinned_client_config.
    cbn [cc_ca_anchor_der cc_pinned_broker_spki]. split.
    + intros He. destruct connected; [|done]. destruct server_chain as [|leaf inter]; [done|].
      case_bool_decide as Ei; [subst inter|by cbn in He].
      destruct (verify_leaf_chains_to_ca_uri _ _ _ _) as [uri|] eqn:Ev; cbn [map_err] in He; [|done].
      destruct (cert_spki_sha256_b64url leaf) as [p|] eqn:Es; cbn [map_err] in He; [|done].
      case_bool_decide as Ep; [subst p; cbn [map_err] in He; by destruct (proof leaf)|]. eauto 10.
    + intros (leaf & uri & pin' & -> & -> & Hv & Hs & Hp). rewrite bool_decide_true by done.
      rewrite Hv, Hs. cbn [map_err]. by rewrite bool_decide_false by done.
Qed.

End Theorems.

(** ** A concrete agent *)
Module BrokerTlsToy.
Import Prims.Toy SoftToy TokenToy BrokerToy X509Toy.

Definition bound_claims : Claims :=
  mk_Claims ISS "hlin-ai" "signet-broker" 1000 1000 1900 "j1" "g1"
    (Some (ic_thumbprint_b64url agent_cert)).
#[export] Instance codec_bound : TokenCodec := codec_of sample_header bound_claims.

Definition signing_input : string :=
  Eval vm_compute in
    match encode_signing_input (id_of "k1") AudBroker "hlin-ai" (ic_thumbprint_b64url agent_cert)
            (id_of "g1") 900 1000 (id_of "j1") with Ok si => si | Err _ => "" end.
Definition signature_of_input : bytes :=
  Eval vm_compute in
    match sign_es256 k1_secret (str_bytes signing_input) with Ok s => s | Err _ => [] end.

Definition hlin_request : BrokerRequest :=
  mk_BrokerRequest (compact signing_input signature_of_input) (Exists "hlin-ai-signing").

(** One request has one encoding. *)
Definition parse_request (b : bytes) : option BrokerRequest :=
  if decide (b = [Byte.x07]) then Some hlin_request else None.

End BrokerTlsToy.
Import Prims.Toy SoftToy TokenToy BrokerToy X509Toy BrokerTlsToy.

Lemma enrolled_agent_admitted_witness :
  let i := mk_Incoming "hlin-ai" (ic_thumbprint_b64url agent_cert) hlin_request 0 0
             (fun _ _ _ => Live 1200 None) in
  token_of ctx0 i = Some (mk_VerifiedToken "hlin-ai" (id_of "g1") "j1" 1900) /\
  serve_connection parse_request (fun _ => Some [Byte.x01]) (ic_der authority_cert) ctx0
    (mk_bstate ∅ empty_store) (fun _ => true) [ic_der agent_cert] 1300
    [Byte.x00; Byte.x00; Byte.x00; Byte.x01; Byte.x07] 0 0 (fun _ _ _ => Live 1200 None) =
  (ok_opt (Frame.write_frame (fun _ => Some [Byte.x01])
             (handle_request ctx0 (mk_bstate ∅ empty_store) i).1),
   (handle_request ctx0 (mk_bstate ∅ empty_store) i).2).
Proof.
  destruct (enrolled_agent_admitted parse_request (fun _ => Some [Byte.x01])
    0 ca_key "CA" [Byte.x01] 10000 authority_cert 1000 [Byte.x12] "hlin-ai" [Byte.x02] 600 agent_cert
    k1_secret (id_of "k1") (id_of "g1") 900 1000 (id_of "j1") signing_input signature_of_input ctx0
    (mk_bstate ∅ empty_store) (fun _ => true) 1300 [Byte.x00; Byte.x00; Byte.x00; Byte.x01; Byte.x07]
    (Exists "hlin-ai-signing") [] 0 0 (fun _ _ _ => Live 1200 None)) as (Ht & Hs & _).
  - vm_compute. reflexivity.
  - vm_compute. reflexivity.
  - intros c s Hc Hs. vm_compute in Hc. injection Hc as <-. vm_compute in Hs. injection Hs as <-.
    vm_compute. discriminate.
  - vm_compute. reflexivity.
  - vm_compute. reflexivity.
  - discriminate.
  - reflexivity.
  - vm_compute. split; discriminate.
  - vm_compute. discriminate.
  - reflexivity.
  - vm_compute. reflexivity.
  - split; [exact Ht|exact Hs].
Defined.
