(* ===== verification/Anchors.v ===== *)
(** * The transparency log's public anchors (cli/src/anchors.rs)

    The two published files ([roots.jsonl], [vrf-keys.jsonl]), the judgement of
    the epoch a server serves, the per-origin memory with its ratchet, the write
    path's cache of the files, the genesis check, and the binding of served log
    entries to the key that was asked about.  Network reads are arguments; the
    state file is the text it holds. *)

From S2P Require Import Prelude Prims CryptoCore Text VrfIndex Wrap SignedBytes Merkle CliError Token.
Import TransLog.

Definition AT : Ascii.ascii := Ascii.ascii_of_byte Byte.x40.

(** Durations are in seconds. *)
Definition TRANSITION_BOUND : Z := 15 * 60.
Definition ANCHOR_CACHE_MAX_AGE : Z := 24 * 60 * 60.

Definition KNOWN_ANCHORS : list (string * string) :=
  [("https://drive.mysignet.ca", "prsnex/signet-drive-transparency-log");
   ("https://staging.drive.mysignet.ca", "prsnex/signet-drive-transparency-log-staging")].

(** ** Repositories and origins *)

(** The closure [word] of [repo_and_branch]. *)
Definition repo_word (s : string) (extra : bytes) : bool :=
  bool_decide (s <> EmptyString) &&
  forallb (fun b => byte_in b 48 57 || byte_in b 65 90 || byte_in b 97 122
                    || bool_decide (b ∈ extra)) (str_bytes s).

Definition repo_and_branch (repo : string) : option (string * string) :=
  let nb := default (repo, "main") (split_once AT repo) in
  match split_once SLASH nb.1 with
  | None => None
  | Some (owner, short) =>
      let branch_ok :=
        repo_word nb.2 (str_bytes "._-/")
        && negb (starts_with nb.2 "-" || starts_with nb.2 "/" || starts_with nb.2 ".")
        && negb (ends_with nb.2 "/")
        && negb (contains nb.2 "..")
        && negb (contains nb.2 "//") in
      if repo_word owner (str_bytes "-") && repo_word short (str_bytes "._-")
         && negb (starts_with short ".") && branch_ok
      then Some nb else None
  end.

Definition normalize_origin (server_url : string) : string :=
  let trimmed := trim_end_char SLASH (trim server_url) in
  let sr := default ("https", trimmed) (split_once_str "://" trimmed) in
  let host := match split_once SLASH sr.2 with Some (h, _) => h | None => sr.2 end in
  to_ascii_lowercase sr.1 +:+ "://" +:+ to_ascii_lowercase host.

(** [debug] is Rust's [{:?}] rendering of a string, shown in the message only. *)
Definition anchor_repo_for (debug : string -> string) (server_url : string)
    (override_repo : option string) : cliresult (option string) :=
  match override_repo ≫= (fun r => if not_blank r then Some r else None) with
  | Some repo =>
      let repo := trim repo in
      guard bool_decide (is_Some (repo_and_branch repo)) else
        invalid_args ("--anchor-repo / SIGNET_ANCHOR_REPO must be owner/name or owner/name@branch, not "
                      +:+ debug repo) ;;
      Ok (Some repo)
  | None =>
      let origin := normalize_origin server_url in
      Ok (snd <$> (snd <$> list_find (fun kv => kv.1 = origin) KNOWN_ANCHORS))
  end.

(** ** The two files *)

Record RootLine := mk_RootLine
  { r_epoch : Z; log_size : Z; merkle_root_of : bytes; r_epoch_end : bool }.

Record EpochKey := mk_EpochKey
  { k_epoch : Z; vrf_public_key : bytes; genesis_entry_hash : bytes }.

Record AnchorFiles := mk_Anchors { roots : list RootLine; keys : list EpochKey }.

(** ** Modes and verdicts *)

Inductive LogMode :=
| Legacy
| V3 (epoch : Z) (vrf_public_key genesis_entry_hash : bytes).

Inductive EpochVerdict :=
| Anchored (m : LogMode)
| Unanchored (why : string)
| Violation (why : string).

Record ServedEpoch := mk_ServedEpoch { s_epoch : Z; s_vrf_public_key : option bytes }.

(** ** Local state *)

Record AnchorCache := mk_AnchorCache
  { c_repo : string; fetched_at : Z; roots_jsonl : string; vrf_keys_jsonl : string;
    genesis_checked : option Z }.

Record OriginState := mk_OriginState
  { highest_epoch : Z; first_unanchored : gmap Z Z; anchor_cache : option AnchorCache }.

Definition OriginState_default : OriginState := mk_OriginState 0 ∅ None.

#[export] Instance LogMode_eq_dec : EqDecision LogMode.
Proof. solve_decision. Defined.
#[export] Instance EpochVerdict_eq_dec : EqDecision EpochVerdict.
Proof. solve_decision. Defined.

(** [t?; k] over a list, as a [for] loop that pushes: the first error ends it. *)
Fixpoint try_map {A B E} (f : A -> result E B) (l : list A) : result E (list B) :=
  match l with
  | [] => Ok []
  | a :: l => let*? b := f a in let*? bs := try_map f l in Ok (b :: bs)
  end.

Section Code.
Context `{Sha256, HB64 : Base64Url, Hex, HP : P256, HJ : JsonText, HU : UuidLib, HV : Vrf.VrfR255}.

Definition hex32 (v : option value) (what : string) : cliresult bytes :=
  let*! s := v ≫= value_as_str else invalid_data ("anchor line missing " +:+ what) in
  let*! b := hex_decode s else invalid_data ("anchor line " +:+ what +:+ " is not 32-byte hex") in
  to_array 32 (invalid_data ("anchor line " +:+ what +:+ " is not 32-byte hex")) b.

Definition epoch_of (line : value) : cliresult Z :=
  match value_get line "epoch" with
  | None => Ok 1
  | Some v =>
      let*! n := (value_as_u64 v ≫= u16_try_from) ≫= (fun n => if 1 <=? n then Some n else None)
        else invalid_data "anchor line epoch is not a positive u16" in
      Ok n
  end.

(** One line of each file, as the loops of [Anchors::parse] read it. *)
Definition parse_root_line (line : string) : cliresult RootLine :=
  let*? v := map_err (fun e => invalid_data ("roots.jsonl line: " +:+ e)) (json_from_str line) in
  let*? epoch := epoch_of v in
  let*! size := get_u64 v "log_size" else invalid_data "roots.jsonl line missing log_size" in
  let*? root := hex32 (value_get v "merkle_root") "merkle_root" in
  Ok (mk_RootLine epoch size root (bool_decide (get_bool v "epoch_end" = Some true))).

Definition parse_key_line (line : string) : cliresult EpochKey :=
  let*? v := map_err (fun e => invalid_data ("vrf-keys.jsonl line: " +:+ e)) (json_from_str line) in
  guard bool_decide (get_str v "vrf_suite" = Some Vrf.VRF_SUITE) else
    invalid_data "vrf-keys.jsonl line names a suite this CLI does not implement" ;;
  let*? epoch := epoch_of v in
  let*? key := hex32 (value_get v "vrf_public_key") "vrf_public_key" in
  let*? genesis := hex32 (value_get v "genesis_entry_hash") "genesis_entry_hash" in
  Ok (mk_EpochKey epoch key genesis).

(** The lines a file holds: blank ones are skipped. *)
Definition file_lines (text : string) : list string := List.filter not_blank (lines text).

Definition parse (roots_jsonl keys_jsonl : string) : cliresult AnchorFiles :=
  let*? rs := try_map parse_root_line (file_lines roots_jsonl) in
  let*? ks := try_map parse_key_line (file_lines keys_jsonl) in
  Ok (mk_Anchors rs ks).

Definition key (a : AnchorFiles) (epoch : Z) : cliresult (option EpochKey) :=
  match List.filter (fun k => k_epoch k =? epoch) (keys a) with
  | [] => Ok None
  | [k] => Ok (Some k)
  | _ => Err (transparency_violation ("vrf-keys.jsonl carries two lines for epoch " +:+ pretty epoch))
  end.

Definition epoch_end (a : AnchorFiles) (epoch : Z) : option RootLine :=
  List.find (fun r => (r_epoch r =? epoch) && r_epoch_end r) (roots a).

(** [max_by_key]: the last of the maximal elements. *)
Definition latest_root (a : AnchorFiles) (epoch : Z) : option RootLine :=
  foldl (fun best r => match best with
                       | Some b => if log_size r <? log_size b then best else Some r
                       | None => Some r
                       end)
    None (List.filter (fun r => (r_epoch r =? epoch) && negb (r_epoch_end r)) (roots a)).

(** [iter().max().unwrap_or(1)]. *)
Definition max_or_1 (l : list Z) : Z :=
  match l with [] => 1 | x :: l => foldl Z.max x l end.

Definition max_epoch (a : AnchorFiles) : Z :=
  let from_keys := max_or_1 (map k_epoch (keys a)) in
  let from_ends := max_or_1 (map (fun r => u16_sat (r_epoch r + 1)) (List.filter r_epoch_end (roots a))) in
  let from_roots := max_or_1 (map r_epoch (roots a)) in
  Z.max (Z.max from_keys from_ends) from_roots.

Definition carries (a : AnchorFiles) (epoch : Z) : cliresult bool :=
  if epoch <=? 1 then Ok true
  else
    let*? k := key a epoch in
    Ok (bool_decide (is_Some k) && bool_decide (is_Some (epoch_end a (epoch - 1)))).

(** ** The served epoch *)

Definition from_server_info (info : value) : cliresult ServedEpoch :=
  match value_get info "translog" with
  | None => Ok (mk_ServedEpoch 1 None)
  | Some t =>
      let*? epoch := epoch_of t in
      let*? vrf_public_key :=
        match value_get t "vrf_public_key" with
        | None | Some VNull => Ok None
        | v => let*? k := hex32 v "translog.vrf_public_key" in Ok (Some k)
        end in
      match get_str t "vrf_suite" with
      | Some suite =>
          guard bool_decide (suite = Vrf.VRF_SUITE) else
            transparency_violation ("server-info names VRF suite " +:+ suite
              +:+ ", which this CLI does not implement") ;;
          Ok (mk_ServedEpoch epoch vrf_public_key)
      | None => Ok (mk_ServedEpoch epoch vrf_public_key)
      end
  end.

(** ** The judgement *)

(** The closure [soft_or_hard]. *)
Definition soft_or_hard (past_bound : bool) (why : string) : EpochVerdict :=
  if past_bound then Violation (why +:+ ", for longer than " +:+ pretty (TRANSITION_BOUND / 60) +:+ " minutes")
  else Unanchored why.

Definition judge_epoch (served : ServedEpoch) (anchors : option AnchorFiles) (highest_seen : Z)
    (first_unanchored_age : option Z) : EpochVerdict :=
  if s_epoch served <? highest_seen then
    Violation ("the server serves epoch " +:+ pretty (s_epoch served)
      +:+ " but this CLI has already anchored epoch " +:+ pretty highest_seen
      +:+ " for it: a log cannot go back an epoch")
  else
  let past_bound :=
    match first_unanchored_age with Some age => TRANSITION_BOUND <=? age | None => false end in
  match anchors with
  | None =>
      if s_epoch served <=? 1 then Anchored Legacy
      else Unanchored ("the anchor files could not be read, so epoch " +:+ pretty (s_epoch served)
                       +:+ "'s VRF key cannot be pinned")
  | Some a =>
      let carried_max := max_epoch a in
      if s_epoch served <? carried_max then
        soft_or_hard past_bound ("the anchor files show epoch " +:+ pretty carried_max
          +:+ " but the server serves epoch " +:+ pretty (s_epoch served))
      else if s_epoch served =? 1 then Anchored Legacy
      else
      match carries a (s_epoch served) with
      | Err e => Violation (message e)
      | Ok false =>
          soft_or_hard past_bound ("the server serves epoch " +:+ pretty (s_epoch served)
            +:+ " but the anchor files do not carry it yet")
      | Ok true =>
          match key a (s_epoch served) with
          | Err e => Violation (message e)
          (* [unreachable!]: see [carries_key] *)
          | Ok None => Violation "internal error: entered unreachable code: carries() checked the key line"
          | Ok (Some k) =>
              match s_vrf_public_key served with
              | Some served_key =>
                  if decide (served_key = vrf_public_key k)
                  then Anchored (V3 (s_epoch served) (vrf_public_key k) (genesis_entry_hash k))
                  else Violation ("the server's epoch-" +:+ pretty (s_epoch served)
                         +:+ " VRF key is not the key vrf-keys.jsonl publishes for that epoch")
              | None => Violation ("the server serves epoch " +:+ pretty (s_epoch served)
                         +:+ " without naming its VRF key")
              end
          end
      end
  end.

(** ** The genesis entry *)

Definition genesis_violation (epoch : Z) (what : string) : CliError :=
  transparency_violation ("epoch " +:+ pretty epoch +:+ "'s genesis entry " +:+ what).

(** [opt.is_none_or(Value::is_null)]. *)
Definition absent_or_null (v : value) (k : string) : bool :=
  match value_get v k with None => true | Some v => value_is_null v end.

Definition check_genesis (mode : LogMode) (anchors : AnchorFiles) (genesis : value) : cliresult unit :=
  match mode with
  | Legacy => Ok tt
  | V3 epoch vrf_pk pinned =>
      let prev := (epoch - 1) mod 2 ^ 16 in
      let*! end_ := epoch_end anchors prev else
        transparency_violation ("no end line for epoch " +:+ pretty prev) in
      let expected_payload :=
        epoch_payload_v3 epoch (log_size end_) (merkle_root_of end_) vrf_pk in
      guard bool_decide (get_u64 genesis "entry_id" = Some 1)
            && bool_decide (get_u64 genesis "entry_version" = Some 3)
            && bool_decide (get_str genesis "key_purpose" = Some "epoch")
            && absent_or_null genesis "account_index"
        else genesis_violation epoch "is not a v3, account-less, first entry" ;;
      let*! payload := get_str genesis "public_key" ≫= b64_decode
        else genesis_violation epoch "has no readable payload" in
      guard bool_decide (payload = expected_payload) else
        genesis_violation epoch
          "does not bind the published end of the previous epoch and this epoch's key" ;;
      let*! created_at := get_u64 genesis "created_at" else genesis_violation epoch "has no created_at" in
      let recomputed :=
        entry_hash_v3 1 None Epoch EPOCH_ALGORITHM_V3 payload created_at (replicate 32 Byte.x00) in
      guard bool_decide (recomputed = pinned) else
        genesis_violation epoch "does not hash to the genesis_entry_hash vrf-keys.jsonl pins" ;;
      Ok tt
  end.

(** ** The state file *)

(** [serde_json::from_str(text).ok()] of a file that may be missing. *)
Definition read_json (text : option string) : option value :=
  text ≫= (fun t => ok_opt (json_from_str t)).

Definition load_first_unanchored (members : list (string * value)) : gmap Z Z :=
  foldl (fun acc kv =>
    match parse_uint u16_max kv.1, value_as_u64 kv.2 with
    | Some e, Some t => <[e := t]> acc
    | _, _ => acc
    end) ∅ members.

Definition load_cache (c : value) : option AnchorCache :=
  match get_str c "repo", get_u64 c "fetched_at", get_str c "roots_jsonl", get_str c "vrf_keys_jsonl" with
  | Some repo, Some at_, Some rs, Some ks =>
      Some (mk_AnchorCache repo at_ rs ks (get_u64 c "genesis_checked" ≫= u16_try_from))
  | _, _, _, _ => None
  end.

Definition load_state (text : option string) (origin : string) : OriginState :=
  match read_json text with
  | None => OriginState_default
  | Some all =>
      match value_get all origin with
      | None => OriginState_default
      | Some o =>
          mk_OriginState
            (default 0 (get_u64 o "highest_epoch" ≫= u16_try_from))
            (default ∅ (load_first_unanchored <$> (value_get o "first_unanchored" ≫= value_as_object)))
            (value_get o "anchor_cache" ≫= load_cache)
      end
  end.

Definition cache_value (c : AnchorCache) : value :=
  json_obj [("repo", VString (c_repo c)); ("fetched_at", VNumber (fetched_at c));
            ("roots_jsonl", VString (roots_jsonl c)); ("vrf_keys_jsonl", VString (vrf_keys_jsonl c));
            ("genesis_checked", json_opt VNumber (genesis_checked c))].

Definition first_value (m : gmap Z Z) : value :=
  json_obj (map (fun et : Z * Z => (pretty et.1, VNumber et.2)) (map_to_list m)).

Definition origin_value (st : OriginState) : value :=
  json_obj [("highest_epoch", VNumber (highest_epoch st));
            ("first_unanchored", first_value (first_unanchored st));
            ("anchor_cache", json_opt cache_value (anchor_cache st))].

(** The document [save_state] updates: what the file holds if it is an object,
    else an empty one. *)
Definition state_document (text : option string) : value :=
  match read_json text with Some (VObject ms) => VObject ms | _ => VObject [] end.

(** [save_state]: the new document is written beside the file and renamed over
    it; [io] is the filesystem's refusal, if any, which leaves the file alone. *)
Definition save_state (io : option CliError) (text : option string) (origin : string) (st : OriginState)
    : cliresult unit * option string :=
  let all := value_index_set (state_document text) origin (origin_value st) in
  match io with
  | Some e => (Err e, text)
  | None => (Ok tt, Some (json_to_pretty all))
  end.

Definition update_state (st : OriginState) (served_epoch : Z) (verdict : EpochVerdict) (now : Z)
    : OriginState :=
  match verdict with
  | Anchored mode =>
      let e := match mode with Legacy => 1 | V3 epoch _ _ => epoch end in
      mk_OriginState (Z.max (highest_epoch st) e)
        (filter (fun kt => e < kt.1) (first_unanchored st)) (anchor_cache st)
  | Unanchored _ =>
      mk_OriginState (highest_epoch st)
        (match first_unanchored st !! served_epoch with
         | Some _ => first_unanchored st
         | None => <[served_epoch := now]> (first_unanchored st)
         end) (anchor_cache st)
  | Violation _ => st
  end.

(** ** Fetching, and the write path's cache *)

(** [get] is [http::get_text_once]. *)
Definition fetch_raw (get : string -> cliresult string) (repo : string) : option (string * string) :=
  match repo_and_branch repo with
  | None => None
  | Some (name, branch) =>
      let base := "https://raw.githubusercontent.com/" +:+ name +:+ "/" +:+ branch in
      match get (base +:+ "/roots.jsonl") with
      | Err _ => None
      | Ok rs =>
          match get (base +:+ "/vrf-keys.jsonl") with
          | Ok text => Some (rs, text)
          | Err e => if decide (code e = "not_found") then Some (rs, EmptyString) else None
          end
      end
  end.

Definition fetch (get : string -> cliresult string) (repo : string) : option AnchorFiles :=
  match fetch_raw get repo with
  | None => None
  | Some (rs, ks) => ok_opt (parse rs ks)
  end.

(** The lines [AnchorCache::new] keeps: the end lines, and the last line of each
    epoch that is not one. *)
Fixpoint cut_lines (lr : list (string * RootLine)) : list string :=
  match lr with
  | [] => []
  | (line, r) :: rest =>
      if r_epoch_end r
         || negb (existsb (fun later => (r_epoch later.2 =? r_epoch r) && negb (r_epoch_end later.2)) rest)
      then line :: cut_lines rest
      else cut_lines rest
  end.

Definition cache_anchors (c : AnchorCache) : option AnchorFiles :=
  ok_opt (parse (roots_jsonl c) (vrf_keys_jsonl c)).

Definition AnchorCache_new (repo : string) (fetched_at : Z) (roots_jsonl vrf_keys_jsonl : string)
    : option AnchorCache :=
  match parse roots_jsonl EmptyString with
  | Err _ => None
  | Ok parsed =>
      let cache := mk_AnchorCache repo fetched_at
        (join_lines (cut_lines (zip (file_lines roots_jsonl) (roots parsed)))) vrf_keys_jsonl None in
      match cache_anchors cache with Some _ => Some cache | None => None end
  end.

(** [now.saturating_sub(t)] seconds since the first sighting of the epoch. *)
Definition sighting_age (st : OriginState) (epoch now : Z) : option Z :=
  (fun t => Z.max 0 (now - t)) <$> (first_unanchored st !! epoch).

Definition cached_verdict (st : OriginState) (served : ServedEpoch) (repo : string) (now : Z)
    : option (EpochVerdict * AnchorFiles) :=
  match anchor_cache st with
  | None => None
  | Some cache =>
      if negb (bool_decide (c_repo cache = repo))
         || (ANCHOR_CACHE_MAX_AGE <=? Z.max 0 (now - fetched_at cache)) then None
      else
      match cache_anchors cache with
      | None => None
      | Some anchors =>
          let verdict := judge_epoch served (Some anchors) (highest_epoch st)
                           (sighting_age st (s_epoch served) now) in
          match verdict with
          | Anchored Legacy => Some (verdict, anchors)
          | Anchored (V3 epoch _ _) =>
              if decide (genesis_checked cache = Some epoch) then Some (verdict, anchors) else None
          | _ => None
          end
      end
  end.

(** ** Account indexes and receipt rules *)

Definition account_index (vrf_public_key : bytes) (account_id : string) (proof_hex : option string)
    (who : string) : cliresult bytes :=
  let*! account := uuid_parse_str account_id else
    invalid_data (who +:+ ": the account id is not a UUID") in
  let*! proof_hex := proof_hex else
    transparency_violation (who +:+ ": the response names an account but carries no VRF proof for it, so its keys cannot be bound to the log in this epoch") in
  let*? proof :=
    match hex_decode proof_hex with
    | Some b => to_array Vrf.PROOF_LEN
        (transparency_violation (who +:+ ": the account's VRF proof is not " +:+ pretty Vrf.PROOF_LEN
           +:+ "-byte hex")) b
    | None => Err (transparency_violation (who +:+ ": the account's VRF proof is not "
                     +:+ pretty Vrf.PROOF_LEN +:+ "-byte hex"))
    end in
  map_err (fun _ => transparency_violation (who +:+ ": the account's VRF proof does not verify under the pinned epoch key: substitution"))
    (Vrf.verify vrf_public_key (uuid_as_bytes account) proof).

Definition receipt_rule (verdict : EpochVerdict) : cliresult LogMode :=
  match verdict with
  | Anchored mode => Ok mode
  | Unanchored why =>
      Err (unanchored ("keys cannot be bound to the transparency log yet: " +:+ why))
  | Violation why => Err (transparency_violation why)
  end.

Definition index_under (mode : LogMode) (account_id : string) (proof : option string) (who : string)
    : cliresult (option (Z * bytes)) :=
  match mode with
  | Legacy => Ok None
  | V3 epoch vrf_pk _ =>
      let*? index := account_index vrf_pk account_id proof who in Ok (Some (epoch, index))
  end.

(** ** Binding a served entry to its key *)

Definition fingerprint_for (purpose : string) (public_key : bytes) : cliresult string :=
  if decide (purpose = "signing") then
    map_err (fun _ => invalid_data "entry public_key is not a P-256 point") (Wrap.fingerprint public_key)
  else if decide (purpose = "kem") then
    map_err (fun _ => invalid_data "entry public_key is not a P-256 point") (Wrap.fingerprint public_key)
  else if decide (purpose = "signing_pq") then Ok (Wrap.fingerprint_raw public_key)
  else if decide (purpose = "kem_pq") then Ok (Wrap.fingerprint_raw public_key)
  else if decide (purpose = "epoch") then Ok (Wrap.fingerprint_raw public_key)
  else Err (invalid_data ("unknown key_purpose " +:+ purpose)).

Definition purpose_of (name : string) : cliresult KeyPurpose :=
  if decide (name = "epoch") then Ok Epoch
  else if decide (name = "signing") then Ok Signing
  else if decide (name = "kem") then Ok Kem
  else if decide (name = "signing_pq") then Ok SigningPq
  else if decide (name = "kem_pq") then Ok KemPq
  else Err (invalid_data ("unknown key_purpose " +:+ name)).

Definition unbound (what : string) : CliError :=
  invalid_data ("the server did not serve the stored entry (" +:+ what
    +:+ "), so the proven leaf cannot be bound to the key asked about (bug256): NOT verified").

(** The account id of a v2 entry, the account index of a v3 one: absent or null
    is the log's own entry. *)
Definition entry_account (entry : value) : cliresult (option uuid) :=
  match value_get entry "account_id" with
  | None | Some VNull => Ok None
  | Some v =>
      let*! u := value_as_str v ≫= uuid_parse_str else invalid_data "entry account_id is not a UUID" in
      Ok (Some u)
  end.

Definition entry_index (entry : value) : cliresult (option bytes) :=
  match value_get entry "account_index" with
  | None | Some VNull => Ok None
  | Some v =>
      let*! b := value_as_str v ≫= hex_decode else invalid_data "entry account_index is not 64-byte hex" in
      let*? i := to_array Vrf.INDEX_LEN (invalid_data "entry account_index is not 64-byte hex") b in
      Ok (Some i)
  end.

Definition bind_leaf (entry : value) (asked_fingerprint asked_purpose : option string) : cliresult bytes :=
  let*! version := get_u64 entry "entry_version" else unbound "entry_version" in
  let*! entry_id := get_u64 entry "entry_id" else unbound "entry_id" in
  let*! purpose := get_str entry "key_purpose" else unbound "key_purpose" in
  let*! algorithm := get_str entry "algorithm" else unbound "algorithm" in
  let*! pk_text := get_str entry "public_key" else unbound "public_key" in
  let*! public_key := b64_decode pk_text else invalid_data "entry public_key is not base64url" in
  let*! created_at := get_u64 entry "created_at" else unbound "created_at" in
  let*? prev := map_err (fun _ => unbound "prev_entry_hash")
                  (hex32 (value_get entry "prev_entry_hash") "prev_entry_hash") in
  let*? served_hash := hex32 (value_get entry "entry_hash") "entry_hash" in
  let*? kp := purpose_of purpose in
  let*? recomputed :=
    if version =? 2 then
      let*? account := entry_account entry in
      Ok (entry_hash_v2 entry_id (uuid_as_bytes <$> account) kp algorithm public_key created_at prev)
    else if version =? 3 then
      let*? index := entry_index entry in
      Ok (entry_hash_v3 entry_id index kp algorithm public_key created_at prev)
    else Err (invalid_data ("entry_version " +:+ pretty version +:+ " is not one this CLI can recompute")) in
  guard bool_decide (recomputed = served_hash) else
    transparency_violation "the served entry does not hash to its entry_hash: the leaf is not this entry" ;;
  let*? own_fp := fingerprint_for purpose public_key in
  guard bool_decide (get_str entry "public_key_fingerprint" = Some own_fp) else
    transparency_violation "the served fingerprint is not the served key's own" ;;
  guard match asked_fingerprint with Some asked => eq_ignore_ascii_case asked own_fp | None => true end else
    transparency_violation "the proven entry is for a DIFFERENT key than the one asked about" ;;
  guard match asked_purpose with Some asked => bool_decide (asked = purpose) | None => true end else
    transparency_violation ("the proven entry is a " +:+ purpose +:+ " key, not the "
      +:+ default EmptyString asked_purpose +:+ " key asked about") ;;
  Ok recomputed.

(** ** The owner's watch *)

Record OwnerWatch := mk_OwnerWatch
  { w_verdict : string; w_entries : list value; w_foreign : list string; w_unlogged : list string }.

Definition under_index (entry : value) (index : bytes) : bool :=
  match get_str entry "account_index" ≫= hex_decode with
  | Some b => bool_decide (b = index)
  | None => false
  end.

(** The loop over the served entries: the leaves and the entries under the index. *)
Fixpoint watch_scan (epoch : Z) (index : bytes) (position : Z) (scanned : list value)
    : cliresult (list bytes * list value) :=
  match scanned with
  | [] => Ok ([], [])
  | entry :: rest =>
      guard bool_decide (get_u64 entry "entry_id" = Some position)
            && bool_decide (get_u64 entry "entry_version" = Some 3)
        else transparency_violation ("the entry at position " +:+ pretty position +:+ " of epoch "
               +:+ pretty epoch +:+ " is not the v3 entry " +:+ pretty position) ;;
      let*? leaf := bind_leaf entry None None in
      let*? r := watch_scan epoch index (position + 1) rest in
      Ok (leaf :: r.1, if under_index entry index then entry :: r.2 else r.2)
  end.

Definition same_key (entry : value) (held : string * string) : bool :=
  bool_decide (get_str entry "key_purpose" = Some held.1) &&
  match get_str entry "public_key_fingerprint" with
  | Some served => eq_ignore_ascii_case served held.2
  | None => false
  end.

Definition owner_watch (scanned : list value) (epoch : Z) (published : RootLine) (index : bytes)
    (held : list (string * string)) : cliresult OwnerWatch :=
  let size := log_size published in
  guard Z.of_nat (length scanned) =? size else
    transparency_violation ("the server served " +:+ pretty (length scanned) +:+ " entries for epoch "
      +:+ pretty epoch +:+ ", whose published size is " +:+ pretty size) ;;
  let*? lm := watch_scan epoch index 1 scanned in
  guard bool_decide (Merkle.merkle_root lm.1 = merkle_root_of published) else
    transparency_violation ("the " +:+ pretty size +:+ " entries the server served for epoch "
      +:+ pretty epoch +:+ " do not produce its published root: what was scanned is not the log") ;;
  let mine := lm.2 in
  let is_held e := existsb (same_key e) held in
  let foreign :=
    map (fun e => default EmptyString (get_str e "public_key_fingerprint"))
      (List.filter (fun e => negb (is_held e)) mine) in
  let entries :=
    map (fun e =>
      json_obj [("entry_id", default VNull (value_get e "entry_id"));
                ("key_purpose", default VNull (value_get e "key_purpose"));
                ("public_key_fingerprint", json_opt VString (get_str e "public_key_fingerprint"));
                ("created_at", default VNull (value_get e "created_at"));
                ("held", VBool (is_held e))]) mine in
  let unlogged := map snd (List.filter (fun h => negb (existsb (fun e => same_key e h) mine)) held) in
  let verdict := if negb (bool_decide (foreign = [])) then "foreign_key"
                 else if negb (bool_decide (unlogged = [])) then "not_yet_published" else "clean" in
  Ok (mk_OwnerWatch verdict entries foreign unlogged).

(** ** Anchoring a live server *)

Record Anchoring := mk_Anchoring
  { a_served : ServedEpoch; a_anchors : option AnchorFiles; a_verdict : EpochVerdict; repo_known : bool }.

(** What one run reads from outside: the variable [SIGNET_ANCHOR_REPO], the
    clock, the answers of [get_text_once] at each read of the files (they may
    differ), those of [get_json], and the filesystem's refusal to save. *)
Record AnchorEnv := mk_AnchorEnv
  { env_repo : option string; env_now : Z; env_text : nat -> string -> cliresult string;
    env_json : string -> cliresult value; env_save : option CliError; env_debug : string -> string }.

(** The closure [read]. *)
Definition read_files (get : string -> cliresult string) (repo : string)
    : option (AnchorFiles * string * string) :=
  match fetch_raw get repo with
  | None => None
  | Some (rs, ks) => match parse rs ks with Ok a => Some (a, rs, ks) | Err _ => None end
  end.

(** The closure [judge]. *)
Definition judge_with (served : ServedEpoch) (now : Z) (anchors : option AnchorFiles) (st : OriginState)
    : EpochVerdict :=
  judge_epoch served anchors (highest_epoch st) (sighting_age st (s_epoch served) now).

Definition is_unanchored (v : EpochVerdict) : bool :=
  match v with Unanchored _ => true | _ => false end.

(** [for _ in 0..3]: reads [attempt], [attempt + 1], ... while the verdict stays
    unanchored and a repository is known. *)
Fixpoint retry_reads (env : AnchorEnv) (served : ServedEpoch) (repo : option string) (st : OriginState)
    (n attempt : nat) (fresh : option (AnchorFiles * string * string)) (verdict : EpochVerdict)
    : option (AnchorFiles * string * string) * EpochVerdict :=
  match n with
  | O => (fresh, verdict)
  | S n =>
      if negb (is_unanchored verdict) || bool_decide (repo = None) then (fresh, verdict)
      else
        let fresh := repo ≫= read_files (env_text env attempt) in
        retry_reads env served repo st n (S attempt) fresh
          (judge_with served (env_now env) (fst ∘ fst <$> fresh) st)
  end.

(** The genesis check of a V3 anchor: the verdict and the epoch checked. *)
Definition run_genesis (env : AnchorEnv) (server_url : string)
    (fresh : option (AnchorFiles * string * string)) (verdict : EpochVerdict)
    : cliresult (EpochVerdict * option Z) :=
  match verdict, fresh with
  | Anchored (V3 epoch k g), Some (a, _, _) =>
      let*? page := env_json env (server_url +:+ "/v1/transparency/log/range?epoch=" +:+ pretty epoch
                                  +:+ "&start=1&end=1") in
      let*! genesis := get_array page "entries" ≫= head else
        transparency_violation "the epoch serves no genesis entry" in
      match check_genesis (V3 epoch k g) a genesis with
      | Ok _ => Ok (verdict, Some epoch)
      | Err e => Ok (Violation (message e), None)
      end
  | _, _ => Ok (verdict, None)
  end.

(** [save_or_warn]: the file after it; a refusal is only a warning. *)
Definition save_or_warn (env : AnchorEnv) (text : option string) (origin : string) (st : OriginState)
    : option string := (save_state (env_save env) text origin st).2.

(** The cache refreshed from a parsed read. *)
Definition refresh_cache (env : AnchorEnv) (repo : option string)
    (fresh : option (AnchorFiles * string * string)) (checked : option Z) (st : OriginState) : OriginState :=
  match repo, fresh with
  | Some repo, Some (_, rs, ks) =>
      match AnchorCache_new repo (env_now env) rs ks with
      | Some c =>
          mk_OriginState (highest_epoch st) (first_unanchored st)
            (Some (mk_AnchorCache (c_repo c) (fetched_at c) (roots_jsonl c) (vrf_keys_jsonl c) checked))
      | None => st
      end
  | _, _ => st
  end.

(** The cached verdict the write path may use. *)
Definition try_cache (use_cache : bool) (repo : option string) (st : OriginState) (served : ServedEpoch)
    (now : Z) : option (EpochVerdict * AnchorFiles) :=
  if use_cache then repo ≫= (fun repo => cached_verdict st served repo now) else None.

Definition anchor_served (env : AnchorEnv) (text : option string) (server_url : string) (info : value)
    (anchor_repo : option string) (use_cache : bool) : cliresult Anchoring * option string :=
  match from_server_info info with
  | Err e => (Err e, text)
  | Ok served =>
  match anchor_repo_for (env_debug env) server_url
          (match anchor_repo with Some r => Some r | None => env_repo env end) with
  | Err e => (Err e, text)
  | Ok repo =>
      let origin := normalize_origin server_url in
      let st := load_state text origin in
      let now := env_now env in
      match try_cache use_cache repo st served now with
      | Some (verdict, anchors) =>
          let st := update_state st (s_epoch served) verdict now in
          (Ok (mk_Anchoring served (Some anchors) verdict true), save_or_warn env text origin st)
      | None =>
          let fresh := repo ≫= read_files (env_text env 0) in
          let verdict := judge_with served now (fst ∘ fst <$> fresh) st in
          let fv := retry_reads env served repo st 3 1 fresh verdict in
          match run_genesis env server_url fv.1 fv.2 with
          | Err e => (Err e, text)
          | Ok (verdict, checked) =>
              let st := refresh_cache env repo fv.1 checked st in
              let st := update_state st (s_epoch served) verdict now in
              (Ok (mk_Anchoring served (fst ∘ fst <$> fv.1) verdict (bool_decide (is_Some repo))),
               save_or_warn env text origin st)
          end
      end
  end
  end.

(** [anchor_log]: the same over a fresh read of [/v1/server-info]. *)
Definition anchor_log (env : AnchorEnv) (text : option string) (server_url : string)
    (anchor_repo : option string) : cliresult Anchoring * option string :=
  match env_json env (server_url +:+ "/v1/server-info") with
  | Err e => (Err e, text)
  | Ok info => anchor_served env text server_url info anchor_repo false
  end.

(** A command's epoch-bound reads, in the world [W] they read: once, and once
    more when the epoch moved under the first attempt. *)
Definition once_more_on_epoch_change {W T} (attempt : W -> cliresult T * W) (w : W) : cliresult T * W :=
  match attempt w with
  | (Err e, w') => if epoch_moved e then attempt w' else (Err e, w')
  | r => r
  end.

Definition check_receipt_epoch (receipt : value) (epoch : Z) (who : string) : cliresult unit :=
  let named := match value_get receipt "epoch" with None => Some 1 | Some v => value_as_u64 v end in
  if decide (named = Some epoch) then Ok tt
  else
    let named := match value_get receipt "epoch" with None => "1" | Some v => json_display v end in
    Err (as_epoch_move (transparency_violation (who +:+ ": a log receipt answers for epoch " +:+ named
           +:+ ", but the anchored epoch is " +:+ pretty epoch))).

End Code.
