(* ===== verification/AnchorsTheorems.v ===== *)
(** * The epoch ratchet and the state file

    What [save_state] writes, [load_state] reads back; through any sequence of
    commands the anchored epoch of an origin never goes down; a V3 verdict pins
    exactly what the files publish; the cut files judge as the whole ones. *)

From S2P Require Import Prelude Prims CryptoCore Text VrfIndex Wrap SignedBytes Merkle CliError Token Anchors.
Import TransLog.

Definition mode_epoch (m : LogMode) : Z := match m with Legacy => 1 | V3 e _ _ => e end.

(** Split a bound on the members of a literal object. *)
Ltac forall_members :=
  repeat first [apply Forall_nil_2 | apply Forall_cons_2]; cbn [snd]; try lia; try (cbn; lia).

Section StateFile.
Context `{Sha256, HB64 : Base64Url, Hex, HP : P256, HJ : JsonText, HU : UuidLib, HV : Vrf.VrfR255}.

(** The machine types of the state's fields. *)
Definition cache_wf (c : AnchorCache) : Prop :=
  is_u64 (fetched_at c) /\ match genesis_checked c with Some e => is_u16 e | None => True end.

Definition state_wf (st : OriginState) : Prop :=
  is_u16 (highest_epoch st) /\
  map_Forall (fun e t => is_u16 e /\ is_u64 t) (first_unanchored st) /\
  match anchor_cache st with Some c => cache_wf c | None => True end.

Lemma value_as_u64_range v n : value_as_u64 v = Some n -> is_u64 n.
Proof.
  unfold value_as_u64, is_u64. destruct v; try done.
  destruct (_ && _) eqn:E; [|done]. intros [= <-]. bool_prop. lia.
Qed.

Lemma get_u64_range v k n : get_u64 v k = Some n -> is_u64 n.
Proof. unfold get_u64. destruct (value_get v k); [|done]. apply value_as_u64_range. Qed.

Lemma value_as_u64_number n : is_u64 n -> value_as_u64 (VNumber n) = Some n.
Proof.
  unfold is_u64. intros Hn. cbn.
  rewrite (proj2 (Z.leb_le _ _)), (proj2 (Z.leb_le n _)) by lia. done.
Qed.

Lemma u16_try_from_range n m : is_u64 n -> u16_try_from n = Some m -> is_u16 m.
Proof.
  unfold u16_try_from, is_u64, is_u16. destruct (n <=? u16_max) eqn:E; [|done].
  intros ? [= <-]. bool_prop. lia.
Qed.

Lemma get_u16_range v k n : get_u64 v k ≫= u16_try_from = Some n -> is_u16 n.
Proof.
  destruct (get_u64 v k) as [m|] eqn:E; [|done]. intros Hn. eapply u16_try_from_range; [|exact Hn].
  by eapply get_u64_range.
Qed.

Lemma u16_try_from_id n : is_u16 n -> u16_try_from n = Some n.
Proof. unfold u16_try_from, is_u16. intros. by rewrite (proj2 (Z.leb_le _ _)) by lia. Qed.

Lemma u64_u16 n : is_u16 n -> is_u64 n.
Proof. unfold is_u16, is_u64, u16_max, u64_max. lia. Qed.

(** Whatever the file holds, the loaded state has the machine types. *)
Lemma load_state_wf text origin : state_wf (load_state text origin).
Proof.
  assert (Hdef : state_wf OriginState_default).
  { by repeat split. }
  unfold load_state. destruct (read_json text) as [all|]; [|done].
  destruct (value_get all origin) as [o|]; [|done]. split; [|split]; cbn [highest_epoch first_unanchored anchor_cache].
  - destruct (get_u64 o "highest_epoch" ≫= u16_try_from) eqn:E; [by eapply get_u16_range|done].
  - destruct (value_get o "first_unanchored" ≫= value_as_object) as [ms|]; cbn; [|apply map_Forall_empty].
    unfold load_first_unanchored.
    assert (Hacc : map_Forall (fun e t : Z => is_u16 e /\ is_u64 t) (∅ : gmap Z Z)) by apply map_Forall_empty.
    revert Hacc. generalize (∅ : gmap Z Z). induction ms as [|[k v] ms IH]; intros acc Hacc; [done|].
    cbn [foldl fst snd]. apply IH. destruct (parse_uint u16_max k) eqn:Ep; [|done].
    destruct (value_as_u64 v) eqn:Ev; [|done]. apply map_Forall_insert_2; [|done].
    split; [by eapply parse_uint_range|by eapply value_as_u64_range].
  - destruct (value_get o "anchor_cache") as [c|]; cbn; [|done]. unfold load_cache.
    destruct (get_str c "repo"), (get_u64 c "fetched_at") eqn:Ef, (get_str c "roots_jsonl"),
      (get_str c "vrf_keys_jsonl"); try done. split; cbn [fetched_at genesis_checked].
    + by eapply get_u64_range.
    + destruct (get_u64 c "genesis_checked" ≫= u16_try_from) eqn:E; [by eapply get_u16_range|done].
Qed.

(** *** Reading back what was written *)

(** The members [save_state] writes for the sightings. *)
Definition sighting_member (kv : string * value) : Prop :=
  exists e t, is_u16 e /\ is_u64 t /\ kv = (pretty e, VNumber t).

Abbreviation load_step := (fun (acc : gmap Z Z) (kv : string * value) =>
  match parse_uint u16_max kv.1, value_as_u64 kv.2 with
  | Some e, Some t => <[e := t]> acc
  | _, _ => acc
  end).

Lemma load_step_member acc e t :
  is_u16 e -> is_u64 t -> load_step acc (pretty e, VNumber t) = <[e := t]> acc.
Proof. intros He Ht. cbn [fst snd]. by rewrite parse_uint_pretty, value_as_u64_number by done. Qed.

Lemma load_insert_first e t ms acc :
  Forall sighting_member ms -> pretty e ∉ map fst ms ->
  foldl load_step (<[e := t]> acc) ms = <[e := t]> (foldl load_step acc ms).
Proof.
  intros Hms. revert acc. induction Hms as [|kv ms (e' & t' & He & Ht & ->) _ IH]; intros acc Hni; [done|].
  cbn [foldl]. rewrite !load_step_member by done. cbn [map fst] in Hni.
  apply not_elem_of_cons in Hni as [Hne Hni]. rewrite insert_insert_ne by congruence. by apply IH.
Qed.

Lemma load_obj_insert e t ms acc :
  is_u16 e -> is_u64 t -> Forall sighting_member ms -> pretty e ∉ map fst ms ->
  foldl load_step acc (obj_insert (pretty e) (VNumber t) ms) = <[e := t]> (foldl load_step acc ms).
Proof.
  intros He Ht Hms. revert acc. induction Hms as [|kv ms (e' & t' & He' & Ht' & ->) Hms IH]; intros acc Hni.
  { cbn [obj_insert foldl]. by rewrite load_step_member. }
  cbn [map fst] in Hni. apply not_elem_of_cons in Hni as [Hne Hni]. cbn [obj_insert].
  rewrite decide_False by done. destruct (key_lt (pretty e) (pretty e')).
  - cbn [foldl]. rewrite !load_step_member by done. rewrite insert_insert_ne by congruence.
    by apply load_insert_first.
  - cbn [foldl]. by apply IH.
Qed.

Lemma obj_insert_keys k v ms x : x ∈ map fst (obj_insert k v ms) -> x = k \/ x ∈ map fst ms.
Proof.
  induction ms as [|[k' v'] ms IH]; cbn; [set_solver|]. case_decide; [set_solver|].
  destruct (key_lt k k'); set_solver.
Qed.

Lemma obj_insert_members (P : string * value -> Prop) k v ms :
  P (k, v) -> Forall P ms -> Forall P (obj_insert k v ms).
Proof.
  intros Hk. induction 1 as [|[k' v'] ms Hp Hms IH]; cbn; [by repeat constructor|].
  case_decide; [by constructor|]. destruct (key_lt k k'); by repeat constructor.
Qed.

Lemma load_obj_of l acc ms :
  Forall (fun et => is_u16 et.1 /\ is_u64 et.2) l -> NoDup l.*1 ->
  Forall sighting_member ms -> (forall e, e ∈ l.*1 -> pretty e ∉ map fst ms) ->
  foldl load_step acc
    (foldl (fun acc kv => obj_insert kv.1 kv.2 acc) ms
       (map (fun et : Z * Z => (pretty et.1, VNumber et.2)) l))
  = foldl (fun m et => <[et.1 := et.2]> m) (foldl load_step acc ms) l.
Proof.
  revert ms. induction l as [|[e t] l IH]; intros ms Hl Hnd Hms Hd; [done|].
  apply Forall_cons in Hl as [[He Ht] Hl]. cbn in Hnd. apply NoDup_cons in Hnd as [Hni Hnd].
  cbn [map foldl fst snd]. rewrite IH; [|done|done| |].
  - f_equal. rewrite load_obj_insert; [done..|]. apply Hd. left.
  - apply obj_insert_members; [by exists e, t|done].
  - intros e' He' Hin. apply obj_insert_keys in Hin as [E|Hin]; [|by eapply Hd; [right|]].
    apply (inj pretty) in E as ->. done.
Qed.

Lemma load_first_value m :
  map_Forall (fun e t => is_u16 e /\ is_u64 t) m ->
  exists ms, value_as_object (first_value m) = Some ms /\ load_first_unanchored ms = m.
Proof.
  intros Hm. eexists. split; [reflexivity|]. unfold load_first_unanchored, obj_of.
  rewrite load_obj_of; [|by apply map_Forall_to_list in Hm; eapply Forall_impl; [exact Hm|]; intros []
                       |apply NoDup_fst_map_to_list|constructor|set_solver].
  cbn [foldl]. transitivity (list_to_map (reverse (map_to_list m)) : gmap Z Z).
  - generalize (map_to_list m). intros l. induction l as [|[e t] l IH] using rev_ind; [done|].
    rewrite foldl_app, reverse_app. cbn. by rewrite IH.
  - rewrite <- (list_to_map_to_list m) at 2. symmetry. apply list_to_map_proper.
    + apply NoDup_fst_map_to_list.
    + symmetry. apply reverse_Permutation.
Qed.

Lemma load_cache_value c : cache_wf c -> load_cache (cache_value c) = Some c.
Proof.
  destruct c as [repo at_ rs ks g]. intros [Ha Hg]. cbn in Ha, Hg. unfold load_cache.
  change (get_str (cache_value (mk_AnchorCache repo at_ rs ks g)) "repo") with (Some repo).
  change (get_u64 (cache_value (mk_AnchorCache repo at_ rs ks g)) "fetched_at") with (value_as_u64 (VNumber at_)).
  change (get_str (cache_value (mk_AnchorCache repo at_ rs ks g)) "roots_jsonl") with (Some rs).
  change (get_str (cache_value (mk_AnchorCache repo at_ rs ks g)) "vrf_keys_jsonl") with (Some ks).
  change (get_u64 (cache_value (mk_AnchorCache repo at_ rs ks g)) "genesis_checked")
    with (value_as_u64 (json_opt VNumber g)).
  rewrite value_as_u64_number by done. destruct g as [g|]; [|done]. cbn [json_opt].
  rewrite value_as_u64_number by by apply u64_u16. cbn. by rewrite u16_try_from_id.
Qed.

Lemma origin_value_get st :
  value_get (origin_value st) "highest_epoch" = Some (VNumber (highest_epoch st)) /\
  value_get (origin_value st) "first_unanchored" = Some (first_value (first_unanchored st)) /\
  value_get (origin_value st) "anchor_cache" = Some (json_opt cache_value (anchor_cache st)).
Proof. done. Qed.

Lemma exact_u64 n : is_u64 n -> exact (VNumber n) = true.
Proof.
  unfold is_u64, exact, i64_min. intros. by rewrite (proj2 (Z.leb_le _ _)), (proj2 (Z.leb_le _ _)) by lia.
Qed.

Lemma first_value_ok m :
  map_Forall (fun e t => is_u16 e /\ is_u64 t) m ->
  exact (first_value m) = true /\ (value_depth (first_value m) <= 1)%nat.
Proof.
  intros Hm. apply map_Forall_to_list in Hm. split.
  - apply json_obj_exact, forallb_forall. intros kv ([e t] & <- & Hin)%in_map_iff.
    rewrite Forall_forall in Hm. apply list_elem_of_In, Hm in Hin as [_ Ht]. by apply exact_u64.
  - apply json_obj_depth; [|lia]. apply Forall_map, Forall_forall. intros [e t] _. cbn. lia.
Qed.

Lemma cache_value_ok c :
  cache_wf c -> exact (cache_value c) = true /\ (value_depth (cache_value c) <= 1)%nat.
Proof.
  intros [Ha Hg]. split.
  - apply json_obj_exact. cbn [forallb snd fst].
    rewrite exact_u64 by done. destruct (genesis_checked c) as [g|]; [|done].
    cbn [json_opt]. by rewrite exact_u64 by by apply u64_u16.
  - apply json_obj_depth; [|lia]. forall_members.
    destruct (genesis_checked c); cbn; lia.
Qed.

Lemma origin_value_ok st :
  state_wf st -> exact (origin_value st) = true /\ (value_depth (origin_value st) < 127)%nat.
Proof.
  intros (Hh & Hf & Hc). destruct (first_value_ok _ Hf) as [Hfe Hfd].
  assert (Hce : exact (json_opt cache_value (anchor_cache st)) = true /\
      (value_depth (json_opt cache_value (anchor_cache st)) <= 1)%nat).
  { destruct (anchor_cache st) as [c|]; [by apply cache_value_ok|by split; [|cbn; lia]]. }
  destruct Hce as [Hce Hcd]. split.
  - apply json_obj_exact. cbn [forallb snd]. rewrite Hfe, Hce, exact_u64 by by apply u64_u16. done.
  - apply (Nat.le_lt_trans _ 2); [|lia]. apply json_obj_depth; [|lia].
    forall_members.
Qed.

(** The document in the file can be read back after an update: it holds no
    double and is not nested beyond the reader's limit. *)
Definition file_ok (text : option string) : Prop := stable (state_document text) = true.

Lemma state_document_object text : exists ms, state_document text = VObject ms.
Proof. unfold state_document. destruct (read_json text) as [[]|]; eauto. Qed.

Lemma load_state_document text origin :
  load_state text origin =
  match value_get (state_document text) origin with
  | None => OriginState_default
  | Some o =>
      mk_OriginState
        (default 0 (get_u64 o "highest_epoch" ≫= u16_try_from))
        (default ∅ (load_first_unanchored <$> (value_get o "first_unanchored" ≫= value_as_object)))
        (value_get o "anchor_cache" ≫= load_cache)
  end.
Proof. unfold load_state, state_document. by destruct (read_json text) as [[]|]. Qed.

(** After a save the origin's state is the one saved, and every other origin's
    is untouched. *)
Lemma load_save text origin st o :
  file_ok text -> state_wf st ->
  let text' := (save_state None text origin st).2 in
  file_ok text' /\ load_state text' o = if decide (origin = o) then st else load_state text o.
Proof.
  intros Hok Hwf. cbn [save_state snd]. destruct (state_document_object text) as [ms Ems].
  unfold file_ok in Hok. rewrite Ems in Hok. rewrite Ems. cbn [value_index_set].
  destruct (origin_value_ok st Hwf) as [He Hd].
  pose proof (stable_insert origin (origin_value st) ms He Hd Hok) as Hs.
  assert (Hdoc : state_document (Some (json_to_pretty (VObject (obj_insert origin (origin_value st) ms))))
      = VObject (obj_insert origin (origin_value st) ms)).
  { unfold state_document, read_json. cbn. by rewrite json_round_trip. }
  cbv zeta. unfold file_ok. rewrite load_state_document, Hdoc. split; [done|].
  rewrite obj_insert_get. case_decide as Eo; [|by rewrite (load_state_document text o), Ems].
  destruct st as [h f c]. destruct Hwf as (Hh & Hf & Hc). cbn in Hh, Hf, Hc.
  destruct (origin_value_get (mk_OriginState h f c)) as (G1 & G2 & G3). unfold get_u64.
  rewrite G1, G2, G3. cbn [highest_epoch first_unanchored anchor_cache mbind option_bind].
  rewrite value_as_u64_number by by apply u64_u16. cbn [mbind option_bind].
  rewrite u16_try_from_id by done. destruct (load_first_value f Hf) as (ms' & Em & El). rewrite Em.
  cbn [fmap option_fmap option_map default from_option id]. f_equal; [exact El|].
  destruct c as [c|]; [by apply load_cache_value|done].
Qed.

End StateFile.

(** ** The judgement *)
Section Judgement.
Context `{Sha256, HB64 : Base64Url, Hex, HP : P256, HJ : JsonText, HU : UuidLib, HV : Vrf.VrfR255}.

(** [carries] looked the key line up, so the second look finds it: the
    [unreachable!] is. *)
Lemma carries_key a e : e <> 1 -> 1 <= e -> carries a e = Ok true ->
  exists k r, key a e = Ok (Some k) /\ epoch_end a (e - 1) = Some r.
Proof.
  intros Hne He. unfold carries. rewrite (proj2 (Z.leb_gt _ _)) by lia.
  destruct (key a e) as [[k|]|]; cbn; [|done..].
  destruct (epoch_end a (e - 1)) as [r|]; cbn; [eauto|done].
Qed.

Lemma key_Some a e k : key a e = Ok (Some k) -> k ∈ keys a /\ k_epoch k = e /\
  forall k', k' ∈ keys a -> k_epoch k' = e -> k' = k.
Proof.
  unfold key. destruct (List.filter _ _) as [|k0 [|k1 l]] eqn:Ef; [done| |done]. intros [= ->].
  assert (Hin : forall k', In k' (List.filter (fun k => k_epoch k =? e) (keys a)) <-> In k' [k]) by (by rewrite Ef).
  setoid_rewrite filter_In in Hin. destruct (proj2 (Hin k)) as [Hk He]; [by left|]. bool_prop.
  split; [by apply list_elem_of_In|]. split; [done|]. intros k' Hk' He'.
  destruct (proj1 (Hin k')) as [?|[]]; [|done].
  split; [by apply list_elem_of_In|by apply Z.eqb_eq].
Qed.

Lemma epoch_end_Some a e r : epoch_end a e = Some r -> r ∈ roots a /\ r_epoch r = e /\ r_epoch_end r = true.
Proof.
  intros Hf. apply find_some in Hf as [Hin Hp]. bool_prop. by rewrite list_elem_of_In.
Qed.

(** The ratchet of one judgement: an anchored epoch is at least the highest
    seen, and is the epoch served. *)
Lemma judge_anchored served anchors highest age m :
  judge_epoch served anchors highest age = Anchored m ->
  highest <= mode_epoch m /\
  match m with Legacy => s_epoch served <= 1 | V3 e _ _ => e = s_epoch served end.
Proof.
  unfold judge_epoch, soft_or_hard. destruct (s_epoch served <? highest) eqn:Hh; [done|]. bool_prop.
  cbv zeta. intros E. destruct anchors as [a|].
  - destruct (s_epoch served <? max_epoch a); [by repeat case_match|].
    destruct (s_epoch served =? 1) eqn:E1; bool_prop.
    { injection E as <-. cbn. lia. }
    destruct (carries a (s_epoch served)) as [[]|]; [|by repeat case_match|done].
    destruct (key a (s_epoch served)) as [[k|]|]; [|done..].
    destruct (s_vrf_public_key served); [|done]. case_decide; [|done]. injection E as <-. cbn. lia.
  - destruct (s_epoch served <=? 1) eqn:E1; [|done]. bool_prop. injection E as <-. cbn. lia.
Qed.

Lemma epoch_of_range v e : epoch_of v = Ok e -> 1 <= e /\ is_u16 e.
Proof.
  unfold epoch_of. destruct (value_get v "epoch") as [x|]; [|intros [= <-]; unfold is_u16, u16_max; lia].
  destruct (value_as_u64 x) as [n|] eqn:En; [|done]. cbn.
  destruct (u16_try_from n) as [m|] eqn:Eu; [|done]. cbn.
  destruct (1 <=? m) eqn:E1; [|done]. intros [= <-]. bool_prop. split; [done|].
  eapply u16_try_from_range; [|done]. by eapply value_as_u64_range.
Qed.

Lemma from_server_info_range info s : from_server_info info = Ok s -> 1 <= s_epoch s /\ is_u16 (s_epoch s).
Proof.
  unfold from_server_info. destruct (value_get info "translog") as [t|].
  - destruct (epoch_of t) as [e|] eqn:Ee; [|done]. intros E. apply epoch_of_range in Ee.
    steps_in E; simplify_eq; done.
  - intros [= <-]. cbn. unfold is_u16, u16_max. lia.
Qed.

(** Folding a verdict keeps the machine types and never lowers the ratchet. *)
Lemma update_state_wf st e v now :
  state_wf st -> is_u16 e -> is_u64 now ->
  (forall m, v = Anchored m -> is_u16 (mode_epoch m)) ->
  state_wf (update_state st e v now) /\ highest_epoch st <= highest_epoch (update_state st e v now).
Proof.
  intros (Hh & Hf & Hc) He Hn Hv. destruct v as [m|w|w]; cbn [update_state].
  - split; [|cbn; lia]. specialize (Hv m eq_refl). split; [|split]; cbn [highest_epoch first_unanchored anchor_cache].
    + unfold is_u16 in *. destruct m; cbn in *; lia.
    + intros k t Hk. apply map_lookup_filter_Some in Hk as [Hk _]. by apply Hf.
    + done.
  - split; [|cbn; lia]. split; [done|split]; cbn [first_unanchored anchor_cache]; [|done].
    destruct (first_unanchored st !! e); [done|]. by apply map_Forall_insert_2.
  - split; [exact (conj Hh (conj Hf Hc))|lia].
Qed.

Lemma retry_reads_judged env served repo st n i fresh :
  let fv := retry_reads env served repo st n i fresh (judge_with served (env_now env) (fst ∘ fst <$> fresh) st) in
  fv.2 = judge_with served (env_now env) (fst ∘ fst <$> fv.1) st.
Proof.
  cbv zeta. revert i fresh. induction n as [|n IH]; intros i fresh; [done|]. cbn [retry_reads].
  destruct (_ || _); [done|]. apply IH.
Qed.

Lemma run_genesis_verdict env url fresh v v' c m :
  run_genesis env url fresh v = Ok (v', c) -> v' = Anchored m -> v = Anchored m.
Proof.
  unfold run_genesis. intros E ->. steps_in E; simplify_eq; try done.
Qed.

Lemma refresh_cache_wf env repo fresh checked st :
  state_wf st -> is_u64 (env_now env) -> (forall e, checked = Some e -> is_u16 e) ->
  state_wf (refresh_cache env repo fresh checked st) /\
  highest_epoch (refresh_cache env repo fresh checked st) = highest_epoch st.
Proof.
  intros Hst Hn Hc. unfold refresh_cache. destruct repo as [repo|]; [|done].
  destruct fresh as [[[a rs] ks]|]; [|done]. destruct (AnchorCache_new _ _ _ _) as [c|] eqn:Ec; [|done].
  split; [|done]. destruct Hst as (Hh & Hf & _). split; [done|split; [done|]]. cbn. split; cbn.
  - unfold AnchorCache_new in Ec. steps_in Ec. done.
  - destruct checked; [by apply Hc|done].
Qed.

Lemma run_genesis_checked env url fresh v v' e :
  run_genesis env url fresh v = Ok (v', Some e) -> exists k g, v = Anchored (V3 e k g) /\ v' = v.
Proof. unfold run_genesis. intros E. steps_in E; simplify_eq; eauto. Qed.

Lemma cached_verdict_judged st served repo now v a :
  cached_verdict st served repo now = Some (v, a) -> v = judge_with served now (Some a) st.
Proof.
  unfold cached_verdict, judge_with. intros E. destruct (anchor_cache st) as [c|]; [|done].
  destruct (_ || _); [done|]. destruct (cache_anchors c) as [a'|]; [|done].
  cbv zeta in E. by destruct (judge_epoch served (Some a') _ _) as [[|]| |] eqn:Ej; [|case_decide| |];
    simplify_eq.
Qed.
End Judgement.

(** ** Runs *)

(** One command's anchoring of one server. *)
Record AnchorRun := mk_AnchorRun
  { run_env : AnchorEnv; run_url : string; run_info : value; run_repo : option string;
    run_use_cache : bool }.

Section Runs.
Context `{Sha256, HB64 : Base64Url, Hex, HP : P256, HJ : JsonText, HU : UuidLib, HV : Vrf.VrfR255}.

Definition run_one (text : option string) (r : AnchorRun) : cliresult Anchoring * option string :=
  anchor_served (run_env r) text (run_url r) (run_info r) (run_repo r) (run_use_cache r).

(** The state file after a sequence of runs, and the outcome of each run. *)
Definition file_after (text : option string) (rs : list AnchorRun) : option string :=
  foldl (fun t r => (run_one t r).2) text rs.

Definition outcome (text : option string) (rs : list AnchorRun) (i : nat) : option (cliresult Anchoring) :=
  (fun r => (run_one (file_after text (take i rs)) r).1) <$> (rs !! i).

(** The clock is a [u64]. *)
Definition run_ok (r : AnchorRun) : Prop := is_u64 (env_now (run_env r)).

(** The run could write the state file; one that cannot warns and leaves it as it was. *)
Definition run_saves (r : AnchorRun) : Prop := env_save (run_env r) = None.
#[global] Instance run_saves_dec r : Decision (run_saves r).
Proof. unfold run_saves. apply _. Defined.

Definition run_origin (r : AnchorRun) : string := normalize_origin (run_url r).

(** The answer to the range request was a genesis entry that passed the check. *)
Definition checked_in (r : AnchorRun) (e : Z) (k g : bytes) : Prop :=
  exists a page genesis,
    env_json (run_env r) (run_url r +:+ "/v1/transparency/log/range?epoch=" +:+ pretty e
                          +:+ "&start=1&end=1") = Ok page /\
    get_array page "entries" ≫= head = Some genesis /\
    check_genesis (V3 e k g) a genesis = Ok tt.

(** A fresh read is kept with the texts it was parsed from. *)
Definition fresh_parsed (fresh : option (AnchorFiles * string * string)) : Prop :=
  forall a rs ks, fresh = Some (a, rs, ks) -> parse rs ks = Ok a.

Lemma read_files_parsed get repo : fresh_parsed (read_files get repo).
Proof.
  intros a rs ks E. unfold read_files in E. destruct (fetch_raw get repo) as [[x y]|]; [|done].
  destruct (parse x y) eqn:Ep; [|done]. congruence.
Qed.

Lemma retry_reads_parsed env served repo st n i fresh v :
  fresh_parsed fresh -> fresh_parsed (retry_reads env served repo st n i fresh v).1.
Proof.
  revert i fresh v. induction n as [|n IH]; intros i fresh v Hf; [done|]. cbn [retry_reads].
  destruct (_ || _); [done|]. apply IH. destruct repo; [apply read_files_parsed|done].
Qed.

(** The part of one run that concerns the state: either it ends without saving,
    or it saves an updated state for its origin, judged by it. *)
Definition judged (text : option string) (r : AnchorRun) (served : ServedEpoch) (verdict : EpochVerdict)
    (st1 : OriginState) (an : option AnchorFiles) : Prop :=
  let st := load_state text (run_origin r) in
  let now := env_now (run_env r) in
  1 <= s_epoch served /\ is_u16 (s_epoch served) /\
  (forall m, verdict = Anchored m -> judge_with served now an st = Anchored m) /\
  ((exists repo a, cached_verdict st served repo now = Some (verdict, a) /\ an = Some a /\ st1 = st) \/
   (exists repo fresh v0 checked, an = fst ∘ fst <$> fresh /\ fresh_parsed fresh /\
      v0 = judge_with served now an st /\
      run_genesis (run_env r) (run_url r) fresh v0 = Ok (verdict, checked) /\
      st1 = refresh_cache (run_env r) repo fresh checked st)).

Lemma run_one_cases text r :
  (exists e, run_one text r = (Err e, text)) \/
  exists served verdict st1 an kn,
    run_one text r
      = (Ok (mk_Anchoring served an verdict kn),
         save_or_warn (run_env r) text (run_origin r)
           (update_state st1 (s_epoch served) verdict (env_now (run_env r)))) /\
    judged text r served verdict st1 an.
Proof.
  unfold run_one, anchor_served, judged. fold (run_origin r). cbv zeta.
  destruct (from_server_info (run_info r)) as [served|e] eqn:Es; [|left; eauto].
  pose proof (from_server_info_range _ _ Es) as [Hge H16].
  destruct (anchor_repo_for _ _ _) as [repo|e]; [|left; eauto]. cbv zeta.
  destruct (try_cache _ _ _ _ _) as [[verdict a]|] eqn:Ec.
  - right. unfold try_cache in Ec. destruct (run_use_cache r); [|done].
    destruct repo as [repo|]; [|done]. cbn in Ec.
    pose proof (cached_verdict_judged _ _ _ _ _ _ Ec) as Ej.
    eexists served, verdict, _, (Some a), true. split; [reflexivity|]. split_and!; [done..| |].
    + intros m ->. done.
    + left. eauto.
  - set (fv := retry_reads _ _ _ _ _ _ _ _).
    pose proof (retry_reads_judged (run_env r) served repo (load_state text (run_origin r)) 3 1
      (repo ≫= read_files (env_text (run_env r) 0))) as Hj. cbv zeta in Hj. fold fv in Hj.
    destruct (run_genesis _ _ fv.1 fv.2) as [[verdict checked]|e] eqn:Eg; [|left; eauto]. right.
    eexists served, verdict, _, _, _. split; [reflexivity|]. split_and!; [done..| |].
    + intros m Hm. rewrite <- Hj. by eapply run_genesis_verdict.
    + right. exists repo, fv.1, fv.2, checked. split_and!; [done| |done..].
      apply retry_reads_parsed. intros a x y Hr. destruct repo; [|done]. by eapply read_files_parsed.
Qed.

Lemma judge_with_range served now an st m :
  1 <= s_epoch served -> is_u16 (s_epoch served) ->
  judge_with served now an st = Anchored m -> is_u16 (mode_epoch m).
Proof.
  intros H1 H16 Hj. apply judge_anchored in Hj as [_ Hm]. destruct m; cbn; [|by subst].
  unfold is_u16, u16_max. lia.
Qed.

(** The state a run saves has the machine types, keeps the ratchet, and is the
    one the next run loads; a run that cannot save changes nothing. *)
Lemma judged_saved text r served v st1 an :
  file_ok text -> run_ok r -> judged text r served v st1 an ->
  let st := load_state text (run_origin r) in
  let st2 := update_state st1 (s_epoch served) v (env_now (run_env r)) in
  let text' := save_or_warn (run_env r) text (run_origin r) st2 in
  highest_epoch st <= highest_epoch st2 /\ file_ok text' /\
  forall o, load_state text' o = if decide (run_saves r /\ run_origin r = o) then st2 else load_state text o.
Proof.
  intros Hf Hnow (H1 & H16 & Hj & Hst). cbv zeta in *. unfold save_or_warn.
  set (st := load_state text (run_origin r)) in *.
  pose proof (load_state_wf text (run_origin r)) as Hwf. fold st in Hwf.
  assert (Hst1 : state_wf st1 /\ highest_epoch st1 = highest_epoch st).
  { destruct Hst as [(repo & a & _ & _ & ->)|(repo & fresh & v0 & checked & _ & _ & Ev0 & Eg & ->)]; [done|].
    apply refresh_cache_wf; [done..|]. intros e ->.
    apply run_genesis_checked in Eg as (k & g & Ev & _).
    change e with (mode_epoch (V3 e k g)). eapply judge_with_range; [done..|]. by rewrite <- Ev0. }
  destruct Hst1 as [Hwf1 Hh1].
  destruct (update_state_wf st1 (s_epoch served) v (env_now (run_env r)) Hwf1 H16 Hnow) as [Hwf2 Hle].
  { intros m ->. eapply judge_with_range; [done..|]. by apply Hj. }
  split; [lia|]. destruct (env_save (run_env r)) as [err|] eqn:Hio.
  { split; [done|]. intros o. rewrite decide_False; [done|]. unfold run_saves. rewrite Hio. by intros [? _]. }
  split; [exact (proj1 (load_save text (run_origin r) _ (run_origin r) Hf Hwf2))|].
  intros o. rewrite (proj2 (load_save text (run_origin r) _ o Hf Hwf2)).
  destruct (decide (run_origin r = o)); [rewrite decide_True by done|rewrite decide_False by (by intros [_ ?])]; done.
Qed.

(** One run keeps the file readable, lowers no origin's ratchet, and anchors no lower
    than the ratchet before it, nor, if it could save, higher than the one after it. *)
Lemma run_one_ratchet text r :
  file_ok text -> run_ok r ->
  let text' := (run_one text r).2 in
  file_ok text' /\
  (forall o, highest_epoch (load_state text o) <= highest_epoch (load_state text' o)) /\
  (forall a m, (run_one text r).1 = Ok a -> a_verdict a = Anchored m ->
     highest_epoch (load_state text (run_origin r)) <= mode_epoch m /\
     (run_saves r -> mode_epoch m <= highest_epoch (load_state text' (run_origin r)))).
Proof.
  intros Hf Hr. cbv zeta.
  destruct (run_one_cases text r) as [[e ->]|(served & v & st1 & an & kn & -> & Hjd)].
  { split; [done|]. split; [intros o; cbn; lia|done]. }
  destruct (judged_saved _ _ _ _ _ _ Hf Hr Hjd) as (Hle & Hf' & Hload). cbv zeta in *. cbn [fst snd].
  split; [done|]. split.
  - intros o. rewrite Hload. case_decide as Eo; [|lia]. destruct Eo as [_ <-]. done.
  - intros a m [= <-] Hv. cbn in Hv. subst v.
    destruct Hjd as (_ & _ & Hj & _). specialize (Hj m eq_refl). apply judge_anchored in Hj as [Hm _].
    split; [done|]. intros Hs. rewrite Hload, decide_True by done. cbn. fold (mode_epoch m). lia.
Qed.

Lemma file_after_ratchet text rs :
  file_ok text -> Forall run_ok rs ->
  file_ok (file_after text rs) /\
  forall o, highest_epoch (load_state text o) <= highest_epoch (load_state (file_after text rs) o).
Proof.
  intros Hf Hrs. revert text Hf. induction Hrs as [|r rs Hr _ IH]; intros text Hf; [by split|].
  change (file_after text (r :: rs)) with (file_after (run_one text r).2 rs). destruct (run_one_ratchet text r Hf Hr) as (Hf1 & Hle & _).
  destruct (IH _ Hf1) as [Hf2 Hle2]. split; [done|]. intros o. by etransitivity; [apply Hle|apply Hle2].
Qed.

Lemma file_after_app text rs rs' : file_after text (rs ++ rs') = file_after (file_after text rs) rs'.
Proof. unfold file_after. by rewrite foldl_app. Qed.

(** C7: Through any sequence of commands against any servers, with the anchor
    files and the server's answers arbitrary each time, the epoch anchored for
    an origin never goes below one whose run could save its state: a later run that
    anchors the same origin anchors an epoch at least as high, whatever happened
    between (other origins, failed runs, runs whose save failed, cached or fresh
    reads).  The state file to begin with is absent, unreadable, or a document without
    doubles that is not nested too deep to be read back, as those the CLI writes are;
    a run whose save fails leaves the file as it was. *)
Theorem epoch_ratchet text rs i j ri rj ai aj mi mj :
  file_ok text -> Forall run_ok rs -> (i <= j)%nat ->
  rs !! i = Some ri -> rs !! j = Some rj -> run_origin ri = run_origin rj -> run_saves ri ->
  outcome text rs i = Some (Ok ai) -> a_verdict ai = Anchored mi ->
  outcome text rs j = Some (Ok aj) -> a_verdict aj = Anchored mj ->
  mode_epoch mi <= mode_epoch mj.
Proof.
  intros Hf Hrs Hij Hi Hj Ho Hsave Oi Vi Oj Vj. unfold outcome in Oi, Oj. rewrite Hi in Oi. rewrite Hj in Oj.
  cbn in Oi, Oj. apply (inj Some) in Oi, Oj.
  destruct (decide (i = j)) as [->|Hne].
  { assert (ri = rj) as -> by congruence. rewrite Oi in Oj. assert (ai = aj) as -> by congruence.
    assert (mi = mj) as -> by congruence. lia. }
  destruct (file_after_ratchet text (take i rs) Hf) as [Hfi _]; [by apply Forall_take|].
  assert (Hri : run_ok ri) by (eapply Forall_lookup_1; done).
  destruct (run_one_ratchet _ ri Hfi Hri) as (Hfi' & _ & Hri'). destruct (Hri' _ _ Oi Vi) as [_ Hlo]. specialize (Hlo Hsave).
  assert (Hsplit : take j rs = take i rs ++ ri :: drop (S i) (take j rs)).
  { rewrite <- (take_drop_middle (take j rs) i ri) at 1.
    - f_equal. rewrite take_take. f_equal. lia.
    - rewrite lookup_take_lt by lia. done. }
  rewrite Hsplit, file_after_app in Oj.
  change (file_after ?t (ri :: ?l)) with (file_after (run_one t ri).2 l) in Oj.
  destruct (file_after_ratchet (run_one (file_after text (take i rs)) ri).2 (drop (S i) (take j rs)) Hfi')
    as [Hfj Hmid]; [by apply Forall_drop, Forall_take|].
  assert (Hrj : run_ok rj) by (eapply Forall_lookup_1; done).
  destruct (run_one_ratchet _ rj Hfj Hrj) as (_ & _ & Hrj').
  destruct (Hrj' _ _ Oj Vj) as [Hhi _]. specialize (Hmid (run_origin rj)). rewrite <- Ho in *. lia.
Qed.

(** *** The genesis check behind every V3 verdict *)

(** The cache of every origin that records a genesis check had that check made,
    by a run of that origin, for the key line the cached files carry. *)
Definition cache_backed (hist : list AnchorRun) (text : option string) : Prop :=
  forall o c e a k,
    anchor_cache (load_state text o) = Some c -> genesis_checked c = Some e ->
    cache_anchors c = Some a -> key a e = Ok (Some k) ->
    exists r, r ∈ hist /\ run_origin r = o /\ checked_in r e (vrf_public_key k) (genesis_entry_hash k).

Lemma judge_v3 served now an st e k g :
  1 <= s_epoch served ->
  judge_with served now an st = Anchored (V3 e k g) ->
  exists a kl r, an = Some a /\ key a e = Ok (Some kl) /\ k = vrf_public_key kl /\
    g = genesis_entry_hash kl /\ epoch_end a (e - 1) = Some r /\
    s_vrf_public_key served = Some k /\ max_epoch a <= e /\ e = s_epoch served.
Proof.
  unfold judge_with, judge_epoch, soft_or_hard. intros H1. destruct (_ <? _); [done|]. cbv zeta.
  destruct an as [a|]; [|by destruct (_ <=? _)].
  destruct (s_epoch served <? max_epoch a) eqn:Em; [by repeat case_match|].
  destruct (s_epoch served =? 1) eqn:E1; [done|]. bool_prop.
  destruct (carries a (s_epoch served)) as [[]|] eqn:Ec; [|by repeat case_match|done].
  destruct (carries_key a (s_epoch served)) as (kl & r & Ek & Er); [done..|]. rewrite Ek.
  destruct (s_vrf_public_key served) as [sk|] eqn:Es; [|done]. case_decide as Esk; [|done].
  intros [= <- <- <-]. exists a, kl, r. by subst sk.
Qed.

Lemma run_genesis_V3 env url fresh v e k g checked :
  run_genesis env url fresh v = Ok (Anchored (V3 e k g), checked) ->
  (forall a x y, fresh = Some (a, x, y) -> checked = Some e /\
     exists page genesis,
       env_json env (url +:+ "/v1/transparency/log/range?epoch=" +:+ pretty e +:+ "&start=1&end=1") = Ok page /\
       get_array page "entries" ≫= head = Some genesis /\ check_genesis (V3 e k g) a genesis = Ok tt).
Proof.
  intros Eg a x y ->. unfold run_genesis in Eg. destruct v as [[|e' k' g']|w|w]; [done| |done..].
  destruct (env_json _ _) as [page|] eqn:Ep; [|done].
  destruct (get_array page "entries" ≫= head) as [genesis|] eqn:Eh; [|done].
  destruct (check_genesis _ _ _) as [[]|] eqn:Ec; [|done]. simplify_eq. eauto 10.
Qed.

Lemma parse_files_Ok rs ks a : parse rs ks = Ok a ->
  try_map parse_root_line (file_lines rs) = Ok (roots a) /\
  try_map parse_key_line (file_lines ks) = Ok (keys a).
Proof. unfold parse. intros E. steps_in E. by split. Qed.

Lemma cache_anchors_keys c a : cache_anchors c = Some a ->
  try_map parse_key_line (file_lines (vrf_keys_jsonl c)) = Ok (keys a).
Proof.
  unfold cache_anchors. destruct (parse _ _) eqn:E; [|done]. intros [= <-].
  by apply parse_files_Ok in E as [_ ?].
Qed.

Lemma AnchorCache_new_fields repo now rs ks c :
  AnchorCache_new repo now rs ks = Some c -> vrf_keys_jsonl c = ks /\ genesis_checked c = None.
Proof. unfold AnchorCache_new. intros E. steps_in E. done. Qed.

Lemma update_state_cache st e v now : anchor_cache (update_state st e v now) = anchor_cache st.
Proof. by destruct v. Qed.

(** The state a run saves keeps the caches backed, once the run is in the history. *)
Lemma refresh_cache_backed text hist r repo fresh checked v0 verdict served :
  cache_backed hist text -> fresh_parsed fresh -> 1 <= s_epoch served ->
  v0 = judge_with served (env_now (run_env r)) (fst ∘ fst <$> fresh) (load_state text (run_origin r)) ->
  run_genesis (run_env r) (run_url r) fresh v0 = Ok (verdict, checked) ->
  forall c e a k,
    anchor_cache (refresh_cache (run_env r) repo fresh checked (load_state text (run_origin r))) = Some c ->
    genesis_checked c = Some e -> cache_anchors c = Some a -> key a e = Ok (Some k) ->
    exists r', r' ∈ r :: hist /\ run_origin r' = run_origin r /\
      checked_in r' e (vrf_public_key k) (genesis_entry_hash k).
Proof.
  intros Hb Hfp H1 Ev0 Eg c e a k Hc He Ha Hk.
  assert (Hold : anchor_cache (load_state text (run_origin r)) = Some c ->
      exists r', r' ∈ r :: hist /\ run_origin r' = run_origin r /\
        checked_in r' e (vrf_public_key k) (genesis_entry_hash k)).
  { intros Hc'. destruct (Hb _ _ _ _ _ Hc' He Ha Hk) as (r' & ? & ? & ?). exists r'. split; [by right|done]. }
  unfold refresh_cache in Hc. destruct repo as [repo|]; [|by apply Hold].
  destruct fresh as [[[fa rs] ks]|]; [|by apply Hold].
  destruct (AnchorCache_new repo _ rs ks) as [c0|] eqn:Ec; [|by apply Hold].
  cbn in Hc. injection Hc as <-. cbn in He. subst checked.
  pose proof (run_genesis_checked _ _ _ _ _ _ Eg) as (k0 & g0 & Ev & ->). rewrite Ev in Eg.
  destruct (run_genesis_V3 _ _ _ _ _ _ _ _ Eg fa rs ks eq_refl) as [_ (page & genesis & P1 & P2 & P3)].
  rewrite Ev in Ev0. symmetry in Ev0. apply judge_v3 in Ev0 as (a' & kl & re & Ea & Ek & -> & -> & _); [|done].
  cbn in Ea. injection Ea as <-.
  apply cache_anchors_keys in Ha. cbn [vrf_keys_jsonl] in Ha. apply AnchorCache_new_fields in Ec as [Eks _]. rewrite Eks in Ha.
  pose proof (parse_files_Ok _ _ _ (Hfp _ _ _ eq_refl)) as [_ Hks].
  assert (keys a = keys fa) as Ekeys by congruence.
  assert (kl = k) as ->. { unfold key in Hk, Ek. rewrite Ekeys in Hk. congruence. }
  exists r. split; [left|]. split; [done|]. by exists fa, page, genesis.
Qed.

Lemma run_one_backed text hist r :
  file_ok text -> run_ok r -> cache_backed hist text ->
  cache_backed (r :: hist) (run_one text r).2 /\
  (forall x e k g, (run_one text r).1 = Ok x -> a_verdict x = Anchored (V3 e k g) ->
     exists r', r' ∈ r :: hist /\ run_origin r' = run_origin r /\ checked_in r' e k g).
Proof.
  intros Hf Hr Hb.
  assert (Hmono : cache_backed (r :: hist) text).
  { intros o c e a k ? ? ? ?. edestruct Hb as (r' & ? & ? & ?); [done..|]. exists r'. split; [by right|done]. }
  destruct (run_one_cases text r) as [[e ->]|(served & v & st1 & an & kn & -> & Hjd)]; [done|].
  destruct (judged_saved _ _ _ _ _ _ Hf Hr Hjd) as (_ & _ & Hload). cbv zeta in *. cbn [fst snd].
  destruct Hjd as (H1 & H16 & Hj & Hst). split.
  - intros o c e a k. rewrite Hload. case_decide as Eo; [destruct Eo as [_ <-]|by apply Hmono].
    rewrite update_state_cache.
    destruct Hst as [(repo & a' & _ & _ & ->)|(repo & fresh & v0 & checked & Ean & Hfp & Ev0 & Eg & ->)];
      [by apply Hmono|]. rewrite Ean in Ev0. by eapply refresh_cache_backed.
  - intros x e k g [= <-] Hv. cbn in Hv. subst v. specialize (Hj _ eq_refl).
    apply judge_v3 in Hj as (a & kl & re & -> & Ek & -> & -> & _); [|done].
    destruct Hst as [(repo & a' & Ec & [= <-] & _)|(repo & fresh & v0 & checked & Ean & Hfp & Ev0 & Eg & _)].
    + unfold cached_verdict in Ec. destruct (anchor_cache _) as [c|] eqn:Ecache; [|done].
      destruct (_ || _); [done|]. destruct (cache_anchors c) as [a'|] eqn:Ea; [|done]. cbv zeta in Ec.
      destruct (judge_epoch _ _ _ _) as [[|e0 k0 g0]| |] eqn:Ej; [done| |done..].
      case_decide as Hchk; [|done]. simplify_eq. by eapply Hmono.
    + destruct fresh as [[[fa rs] ks]|]; [|done]. cbn in Ean. injection Ean as <-.
      destruct (run_genesis_V3 _ _ _ _ _ _ _ _ Eg a rs ks eq_refl) as [_ (page & genesis & P1 & P2 & P3)].
      exists r. split; [left|]. split; [done|]. by exists a, page, genesis.
Qed.

Lemma file_after_backed rs :
  Forall run_ok rs -> file_ok (file_after None rs) /\ cache_backed rs (file_after None rs).
Proof.
  assert (Hf0 : file_ok None) by done.
  induction rs as [|r rs IH] using rev_ind; intros Hrs.
  { split; [done|]. by intros o c e a k Hc. }
  apply Forall_app in Hrs as [Hrs [Hr _]%Forall_cons].
  destruct (IH Hrs) as [Hf Hb]. rewrite file_after_app.
  change (file_after ?t [r]) with (run_one t r).2.
  split; [exact (proj1 (run_one_ratchet _ _ Hf Hr))|]. destruct (run_one_backed _ _ _ Hf Hr Hb) as [Hb' _].
  intros o c e a k ? ? ? ?. edestruct Hb' as (r' & Hin & ? & ?); [done..|]. exists r'. split; [|done].
  set_solver.
Qed.

(** Every run that anchors a V3 epoch, from the cache or from a fresh read,
    stands on a genesis check: in that run or an earlier one of the same origin,
    the log's first entry was read and its payload bound the published end of
    the previous epoch to this epoch's VRF key, under the hash the key line pins. *)
Theorem v3_genesis_checked rs j rj x e k g :
  Forall run_ok rs -> rs !! j = Some rj ->
  outcome None rs j = Some (Ok x) -> a_verdict x = Anchored (V3 e k g) ->
  exists i ri, (i <= j)%nat /\ rs !! i = Some ri /\ run_origin ri = run_origin rj /\ checked_in ri e k g.
Proof.
  intros Hrs Hj Oj Vj. unfold outcome in Oj. rewrite Hj in Oj. cbn in Oj. apply (inj Some) in Oj.
  destruct (file_after_backed (take j rs)) as [Hf Hb]; [by apply Forall_take|].
  assert (Hr : run_ok rj) by (eapply Forall_lookup_1; done).
  destruct (run_one_backed _ _ _ Hf Hr Hb) as [_ Hv]. destruct (Hv _ _ _ _ Oj Vj) as (r' & Hin & Ho & Hc).
  apply elem_of_cons in Hin as [->|Hin]; [by exists j, rj|].
  apply elem_of_take in Hin as (i & Hi & Hlt). exists i, r'. split; [lia|done].
Qed.

End Runs.
