(* ===== verification/AnchorCut.v ===== *)
(** * The cut of the anchor files

    [AnchorCache::new] keeps the end lines and the last line of each epoch.  The
    cut files judge every server, and check every genesis, as the whole files
    do, so the write path's cache loses nothing it judges by. *)

From S2P Require Import Prelude Prims CryptoCore Text VrfIndex Wrap SignedBytes CliError Token Anchors AnchorsTheorems.

(** [max_or_1] depends only on the members. *)
Lemma foldl_max_ge l x : x <= foldl Z.max x l /\ Forall (fun y => y <= foldl Z.max x l) l.
Proof.
  revert x. induction l as [|y l IH]; intros x; cbn; [split; [lia|constructor]|].
  destruct (IH (Z.max x y)) as [H1 H2]. split; [lia|]. constructor; [lia|done].
Qed.

Lemma foldl_max_in l x : foldl Z.max x l ∈ x :: l.
Proof.
  revert x. induction l as [|y l IH]; intros x; cbn; [left|].
  specialize (IH (Z.max x y)). apply elem_of_cons in IH as [E|Hin]; [rewrite E|set_solver].
  destruct (Z.max_spec x y) as [[_ ->]|[_ ->]]; set_solver.
Qed.

Lemma max_or_1_spec l x : x ∈ l -> x <= max_or_1 l /\ max_or_1 l ∈ l.
Proof.
  destruct l as [|y l]; [by intros ?%elem_of_nil|]. intros Hx. split; [|apply foldl_max_in].
  destruct (foldl_max_ge l y) as [H1 H2]. rewrite Forall_forall in H2. cbn.
  apply elem_of_cons in Hx as [->|Hx]; [done|by apply H2].
Qed.

Lemma max_or_1_ext l k : (forall x, x ∈ l <-> x ∈ k) -> max_or_1 l = max_or_1 k.
Proof.
  intros Hlk. destruct l as [|x l].
  - destruct k as [|y k]; [done|]. destruct (Hlk y) as [_ Hy].
    specialize (Hy ltac:(left)). by apply elem_of_nil in Hy.
  - destruct (max_or_1_spec (x :: l) x ltac:(left)) as [_ Hl].
    destruct (max_or_1_spec k (max_or_1 (x :: l)) ltac:(by apply Hlk)) as [H1 Hk].
    destruct (max_or_1_spec (x :: l) (max_or_1 k) ltac:(by apply Hlk)) as [H2 _]. lia.
Qed.

(** The pairs of a line and its root that the cut keeps. *)
Fixpoint kept (lr : list (string * RootLine)) : list (string * RootLine) :=
  match lr with
  | [] => []
  | (line, r) :: rest =>
      if r_epoch_end r
         || negb (existsb (fun later => (r_epoch later.2 =? r_epoch r) && negb (r_epoch_end later.2)) rest)
      then (line, r) :: kept rest
      else kept rest
  end.

Lemma cut_lines_kept lr : cut_lines lr = map fst (kept lr).
Proof. induction lr as [|[l r] lr IH]; [done|]. cbn. rewrite IH. by destruct (_ || _). Qed.

Lemma kept_sub lr x : x ∈ kept lr -> x ∈ lr.
Proof. induction lr as [|[l r] lr IH]; [done|]. cbn. destruct (_ || _); set_solver. Qed.

Lemma kept_ends lr :
  List.filter r_epoch_end (map snd (kept lr)) = List.filter r_epoch_end (map snd lr).
Proof.
  induction lr as [|[l r] lr IH]; [done|]. cbn. destruct (r_epoch_end r) eqn:E; cbn.
  - by rewrite E, IH.
  - destruct (negb _); cbn; by rewrite ?E, IH.
Qed.

Lemma kept_find e lr :
  List.find (fun r => (r_epoch r =? e) && r_epoch_end r) (map snd (kept lr))
  = List.find (fun r => (r_epoch r =? e) && r_epoch_end r) (map snd lr).
Proof.
  induction lr as [|[l r] lr IH]; [done|]. cbn. destruct (r_epoch_end r) eqn:E; cbn.
  - by rewrite E, IH.
  - rewrite andb_false_r. destruct (negb _); cbn; by rewrite ?E, ?andb_false_r, IH.
Qed.

(** Every epoch of the file is still there. *)
Lemma kept_epochs lr e : e ∈ map r_epoch (map snd lr) -> e ∈ map r_epoch (map snd (kept lr)).
Proof.
  induction lr as [|[l r] lr IH]; [done|]. cbn. intros [->|Hin]%elem_of_cons.
  - destruct (r_epoch_end r); cbn; [left|].
    destruct (existsb _ lr) eqn:Ex; cbn; [|left]. apply IH.
    apply existsb_exists in Ex as ([l' r'] & Hin%list_elem_of_In & Hp). cbn in Hp. bool_prop.
    rewrite <- H. apply list_elem_of_fmap. exists r'. split; [done|].
    apply list_elem_of_fmap. by exists (l', r').
  - destruct (_ || _); cbn; [right|]; by apply IH.
Qed.

Section Cut.
Context `{Sha256, HB64 : Base64Url, Hex, HP : P256, HJ : JsonText, HU : UuidLib, HV : Vrf.VrfR255}.

Lemma try_map_zip {A B E} (f : A -> result E B) l r :
  try_map f l = Ok r <-> length l = length r /\ Forall (fun ab => f ab.1 = Ok ab.2) (zip l r).
Proof.
  revert r. induction l as [|a l IH]; intros r; cbn.
  - destruct r; cbn; [naive_solver|]. split; [done|by intros [? _]].
  - destruct r as [|b r]; cbn.
    { split; [|by intros [? _]]. destruct (f a); [|done]. by destruct (try_map f l). }
    rewrite Forall_cons. cbn. specialize (IH r). split.
    + destruct (f a) as [b'|]; [|done]. destruct (try_map f l) as [bs|]; [|done].
      intros [= -> ->]. destruct (proj1 IH eq_refl) as [-> ?]. done.
    + intros (Hl & -> & Hz). rewrite (proj2 IH); [done|]. split; [lia|done].
Qed.

Lemma zip_fst_snd {A B} (l : list (A * B)) : zip (map fst l) (map snd l) = l.
Proof. induction l as [|[a b] l IH]; [done|]. cbn. by f_equal. Qed.

Lemma kept_parses L rs :
  try_map parse_root_line L = Ok rs ->
  try_map parse_root_line (cut_lines (zip L rs)) = Ok (map snd (kept (zip L rs))).
Proof.
  intros [Hl Hz]%try_map_zip. apply try_map_zip. rewrite cut_lines_kept, !length_map. split; [done|].
  rewrite zip_fst_snd. apply Forall_forall. intros x Hx%kept_sub.
  rewrite Forall_forall in Hz. by apply Hz.
Qed.

(** No line is left with a carriage return at its end: every one in the text is inside
    a line, or belongs to a [\r\n]. *)
Definition no_stray_cr (text : string) : Prop := Forall (fun l => strip_cr l = l) (lines text).

Lemma file_lines_ok text :
  no_stray_cr text ->
  Forall (fun l => not_blank l = true /\ l <> EmptyString /\ char_free LF_char l /\ strip_cr l = l)
    (file_lines text).
Proof.
  intros Hcr. apply Forall_forall. intros l Hl%list_elem_of_In.
  unfold file_lines in Hl. apply filter_In in Hl as [Hin%list_elem_of_In Hb].
  pose proof (lines_free text) as Hf. unfold no_stray_cr in Hcr. rewrite Forall_forall in Hf, Hcr.
  split_and!; [done| |by apply Hf|by apply Hcr]. by intros ->.
Qed.

(** The lines the cut keeps are the lines of the text it writes. *)
Lemma file_lines_cut text rs :
  no_stray_cr text ->
  file_lines (join_lines (cut_lines (zip (file_lines text) rs))) = cut_lines (zip (file_lines text) rs).
Proof.
  intros Hcr. pose proof (file_lines_ok _ Hcr) as Hok.
  assert (Hc : Forall (fun l => not_blank l = true /\ l <> EmptyString /\ char_free LF_char l /\ strip_cr l = l)
      (cut_lines (zip (file_lines text) rs))).
  { rewrite cut_lines_kept. apply Forall_map, Forall_forall. intros [l r] Hx%kept_sub.
    apply elem_of_zip_l in Hx. rewrite Forall_forall in Hok. by apply Hok. }
  unfold file_lines at 1. rewrite lines_join.
  - revert Hc. generalize (cut_lines (zip (file_lines text) rs)). clear.
    induction l as [|x l IH]; [done|]. intros [[Hx _] Hl]%Forall_cons. cbn. rewrite Hx. by rewrite IH.
  - eapply Forall_impl; [exact Hc|]. cbn. tauto.
Qed.

Lemma anchors_ext a a' :
  keys a' = keys a -> (forall e, epoch_end a' e = epoch_end a e) ->
  List.filter r_epoch_end (roots a') = List.filter r_epoch_end (roots a) ->
  (forall e, e ∈ map r_epoch (roots a') <-> e ∈ map r_epoch (roots a)) ->
  (forall served h age, judge_epoch served (Some a') h age = judge_epoch served (Some a) h age) /\
  (forall m g, check_genesis m a' g = check_genesis m a g).
Proof.
  intros Hk He Hf Hr.
  assert (Hkey : forall e, key a' e = key a e) by (intros; unfold key; by rewrite Hk).
  assert (Hm : max_epoch a' = max_epoch a).
  { unfold max_epoch. rewrite Hk, Hf. f_equal. by apply max_or_1_ext. }
  assert (Hc : forall e, carries a' e = carries a e) by (intros; unfold carries; by rewrite Hkey, He).
  split.
  - intros served h age. unfold judge_epoch. rewrite Hm, Hc, Hkey. done.
  - intros [|e k g0] g; [done|]. unfold check_genesis. by rewrite He.
Qed.

(** C36: The cache holds everything the judgement reads.  From files that parse,
    with line ends of either kind in [roots.jsonl] but no line of it that ends in a
    carriage return of its own, [AnchorCache::new] makes a cache whose cut files parse,
    judge every served epoch at every ratchet and age exactly as the whole files do, and
    check every genesis entry the same. *)
Theorem cut_files_judge_alike repo now rs ks a :
  no_stray_cr rs -> parse rs ks = Ok a ->
  exists c a', AnchorCache_new repo now rs ks = Some c /\ cache_anchors c = Some a' /\
    (forall served h age, judge_epoch served (Some a') h age = judge_epoch served (Some a) h age) /\
    (forall m g, check_genesis m a' g = check_genesis m a g).
Proof.
  intros Hcr Hp. apply parse_files_Ok in Hp as [Hrs Hks].
  assert (Hp0 : parse rs EmptyString = Ok (mk_Anchors (roots a) [])) by (unfold parse; by rewrite Hrs).
  set (a' := mk_Anchors (map snd (kept (zip (file_lines rs) (roots a)))) (keys a)).
  set (c := mk_AnchorCache repo now (join_lines (cut_lines (zip (file_lines rs) (roots a)))) ks None).
  assert (Hc : cache_anchors c = Some a').
  { unfold cache_anchors, c, parse. cbn [roots_jsonl vrf_keys_jsonl].
    rewrite file_lines_cut by done. by rewrite (kept_parses _ _ Hrs), Hks. }
  exists c, a'. split; [|split; [done|]].
  { unfold AnchorCache_new. rewrite Hp0. cbv zeta. fold c. cbn [roots]. fold c. by rewrite Hc. }
  assert (Hsnd : map snd (zip (file_lines rs) (roots a)) = roots a).
  { apply try_map_zip in Hrs as [Hl _]. apply (snd_zip (file_lines rs)). lia. }
  apply anchors_ext; unfold a'; cbn [keys roots]; [done| | |].
  - intros e. unfold epoch_end. cbn [roots]. by rewrite kept_find, Hsnd.
  - by rewrite kept_ends, Hsnd.
  - intros e. rewrite <- Hsnd at 2. split; [|apply kept_epochs].
    intros (r & -> & ([l r'] & -> & Hx%kept_sub)%list_elem_of_fmap)%list_elem_of_fmap.
    apply list_elem_of_fmap. exists r'. split; [done|]. apply list_elem_of_fmap. by exists (l, r').
Qed.

End Cut.
