(* ===== verification/Watch.v ===== *)
(** * The owner's watch and the binding of log entries

    [bind_leaf] returns the hash of the entry the server served, for the key the
    entry names.  A clean [owner_watch] means that no entry of the published log
    stands under the owner's index for a key the owner does not hold. *)

From S2P Require Import Prelude Prims CryptoCore Text VrfIndex Wrap SignedBytes Merkle MerkleLevels MerkleProofs MerkleTheorems CliError Token Anchors.
Import TransLog.

(** An entry of an epoch-V3 log, less its id, which is its position. *)
Record LogEntry := mk_LogEntry
  { le_index : option bytes; le_purpose : KeyPurpose; le_algorithm : string; le_key : bytes;
    le_time : Z; le_prev : bytes }.

Section Watch.
Context `{Sha256, HB64 : Base64Url, Hex, HP : P256, HU : UuidLib}.

Definition le_preimage (id : Z) (e : LogEntry) : bytes :=
  entry_bytes_v3 id (le_index e) (le_purpose e) (le_algorithm e) (le_key e) (le_time e) (le_prev e).

Definition le_ok (e : LogEntry) : Prop :=
  entry_args_ok 0 (le_algorithm e) (le_key e) (le_time e) (le_prev e) /\
  forall x, le_index e = Some x -> length x = INDEX_LEN.

(** The preimages of a log, and its entry hashes. *)
Definition log_preimages (es : list LogEntry) : list bytes :=
  imap (fun i e => le_preimage (Z.of_nat i + 1) e) es.
Definition log_hashes (es : list LogEntry) : list bytes := map sha256 (log_preimages es).

(** The entry a served document states. *)
Definition served_entry (v : value) : option LogEntry :=
  match get_str v "key_purpose", get_str v "algorithm", get_str v "public_key" ≫= b64_decode,
        get_u64 v "created_at", hex32 (value_get v "prev_entry_hash") "prev_entry_hash", entry_index v with
  | Some purpose, Some alg, Some pk, Some t, Ok prev, Ok index =>
      match purpose_of purpose with
      | Ok kp => Some (mk_LogEntry index kp alg pk t prev)
      | Err _ => None
      end
  | _, _, _, _, _, _ => None
  end.

Lemma hex32_length v w b : hex32 v w = Ok b -> is32 b.
Proof. unfold hex32. intros E. steps_in E. by apply to_array_Ok in E as [-> ?]. Qed.

Lemma entry_index_length v i : entry_index v = Ok (Some i) -> length i = INDEX_LEN.
Proof.
  unfold entry_index. intros E. steps_in E; simplify_eq;
    match goal with H : to_array _ _ _ = Ok _ |- _ => by apply to_array_Ok in H as [-> ?] end.
Qed.

(** [bind_leaf] on a v3 entry: the leaf is the hash of the entry the document
    states, and the served fingerprint is the one of its key. *)
Lemma bind_leaf_v3 v id leaf :
  get_u64 v "entry_version" = Some 3 -> get_u64 v "entry_id" = Some id ->
  bind_leaf v None None = Ok leaf ->
  exists e purpose fp, served_entry v = Some e /\ leaf = sha256 (le_preimage id e) /\
    get_str v "key_purpose" = Some purpose /\ purpose_of purpose = Ok (le_purpose e) /\
    fingerprint_for purpose (le_key e) = Ok fp /\ get_str v "public_key_fingerprint" = Some fp.
Proof.
  intros Hv Hid. unfold bind_leaf, served_entry. rewrite Hv, Hid.
  destruct (get_str v "key_purpose") as [purpose|]; [|done].
  destruct (get_str v "algorithm") as [alg|]; [|done].
  destruct (get_str v "public_key") as [pkt|]; [|done]. cbn [mbind option_bind].
  destruct (b64_decode pkt) as [pk|]; [|done].
  destruct (get_u64 v "created_at") as [t|]; [|done].
  destruct (hex32 (value_get v "prev_entry_hash") "prev_entry_hash") as [prev|]; [|done]. cbn [map_err].
  destruct (hex32 (value_get v "entry_hash") "entry_hash") as [served|]; [|done].
  destruct (purpose_of purpose) as [kp|] eqn:Ep; [|done].
  change (3 =? 2) with false. change (3 =? 3) with true. cbn iota.
  destruct (entry_index v) as [index|]; [|done].
  destruct (bool_decide (_ = served)) eqn:Eh; [|done].
  destruct (fingerprint_for purpose pk) as [fp|] eqn:Ef; [|done].
  destruct (bool_decide (_ = Some fp)) eqn:Efp; [|done]. intros E. bool_prop.
  apply (inj Ok) in E as <-. eexists _, purpose, fp. split; [done|]. by split_and!.
Qed.

(** The scan: one leaf per entry, each the hash of the entry stated at its
    position, and exactly the entries under the index kept. *)
Lemma watch_scan_spec epoch index pos scanned leaves mine :
  watch_scan epoch index pos scanned = Ok (leaves, mine) ->
  length leaves = length scanned /\
  mine = List.filter (fun e => under_index e index) scanned /\
  forall i v, scanned !! i = Some v ->
    get_u64 v "entry_version" = Some 3 /\ get_u64 v "entry_id" = Some (pos + Z.of_nat i) /\
    exists leaf, leaves !! i = Some leaf /\ bind_leaf v None None = Ok leaf.
Proof.
  revert pos leaves mine. induction scanned as [|v scanned IH]; intros pos leaves mine E; cbn [watch_scan] in E.
  { injection E as <- <-. done. }
  destruct (_ && _) eqn:Eg; [|done]. destruct (bind_leaf v None None) as [leaf|] eqn:Eb; [|done].
  destruct (watch_scan epoch index (pos + 1) scanned) as [[ls ms]|] eqn:Es; [|done].
  injection E as <- <-. destruct (IH _ _ _ Es) as (Hl & -> & Hi). bool_prop. cbn [fst snd]. split_and!.
  - cbn. by rewrite Hl.
  - cbn. by destruct (under_index v index).
  - intros [|i] w Hw; cbn in Hw.
    + injection Hw as <-. rewrite Z.add_0_r. split_and!; [done..|]. by exists leaf.
    + destruct (Hi i w Hw) as (Hv & Hp & Hb). split; [done|]. split; [|done]. rewrite Hp. f_equal. lia.
Qed.

Lemma under_index_iff v index : under_index v index = true <->
  exists s b, get_str v "account_index" = Some s /\ hex_decode s = Some b /\ b = index.
Proof.
  unfold under_index. destruct (get_str v "account_index") as [s|]; cbn;
    [|split; [done|by intros (? & ? & ? & _)]].
  destruct (hex_decode s) as [b|] eqn:Eh; [|split; [done|intros (? & ? & [= <-] & Hd & _); congruence]].
  rewrite bool_decide_eq_true. split; [eauto|]. intros (? & ? & [= <-] & Hd & <-). congruence.
Qed.

(** An entry whose index was decoded to [index] stands under it. *)
Lemma entry_index_under v index : entry_index v = Ok (Some index) -> under_index v index = true.
Proof.
  unfold entry_index. rewrite under_index_iff. unfold get_str.
  destruct (value_get v "account_index") as [w|]; [|done]. intros E.
  destruct w; try done; cbn in *. destruct (hex_decode s) as [b|] eqn:Eb; [|done].
  destruct (to_array _ _ b) as [i|] eqn:Ea; [|done]. apply to_array_Ok in Ea as [-> _].
  exists s, i. by simplify_eq.
Qed.

(** A hash of a v3 entry pins the entry, up to the collision of the preimages. *)
Lemma le_hash_binding id e e' :
  is_u64 id -> le_ok e -> le_ok e' -> sha256 (le_preimage id e) = sha256 (le_preimage id e') ->
  (le_purpose e = le_purpose e' /\ le_key e = le_key e' /\
   default (replicate INDEX_LEN Byte.x00) (le_index e) = default (replicate INDEX_LEN Byte.x00) (le_index e'))
  \/ collision_in [le_preimage id e; le_preimage id e'].
Proof.
  intros Hid [(_ & He1 & He2 & He3 & He4) Hx] [(_ & He1' & He2' & He3' & He4') Hx'] E.
  eapply (sha256_eq_or_collision [_; _]) in E as [E|?]; [left|by right|left|right; left].
  unfold le_preimage, entry_bytes_v3 in E. apply (inj (cons _)) in E.
  apply entry_v23_inj in E as (_ & Hi & Hp & _ & Hk & _); [done|by split_and!..|].
  destruct (le_index e) as [x|], (le_index e') as [x'|]; cbn; rewrite ?(Hx x), ?(Hx' x'); done.
Qed.

(** The fields of a served entry whose length the encoding writes on 32 bits. *)
Definition served_small (v : value) : Prop :=
  forall e, served_entry v = Some e ->
    is_u32 (Z.of_nat (length (str_bytes (le_algorithm e)))) /\ is_u32 (Z.of_nat (length (le_key e))).

Lemma served_entry_ok v e : served_small v -> served_entry v = Some e -> le_ok e.
Proof.
  intros Hs He. destruct (Hs e He) as [Ha Hk]. unfold served_entry in He.
  destruct (get_str v "key_purpose") as [purpose|]; [|done].
  destruct (get_str v "algorithm") as [alg|]; [|done].
  destruct (get_str v "public_key" ≫= b64_decode) as [pk|]; [|done].
  destruct (get_u64 v "created_at") as [t|] eqn:Et; [|done].
  destruct (hex32 _ _) as [prev|] eqn:Ep; [|done].
  destruct (entry_index v) as [index|] eqn:Ei; [|done].
  destruct (purpose_of purpose); [|done]. injection He as <-. cbn in Ha, Hk. split; cbn.
  - split_and!; [done|done|done| |by eapply hex32_length].
    unfold get_u64 in Et. destruct (value_get v "created_at") as [w|]; [|done].
    unfold value_as_u64 in Et. destruct w; try done. cbn in Et.
    destruct (_ && _) eqn:E; [|done]. injection Et as <-. bool_prop. unfold is_u64. lia.
  - intros x ->. by eapply entry_index_length.
Qed.

Lemma served_entry_index v e : served_entry v = Some e -> entry_index v = Ok (le_index e).
Proof.
  unfold served_entry. intros E. steps_in E. done.
Qed.

(** The preimages of the entries a scan states. *)
Definition scanned_preimages (scanned : list value) : list bytes :=
  imap (fun i v => match served_entry v with Some e => le_preimage (Z.of_nat i + 1) e | None => [] end) scanned.

(** All the strings the watch and the publisher hash. *)
Definition watch_inputs (scanned : list value) (es : list LogEntry) (leaves : list bytes) : list bytes :=
  Merkle.merkle_root_inputs leaves ++ Merkle.merkle_root_inputs (log_hashes es)
  ++ scanned_preimages scanned ++ log_preimages es.

(** A key the owner holds: purpose and fingerprint, the latter in any case. *)
Definition holds_key (held : list (string * string)) (kp : KeyPurpose) (pk : bytes) : Prop :=
  exists purpose fp own, (purpose, fp) ∈ held /\ purpose_of purpose = Ok kp /\
    fingerprint_for purpose pk = Ok own /\ eq_ignore_ascii_case own fp = true.

Lemma clean_no_foreign {A} (f : A -> bool) l : List.filter (fun e => negb (f e)) l = [] ->
  forall e, e ∈ l -> f e = true.
Proof.
  intros E e He. destruct (f e) eqn:Ef; [done|].
  assert (Hin : In e (List.filter (fun e => negb (f e)) l)).
  { apply filter_In. split; [by apply list_elem_of_In|by rewrite Ef]. }
  by rewrite E in Hin.
Qed.

(** An entry found under the index by a scan with nothing foreign is of a held key. *)
Lemma held_of_same_key held v e purpose fp :
  existsb (same_key v) held = true ->
  get_str v "key_purpose" = Some purpose -> purpose_of purpose = Ok (le_purpose e) ->
  fingerprint_for purpose (le_key e) = Ok fp -> get_str v "public_key_fingerprint" = Some fp ->
  holds_key held (le_purpose e) (le_key e).
Proof.
  intros ([p f] & Hin & Hs)%existsb_exists Hp Hkp Hf Hfp. unfold same_key in Hs. rewrite Hp, Hfp in Hs.
  cbn in Hs. bool_prop. simplify_eq. exists p, f, fp. split_and!; [by apply list_elem_of_In|done..].
Qed.

#[export] Instance collision_in_dec Q : Decision (collision_in Q).
Proof.
  refine (cast_if (decide (Exists (fun a => Exists (fun b => a <> b /\ sha256 a = sha256 b) Q) Q))).
  - abstract (apply Exists_exists in e as (a & Ha & (b & Hb & ? & ?)%Exists_exists); by exists a, b).
  - abstract (intros (a & b & Ha & Hb & ? & ?); apply n; apply Exists_exists; exists a; split; [done|];
      apply Exists_exists; by exists b).
Defined.

(** A clean watch leaves the attacker no key.  Let the published root be the
    root of a log of v3 entries of the published size.  If the watch over what
    the server served is clean, then every entry of that log under the owner's
    index is for a key the owner holds, whatever the server left out or altered
    in what it served; or two of the hashed strings collide under SHA-256. *)
Theorem clean_watch_covers_the_log scanned epoch published index held w es leaves mine :
  Forall le_ok es -> Forall served_small scanned ->
  Z.of_nat (length es) <= 2 ^ 63 -> log_size published = Z.of_nat (length es) ->
  merkle_root_of published = Merkle.merkle_root (log_hashes es) ->
  index <> replicate INDEX_LEN Byte.x00 ->
  watch_scan epoch index 1 scanned = Ok (leaves, mine) ->
  owner_watch scanned epoch published index held = Ok w -> w_verdict w = "clean" ->
  (forall e, e ∈ es -> le_index e = Some index -> holds_key held (le_purpose e) (le_key e))
  \/ collision_in (watch_inputs scanned es leaves).
Proof.
  intros Hes Hsmall Hfit Hsize Hroot Hnz Hscan Hw Hclean. unfold owner_watch in Hw.
  destruct (_ =? log_size published) eqn:Hlen; [|done]. rewrite Hscan in Hw. cbn [fst snd] in Hw.
  destruct (bool_decide (_ = merkle_root_of published)) eqn:Hmr; [|done].
  apply (inj Ok) in Hw as <-. bool_prop. cbn [w_verdict] in Hclean.
  destruct (watch_scan_spec _ _ _ _ _ _ Hscan) as (Hll & -> & Hpos).
  destruct (bool_decide (map _ (List.filter _ _) = [])) eqn:Hf; [|done]. bool_prop.
  apply map_eq_nil in Hf. assert (Hlh : length (log_hashes es) = length es).
  { unfold log_hashes, log_preimages. by rewrite length_map, length_imap. }
  assert (H32 : Forall is32 leaves /\ Forall is32 (log_hashes es)).
  { split; [|by apply Forall_map, Forall_forall; intros; apply sha256_length].
    apply Forall_forall. intros l (i & Hi)%list_elem_of_lookup_1.
    destruct (lookup_lt_is_Some_2 scanned i) as [v Hv]; [apply lookup_lt_Some in Hi; lia|].
    destruct (Hpos i v Hv) as (Hver & Hid & leaf & Hl & Hb). assert (leaf = l) as -> by congruence.
    destruct (bind_leaf_v3 _ _ _ Hver Hid Hb) as (e & _ & _ & _ & -> & _). apply sha256_length. }
  destruct H32 as [H32 H32'].
  destruct (merkle_root_inj leaves (log_hashes es)) as [El|Hcol];
    [done|done|lia|unfold Merkle.log_fits; lia|unfold Merkle.log_fits; lia|congruence| |];
    [|right; eapply collision_in_mono; [done|]; unfold watch_inputs; list_sub].
  destruct (decide (collision_in (watch_inputs scanned es leaves))) as [Hc|Hnc]; [by right|left].
  intros e (i & Hi)%list_elem_of_lookup_1 Hidx.
  pose proof (lookup_lt_Some _ _ _ Hi) as Hlt.
  destruct (lookup_lt_is_Some_2 scanned i) as [v Hv]; [lia|].
  destruct (Hpos i v Hv) as (Hver & Hid & leaf & Hl & Hb).
  destruct (bind_leaf_v3 _ _ _ Hver Hid Hb) as (e' & purpose & fp & Hse & -> & Hp & Hkp & Hfp & Hsfp).
  rewrite El in Hl. unfold log_hashes, log_preimages in Hl.
  rewrite list_lookup_fmap, list_lookup_imap, Hi in Hl. cbn in Hl. apply (inj Some) in Hl.
  replace (Z.of_nat i + 1) with (1 + Z.of_nat i) in Hl by lia.
  assert (Hok' : le_ok e') by (eapply served_entry_ok; [|done]; rewrite Forall_forall in Hsmall;
    apply Hsmall; by eapply list_elem_of_lookup_2).
  apply le_hash_binding in Hl as [(Epu & Ek & Ei)|Hcol]; [|exfalso; apply Hnc|unfold is_u64, u64_max; lia
    |by eapply Forall_lookup_1|done].
  - rewrite Hidx in Ei. cbn in Ei. rewrite Epu, Ek.
    destruct (le_index e') as [x|] eqn:Ex; cbn in Ei; [subst x|done].
    eapply held_of_same_key; [|done..]. eapply (clean_no_foreign (fun e => existsb (same_key e) held)); [exact Hf|].
    apply list_elem_of_In, filter_In. split; [by apply list_elem_of_In; eapply list_elem_of_lookup_2|].
    apply entry_index_under. by rewrite (served_entry_index _ _ Hse), Ex.
  - eapply collision_in_mono; [exact Hcol|]. unfold watch_inputs, scanned_preimages, log_preimages.
    intros x Hx. rewrite !elem_of_app. do 2 right. apply elem_of_cons in Hx as [->|Hx]; [right|left].
    + apply elem_of_lookup_imap. exists i, e. split; [f_equal; lia|done].
    + apply list_elem_of_singleton in Hx as ->. apply elem_of_lookup_imap. exists i, v.
      rewrite Hse. split; [f_equal; lia|done].
Qed.

End Watch.
