(* ===== verification/AnchorsToy.v ===== *)
(** * Concrete runs of the anchoring

    A log of two epochs with its published files, a server in epoch 2, and the
    properties of [AnchorsTheorems], [AnchorCut] and [Watch] at these inputs. *)

From S2P Require Import Prelude Prims CryptoCore Text VrfIndex Wrap SignedBytes Merkle MerkleLevels MerkleProofs MerkleTheorems CliError Token Anchors AnchorsTheorems AnchorCut Watch.
Import TransLog Prims.Toy TextToy TokenToy Vrf.VrfToy.

Module AnchorsToy.

Definition k32 : bytes := Eval vm_compute in replicate 32 Byte.x2a.
Definition hex_k32 : string := Eval vm_compute in hex_encode k32.

(** [roots.jsonl] with the end of epoch 1, [vrf-keys.jsonl] with epoch 2. *)
Definition end_line : value := Eval vm_compute in
  VObject [("epoch", VNumber 1); ("epoch_end", VBool true); ("log_size", VNumber 5);
           ("merkle_root", VString hex_k32)].
Definition payload : bytes := Eval vm_compute in epoch_payload_v3 2 5 k32 k32.
Definition pinned : bytes := Eval vm_compute in
  entry_hash_v3 1 None Epoch EPOCH_ALGORITHM_V3 payload 7 (replicate 32 Byte.x00).
Definition key_line : value := Eval vm_compute in
  VObject [("epoch", VNumber 2); ("genesis_entry_hash", VString (hex_encode pinned));
           ("vrf_public_key", VString hex_k32); ("vrf_suite", VString Vrf.VRF_SUITE)].

Definition genesis : value := Eval vm_compute in
  VObject [("created_at", VNumber 7); ("entry_id", VNumber 1); ("entry_version", VNumber 3);
           ("key_purpose", VString "epoch"); ("public_key", VString (b64_encode payload))].
Definition page : value := VObject [("entries", VArray [genesis])].

Definition info (e : Z) : value :=
  VObject [("translog", VObject [("epoch", VNumber e); ("vrf_public_key", VString hex_k32)])].

(** Roots of epoch 1 before its end. *)
Definition root_line (size : Z) : value :=
  VObject [("epoch", VNumber 1); ("log_size", VNumber size); ("merkle_root", VString hex_k32)].

#[export] Instance json_named : JsonText :=
  json_table [("R", end_line); ("K", key_line); ("a", root_line 3); ("b", root_line 4)] eq_refl.

(** GitHub serves the files; the server serves the genesis. *)
Definition env (now : Z) : AnchorEnv :=
  mk_AnchorEnv None now
    (fun _ url => if ends_with url "/roots.jsonl" then Ok "R" else Ok "K")
    (fun _ => Ok page) None id.

Definition run (now e : Z) (use_cache : bool) : AnchorRun :=
  mk_AnchorRun (env now) "https://h" (info e) (Some "o/n") use_cache.

Definition v3_mode : LogMode := V3 2 k32 pinned.
Definition files : AnchorFiles := mk_Anchors [mk_RootLine 1 5 k32 true] [mk_EpochKey 2 k32 pinned].
Definition served2 : ServedEpoch := mk_ServedEpoch 2 (Some k32).

Lemma files_parse : parse "R" "K" = Ok files.
Proof. by vm_compute. Qed.

Lemma payload_eq : epoch_payload_v3 2 5 k32 k32 = payload.
Proof. done. Qed.
Lemma pinned_eq : entry_hash_v3 1 None Epoch EPOCH_ALGORITHM_V3 payload 7 (replicate 32 Byte.x00) = pinned.
Proof. done. Qed.

Lemma genesis_passes : check_genesis v3_mode files genesis = Ok tt.
Proof.
  unfold check_genesis, v3_mode. change (epoch_end files _) with (Some (mk_RootLine 1 5 k32 true)).
  cbn [log_size merkle_root_of]. rewrite payload_eq.
  replace (get_u64 genesis "created_at") with (Some 7) by done.
  replace (get_str genesis "public_key" ≫= b64_decode) with (Some payload) by done.
  rewrite pinned_eq. by vm_compute.
Qed.

Lemma fresh_run now : (run_one None (run now 2 false)).1
  = Ok (mk_Anchoring served2 (Some files) (Anchored v3_mode) true).
Proof.
  unfold run_one, anchor_served. cbn [run_info run_env run_url run_repo run_use_cache run].
  replace (from_server_info (info 2)) with (Ok (E := CliError) served2) by done.
  replace (anchor_repo_for _ _ _) with (Ok (E := CliError) (Some "o/n")) by done.
  cbv zeta. cbn [try_cache mbind option_bind].
  replace (read_files (env_text (env now) 0) "o/n") with (Some (files, "R", "K"))
    by (unfold read_files; replace (fetch_raw _ _) with (Some ("R", "K")) by done; by rewrite files_parse).
  replace (judge_with served2 _ _ _) with (Anchored v3_mode) by done.
  cbn [retry_reads is_unanchored negb orb fst snd]. unfold run_genesis, v3_mode. cbn [env_json env].
  replace (get_array page "entries" ≫= head) with (Some genesis) by done.
  fold v3_mode. rewrite genesis_passes. done.
Qed.

End AnchorsToy.
Import AnchorsToy.

(** The same run where the state file cannot be written. *)
Definition unsaved (r : AnchorRun) : AnchorRun :=
  let e := run_env r in
  mk_AnchorRun (mk_AnchorEnv (env_repo e) (env_now e) (env_text e) (env_json e) (Some (invalid_data "disk full")) (env_debug e))
    (run_url r) (run_info r) (run_repo r) (run_use_cache r).

(** Epoch 2 is anchored; then a run cannot save, and the server falls back to epoch 1:
    whatever the third run makes of it, it does not anchor epoch 1. *)
Lemma epoch_ratchet_witness :
  let rs := [run 100 2 false; unsaved (run 150 2 false); run 200 1 true] in
  (exists x, outcome None rs 0 = Some (Ok x) /\ a_verdict x = Anchored v3_mode) /\
  match outcome None rs 2 with
  | Some (Ok y) => match a_verdict y with Anchored m => 2 <= mode_epoch m | _ => True end
  | _ => True
  end.
Proof.
  cbv zeta. set (rs := [run 100 2 false; unsaved (run 150 2 false); run 200 1 true]).
  assert (Hrs : Forall run_ok rs).
  { repeat apply Forall_cons_2; [unfold run_ok, is_u64, u64_max; cbn; lia..|constructor]. }
  assert (O0 : outcome None rs 0 = Some (Ok (mk_Anchoring served2 (Some files) (Anchored v3_mode) true))).
  { exact (f_equal Some (fresh_run 100)). }
  split; [exact (ex_intro _ _ (conj O0 eq_refl))|].
  destruct (outcome None rs 2) as [[y|]|] eqn:O1; [|done..].
  destruct (a_verdict y) as [m| |] eqn:V; [|done..].
  exact (epoch_ratchet None rs 0 2 (run 100 2 false) (run 200 1 true) _ y v3_mode m
           eq_refl Hrs ltac:(lia) eq_refl eq_refl eq_refl eq_refl O0 eq_refl O1 V).
Defined.

Lemma v3_genesis_checked_witness :
  exists i ri, (i <= 0)%nat /\ [run 100 2 false] !! i = Some ri /\
    run_origin ri = "https://h" /\ checked_in ri 2 k32 pinned.
Proof.
  apply (v3_genesis_checked [run 100 2 false] 0 (run 100 2 false)
           (mk_Anchoring served2 (Some files) (Anchored v3_mode) true) 2 k32 pinned).
  - apply Forall_cons_2; [unfold run_ok, is_u64, u64_max; cbn; lia|constructor].
  - done.
  - exact (f_equal Some (fresh_run 100)).
  - done.
Defined.

(** A file of three lines with [\r\n] ends: the first root is cut, since a later one of
    its epoch follows; what is left judges as the whole file does. *)
Definition crlf_file : string := Eval vm_compute in
  let crlf := String.String CR_char (String.String LF_char EmptyString) in
  "a" +:+ crlf +:+ "b" +:+ crlf +:+ "R" +:+ crlf.

Lemma cut_files_judge_alike_witness :
  exists c a', AnchorCache_new "o/n" 100 crlf_file "K" = Some c /\ cache_anchors c = Some a' /\
    roots_jsonl c = join_lines ["b"; "R"] /\ judge_epoch served2 (Some a') 0 None = Anchored v3_mode.
Proof.
  destruct (cut_files_judge_alike "o/n" 100 crlf_file "K"
    (mk_Anchors [mk_RootLine 1 3 k32 false; mk_RootLine 1 4 k32 false; mk_RootLine 1 5 k32 true] [mk_EpochKey 2 k32 pinned]))
    as (c & a' & Hc & Ha & Hj & _).
  - repeat constructor.
  - by vm_compute.
  - exists c, a'. split; [exact Hc|]. split; [exact Ha|]. rewrite Hj. split; [|by vm_compute].
    assert (Hx : roots_jsonl <$> AnchorCache_new "o/n" 100 crlf_file "K" = Some (join_lines ["b"; "R"])) by (vm_compute; reflexivity).
    rewrite Hc in Hx. by injection Hx.
Defined.

(** ** A log of one entry, the owner's own *)
Module WatchToy.

Definition my_index : bytes := Eval vm_compute in replicate INDEX_LEN Byte.x07.
Definition my_key : bytes := Eval vm_compute in replicate 4 Byte.x09.
Definition prev : bytes := Eval vm_compute in replicate 32 Byte.x00.
Definition my_entry : LogEntry := mk_LogEntry (Some my_index) SigningPq "ML-DSA-87" my_key 7 prev.
Definition leaf : bytes := Eval vm_compute in sha256 (le_preimage 1 my_entry).
Definition root1 : bytes := Eval vm_compute in Merkle.merkle_root [leaf].
Definition my_fp : string := Eval vm_compute in Wrap.fingerprint_raw my_key.

Definition served : value := Eval vm_compute in
  VObject [("account_index", VString (hex_encode my_index)); ("algorithm", VString "ML-DSA-87");
           ("created_at", VNumber 7); ("entry_hash", VString (hex_encode leaf)); ("entry_id", VNumber 1);
           ("entry_version", VNumber 3); ("key_purpose", VString "signing_pq");
           ("prev_entry_hash", VString (hex_encode prev)); ("public_key", VString (b64_encode my_key));
           ("public_key_fingerprint", VString my_fp)].

Definition published : RootLine := mk_RootLine 2 1 root1 false.
Definition held : list (string * string) := [("signing_pq", my_fp)].

End WatchToy.
Import WatchToy.

Lemma served_entry_eq : served_entry WatchToy.served = Some my_entry.
Proof. by vm_compute. Qed.

Lemma my_entry_ok : le_ok my_entry.
Proof. split; [by split_and!; vm_compute|by intros x [= <-]]. Qed.

Lemma served_is_small : served_small WatchToy.served.
Proof. intros e. rewrite served_entry_eq. intros [= <-]. by split; vm_compute. Qed.

Lemma clean_watch_covers_the_log_witness :
  exists w leaves mine,
    watch_scan 2 my_index 1 [WatchToy.served] = Ok (leaves, mine) /\
    owner_watch [WatchToy.served] 2 published my_index held = Ok w /\ w_verdict w = "clean" /\
    ((forall e, e ∈ [my_entry] -> le_index e = Some my_index -> holds_key held (le_purpose e) (le_key e))
     \/ collision_in (watch_inputs [WatchToy.served] [my_entry] leaves)).
Proof.
  destruct (watch_scan 2 my_index 1 [WatchToy.served]) as [[leaves mine]|] eqn:Es; [|by vm_compute in Es].
  destruct (owner_watch [WatchToy.served] 2 published my_index held) as [w|] eqn:Ew; [|by vm_compute in Ew].
  assert (Hw : w_verdict w = "clean") by (vm_compute in Ew; by simplify_eq).
  exists w, leaves, mine. split; [done|]. split; [done|]. split; [done|].
  apply (clean_watch_covers_the_log _ 2 published my_index held w _ leaves mine).
  - exact (Forall_cons_2 _ _ _ my_entry_ok (Forall_nil_2 _)).
  - exact (Forall_cons_2 _ _ _ served_is_small (Forall_nil_2 _)).
  - cbn. lia.
  - done.
  - done.
  - done.
  - exact Es.
  - exact Ew.
  - exact Hw.
Defined.
