(* ===== verification/Receipts.v ===== *)
(** * Log receipts and server signatures (cli/src/commands.rs)

    The checks every identity record passes before a key is used: the server's
    two signatures, the transparency-log receipts with their account binding, the
    judgement of a published root, and the shape of a recipient's key bundle
    (mandatory hybrid write). *)

From S2P Require Import Prelude Prims CryptoCore Text VrfIndex Ecdsa Wrap SignedBytes Merkle CliError Token Anchors.
Import TransLog Attest.

(** ML-DSA-87 verification ([ml_dsa]): the decoding of a signature of the right
    size, and the verification under a context. *)
Class MlDsa87 := {
  mldsa87_signature : Type;
  mldsa87_sig_decode : bytes -> option mldsa87_signature;
  mldsa87_verify_with_context : bytes -> bytes -> bytes -> mldsa87_signature -> bool;
}.

Definition MLDSA87_VK_LEN : nat := 2592.
Definition MLDSA87_SIG_LEN : nat := 4627.
Definition SERVER_VERIFY_MLDSA_CTX : bytes := str_bytes "signet-server-attestation-verify-v1".
Definition RECEIPT_MLDSA_CTX : bytes := str_bytes "signet-pubkey-log-receipt-v1".

(** What a receipt must name as its account. *)
Inductive AccountBinding :=
| Attested
| AccountId (account : string)
| Index (epoch : Z) (index : bytes).

Inductive PublishedRootVerdict :=
| NoPublishedRoot
| MatchAtSameSize
| ConsistentAdvance (from to : Z)
| RootMismatchAtSameSize
| LogShrank (published proof : Z)
| NotAnExtension (from to : Z).

Record RecipientWrapKeys := mk_RecipientWrapKeys { rk_ec : bytes; rk_pq : option bytes }.

Definition value_as_i64 (v : value) : option Z :=
  match v with VNumber z => if (i64_min <=? z) && (z <=? i64_max) then Some z else None | _ => None end.

(** [Map::remove]. *)
Definition obj_remove (k : string) (ms : list (string * value)) : list (string * value) :=
  List.filter (fun kv => negb (bool_decide (kv.1 = k))) ms.

Definition has_field (v : value) (k : string) : bool := bool_decide (is_Some (value_get v k)).

#[export] Instance value_get_some_dec v k : Decision (is_Some (value_get v k)).
Proof. destruct (value_get v k); [left; eauto|right; by intros [? ?]]. Defined.

Section Code.
Context `{Sha256, Jcs, HB64 : Base64Url, Hex, HP : P256, !Ecdsa256, HJ : JsonText, HM : MlDsa87}.

(** [b64_decode] of a string field, with the two errors of the call site. *)
Definition decode_field (v : value) (k : string) (missing bad : CliError) : cliresult bytes :=
  let*! s := get_str v k else missing in
  let*! b := b64_decode s else bad in
  Ok b.

Definition verify_mldsa87 (vk_bytes msg ctx sig : bytes) : cliresult unit :=
  guard bool_decide (length vk_bytes = MLDSA87_VK_LEN) else invalid_data "server ML-DSA-87 key size" ;;
  guard bool_decide (length sig = MLDSA87_SIG_LEN) else signature_invalid "ML-DSA-87 signature size" ;;
  let*! s := mldsa87_sig_decode sig else signature_invalid "malformed ML-DSA-87 signature" in
  guard mldsa87_verify_with_context vk_bytes msg ctx s else
    signature_invalid "ML-DSA-87 signature does not verify" ;;
  Ok tt.

Definition enforce_response_dual_signature (response : value) (signing_input : bytes)
    (server_pq_vk : option bytes) : cliresult unit :=
  match server_pq_vk with
  | None => Ok tt
  | Some pq_vk =>
      let*? pq_sig := decode_field response "server_signature_mldsa87"
        (signature_invalid "ES256-only response rejected: the server has a published ML-DSA-87 key, so the §9 response MUST be dual-signed (MF-2/N9)")
        (invalid_data "server_signature_mldsa87 base64url") in
      let*? _ := verify_mldsa87 pq_vk signing_input SERVER_VERIFY_MLDSA_CTX pq_sig in
      Ok tt
  end.

(** ** One receipt *)

Definition check_receipt_index (receipt : value) (epoch : Z) (index : bytes) (purpose : string)
    : cliresult unit :=
  let refuse why := transparency_violation (purpose +:+ " receipt " +:+ why) in
  guard bool_decide (get_u64 receipt "v" = Some 2) && bool_decide (get_u64 receipt "entry_version" = Some 3)
        && negb (has_field receipt "account_id")
    else refuse ("is not the epoch-" +:+ pretty epoch
                 +:+ " receipt shape (v 2, entry_version 3, no account_id)") ;;
  guard bool_decide (get_u64 receipt "epoch" = Some epoch) else
    refuse ("does not name epoch " +:+ pretty epoch +:+ ", the anchored one") ;;
  let*! served := get_str receipt "account_index" ≫= hex_decode else refuse "carries no account_index" in
  guard bool_decide (served = index) else
    refuse "binds the key to a DIFFERENT account index. A logged key that is not this account's is a substitution" ;;
  Ok tt.

Definition check_binding (receipt : value) (binding : AccountBinding) (expected_purpose : string)
    : cliresult unit :=
  match binding with
  | Attested => Ok tt
  | AccountId expected_account =>
      let*! receipt_account := get_str receipt "account_id" else
        transparency_violation "receipt missing account_id" in
      guard eq_ignore_ascii_case receipt_account expected_account else
        transparency_violation (expected_purpose
          +:+ " receipt binds the key to a DIFFERENT account. A logged key that is not this recipient's is a substitution") ;;
      Ok tt
  | Index epoch index => check_receipt_index receipt epoch index expected_purpose
  end.

(** The receipt as it was signed: every [server_signature*] field removed. *)
Definition unsigned_receipt (ms : list (string * value)) : value :=
  VObject (obj_remove "server_signature_mldsa87" (obj_remove "server_signature" ms)).

Definition verify_one_receipt (receipt : value) (asserted_fp : string) (binding : AccountBinding)
    (expected_purpose : string) (server_pub : bytes) (server_pq_vk : option bytes) : cliresult unit :=
  let*! receipt_fp := get_str receipt "public_key_fingerprint" else
    transparency_violation "receipt missing public_key_fingerprint" in
  guard bool_decide (receipt_fp = asserted_fp) else
    transparency_violation (expected_purpose
      +:+ " receipt fingerprint does not match the asserted public key") ;;
  let*? _ := check_binding receipt binding expected_purpose in
  guard bool_decide (get_str receipt "key_purpose" = Some expected_purpose) else
    transparency_violation (expected_purpose +:+ " receipt has an unexpected key_purpose") ;;
  let*? sig := decode_field receipt "server_signature"
    (transparency_violation "receipt missing server_signature")
    (transparency_violation "receipt server_signature base64url") in
  let*! ms := value_as_object receipt else invalid_data "receipt is not a JSON object" in
  let pq_sig_b64 := get_str (VObject (obj_remove "server_signature" ms)) "server_signature_mldsa87" in
  let unsigned := unsigned_receipt ms in
  let*? signing_input := map_err (fun _ => invalid_data "receipt canonical bytes")
                           (receipt_signing_input unsigned) in
  let*? _ := map_err (fun _ => transparency_violation (expected_purpose
                                 +:+ " receipt signature does not verify"))
               (verify_es256 server_pub signing_input sig) in
  if has_field unsigned "server_pq_key_id" then
    let*! pq_sig_b64 := pq_sig_b64 else
      transparency_violation (expected_purpose
        +:+ " receipt names a server PQ key but carries no ML-DSA-87 co-signature (MF-2)") in
    let*! pq_vk := server_pq_vk else
      transparency_violation "a dual-signed receipt cannot be verified without the server's ML-DSA-87 key (use --server-pq-pubkey offline)" in
    let*! pq_sig := b64_decode pq_sig_b64 else
      transparency_violation "receipt server_signature_mldsa87 base64url" in
    map_err (fun _ => transparency_violation (expected_purpose
                        +:+ " receipt ML-DSA-87 co-signature does not verify"))
      (verify_mldsa87 pq_vk signing_input RECEIPT_MLDSA_CTX pq_sig)
  else Ok tt.

(** ** The inline receipts of a verification response *)

Definition inline_receipts : list (string * string * string) :=
  [("subject_signing_pubkey_receipt", "subject_signing_pubkey_fingerprint", "signing");
   ("subject_kem_pubkey_receipt", "subject_kem_pubkey_fingerprint", "kem");
   ("subject_signing_pq_pubkey_receipt", "subject_signing_pq_pubkey_fingerprint", "signing_pq");
   ("subject_kem_pq_pubkey_receipt", "subject_kem_pq_pubkey_fingerprint", "kem_pq")].

(** The loop: the number of receipts present, each of them verified. *)
Fixpoint receipts_loop (response attestation : value) (server_pub : bytes) (server_pq_vk : option bytes)
    (binding : AccountBinding) (anchored_epoch : option Z) (rs : list (string * string * string))
    (present : Z) : cliresult Z :=
  match rs with
  | [] => Ok present
  | (receipt_field, fp_field, purpose) :: rs =>
      match value_get response receipt_field with
      | None => receipts_loop response attestation server_pub server_pq_vk binding anchored_epoch rs present
      | Some receipt =>
          let*? _ := match anchored_epoch with
                     | Some epoch => check_receipt_epoch receipt epoch "attestation"
                     | None => Ok tt
                     end in
          let*! asserted_fp := get_str attestation fp_field else
            invalid_data ("attestation missing " +:+ fp_field) in
          let*? _ := verify_one_receipt receipt asserted_fp binding purpose server_pub server_pq_vk in
          receipts_loop response attestation server_pub server_pq_vk binding anchored_epoch rs (present + 1)
      end
  end.

Definition verify_inline_receipts (response attestation : value) (server_pub : bytes)
    (server_pq_vk : option bytes) (binding : AccountBinding) (anchored_epoch : option Z)
    : cliresult string :=
  let expected := if has_field attestation "subject_signing_pq_pubkey_fingerprint" then 4 else 2 in
  let*? present := receipts_loop response attestation server_pub server_pq_vk binding anchored_epoch
                     inline_receipts 0 in
  Ok (if present =? 0 then "absent" else if present =? expected then "verified" else "partial").

(** ** The published root *)

Definition judge_published_root (proof_root : bytes) (proof_size : Z) (committed : option (bytes * Z))
    (fetch_consistency_nodes : Z -> Z -> cliresult (list bytes)) : cliresult PublishedRootVerdict :=
  match committed with
  | None => Ok NoPublishedRoot
  | Some (published_root, published_size) =>
      match published_size ?= proof_size with
      | Eq => Ok (if decide (published_root = proof_root) then MatchAtSameSize else RootMismatchAtSameSize)
      | Gt => Ok (LogShrank published_size proof_size)
      | Lt =>
          let*? nodes := fetch_consistency_nodes published_size proof_size in
          Ok (if Merkle.verify_consistency published_size proof_size published_root proof_root nodes
              then ConsistentAdvance published_size proof_size
              else NotAnExtension published_size proof_size)
      end
  end.

(** ** A recipient's key bundle *)

Definition verify_recipient_kem_pub (v : value) (who : string) : cliresult bytes :=
  let*! kem_b64 := get_str v "kem_pubkey" else invalid_data (who +:+ " has no KEM public key") in
  let*! stated_fp := get_str v "kem_pubkey_fingerprint" else
    invalid_data (who +:+ " KEM key has no fingerprint") in
  let*! pubkey := b64_decode kem_b64 else invalid_data (who +:+ " KEM pubkey is not base64url") in
  let*? computed := map_err (fun _ => invalid_data (who +:+ " KEM pubkey is not a valid P-256 point"))
                      (Wrap.fingerprint pubkey) in
  guard bool_decide (computed = stated_fp) else
    transparency_violation (who +:+ " KEM-key fingerprint mismatch") ;;
  Ok pubkey.

Definition verify_recipient_wrap_keys (v : value) (who : string) : cliresult RecipientWrapKeys :=
  let*? ec := verify_recipient_kem_pub v who in
  match get_str v "kem_pq_pubkey", get_str v "kem_pq_pubkey_fingerprint" with
  | None, None =>
      Err (transparency_violation (who +:+ " has no published ML-KEM key: refusing a classical-only wrap (mandatory hybrid write, PQR §9.2: every v1 identity is hybrid; a PQ-less bundle is a stripped directory response)"))
  | Some k, Some fp =>
      let*! ek := b64_decode k else invalid_data (who +:+ " ML-KEM pubkey is not base64url") in
      guard bool_decide (length ek = Wrap.MLKEM1024_EK_LEN) else
        invalid_data (who +:+ " ML-KEM pubkey must be 1568 bytes") ;;
      guard bool_decide (Wrap.fingerprint_raw ek = fp) else
        transparency_violation (who +:+ " ML-KEM-key fingerprint mismatch") ;;
      Ok (mk_RecipientWrapKeys ec (Some ek))
  | _, _ =>
      Err (transparency_violation (who +:+ " hybrid KEM bundle is half-stripped (ML-KEM key/fingerprint pair incomplete)"))
  end.

Definition refuse_classical_write (what : string) : CliError :=
  transparency_violation ("refusing a classical-only " +:+ what +:+ " (mandatory hybrid write, PQR §9.2)").

End Code.
