(* ===== verification/Hybrid.v ===== *)
(** * Wrapping keys from the command line ([cli/src/hybrid.rs], [cli/src/commands.rs])

    The writer makes an ephemeral key and an ML-KEM encapsulation for a
    recipient's two public keys; the reader gets both shared secrets from its
    keystore.  The dispatch on the algorithm, the wrap to oneself, and the offline
    commands [encrypt], [decrypt] and [rewrap] are built on the two.  What is
    drawn from the system generator is an argument ([Coins]); the encapsulation of
    the ml-kem crate is an interface with the correctness of FIPS 203; the derived
    serializers of the envelopes are written out. *)

From S2P Require Import Prelude Prims CryptoCore Text Ecdsa Envelope Wrap WrapTheorems CliError Keystore SoftKeystore Token Receipts.
Import Wrap Envelope.

(** ** serde on the envelopes *)

(** The members of a structure, in the order of its fields: an object with all
    of them (and, under [deny_unknown_fields], nothing else), or an array. *)
Definition struct_fields (deny_unknown : bool) (names : list string) (v : value) : option (list value) :=
  match v with
  | VObject ms =>
      if deny_unknown && existsb (fun kv => negb (bool_decide (kv.1 ∈ names))) ms then None
      else mapM (value_get v) names
  | VArray vs => if decide (length vs = length names) then Some vs else None
  | _ => None
  end.

Definition value_as_u32 (v : value) : option Z :=
  match v with VNumber z => if (0 <=? z) && (z <=? u32_max) then Some z else None | _ => None end.

Definition epk_to_value (e : EpkJwk) : value :=
  json_obj [("kty", VString (kty e)); ("crv", VString (crv e));
            ("x", VString (epk_x e)); ("y", VString (epk_y e))].

Definition epk_from_value (v : value) : option EpkJwk :=
  fs ← struct_fields true ["kty"; "crv"; "x"; "y"]%string v ≫= mapM value_as_str;
  match fs with [k; c; x; y] => Some (mk_EpkJwk k c x y) | _ => None end.

Definition wrap_from_value (v : value) : option WrapEnvelope :=
  fs ← struct_fields true ["v"; "alg"; "epk"; "ct"; "rfp"]%string v;
  match fs with
  | [v; a; e; c; r] =>
      v ← value_as_u32 v; a ← value_as_str a; e ← epk_from_value e;
      c ← value_as_str c; r ← value_as_str r; Some (mk_WrapEnvelope v a e c r)
  | _ => None
  end.

Definition hybrid_to_value (e : HybridWrapEnvelope) : value :=
  json_obj [("v", VNumber (h_v e)); ("alg", VString (Wrap.h_alg e)); ("epk", epk_to_value (h_epk e));
            ("ek", VString (h_ek e)); ("wk", VString (h_wk e)); ("rfp", VString (h_rfp e))].

Definition hybrid_from_value (v : value) : option HybridWrapEnvelope :=
  fs ← struct_fields true ["v"; "alg"; "epk"; "ek"; "wk"; "rfp"]%string v;
  match fs with
  | [v; a; e; k; w; r] =>
      v ← value_as_u32 v; a ← value_as_str a; e ← epk_from_value e;
      k ← value_as_str k; w ← value_as_str w; r ← value_as_str r;
      Some (mk_HybridWrapEnvelope v a e k w r)
  | _ => None
  end.

Definition name_to_value (e : SplitEnvelope) : value :=
  json_obj [("v", VNumber (s_v e)); ("alg", VString (s_alg e)); ("iv", VString (s_iv e));
            ("ct", VString (s_ct e)); ("tag", VString (s_tag e))].

Definition name_from_value (v : value) : option SplitEnvelope :=
  fs ← struct_fields false ["v"; "alg"; "iv"; "ct"; "tag"]%string v;
  match fs with
  | [v; a; i; c; t] =>
      v ← value_as_u32 v; a ← value_as_str a; i ← value_as_str i;
      c ← value_as_str c; t ← value_as_str t; Some (mk_SplitEnvelope v a i c t)
  | _ => None
  end.

Lemma epk_from_to e : epk_from_value (epk_to_value e) = Some e.
Proof. by destruct e. Qed.

Lemma value_as_u32_number z : is_u32 z -> value_as_u32 (VNumber z) = Some z.
Proof.
  intros [H1 H2]. unfold value_as_u32.
  by rewrite (proj2 (Z.leb_le _ _) H1), (proj2 (Z.leb_le _ _) H2).
Qed.

Lemma hybrid_from_to e : is_u32 (h_v e) -> hybrid_from_value (hybrid_to_value e) = Some e.
Proof.
  intros Hv. unfold hybrid_from_value, hybrid_to_value.
  assert (Ef : forall v a e k w r, struct_fields true ["v"; "alg"; "epk"; "ek"; "wk"; "rfp"]%string
    (json_obj [("v", v); ("alg", a); ("epk", e); ("ek", k); ("wk", w); ("rfp", r)]%string)
    = Some [v; a; e; k; w; r]) by done.
  rewrite Ef. cbn [mbind option_bind value_as_str]. rewrite value_as_u32_number by done.
  cbn [mbind option_bind]. rewrite epk_from_to. by destruct e.
Qed.

Lemma name_from_to e : is_u32 (s_v e) -> name_from_value (name_to_value e) = Some e.
Proof.
  intros Hv. unfold name_from_value, name_to_value.
  assert (Ef : forall v a i c t, struct_fields false ["v"; "alg"; "iv"; "ct"; "tag"]%string
    (json_obj [("v", v); ("alg", a); ("iv", i); ("ct", c); ("tag", t)]%string)
    = Some [v; a; i; c; t]) by done.
  rewrite Ef. cbn [mbind option_bind value_as_str]. rewrite value_as_u32_number by done. by destruct e.
Qed.

(** ** hybrid.rs *)

(** [EncapsulationKey::encapsulate]: the second argument is the randomness.
    [mlkem1024_correct] is the scheme without its failures: FIPS 203 gives a
    decapsulation failure rate of less than 2^-174 for ML-KEM-1024. *)
Class MlKemEncaps `{PqSoftware} := {
  mlkem1024_encapsulate : bytes -> bytes -> option (bytes * bytes);
  mlkem1024_ek_length d z :
    length d = 32%nat -> length z = 32%nat -> length (mlkem1024_ek d z) = MLKEM1024_EK_LEN;
  mlkem1024_encapsulate_total ek r : length ek = MLKEM1024_EK_LEN -> is_Some (mlkem1024_encapsulate ek r);
  mlkem1024_encapsulate_length ek r ct ss :
    mlkem1024_encapsulate ek r = Some (ct, ss) -> length ct = MLKEM1024_CT_LEN /\ length ss = 32%nat;
  mlkem1024_correct d z r ct ss :
    mlkem1024_encapsulate (mlkem1024_ek d z) r = Some (ct, ss) -> mlkem1024_decapsulate d z ct = Some ss;
}.

(** One wrap draws a P-256 scalar and the randomness of an encapsulation. *)
Record Coins := mk_Coins { c_eph : bytes; c_encaps : bytes }.

(** [x := r?] where [r] also changes the keystore. *)
Notation "'ks?' x ':=' r 'on' st 'in' k" :=
  (match r with (Ok x, st) => k | (Err e, st) => (Err e, st) end)
  (at level 10, x name, r at level 100, st name, k at level 200) : rust_scope.

Section Code.
Context `{HS : Sha256, HX : Hex, HB : Base64Url, HG : AesGcm, HHk : Hkdf, HKw : AesKw, HJ : JsonText}.
Context `{HP : P256, !Ecdsa256, HQ : PqSoftware, !MlKemEncaps, HU : UuidLib}.
Context {St : Type} `{HK : Keystore St}.

Definition encapsulate (coins rk_pq : bytes) : cliresult (bytes * bytes) :=
  guard bool_decide (length rk_pq = MLKEM1024_EK_LEN) else
    invalid_data "recipient ML-KEM key must be 1568 bytes" ;;
  ok_or (encryption_failed "ml-kem encapsulation failed") (mlkem1024_encapsulate rk_pq coins).

Definition wrap_key_hybrid (c : Coins) (rk_ec_x963 rk_pq key party_v : bytes)
    : cliresult HybridWrapEnvelope :=
  let eph_pub := p256_x963 (p256_public (c_eph c)) in
  let*? z_ecdh := map_err (fun _ => encryption_failed "ephemeral ECDH failed")
                    (ecdh_p256 (c_eph c) rk_ec_x963) in
  let*? ek_z := encapsulate (c_encaps c) rk_pq in
  map_err (fun _ => encryption_failed "hybrid wrap failed")
    (wrap_from_secrets z_ecdh ek_z.2 eph_pub ek_z.1 rk_ec_x963 rk_pq key party_v).

Definition base64_decode_field (v field : string) : cliresult bytes :=
  ok_or (invalid_data ("hybrid wrap " +:+ field +:+ " is not base64url")) (b64_decode v).

Definition unwrap_key_hybrid (st : St) (kem_label kem_pq_label : KeyLabel) (env : HybridWrapEnvelope)
    (party_v : bytes) : cliresult bytes * St :=
  match map_err (fun _ => invalid_data "hybrid wrap epk") (x963_from_epk (h_epk env)) with
  | Err e => (Err e, st)
  | Ok epk =>
      match base64_decode_field (h_ek env) "ek" with
      | Err e => (Err e, st)
      | Ok ek =>
          ks? z_ecdh := ks_ecdh st kem_label epk on st in
          ks? z_mlkem := ks_ml_kem_decapsulate st kem_pq_label ek on st in
          ks? m_ec := ks_meta st kem_label on st in
          ks? m_pq := ks_meta st kem_pq_label on st in
          (lift_crypto (unwrap_with_shared_secrets z_ecdh z_mlkem env (km_public_key m_ec)
                          (km_public_key m_pq) party_v), st)
      end
  end.

(** ** commands.rs: the dispatch on the algorithm *)

Inductive WrapAlg := Classical | Hybrid.

Definition wrap_alg_of (v : value) : cliresult WrapAlg :=
  match Text.get_str v "alg" with
  | Some a =>
      if decide (a = "ECDH-ES+A256KW") then Ok Classical
      else if decide (a = "ECDH-ES+ML-KEM-1024+A256KW") then Ok Hybrid
      else Err (invalid_data "unknown wrap alg")
  | None => Err (invalid_data "unknown wrap alg")
  end.

Definition kem_pq_sibling (kem_label : KeyLabel) : cliresult KeyLabel :=
  from_handle (handle kem_label) KemPq.

Definition unwrap_dek_value (st : St) (v : value) (kem_label : KeyLabel) : cliresult bytes * St :=
  match wrap_alg_of v with
  | Err e => (Err e, st)
  | Ok Classical =>
      match
        let*! env := wrap_from_value v else invalid_data "wrapped DEK envelope" in
        let*? epk := map_err (fun _ => invalid_data "wrapped DEK epk") (ephemeral_pubkey_x963 env) in
        Ok (env, epk)
      with
      | Err e => (Err e, st)
      | Ok (env, epk) =>
          ks? z := ks_ecdh st kem_label epk on st in
          (lift_crypto (unwrap_dek_with_shared_secret z env), st)
      end
  | Ok Hybrid =>
      match
        let*! env := hybrid_from_value v else invalid_data "hybrid wrapped DEK envelope" in
        let*? pq := kem_pq_sibling kem_label in
        Ok (env, pq)
      with
      | Err e => (Err e, st)
      | Ok (env, pq) => unwrap_key_hybrid st kem_label pq env []
      end
  end.

Definition unwrap_metadata_key_envelope (st : St) (v : value) (root : bytes) (kem_label : KeyLabel)
    : cliresult bytes * St :=
  match wrap_alg_of v with
  | Err e => (Err e, st)
  | Ok Classical =>
      match
        let*! env := wrap_from_value v else invalid_data "metadata-key wrap envelope" in
        let*? epk := map_err (fun _ => invalid_data "metadata-key wrap epk") (ephemeral_pubkey_x963 env) in
        Ok (env, epk)
      with
      | Err e => (Err e, st)
      | Ok (env, epk) =>
          ks? z := ks_ecdh st kem_label epk on st in
          (lift_crypto (unwrap_metadata_key_with_shared_secret z env root), st)
      end
  | Ok Hybrid =>
      match
        let*! env := hybrid_from_value v else invalid_data "hybrid metadata-key wrap envelope" in
        let*? pq := kem_pq_sibling kem_label in
        Ok (env, pq)
      with
      | Err e => (Err e, st)
      | Ok (env, pq) => unwrap_key_hybrid st kem_label pq env root
      end
  end.

(** ** commands.rs: the writers *)

Definition self_wrap_keys (st : St) (me : value) (kem_label : KeyLabel)
    : cliresult RecipientWrapKeys * St :=
  ks? m := ks_meta st kem_label on st in
  let rk_ec := km_public_key m in
  match Text.get_str me "kem_pq_pubkey" with
  | None =>
      (Err (transparency_violation "my attested bundle has no ML-KEM key: refusing a classical-only self-wrap (mandatory hybrid write, PQR §9.2: if this identity pre-dates the four-key ceremony, re-enroll it)"), st)
  | Some b64 =>
      match
        let*! attested := b64_decode b64 else invalid_data "my ML-KEM pubkey is not base64url" in
        let*? pq := kem_pq_sibling kem_label in
        Ok (attested, pq)
      with
      | Err e => (Err e, st)
      | Ok (attested, pq) =>
          match ks_meta st pq with
          | (Err _, st) =>
              (Err (invalid_data "my attested bundle is hybrid but the local keystore has no ML-KEM key"), st)
          | (Ok m, st) =>
              let local := km_public_key m in
              if decide (attested = local) then (Ok (mk_RecipientWrapKeys rk_ec (Some local)), st)
              else (Err (transparency_violation "my attested ML-KEM key does not match the local keystore key"), st)
          end
      end
  end.

Definition wrap_dek_for (c : Coins) (keys : RecipientWrapKeys) (dek : bytes) : cliresult value :=
  match rk_pq keys with
  | Some pq =>
      let*? env := wrap_key_hybrid c (rk_ec keys) pq dek [] in
      Ok (hybrid_to_value env)
  | None => Err (refuse_classical_write "DEK wrap")
  end.

Definition wrap_metadata_key_for (c : Coins) (keys : RecipientWrapKeys) (metadata_key root : bytes)
    : cliresult value :=
  match rk_pq keys with
  | Some pq =>
      let*? env := wrap_key_hybrid c (rk_ec keys) pq metadata_key root in
      Ok (hybrid_to_value env)
  | None => Err (refuse_classical_write "metadata-key wrap")
  end.

Definition rewrap_dek_to (st : St) (c : Coins) (kem_label : KeyLabel) (envelope : value)
    (recipient : RecipientWrapKeys) : cliresult value * St :=
  ks? dek := unwrap_dek_value st envelope kem_label on st in
  (wrap_dek_for c recipient dek, st).

(** ** commands.rs: the offline commands

    [read_file] is a read of a file, [x963_from_pem] the PEM reader of the p256
    crate. *)

Context (read_file : string -> option bytes) (x963_from_pem : string -> option bytes).

Definition parse_uuid16 (s : string) : cliresult bytes :=
  let*! u := uuid_parse_str s else invalid_args ("'" +:+ s +:+ "' is not a valid UUID") in
  Ok (uuid_as_bytes u).

Definition validate_x963 (b : bytes) : cliresult bytes :=
  guard bool_decide (length b = 65%nat) && bool_decide (b !! 0%nat = Some Byte.x04) else
    invalid_data "expected a 65-byte X9.63 uncompressed P-256 point" ;;
  let*? _ := map_err (fun _ => invalid_data "public key is not a valid P-256 point") (Wrap.fingerprint b) in
  Ok b.

Definition parse_pubkey_text (s : string) : cliresult bytes :=
  if contains s "BEGIN PUBLIC KEY" then
    ok_or (invalid_data "invalid PEM public key") (x963_from_pem s)
  else if starts_with s "{" then
    let*? jwk := map_err (fun _ => invalid_data "invalid JWK JSON") (json_from_str s) in
    map_err (fun _ => invalid_data "invalid JWK public key") (x963_from_jwk jwk)
  else
    let*! b := b64_decode s else invalid_data "--to-pubkey is not base64url / PEM / JWK" in
    validate_x963 b.

Definition parse_pubkey_arg (s : string) : cliresult bytes :=
  match strip_prefix "@" s with
  | Some path =>
      let*! b := read_file path else input_read ("reading pubkey file " +:+ path) in
      match from_utf8 b with
      | Some text => parse_pubkey_text (trim text)
      | None => validate_x963 b
      end
  | None => parse_pubkey_text (trim s)
  end.

(** The recipients from index [i] on; [seen] has the keys before. *)
Fixpoint recipients_from (to_pubkey to_pq_pubkey : list string) (seen : list bytes)
    : cliresult (list RecipientWrapKeys) :=
  match to_pubkey with
  | [] => Ok []
  | s :: to_pubkey =>
      let*? pk := parse_pubkey_arg s in
      guard negb (bool_decide (pk ∈ seen)) else invalid_args "a --to-pubkey value was repeated" ;;
      let*? pq :=
        match head to_pq_pubkey with
        | Some b64 =>
            let*! ek := b64_decode b64 else invalid_args "--to-pq-pubkey is not base64url" in
            guard bool_decide (length ek = MLKEM1024_EK_LEN) else
              invalid_args "--to-pq-pubkey must be a 1568-byte ML-KEM-1024 encapsulation key" ;;
            Ok (Some ek)
        | None => Ok None
        end in
      let*? rest := recipients_from to_pubkey (tail to_pq_pubkey) (seen ++ [pk]) in
      Ok (mk_RecipientWrapKeys pk pq :: rest)
  end.

Definition offline_recipients (to_pubkey to_pq_pubkey : list string) : cliresult (list RecipientWrapKeys) :=
  guard negb (bool_decide (to_pubkey = [])) else invalid_args "at least one --to-pubkey is required" ;;
  guard bool_decide (length to_pq_pubkey = length to_pubkey) else
    invalid_args ("every recipient needs its ML-KEM key: got " +:+ pretty (length to_pubkey)
      +:+ " --to-pubkey but " +:+ pretty (length to_pq_pubkey)
      +:+ " --to-pq-pubkey (mandatory hybrid write, PQR §9.2; pair them by position)") ;;
  recipients_from to_pubkey to_pq_pubkey [].

(** The wraps of [encrypt], each with its own draws. *)
Fixpoint wrap_all (coins : list Coins) (recipients : list RecipientWrapKeys) (dek : bytes)
    : cliresult (list value) :=
  match recipients with
  | [] => Ok []
  | keys :: recipients =>
      let*? w := wrap_dek_for (default (mk_Coins [] []) (head coins)) keys dek in
      let*? ws := wrap_all (tail coins) recipients dek in
      Ok (w :: ws)
  end.

(** The ciphertext and the wraps that [encrypt] writes: [input] is the read of the
    input file, [dek], [iv] and [coins] are drawn. *)
Definition encrypt (input : cliresult bytes) (dek iv : bytes) (coins : list Coins) (aad_file_id : string)
    (to_pubkey to_pq_pubkey : list string) : cliresult (bytes * list value) :=
  let*? recipients := offline_recipients to_pubkey to_pq_pubkey in
  let*? file_id := parse_uuid16 aad_file_id in
  let*? plaintext := input in
  let*? ciphertext := map_err (fun _ => encryption_failed "file encryption failed")
                        (seal_file dek iv file_id plaintext) in
  let*? wraps := wrap_all coins recipients dek in
  Ok (ciphertext, wraps).

(** [decrypt] up to its output; [label] is the resolved KEM label. *)
Definition decrypt (st : St) (input : cliresult bytes) (aad_file_id : string) (envelope : cliresult value)
    (label : cliresult KeyLabel) : cliresult bytes * St :=
  match
    let*? file_id := parse_uuid16 aad_file_id in
    let*? label := label in
    let*? ciphertext := input in
    let*? envelope := envelope in
    Ok (file_id, label, ciphertext, envelope)
  with
  | Err e => (Err e, st)
  | Ok (file_id, label, ciphertext, envelope) =>
      ks? dek := unwrap_dek_value st envelope label on st in
      (lift_crypto (open_file dek file_id ciphertext), st)
  end.

(** [rewrap] up to its output. *)
Definition rewrap (st : St) (c : Coins) (envelope : cliresult value) (to_pubkey : string)
    (to_pq_pubkey : option string) (label : cliresult KeyLabel) : cliresult value * St :=
  match
    let*? label := label in
    let*? envelope := envelope in
    let*? recipients := offline_recipients [to_pubkey] (option_list to_pq_pubkey) in
    Ok (label, envelope, recipients)
  with
  | Ok (label, envelope, [recipient]) => rewrap_dek_to st c label envelope recipient
  | Ok _ => (Err (generic "one recipient in, one out"), st)
  | Err e => (Err e, st)
  end.

End Code.
