(* ===== verification/HybridTheorems.v ===== *)
(** * A wrapped key opens for its recipient

    [KemHolder] is what the reader needs of a keystore that holds an identity's
    two KEM keys; the software keystore has it once both keys are generated.
    Against it: what is wrapped to the identity's public keys opens in its
    keystore, through re-wraps and through the offline commands, and what is
    wrapped to oneself opens whatever the server says one's keys are. *)

From S2P Require Import Prelude Prims CryptoCore Text Ecdsa Envelope Wrap WrapTheorems CliError Keystore SoftKeystore Token Receipts Hybrid.
Import Wrap Envelope.

Class KemHolder {St : Type} `{HP : P256, HQ : PqSoftware, HK : Keystore St}
    (l : KeyLabel) (sk d z : bytes) (P : St -> Prop) := {
  holder_label : label_ok l;
  holder_ecdh st p : P st -> exists st', ks_ecdh st l p = (lift_crypto (ecdh_p256 sk p), st') /\ P st';
  holder_decaps st ct : P st -> length ct = MLKEM1024_CT_LEN -> exists st',
    ks_ml_kem_decapsulate st (mk_KeyLabel (handle l) KemPq) ct
    = (ok_or (decrypt_failed "ml-kem decapsulation failed") (mlkem1024_decapsulate d z ct), st') /\ P st';
  holder_meta_ec st : P st -> exists m st', ks_meta st l = (Ok m, st') /\ P st' /\
    km_public_key m = p256_x963 (p256_public sk);
  holder_meta_pq st : P st -> exists m st', ks_meta st (mk_KeyLabel (handle l) KemPq) = (Ok m, st') /\
    P st' /\ km_public_key m = mlkem1024_ek d z;
}.

(** The public keys of an identity, as its bundle has them. *)
Definition bundle `{HP : P256, HQ : PqSoftware} (sk d z : bytes) : RecipientWrapKeys :=
  mk_RecipientWrapKeys (p256_x963 (p256_public sk)) (Some (mlkem1024_ek d z)).

(** Secrets of the right form. *)
Definition secrets_ok `{HP : P256} (sk d z : bytes) : Prop :=
  is_Some (p256_scalar sk) /\ length d = 32%nat /\ length z = 32%nat.

Section Holder.
Context `{HS : Sha256, HX : Hex, HB : Base64Url, HG : AesGcm, HHk : Hkdf, HKw : AesKw, HJ : JsonText}.
Context `{HP : P256, !Ecdsa256, HQ : PqSoftware, !MlKemEncaps, HU : UuidLib}.

Lemma bundle_valid sk d z :
  secrets_ok sk d z -> validate_recipient_keys (p256_x963 (p256_public sk)) (mlkem1024_ek d z) = Ok tt.
Proof.
  intros (Hs & Hd & Hz). unfold validate_recipient_keys.
  rewrite !bool_decide_true by (try apply p256_x963_length; try done).
  unfold p256_x963 at 1. rewrite p256_decode_uncompressed. cbn [andb].
  by rewrite bool_decide_true by by apply mlkem1024_ek_length.
Qed.

(** The writer's half: the wrap is made, from a shared secret each the recipient
    can compute. *)
Lemma wrap_key_hybrid_ok c sk d z key pv :
  secrets_ok sk d z -> is_Some (p256_scalar (c_eph c)) -> length key = 32%nat ->
  validate_party_v pv = Ok tt ->
  exists env ct ss,
    mlkem1024_encapsulate (mlkem1024_ek d z) (c_encaps c) = Some (ct, ss) /\
    wrap_key_hybrid c (p256_x963 (p256_public sk)) (mlkem1024_ek d z) key pv = Ok env /\
    h_epk env = epk_jwk (p256_public (c_eph c)) /\ h_ek env = b64_encode ct /\
    h_v env = 1 /\ Wrap.h_alg env = as_jose HYBRID_ALG /\
    unwrap_with_shared_secrets (p256_dh (c_eph c) (p256_public sk)) ss env
      (p256_x963 (p256_public sk)) (mlkem1024_ek d z) pv = Ok key.
Proof.
  intros Hk [e He] Hl Hpv. pose proof (bundle_valid sk d z Hk) as Hv. destruct Hk as (Hs & Hd & Hz).
  destruct (mlkem1024_encapsulate_total (mlkem1024_ek d z) (c_encaps c)) as [[ct ss] Hc];
    [by apply mlkem1024_ek_length|].
  destruct (mlkem1024_encapsulate_length _ _ _ _ Hc) as [Hct Hss].
  unfold wrap_key_hybrid. rewrite (ecdh_ok _ _ _ He). cbn [map_err].
  unfold encapsulate. rewrite bool_decide_true by by apply mlkem1024_ek_length.
  rewrite Hc. cbn [ok_or fst snd].
  destruct (hybrid_round_trip (p256_dh (c_eph c) (p256_public sk)) ss (p256_public (c_eph c)) ct
    (p256_x963 (p256_public sk)) (mlkem1024_ek d z) key pv Hv Hpv Hct Hl) as (env & Hw & Hu).
  rewrite Hw. exists env, ct, ss. split; [done|]. split; [done|].
  unfold wrap_from_secrets in Hw. rewrite Hv, Hpv, bool_decide_true in Hw by done.
  unfold p256_pub, p256_x963 at 1 in Hw. rewrite p256_decode_uncompressed in Hw. cbn [ok_or] in Hw.
  steps_in Hw. done.
Qed.

Section OneKeystore.
Context {St : Type} `{HK : Keystore St} (l : KeyLabel) (sk d z : bytes) (P : St -> Prop).
Context `{!KemHolder l sk d z P}.

(** The reader's half. *)
Lemma unwrap_key_hybrid_ok st c key pv env :
  P st -> secrets_ok sk d z -> is_Some (p256_scalar (c_eph c)) -> length key = 32%nat ->
  validate_party_v pv = Ok tt ->
  wrap_key_hybrid c (p256_x963 (p256_public sk)) (mlkem1024_ek d z) key pv = Ok env ->
  exists st', unwrap_key_hybrid st l (mk_KeyLabel (handle l) KemPq) env pv = (Ok key, st') /\ P st'.
Proof.
  intros Hst Hk He Hl Hpv Hw.
  destruct (wrap_key_hybrid_ok c sk d z key pv Hk He Hl Hpv) as (env' & ct & ss & Hc & Hw' & Hepk & Hek & _ & _ & Hu).
  rewrite Hw in Hw'. apply (inj Ok) in Hw' as <-.
  destruct (mlkem1024_encapsulate_length _ _ _ _ Hc) as [Hct _]. apply mlkem1024_correct in Hc.
  unfold unwrap_key_hybrid. rewrite Hepk, x963_from_epk_jwk. cbn [map_err].
  unfold base64_decode_field. rewrite Hek, b64_decode_encode. cbn [ok_or].
  destruct (holder_ecdh st (p256_x963 (p256_public (c_eph c))) Hst) as (st1 & -> & H1).
  destruct Hk as ([s Hs] & Hd & Hz). rewrite (ecdh_ok _ _ _ Hs). cbn [lift_crypto map_err].
  destruct (holder_decaps st1 ct H1 Hct) as (st2 & -> & H2). rewrite Hc. cbn [ok_or].
  destruct (holder_meta_ec st2 H2) as (m1 & st3 & -> & H3 & ->).
  destruct (holder_meta_pq st3 H3) as (m2 & st4 & -> & H4 & ->).
  rewrite (p256_dh_comm sk (c_eph c)) by eauto. rewrite Hu. cbn. eauto.
Qed.

Lemma sibling_ok : kem_pq_sibling l = Ok (mk_KeyLabel (handle l) KemPq).
Proof. unfold kem_pq_sibling. apply from_handle_Ok. split; [done|]. exact (holder_label (KemHolder := KemHolder0)). Qed.

Lemma wrap_alg_of_hybrid env :
  Wrap.h_alg env = as_jose HYBRID_ALG -> wrap_alg_of (hybrid_to_value env) = Ok Hybrid.
Proof. intros Ha. unfold wrap_alg_of, hybrid_to_value. rewrite Ha. by vm_compute. Qed.

Lemma dek_wrap_opens st c dek :
  P st -> secrets_ok sk d z -> is_Some (p256_scalar (c_eph c)) -> length dek = 32%nat ->
  exists v st', wrap_dek_for c (bundle sk d z) dek = Ok v /\ wrap_alg_of v = Ok Hybrid /\
    unwrap_dek_value st v l = (Ok dek, st') /\ P st'.
Proof.
  intros Hst Hk He Hl.
  destruct (wrap_key_hybrid_ok c sk d z dek [] Hk He Hl) as (env & ct & ss & _ & Hw & _ & _ & Hv & Ha & _); [done|].
  destruct (unwrap_key_hybrid_ok st c dek [] env Hst Hk He Hl) as (st' & Hu & H'); [done|done|].
  exists (hybrid_to_value env), st'. unfold wrap_dek_for, bundle. cbn [rk_pq rk_ec]. rewrite Hw.
  split; [done|]. pose proof (wrap_alg_of_hybrid env Ha) as Halg. split; [done|].
  unfold unwrap_dek_value. rewrite Halg, hybrid_from_to, sibling_ok by (by rewrite Hv).
  by rewrite Hu.
Qed.

Lemma metadata_wrap_opens st c key root :
  P st -> secrets_ok sk d z -> is_Some (p256_scalar (c_eph c)) -> length key = 32%nat ->
  length root = 16%nat ->
  exists v st', wrap_metadata_key_for c (bundle sk d z) key root = Ok v /\ wrap_alg_of v = Ok Hybrid /\
    unwrap_metadata_key_envelope st v root l = (Ok key, st') /\ P st'.
Proof.
  intros Hst Hk He Hl Hr.
  assert (Hpv : validate_party_v root = Ok tt).
  { unfold validate_party_v. rewrite (bool_decide_true (length root = 16%nat)) by done.
    by rewrite orb_true_r. }
  destruct (wrap_key_hybrid_ok c sk d z key root Hk He Hl Hpv) as (env & ct & ss & _ & Hw & _ & _ & Hv & Ha & _).
  destruct (unwrap_key_hybrid_ok st c key root env Hst Hk He Hl Hpv Hw) as (st' & Hu & H').
  exists (hybrid_to_value env), st'. unfold wrap_metadata_key_for, bundle. cbn [rk_pq rk_ec]. rewrite Hw.
  split; [done|]. pose proof (wrap_alg_of_hybrid env Ha) as Halg. split; [done|].
  unfold unwrap_metadata_key_envelope. rewrite Halg, hybrid_from_to, sibling_ok by (by rewrite Hv).
  by rewrite Hu.
Qed.

(** What [self_wrap_keys] returns is the keystore's own pair. *)
Lemma self_wrap_keys_own st me keys st' :
  P st -> self_wrap_keys st me l = (Ok keys, st') -> keys = bundle sk d z /\ P st'.
Proof.
  intros Hst. unfold self_wrap_keys.
  destruct (holder_meta_ec st Hst) as (m1 & st1 & -> & H1 & Hm1). rewrite sibling_ok.
  destruct (Text.get_str me "kem_pq_pubkey") as [b64|]; [|done].
  destruct (b64_decode b64) as [a|]; [|done].
  destruct (holder_meta_pq st1 H1) as (m2 & st2 & -> & H2 & Hm2).
  case_decide; [|done]. intros [= <- <-]. unfold bundle. by rewrite Hm1, Hm2.
Qed.

End OneKeystore.
End Holder.

(** ** The software keystore holds what it generated *)

Section Software.
Context `{AesGcm, Sha256, Hex, Base64Url, Base64Std}.
Context `{HP : P256, !Ecdsa256} `{HQ : PqSoftware, StoredCodec}.

Definition soft_holds (l : KeyLabel) (sk d z : bytes) (st : SoftwareKeystore) : Prop :=
  let pq := mk_KeyLabel (handle l) KemPq in
  (exists s m, read_stored st l = Ok s /\ open_bytes st l s = Ok sk /\ to_meta s = Ok m /\
     km_public_key m = p256_x963 (p256_public sk)) /\
  (exists s m, read_stored st pq = Ok s /\ open_bytes st pq s = Ok (d ++ z) /\ to_meta s = Ok m /\
     km_public_key m = mlkem1024_ek d z) /\
  length sk = 32%nat /\ length d = 32%nat /\ length z = 32%nat.

Lemma soft_holder l sk d z :
  label_ok l -> purpose l = Kem -> KemHolder l sk d z (soft_holds l sk d z).
Proof.
  intros Hl Hp. split; [done|..]; intros st.
  - intros p Hst. exists st. split; [|done]. destruct Hst as ((s & m & Hr & Ho & _) & _ & Hs & _).
    cbn. unfold ecdh, open_scalar. rewrite Hp, bool_decide_true, Hr, Ho by done.
    by rewrite (proj2 (to_array_Ok 32 _ _ _) (conj eq_refl Hs)).
  - intros ct Hst Hct. exists st. split; [|done].
    destruct Hst as (_ & (s & m & Hr & Ho & _) & _ & Hd & Hz). cbn. unfold ml_kem_decapsulate. cbn [purpose].
    rewrite bool_decide_true, Hr, Ho, length_app, Hd, Hz by done.
    rewrite bool_decide_true by done.
    rewrite (bool_decide_true (length ct = Z.to_nat 1568)) by (by rewrite Hct).
    rewrite <- Hd, take_app_length, drop_app_length. by destruct (mlkem1024_decapsulate d z ct).
  - intros Hst. pose proof Hst as ((s & m & Hr & _ & Hm & Hk) & _).
    exists m, st. split; [|done]. cbn. unfold meta. by rewrite Hr, Hm.
  - intros Hst. pose proof Hst as (_ & (s & m & Hr & _ & Hm & Hk) & _).
    exists m, st. split; [|done]. cbn. unfold meta. by rewrite Hr, Hm.
Qed.

Lemma generate_env st l a : kek (generate st l a).2 = kek st /\ disk (generate st l a).2 = disk st.
Proof.
  unfold generate. destruct (files st !! key_path l); [done|].
  match goal with |- context [match ?x with Ok _ => _ | Err _ => _ end] =>
    destruct x as [[[stored public] b]|e] end; [|done].
  unfold write_secret_file. destruct (d_write_fault _ _); [done|]. by destruct (d_mode_ok _ _).
Qed.

(** An identity generated in the software keystore is a holder of the bundle that
    its two receipts publish. *)
Theorem generated_identity_holds st h a a' m m' st1 st2 :
  let l := mk_KeyLabel h Kem in
  let pq := mk_KeyLabel h KemPq in
  entropy_ok (now st) -> entropy_ok (now st1) ->
  d_read_ok (disk st) (key_path l) = true -> d_read_ok (disk st) (key_path pq) = true ->
  generate st l a = (Ok m, st1) -> generate st1 pq a' = (Ok m', st2) ->
  exists sk d z, soft_holds l sk d z st2 /\ secrets_ok sk d z /\
    bundle sk d z = mk_RecipientWrapKeys (km_public_key m) (Some (km_public_key m')).
Proof.
  intros l pq He He1 Hr Hr' Hg Hg1.
  pose proof (generate_env st l a) as [Ek Ed]. rewrite Hg in Ek, Ed. cbn [snd] in Ek, Ed.
  pose proof (generate_env st1 pq a') as [Ek1 Ed1]. rewrite Hg1 in Ek1, Ed1. cbn [snd] in Ek1, Ed1.
  pose proof (generate_other st1 pq l a') as Hf. rewrite Hg1 in Hf. cbn [snd] in Hf.
  rewrite <- Ed in Hr'.
  destruct (generate_Ok _ _ _ _ _ Hg He Hr) as (s & Hrd & Hm & Ho & fp & Hp).
  destruct (generate_Ok _ _ _ _ _ Hg1 He1 Hr') as (s' & Hrd' & Hm' & Ho' & fp' & Hp').
  destruct He as (Hs & Hl & _). destruct He1 as (_ & _ & _ & Hdz & _). cbn in Ho, Ho', Hp, Hp'.
  exists (e_scalar (now st)), (take 32 (e_dz (now st1))), (drop 32 (e_dz (now st1))).
  assert (Hd : length (take 32 (e_dz (now st1))) = 32%nat) by (rewrite length_take; lia).
  assert (Hz : length (drop 32 (e_dz (now st1))) = 32%nat) by (rewrite length_drop; lia).
  assert (Em : km_public_key m = p256_x963 (p256_public (e_scalar (now st)))).
  { by eapply (fresh_p256_public _ Kem); [by right|exact Hp]. }
  assert (Em' : km_public_key m' = mlkem1024_ek (take 32 (e_dz (now st1))) (drop 32 (e_dz (now st1))))
    by congruence.
  split_and!; try done; [split_and!; try done|unfold bundle; by rewrite Em, Em'].
  - exists s, m. split_and!; try done.
    + unfold read_stored in *. rewrite Hf by done. by rewrite Ed1.
    + unfold open_bytes in *. by rewrite Ek1.
  - exists s', m'. split_and!; try done. by rewrite take_drop.
Qed.

End Software.

(** ** From writer to reader *)

Section Delivery.
Context `{HS : Sha256, HX : Hex, HB : Base64Url, HG : AesGcm, HHk : Hkdf, HKw : AesKw, HJ : JsonText}.
Context `{HP : P256, !Ecdsa256, HQ : PqSoftware, !MlKemEncaps, HU : UuidLib}.
Context {St : Type} `{HK : Keystore St} (l : KeyLabel) (sk d z : bytes) (P : St -> Prop).
Context `{!KemHolder l sk d z P}.

(** C10: A wrapped key reaches its recipient, and only as a hybrid wrap.  Whoever
    wraps a file key to an identity's two public keys, the wrap is made, it is
    hybrid, and the identity's keystore opens it; the identity can re-wrap it to
    another one, whose keystore opens the same key.  A folder's metadata key is
    wrapped and opened alike for its own folder. *)
Theorem wrapped_key_reaches_recipient {St'} `{HK' : Keystore St'} l' sk' d' z' (P' : St' -> Prop)
    `{!KemHolder l' sk' d' z' P'} st st' c c' key root :
  P st -> P' st' -> secrets_ok sk d z -> secrets_ok sk' d' z' ->
  is_Some (p256_scalar (c_eph c)) -> is_Some (p256_scalar (c_eph c')) ->
  length key = 32%nat -> length root = 16%nat ->
  exists v, wrap_dek_for c (bundle sk d z) key = Ok v /\ wrap_alg_of v = Ok Hybrid /\
    (unwrap_dek_value st v l).1 = Ok key /\
    (exists v', (rewrap_dek_to st c' l v (bundle sk' d' z')).1 = Ok v' /\ wrap_alg_of v' = Ok Hybrid /\
       (unwrap_dek_value st' v' l').1 = Ok key) /\
    exists u, wrap_metadata_key_for c (bundle sk d z) key root = Ok u /\ wrap_alg_of u = Ok Hybrid /\
      (unwrap_metadata_key_envelope st u root l).1 = Ok key.
Proof.
  intros Hst Hst' Hk Hk' Hc Hc' Hl Hr.
  destruct (dek_wrap_opens l sk d z P st c key Hst Hk Hc Hl) as (v & st1 & Hw & Ha & Hu & _).
  destruct (dek_wrap_opens l' sk' d' z' P' st' c' key Hst' Hk' Hc' Hl) as (v' & st1' & Hw' & Ha' & Hu' & _).
  destruct (metadata_wrap_opens l sk d z P st c key root Hst Hk Hc Hl Hr) as (u & st2 & Hwu & Hau & Huu & _).
  exists v. rewrite Hu. split_and!; [done..| |].
  - exists v'. unfold rewrap_dek_to. by rewrite Hu, Hu'.
  - exists u. by rewrite Huu.
Qed.

(** A wrap to oneself always opens.  Whatever the server says one's attested
    bundle is, either the wrap is refused or it is made to the keys of the local
    keystore, so that keystore opens it. *)
Theorem self_wrap_opens st st1 me keys c key root :
  P st -> secrets_ok sk d z -> is_Some (p256_scalar (c_eph c)) ->
  length key = 32%nat -> length root = 16%nat ->
  self_wrap_keys st me l = (Ok keys, st1) ->
  (exists v, wrap_dek_for c keys key = Ok v /\ (unwrap_dek_value st1 v l).1 = Ok key) /\
  (exists u, wrap_metadata_key_for c keys key root = Ok u /\
     (unwrap_metadata_key_envelope st1 u root l).1 = Ok key).
Proof.
  intros Hst Hk Hc Hl Hr Hs. apply (self_wrap_keys_own l sk d z P) in Hs as [-> H1]; [|done].
  destruct (dek_wrap_opens l sk d z P st1 c key H1 Hk Hc Hl) as (v & st2 & Hw & _ & Hu & _).
  destruct (metadata_wrap_opens l sk d z P st1 c key root H1 Hk Hc Hl Hr) as (u & st3 & Hwu & _ & Huu & _).
  split; [exists v; by rewrite Hu|exists u; by rewrite Huu].
Qed.

(** ** The offline commands *)

Context (read_file : string -> option bytes) (x963_from_pem : string -> option bytes).

Lemma recipients_from_lookup to_pk to_pq seen rs i s q :
  recipients_from read_file x963_from_pem to_pk to_pq seen = Ok rs ->
  to_pk !! i = Some s -> to_pq !! i = Some q ->
  exists pk ek, parse_pubkey_arg read_file x963_from_pem s = Ok pk /\ b64_decode q = Some ek /\
    rs !! i = Some (mk_RecipientWrapKeys pk (Some ek)).
Proof.
  revert to_pq seen rs i. induction to_pk as [|s0 to_pk IH]; intros to_pq seen rs i; [done|].
  cbn [recipients_from]. destruct (parse_pubkey_arg _ _ s0) as [pk|] eqn:Ep; [|done].
  destruct (bool_decide (pk ∈ seen)); cbn [negb]; [done|].
  destruct to_pq as [|q0 to_pq]; [by intros _ _ ?|]. cbn [head tail].
  destruct (b64_decode q0) as [ek|] eqn:Eq; [|done]. case_bool_decide; [|done].
  destruct (recipients_from _ _ to_pk to_pq _) as [rest|] eqn:Er; [|done]. intros [= <-].
  destruct i as [|i]; cbn.
  - intros [= <-] [= <-]. eauto.
  - intros Hs Hq. by eapply IH.
Qed.

Lemma wrap_all_lookup coins rs dek ws i keys :
  wrap_all coins rs dek = Ok ws -> rs !! i = Some keys ->
  exists w, ws !! i = Some w /\ wrap_dek_for (default (mk_Coins [] []) (coins !! i)) keys dek = Ok w.
Proof.
  revert coins ws i. induction rs as [|k rs IH]; intros coins ws i; [done|]. cbn [wrap_all].
  destruct (wrap_dek_for _ k dek) as [w|] eqn:Ew; [|done].
  destruct (wrap_all (tail coins) rs dek) as [ws'|] eqn:Er; [|done]. intros [= <-].
  destruct i as [|i]; cbn.
  - intros [= <-]. exists w. by destruct coins.
  - intros Hk. destruct (IH _ _ _ Er Hk) as (w' & ? & ?). exists w'. destruct coins; by rewrite ?lookup_nil in *.
Qed.

Lemma open_sealed_file dek iv file_id p env :
  length iv = 12%nat -> seal_file dek iv file_id p = Ok env -> open_file dek file_id env = Ok p.
Proof.
  intros Hiv Hs. apply open_file_frame. apply seal_file_frame in Hs as (c & Hs & ->); [|done].
  exists iv, c. by rewrite open_iff.
Qed.

(** What [encrypt] writes, every recipient's [decrypt] reads: when the command
    succeeds, each pair of recipient keys on its command line has a wrap at its
    position, and with that wrap the holder of the pair gets the plaintext back. *)
Theorem encrypt_then_decrypt plaintext dek iv coins id to_pk to_pq ct ws i s q st :
  encrypt read_file x963_from_pem (Ok plaintext) dek iv coins id to_pk to_pq = Ok (ct, ws) ->
  length dek = 32%nat -> length iv = 12%nat ->
  to_pk !! i = Some s -> to_pq !! i = Some q ->
  parse_pubkey_arg read_file x963_from_pem s = Ok (p256_x963 (p256_public sk)) ->
  b64_decode q = Some (mlkem1024_ek d z) ->
  (exists c, coins !! i = Some c /\ is_Some (p256_scalar (c_eph c))) ->
  P st -> secrets_ok sk d z ->
  exists w, ws !! i = Some w /\ (decrypt st (Ok ct) id (Ok w) (Ok l)).1 = Ok plaintext.
Proof.
  unfold encrypt, decrypt. intros He Hd Hiv Hs Hq Hpk Hpq (c & Hc & Hsc) Hst Hk.
  destruct (offline_recipients _ _ _ _) as [rs|] eqn:Er; [|done].
  destruct (parse_uuid16 id) as [fid|]; [|done].
  destruct (seal_file dek iv fid plaintext) as [ct'|] eqn:Ef; [|done]. cbn [map_err] in He.
  destruct (wrap_all coins rs dek) as [ws'|] eqn:Ew; [|done]. injection He as <- <-.
  unfold offline_recipients in Er. destruct (bool_decide (to_pk = [])); [done|].
  case_bool_decide; [|done]. cbn [negb] in Er.
  destruct (recipients_from_lookup _ _ _ _ _ _ _ Er Hs Hq) as (pk & ek & Hpk' & Hpq' & Hi).
  simplify_eq. destruct (wrap_all_lookup _ _ _ _ _ _ Ew Hi) as (w & Hw & Hwd).
  rewrite Hc in Hwd. change (default _ (Some c)) with c in Hwd. exists w. split; [done|].
  destruct (dek_wrap_opens l sk d z P st c dek Hst Hk Hsc Hd) as (v & st' & Hv & _ & Hu & _).
  assert (v = w) as -> by (unfold bundle in Hv; congruence). rewrite Hu.
  apply open_sealed_file in Ef; [|done]. by rewrite Ef.
Qed.

End Delivery.

(** ** A concrete pair of keystores *)

Module HybridToy.
Import Toy.

#[export, refine] Instance pq_sized : PqSoftware := {|
  mldsa87_vk seed := rev seed;
  mldsa87_sign_randomized seed m ctx r := Some (fit (Z.to_nat 4627) (seed ++ m));
  mlkem1024_ek d z := fit MLKEM1024_EK_LEN (d ++ z);
  mlkem1024_decapsulate d z ct := Some (fit 32 ct);
|}.
Proof.
  - intros seed m ctx r s [= <-]. apply length_fit.
  - intros d z ct s [= <-]. apply length_fit.
Defined.

#[export, refine] Instance encaps_sized : MlKemEncaps := {|
  mlkem1024_encapsulate ek r := Some (fit MLKEM1024_CT_LEN r, fit 32 (fit MLKEM1024_CT_LEN r));
|}.
Proof.
  - intros d z _ _. apply length_fit.
  - eauto.
  - intros ek r ct ss E. apply (inj Some), pair_equal_spec in E as [<- <-]. split; apply length_fit.
  - intros d z r ct ss E. apply (inj Some), pair_equal_spec in E as [<- <-]. done.
Defined.

Definition seed_d : bytes := replicate 32 Byte.x51.
Definition seed_z : bytes := replicate 32 Byte.x52.

(** A keystore with the KEM keys of [demo_sk] and the two seeds. *)
#[export] Instance kem_only : Keystore unit := {
  ks_tier := Software;
  ks_generate st l a := (Err (key_exists "k"), st);
  ks_meta st l := (Ok (mk_KeyMeta "k" "kem" "a" "software" "fp"
    (match purpose l with KemPq => mlkem1024_ek seed_d seed_z | _ => p256_x963 (p256_public demo_sk) end)), st);
  ks_sign st l m := (Err (key_not_found "k"), st);
  ks_ecdh st l p := (lift_crypto (ecdh_p256 demo_sk p), st);
  ks_ml_kem_decapsulate st l ek :=
    (ok_or (decrypt_failed "ml-kem decapsulation failed") (mlkem1024_decapsulate seed_d seed_z ek), st);
  ks_ml_dsa_sign st l m c := (Err (key_not_found "k"), st);
  ks_list st := (Ok [], st);
  ks_delete st l := (Ok tt, st);
  ks_exists st l := (Ok true, st);
}.

Definition mira_kem : KeyLabel := mk_KeyLabel "mira-ai" Kem.

#[export] Instance kem_only_holder : KemHolder mira_kem demo_sk seed_d seed_z (fun _ : unit => True).
Proof. split; [by apply (bool_decide_unpack _); vm_compute|eauto..]. Qed.

Lemma secrets_demo : secrets_ok demo_sk seed_d seed_z.
Proof. split; [exact demo_sk_scalar|done]. Qed.

Definition coins : Coins := mk_Coins demo_eph [Byte.x07].
Definition dek : bytes := replicate 32 Byte.x33.
Definition root : bytes := replicate 16 Byte.x34.

Lemma wrapped_key_reaches_recipient_witness :
  exists v, wrap_dek_for coins (bundle demo_sk seed_d seed_z) dek = Ok v /\ wrap_alg_of v = Ok Hybrid /\
    (unwrap_dek_value tt v mira_kem).1 = Ok dek /\
    (exists v', (rewrap_dek_to tt coins mira_kem v (bundle demo_sk seed_d seed_z)).1 = Ok v' /\
       wrap_alg_of v' = Ok Hybrid /\ (unwrap_dek_value tt v' mira_kem).1 = Ok dek) /\
    exists u, wrap_metadata_key_for coins (bundle demo_sk seed_d seed_z) dek root = Ok u /\
      wrap_alg_of u = Ok Hybrid /\ (unwrap_metadata_key_envelope tt u root mira_kem).1 = Ok dek.
Proof.
  apply (wrapped_key_reaches_recipient mira_kem demo_sk seed_d seed_z (fun _ => True)
    mira_kem demo_sk seed_d seed_z (fun _ => True) tt tt coins coins dek root);
    [done|done|exact secrets_demo|exact secrets_demo|exact demo_eph_scalar|exact demo_eph_scalar|done|done].
Defined.

Definition me : value := VObject [("kem_pq_pubkey", VString (b64_encode (mlkem1024_ek seed_d seed_z)))%string].

Lemma self_wrap_opens_witness :
  let keys := bundle demo_sk seed_d seed_z in
  (exists v, wrap_dek_for coins keys dek = Ok v /\ (unwrap_dek_value tt v mira_kem).1 = Ok dek) /\
  (exists u, wrap_metadata_key_for coins keys dek root = Ok u /\
     (unwrap_metadata_key_envelope tt u root mira_kem).1 = Ok dek).
Proof.
  apply (self_wrap_opens mira_kem demo_sk seed_d seed_z (fun _ => True) tt tt me);
    [done|exact secrets_demo|exact demo_eph_scalar|done|done|].
  unfold self_wrap_keys. cbn [ks_meta kem_only].
  change (Text.get_str me "kem_pq_pubkey") with (Some (b64_encode (mlkem1024_ek seed_d seed_z))).
  cbv beta iota. rewrite b64_decode_encode, (sibling_ok mira_kem demo_sk seed_d seed_z (fun _ : unit => True)).
  cbn [km_public_key purpose]. by rewrite decide_True.
Defined.

End HybridToy.
