(* ===== verification/Garnet.v ===== *)
(** * The agent's Garnet credential (cli/src/garnet_credential.rs, garnet_pickup.rs, garnet.rs)

    The credential file, the signed pickup that makes it, the token and
    certificate renewals that change it.  The credential file is one slot of the
    file system; everything outside - the disk's faults, the clock, the random
    generator, the server behind each call - is the environment [E], which every
    call may change.  Messages leave out the text of lower-level errors. *)

From S2P Require Import Prelude Prims CryptoCore Ecdsa Text CliError Keystore Token X509 GrantStatus BrokerTls.

Record PoPCredential := mk_PoPCredential
  { pc_handle : string; k4_key_pkcs8 : bytes; client_cert_der : bytes; ca_anchor_der : bytes;
    broker_spki_pin : string; grant_status_url : string; server_token : string;
    broker_token : option string }.

Record StoredCredential := mk_StoredCredential
  { sc_handle : string; sc_k4_key_pkcs8_b64 : string; sc_client_cert_der_b64 : string;
    sc_ca_anchor_der_b64 : string; sc_broker_spki_pin : string; sc_grant_status_url : string;
    sc_server_token : string; sc_broker_token : option string }.

(** serde_json on [StoredCredential]. *)
Class CredentialText := {
  credential_to_pretty : StoredCredential -> option string;
  credential_from_str : string -> option StoredCredential;
  credential_from_to c t : credential_to_pretty c = Some t -> credential_from_str t = Some c;
  (** The text is a JSON object, whose last byte closes it: less than all of it is no
      document. *)
  credential_from_part c t n : credential_to_pretty c = Some t -> (n < String.length t)%nat ->
    credential_from_str (String.substring 0 n t) = None;
}.

Definition new_credential (handle : string) (k4_key_pkcs8 client_cert_der ca_anchor_der : bytes)
    (broker_spki_pin grant_status_url server_token : string) : PoPCredential :=
  mk_PoPCredential handle k4_key_pkcs8 client_cert_der ca_anchor_der broker_spki_pin
    grant_status_url server_token None.

Definition set_broker_token (c : PoPCredential) (t : string) : PoPCredential :=
  mk_PoPCredential (pc_handle c) (k4_key_pkcs8 c) (client_cert_der c) (ca_anchor_der c)
    (broker_spki_pin c) (grant_status_url c) (server_token c) (Some t).
Definition set_server_token (c : PoPCredential) (t : string) : PoPCredential :=
  mk_PoPCredential (pc_handle c) (k4_key_pkcs8 c) (client_cert_der c) (ca_anchor_der c)
    (broker_spki_pin c) (grant_status_url c) t (broker_token c).
Definition rotate_cert (c : PoPCredential) (new_key_pkcs8 new_cert_der : bytes) : PoPCredential :=
  mk_PoPCredential (pc_handle c) new_key_pkcs8 new_cert_der (ca_anchor_der c)
    (broker_spki_pin c) (grant_status_url c) (server_token c) None.

Definition client_cert_chain (c : PoPCredential) : list bytes := [client_cert_der c].

(** [BrokerClient::new] and the TLS identity of the renewals. *)
Definition broker_client (c : PoPCredential) : ClientConfig :=
  broker_pinned_client_config (ca_anchor_der c) (client_cert_chain c) (k4_key_pkcs8 c) (broker_spki_pin c).
Definition server_client (c : PoPCredential) : ClientConfig :=
  k2_pinned_client_config (ca_anchor_der c) (client_cert_chain c) (k4_key_pkcs8 c).

Definition past_half_validity (not_before not_after now : Z) : bool :=
  not_before + Z.max 0 (not_after - not_before) / 2 <=? now.

Definition audience_to_wire (audience : string) : option string :=
  if decide (audience = "server") then Some "signet-server"
  else if decide (audience = "broker") then Some "signet-broker"
  else None.

Inductive TokenReject := AuthorizationRefused | OtherReject.

Definition reject_kind (status : Z) (body_is_our_error_shape : bool) : TokenReject :=
  if (status =? 403) && body_is_our_error_shape then AuthorizationRefused else OtherReject.

(** What happens to one [save].  [std::fs::write] opens the file, which empties it, and
    writes: it can fail to open, and leave the file as it was, or fail after any number
    of bytes. *)
Inductive SaveIo :=
| SaveDone
| SaveMkdirFails
| SaveOpenFails
| SaveWriteFails (written : nat)
| SaveChmodFails.

Section Code.
Context `{HS : Sha256} `{HB : Base64Url} `{HBS : Base64Std} `{HH : Hex} `{HX : X509Lib}.
Context `{HJ : JsonText} `{HCT : CredentialText}.
Context (path : string) (pkcs8_of : bytes -> option bytes).
Context {E : Type}.
Context (io_read_fails : E -> bool) (io_save : E -> SaveIo * E) (clock : E -> Z)
  (draw_scalar : E -> bytes * E) (tls_config_ok : ClientConfig -> bool)
  (post : E -> ClientConfig -> string -> value -> UreqResult * E)
  (open_enrollment_channel : E -> cliresult unit)
  (post_json_signed : E -> string -> KeyLabel -> string -> value -> cliresult value * E).

Definition fingerprint (c : PoPCredential) : string := cert_thumbprint_b64url (client_cert_der c).

Record GState := mk_GState { g_file : option string; g_env : E }.

Definition to_stored (c : PoPCredential) : StoredCredential :=
  mk_StoredCredential (pc_handle c) (b64std_encode (k4_key_pkcs8 c)) (b64std_encode (client_cert_der c))
    (b64std_encode (ca_anchor_der c)) (broker_spki_pin c) (grant_status_url c) (server_token c)
    (broker_token c).

Definition save (st : GState) (c : PoPCredential) : cliresult unit * GState :=
  let '(o, e) := io_save (g_env st) in
  match o with
  | SaveMkdirFails => (Err (filesystem "creating the credential directory"), mk_GState (g_file st) e)
  | _ =>
      match credential_to_pretty (to_stored c) with
      | None => (Err (generic "serializing PoP credential"), mk_GState (g_file st) e)
      | Some text =>
          match o with
          | SaveOpenFails => (Err (output_write ("writing " +:+ path)), mk_GState (g_file st) e)
          | SaveWriteFails n => (Err (output_write ("writing " +:+ path)), mk_GState (Some (String.substring 0 n text)) e)
          | SaveChmodFails => (Err (output_write ("securing " +:+ path)), mk_GState (Some text) e)
          | _ => (Ok tt, mk_GState (Some text) e)
          end
      end
  end.

Definition b64_field (s field : string) : cliresult bytes :=
  ok_or (filesystem ("malformed PoP credential field '" +:+ field +:+ "'")) (b64std_decode s).

Definition load (st : GState) : cliresult PoPCredential :=
  match g_file st with
  | None => Err (key_not_found ("no Signet Drive credential at " +:+ path))
  | Some text =>
      guard negb (io_read_fails (g_env st)) else filesystem ("reading " +:+ path) ;;
      let*! stored := credential_from_str text else filesystem ("parsing " +:+ path) in
      let*? k4 := b64_field (sc_k4_key_pkcs8_b64 stored) "k4 key" in
      let*? cert := b64_field (sc_client_cert_der_b64 stored) "client cert" in
      let*? anchor := b64_field (sc_ca_anchor_der_b64 stored) "ca anchor" in
      Ok (mk_PoPCredential (sc_handle stored) k4 cert anchor (sc_broker_spki_pin stored)
            (sc_grant_status_url stored) (sc_server_token stored) (sc_broker_token stored))
  end.

(** The reason a refusal's body gives, where it has our error shape. *)
Definition refusal_reason (body : option string) : option string :=
  body ≫= (fun b => ok_opt (json_from_str b) ≫= (fun v => get_str v "error")).

(** [trim_end_matches('/')]. *)
Definition trim_slashes : string -> string := trim_end_char SLASH.

Definition request_token (e : E) (cred : PoPCredential) (audience_wire : string)
    : cliresult string * E :=
  let config := server_client cred in
  if tls_config_ok config then
    let url := trim_slashes (grant_status_url cred) +:+ "/v1/garnet/token" in
    let '(r, e) := post e config url (json_obj [("audience", VString audience_wire)]) in
    (match r with
     | UreqOk _ body =>
         let*! body := body else cli_new 69 "token_endpoint_unreachable" "reading the token response" in
         let*! v := ok_opt (json_from_str body) else invalid_data "malformed token response" in
         ok_or (invalid_data "token response missing 'access_token'") (get_str v "access_token")
     | UreqStatus code body =>
         let reason := refusal_reason body in
         match reject_kind code (bool_decide (is_Some reason)) with
         | AuthorizationRefused =>
             Err (cli_new 77 "token_denied" ("the server refused the token (" +:+ pretty code +:+ "): "
                    +:+ default "authorization refused" reason))
         | OtherReject =>
             Err (cli_new 77 "token_request_failed" ("the token request failed (" +:+ pretty code
                    +:+ "): " +:+ default "token request rejected" reason))
         end
     | UreqTransport =>
         Err (cli_new 69 "token_endpoint_unreachable"
                ("could not reach the token endpoint at " +:+ url))
     end, e)
  else (Err (cli_new 70 "internal" "renewal mTLS config"), e).

Definition request_cert_renewal (e : E) (cred : PoPCredential) (csr_der : bytes)
    : cliresult bytes * E :=
  let config := server_client cred in
  if tls_config_ok config then
    let url := trim_slashes (grant_status_url cred) +:+ "/v1/garnet/renew-cert" in
    let '(r, e) := post e config url (json_obj [("csr", VString (b64std_encode csr_der))]) in
    (match r with
     | UreqOk _ body =>
         let*! body := body else
           cli_new 69 "token_endpoint_unreachable" "reading the cert-renewal response" in
         let*! v := ok_opt (json_from_str body) else invalid_data "malformed cert-renewal response" in
         let*! pem := get_str v "client_cert" else
           invalid_data "cert-renewal response missing 'client_cert'" in
         map_err (fun x => invalid_data ("cert-renewal returned a malformed cert: " +:+ crypto_to_string x))
           (pem_to_der pem)
     | UreqStatus code body =>
         Err (cli_new 77 "cert_renewal_denied" ("the server refused the cert renewal (" +:+ pretty code
                +:+ "): " +:+ default "cert renewal rejected" (refusal_reason body)))
     | UreqTransport =>
         Err (cli_new 69 "token_endpoint_unreachable"
                ("could not reach the cert-renewal endpoint at " +:+ url))
     end, e)
  else (Err (cli_new 70 "internal" "cert-renewal mTLS config"), e).

(** [p256_scalar_to_pkcs8_der] (crypto/src/ecdsa.rs). *)
Definition p256_scalar_to_pkcs8_der (scalar : bytes) : cresult bytes :=
  let*! sk := p256_scalar scalar else InvalidInput "p256 scalar" in
  ok_or (InvalidInput "p256 pkcs8 encode") (pkcs8_of sk).

(** [let x = r?; k] where the state goes on. *)
Notation "'do?' x ':=' r 'on' st 'in' k" :=
  (match r with Ok x => k | Err e => (Err e, st) end)
  (at level 10, x name, r at level 100, st at level 99, k at level 200).

Definition json_str (v : value) (key : string) : cliresult string :=
  ok_or (invalid_data ("pickup response missing string field '" +:+ key +:+ "'")) (get_str v key).

(** The response of the pickup as a credential. *)
Definition assemble (resp : value) (scalar : bytes) : cliresult (PoPCredential * bool) :=
  let*? client_cert_pem := json_str resp "client_cert" in
  let*? ca_cert_pem := json_str resp "ca_cert" in
  let*? pin := json_str resp "broker_spki_pin" in
  let*? access_token := json_str resp "access_token" in
  let*? url := json_str resp "grant_status_url" in
  let*? client_cert := map_err (fun x => invalid_data
      ("pickup returned a malformed client cert: " +:+ crypto_to_string x)) (pem_to_der client_cert_pem) in
  let*? anchor := map_err (fun x => invalid_data
      ("pickup returned a malformed CA anchor: " +:+ crypto_to_string x)) (pem_to_der ca_cert_pem) in
  let*! san_handle := ok_opt (cert_san_handle client_cert) ≫= id else
    invalid_data "pickup returned a cert without a PRSN-handle SAN" in
  let*? k4 := map_err (fun x => generic ("encoding the K4 key: " +:+ crypto_to_string x))
      (p256_scalar_to_pkcs8_der scalar) in
  Ok (new_credential san_handle k4 client_cert anchor pin url access_token,
      default false (get_bool resp "reissued")).

Definition pickup (e : E) (base_url handle : string) : cliresult (PoPCredential * bool) * E :=
  let base := trim_slashes base_url in
  do? signing := from_handle handle Signing on e in
  let '(scalar, e) := draw_scalar e in
  do? csr_der := map_err (fun x => generic ("building the pickup CSR: " +:+ crypto_to_string x))
      (build_csr scalar "agent") on e in
  let body := json_obj [("csr", VString (b64std_encode csr_der))] in
  let '(r, e) := post_json_signed e base signing "/v1/garnet/pickup" body in
  do? resp := r on e in
  (assemble resp scalar, e).

(** [pickup_and_save]: the credential, whether a broker token came with it, and
    the state.  The warning on a re-issue is a message only. *)
Definition pickup_and_save (st : GState) (base_url handle : string)
    : cliresult (PoPCredential * bool) * GState :=
  do? _ := open_enrollment_channel (g_env st) on st in
  let '(r, e) := pickup (g_env st) base_url handle in
  let st := mk_GState (g_file st) e in
  match r with
  | Err x => (Err (generic ("signed pickup failed: " +:+ message x)), st)
  | Ok (cred, _) =>
      let '(t, e) := request_token (g_env st) cred "signet-broker" in
      let st := mk_GState (g_file st) e in
      let '(cred, acquired) :=
        match t with Ok token => (set_broker_token cred token, true) | Err _ => (cred, false) end in
      let '(s, st) := save st cred in
      do? _ := s on st in
      (Ok (cred, acquired), st)
  end.

Definition refresh_pickup (st : GState) (base_url handle : string) : cliresult unit * GState :=
  let '(r, st) := pickup_and_save st base_url handle in
  do? _ := r on st in (Ok tt, st).

Definition renew_command (st : GState) (audience : string) : cliresult unit * GState :=
  do? audience_wire := ok_or (invalid_args ("--audience must be 'server' or 'broker' (got '"
      +:+ audience +:+ "')")) (audience_to_wire audience) on st in
  do? cred := load st on st in
  let '(t, e) := request_token (g_env st) cred audience_wire in
  let st := mk_GState (g_file st) e in
  do? token := t on st in
  save st (if decide (audience = "broker") then set_broker_token cred token
           else set_server_token cred token).

(** [renew_cert_flow]: the refreshed credential's handle and fingerprint, and the
    audiences re-minted. *)
Definition renew_cert_flow (st : GState) : cliresult (string * string * list string) * GState :=
  do? cred := load st on st in
  let had_broker := bool_decide (is_Some (broker_token cred)) in
  let '(scalar, e) := draw_scalar (g_env st) in
  let st := mk_GState (g_file st) e in
  do? csr_der := map_err (fun x => generic ("building the renewal CSR: " +:+ crypto_to_string x))
      (build_csr scalar "agent") on st in
  let '(r, e) := request_cert_renewal (g_env st) cred csr_der in
  let st := mk_GState (g_file st) e in
  do? new_cert_der := r on st in
  do? new_handle := ok_or (invalid_data "renewal returned a cert without a PRSN-handle SAN")
      (ok_opt (cert_san_handle new_cert_der) ≫= id) on st in
  if decide (new_handle = pc_handle cred) then
    do? new_key := map_err (fun x => generic ("encoding the renewed K4 key: " +:+ crypto_to_string x))
        (p256_scalar_to_pkcs8_der scalar) on st in
    let cred := rotate_cert cred new_key new_cert_der in
    let '(s, st) := save st cred in
    do? _ := s on st in
    let '(t, e) := request_token (g_env st) cred "signet-server" in
    let st := mk_GState (g_file st) e in
    do? token := t on st in
    let cred := set_server_token cred token in
    if had_broker then
      let '(t, e) := request_token (g_env st) cred "signet-broker" in
      let st := mk_GState (g_file st) e in
      do? token := t on st in
      let cred := set_broker_token cred token in
      let '(s, st) := save st cred in
      do? _ := s on st in
      (Ok (pc_handle cred, fingerprint cred, ["server"; "broker"]), st)
    else
      let '(s, st) := save st cred in
      do? _ := s on st in
      (Ok (pc_handle cred, fingerprint cred, ["server"]), st)
  else
    (Err (invalid_data ("renewal returned a cert for '" +:+ new_handle +:+ "', not '"
            +:+ pc_handle cred +:+ "'. Refusing to rotate")), st).

Definition auto_renew_cert_if_due (st : GState) (cred : PoPCredential) : PoPCredential * GState :=
  match cert_validity_window (client_cert_der cred) with
  | Err _ => (cred, st)
  | Ok (nb, na) =>
      if past_half_validity nb na (clock (g_env st)) then
        let '(r, st) := renew_cert_flow st in
        match r with
        | Ok _ => (match load st with Ok c => c | Err _ => cred end, st)
        | Err _ => (cred, st)
        end
      else (cred, st)
  end.

(** [open_broker]: the credential and the token of the next operation. *)
Definition open_broker (st : GState) : cliresult (PoPCredential * ClientConfig * string) * GState :=
  do? cred := load st on st in
  let '(cred, st) := auto_renew_cert_if_due st cred in
  match broker_token cred with
  | Some t =>
      if tls_config_ok (broker_client cred) then (Ok (cred, broker_client cred, t), st)
      else (Err (cli_new 70 "internal" "broker-client mTLS config"), st)
  | None =>
      let '(t, e) := request_token (g_env st) cred "signet-broker" in
      let st := mk_GState (g_file st) e in
      do? token := t on st in
      let cred := set_broker_token cred token in
      let '(s, st) := save st cred in
      do? _ := s on st in
      if tls_config_ok (broker_client cred) then (Ok (cred, broker_client cred, token), st)
      else (Err (cli_new 70 "internal" "broker-client mTLS config"), st)
  end.

End Code.
