(* ===== verification/BrokerKeystore.v ===== *)
(** * The broker keystore (cli/src/keystore/broker.rs)

    The keystore of an enrolled agent: every operation is a request to the local
    broker with a lazily renewed token, one forced renewal on a renewable refusal,
    and at most one signed re-pickup as a recovery.  The trait implementation is
    the instance [broker_keystore]. *)

From S2P Require Import Prelude Prims CryptoCore Ecdsa Text Channel CliError Keystore Delegated Token Receipts X509 GrantStatus BrokerTls Garnet.
Import Channel.Wire.

Definition RENEW_MARGIN_SECS : Z := 120.

Inductive Recovery := PinRefresh | ReauthOnce | NoRecovery.

(** [recovery_for], with the flag it swaps. *)
Definition recovery_for (code : string) (attempted : bool) : Recovery * bool :=
  if decide (code = "broker_pin_mismatch") then (PinRefresh, attempted)
  else if decide (code = "access_paused") then
    (if attempted then NoRecovery else ReauthOnce, true)
  else if decide (code = "token_denied") then
    (if attempted then NoRecovery else ReauthOnce, true)
  else (NoRecovery, attempted).

Section Code.
Context `{HS : Sha256} `{HB : Base64Url} `{HBS : Base64Std} `{HH : Hex} `{HX : X509Lib}.
Context `{HJ : JsonText} `{HCT : CredentialText}.
Context (path : string) (pkcs8_of : bytes -> option bytes).
Context {E : Type}.
Context (io_read_fails : E -> bool) (io_save : E -> SaveIo * E) (clock : E -> Z)
  (draw_scalar : E -> bytes * E) (tls_config_ok : ClientConfig -> bool)
  (post : E -> ClientConfig -> string -> value -> UreqResult * E)
  (open_enrollment_channel : E -> cliresult unit)
  (post_json_signed : E -> string -> KeyLabel -> string -> value -> cliresult value * E)
  (load_config : E -> cliresult string)
  (broker_perform : E -> ClientConfig -> string -> Op -> cliresult Response * E).

(** [token_exp], [token_near_expiry]: the claim read without verifying. *)
Definition token_exp (jws : string) : option Z :=
  (split_dot jws !! 1%nat) ≫= (fun payload_b64 =>
  b64_decode payload_b64 ≫= (fun payload =>
  from_utf8 payload ≫= (fun text =>
  ok_opt (json_from_str text) ≫= (fun v =>
  value_get v "exp" ≫= Receipts.value_as_i64)))).

Definition token_near_expiry (now : Z) (jws : string) : bool :=
  match token_exp jws with
  | Some exp => i64_wrap (exp - now) <? RENEW_MARGIN_SECS
  | None => true
  end.

Record BrokerKeystore := mk_BrokerKeystore
  { bk_client : ClientConfig; bk_cred : PoPCredential; bk_reauth_attempted : bool;
    bk_state : GState (E := E) }.

Notation "'do?' x ':=' r 'on' st 'in' k" :=
  (match r with Ok x => k | Err e => (Err e, st) end)
  (at level 10, x name, r at level 100, st at level 99, k at level 200).

Local Abbreviation env s := (g_env (bk_state s)).
Local Abbreviation load_cred := (load path io_read_fails).
Local Abbreviation save_cred := (save path io_save).
Local Abbreviation token_for := (request_token tls_config_ok post).
Local Abbreviation renew_if_due :=
  (auto_renew_cert_if_due path pkcs8_of io_read_fails io_save clock draw_scalar tls_config_ok post).
Local Abbreviation pickup_again :=
  (refresh_pickup path pkcs8_of io_save draw_scalar tls_config_ok post open_enrollment_channel
     post_json_signed).

Definition set_state (s : BrokerKeystore) (g : GState) : BrokerKeystore :=
  mk_BrokerKeystore (bk_client s) (bk_cred s) (bk_reauth_attempted s) g.

Definition open (g : GState) (SIGNET_HANDLE : option string) : cliresult BrokerKeystore * GState :=
  do? cred := load_cred g on g in
  let '(cred, g) := renew_if_due g cred in
  let asserted :=
    match SIGNET_HANDLE with
    | Some h => if decide (trim h = EmptyString) then None else Some (trim h)
    | None => None
    end in
  do? _ := check_identity_match (Some (pc_handle cred)) asserted on g in
  if tls_config_ok (broker_client cred) then
    (Ok (mk_BrokerKeystore (broker_client cred) cred false g), g)
  else (Err (cli_new 70 "internal" "broker-client mTLS config"), g).

Definition repickup_and_reload (s : BrokerKeystore) (handle : string) : cliresult unit * BrokerKeystore :=
  do? base_url := load_config (env s) on s in
  let '(r, g) := pickup_again (bk_state s) base_url handle in
  let s := set_state s g in
  do? _ := r on s in
  do? fresh := load_cred g on s in
  if tls_config_ok (broker_client fresh) then
    (Ok tt, mk_BrokerKeystore (broker_client fresh) fresh (bk_reauth_attempted s) g)
  else (Err (cli_new 70 "internal" "broker-client mTLS config"), s).

(** [refresh_pin_by_repickup] and [refresh_authorization_by_repickup] differ in
    what they print. *)
Definition refresh_by_repickup (s : BrokerKeystore) : cliresult unit * BrokerKeystore :=
  repickup_and_reload s (pc_handle (bk_cred s)).

Definition ensure_broker_token (s : BrokerKeystore) (force : bool) : cliresult string * BrokerKeystore :=
  let cred := bk_cred s in
  let stale :=
    match broker_token cred with
    | None => true
    | Some tok => token_near_expiry (clock (env s)) tok
    end in
  if force || stale then
    let '(t, e) := token_for (env s) cred "signet-broker" in
    let s := set_state s (mk_GState (g_file (bk_state s)) e) in
    do? token := t on s in
    let cred := set_broker_token cred token in
    let s := mk_BrokerKeystore (bk_client s) cred (bk_reauth_attempted s) (bk_state s) in
    let '(r, g) := save_cred (bk_state s) cred in
    let s := set_state s g in
    do? _ := r on s in
    (ok_or (generic "broker token unavailable after renewal") (broker_token (bk_cred s)), s)
  else (ok_or (generic "broker token unavailable after renewal") (broker_token cred), s).

Definition perform_wire (s : BrokerKeystore) (token : string) (op : Op)
    : cliresult Response * BrokerKeystore :=
  let '(r, e) := broker_perform (env s) (bk_client s) token op in
  (r, set_state s (mk_GState (g_file (bk_state s)) e)).

Definition perform_op_inner (s : BrokerKeystore) (op : Op) : cliresult OpOk * BrokerKeystore :=
  let '(t, s) := ensure_broker_token s false in
  do? token := t on s in
  let '(r, s) := perform_wire s token op in
  do? resp := r on s in
  match resp with
  | ROk ok => (Ok ok, s)
  | RErr e =>
      if bool_decide (oe_code e = "token_expired") || bool_decide (oe_code e = "unauthorized") then
        let '(t, s) := ensure_broker_token s true in
        do? token := t on s in
        let '(r, s) := perform_wire s token op in
        do? resp := r on s in
        match resp with
        | ROk ok => (Ok ok, s)
        | RErr e => (Err (cli_error_from_wire (oe_code e) (oe_message e)), s)
        end
      else (Err (cli_error_from_wire (oe_code e) (oe_message e)), s)
  end.

Definition perform_op (s : BrokerKeystore) (op : Op) : cliresult OpOk * BrokerKeystore :=
  let '(r, s) := perform_op_inner s op in
  match r with
  | Ok ok => (Ok ok, s)
  | Err e =>
      let '(recovery, attempted) := recovery_for (code e) (bk_reauth_attempted s) in
      let s := mk_BrokerKeystore (bk_client s) (bk_cred s) attempted (bk_state s) in
      match recovery with
      | PinRefresh =>
          let '(r, s) := refresh_by_repickup s in
          do? _ := r on s in
          perform_op_inner s op
      | ReauthOnce =>
          let '(r, s) := refresh_by_repickup s in
          match r with
          | Ok _ => perform_op_inner s op
          | Err _ => (Err e, s)
          end
      | NoRecovery => (Err e, s)
      end
  end.

(** ** The trait *)

(** [match self.perform_op(op)? { .. }]: [f] is the body of the match. *)
Definition performing {A} (s : BrokerKeystore) (op : Op) (f : OpOk -> cliresult A)
    : cliresult A * BrokerKeystore :=
  let '(r, s) := perform_op s op in (let*? ok := r in f ok, s).

Definition b_generate (s : BrokerKeystore) (l : KeyLabel) (algorithm : string) :=
  performing s (Keygen (full l) algorithm) (fun ok =>
    match ok with
    | OkKeygen public_key fp alg =>
        Ok (meta_from (full l) (purpose_str (purpose l)) alg fp public_key)
    | _ => Err unexpected
    end).

Definition b_meta (s : BrokerKeystore) (l : KeyLabel) :=
  performing s (Meta (full l)) (fun ok =>
    match ok with
    | OkMeta public_key fp alg p => Ok (meta_from (full l) p alg fp public_key)
    | _ => Err unexpected
    end).

Definition b_sign (s : BrokerKeystore) (l : KeyLabel) (msg : bytes) :=
  performing s (Sign (full l) msg) (fun ok =>
    match ok with
    | OkSign sg => to_array 64 (generic "broker returned a non-64-byte signature") sg
    | _ => Err unexpected
    end).

Definition b_ecdh (s : BrokerKeystore) (l : KeyLabel) (peer : bytes) :=
  performing s (Ecdh (full l) peer) (fun ok =>
    match ok with
    | OkEcdh z => to_array 32 (generic "broker returned a non-32-byte shared secret") z
    | _ => Err unexpected
    end).

Definition b_ml_kem_decapsulate (s : BrokerKeystore) (l : KeyLabel) (ek : bytes) :=
  performing s (MlKemDecapsulate (full l) ek) (fun ok =>
    match ok with
    | OkMlKemDecapsulate z =>
        to_array 32 (generic "broker returned a non-32-byte ml-kem shared secret") z
    | _ => Err unexpected
    end).

Definition b_ml_dsa_sign (s : BrokerKeystore) (l : KeyLabel) (msg ctx : bytes) :=
  match validate_mldsa_ctx ctx with
  | Err e => (Err e, s)
  | Ok _ =>
      performing s (MlDsaSign (full l) msg ctx) (fun ok =>
        match ok with
        | OkMlDsaSign sg =>
            guard bool_decide (length sg = ML_DSA_87_SIG_LEN) else
              generic ("broker returned a " +:+ pretty (length sg)
                +:+ "-byte ml-dsa signature (expected " +:+ pretty ML_DSA_87_SIG_LEN +:+ ")") ;;
            Ok sg
        | _ => Err unexpected
        end)
  end.

Definition b_list (s : BrokerKeystore) :=
  performing s List (fun ok =>
    match ok with
    | OkList keys =>
        Ok (map (fun k => meta_from (ke_label k) (ke_purpose k) (ke_algorithm k)
                            (ke_fingerprint k) (ke_public_key k)) keys)
    | _ => Err unexpected
    end).

Definition b_delete (s : BrokerKeystore) (l : KeyLabel) :=
  performing s (Delete (full l)) (fun ok =>
    match ok with OkDelete => Ok tt | _ => Err unexpected end).

Definition b_exists (s : BrokerKeystore) (l : KeyLabel) :=
  performing s (Exists (full l)) (fun ok =>
    match ok with OkExists b => Ok b | _ => Err unexpected end).

Definition broker_keystore : Keystore BrokerKeystore := {|
  ks_tier := SecureEnclave;
  ks_generate := b_generate;
  ks_meta := b_meta;
  ks_sign := b_sign;
  ks_ecdh := b_ecdh;
  ks_ml_kem_decapsulate := b_ml_kem_decapsulate;
  ks_ml_dsa_sign := b_ml_dsa_sign;
  ks_list := b_list;
  ks_delete := b_delete;
  ks_exists := b_exists;
|}.

End Code.
