(* ===== verification/GarnetTheorems.v ===== *)
(** * What the agent's credential and the broker keystore guarantee

    [Bound]: every request to the broker carries a token minted for the
    certificate of the connection it is sent on, through renewals, rotations and
    recoveries.  [Bounded]: how often an operation may reach the broker and claim
    a credential.  The environment is arbitrary; each section names what it
    assumes of it. *)

From S2P Require Import Prelude Prims CryptoCore Ecdsa Text Channel CliError Keystore Delegated Token Receipts X509 GrantStatus BrokerTls Garnet BrokerKeystore.
Import Channel.Wire.

(** ** Tokens stay bound to their certificate *)


Section Bound.
Context `{HS : Sha256} `{HB : Base64Url} `{HBS : Base64Std} `{HH : Hex} `{HX : X509Lib}.
Context `{HJ : JsonText} `{HCT : CredentialText}.
Context (path : string) (pkcs8_of : bytes -> option bytes).
Context {E : Type}.
Context (io_read_fails : E -> bool) (io_save : E -> SaveIo * E) (clock : E -> Z)
  (draw_scalar : E -> bytes * E) (tls_config_ok : ClientConfig -> bool)
  (post : E -> ClientConfig -> string -> value -> UreqResult * E)
  (open_enrollment_channel : E -> cliresult unit)
  (post_json_signed : E -> string -> KeyLabel -> string -> value -> cliresult value * E)
  (load_config : E -> cliresult string)
  (broker_perform : E -> ClientConfig -> string -> Op -> cliresult Response * E).

(** [minted cert t]: the server minted the broker token [t] for that certificate;
    [good]: what holds of the world as long as every broker request is bound. *)
Context (minted : bytes -> string -> Prop) (good : E -> Prop).

(** The token endpoint mints broker tokens for the certificate presented to it. *)
Hypothesis post_mints : forall e c url s b e' v t,
  post e (server_client c) url (json_obj [("audience", VString "signet-broker")]) = (UreqOk s (Some b), e') ->
  json_from_str b = Ok v -> get_str v "access_token" = Some t -> minted (client_cert_der c) t.
Hypothesis good_save : forall e o e', io_save e = (o, e') -> good e -> good e'.
Hypothesis good_draw : forall e b e', draw_scalar e = (b, e') -> good e -> good e'.
Hypothesis good_post : forall e c u v r e', post e c u v = (r, e') -> good e -> good e'.
Hypothesis good_signed : forall e b l p v r e', post_json_signed e b l p v = (r, e') -> good e -> good e'.
(** A broker request with a bound token keeps the world good. *)
Hypothesis good_perform : forall e client cert t op r e',
  broker_perform e client t op = (r, e') -> cc_client_cert_chain client = [cert] -> minted cert t ->
  good e -> good e'.


Local Abbreviation load_cred := (load path io_read_fails).
Local Abbreviation save_cred := (save path io_save).
Local Abbreviation token_for := (request_token tls_config_ok post).
Local Abbreviation pick := (pickup_and_save path pkcs8_of io_save draw_scalar tls_config_ok post
  open_enrollment_channel post_json_signed).
Local Abbreviation bop := (perform_op path pkcs8_of io_read_fails io_save clock draw_scalar tls_config_ok
  post open_enrollment_channel post_json_signed load_config broker_perform).
Local Abbreviation binner := (perform_op_inner path io_save clock tls_config_ok post broker_perform).
Local Abbreviation bensure := (ensure_broker_token path io_save clock tls_config_ok post).
Local Abbreviation brefresh := (refresh_by_repickup path pkcs8_of io_read_fails io_save draw_scalar
  tls_config_ok post open_enrollment_channel post_json_signed load_config).
Local Abbreviation flow := (renew_cert_flow path pkcs8_of io_read_fails io_save draw_scalar
  tls_config_ok post).
Local Abbreviation autorenew := (auto_renew_cert_if_due path pkcs8_of io_read_fails io_save clock
  draw_scalar tls_config_ok post).

















Fixpoint run_ops (s : BrokerKeystore) (ops : list Op) : BrokerKeystore :=
  match ops with [] => s | op :: ops => run_ops (bop s op).2 ops end.



Local Abbreviation bopen := (open path pkcs8_of io_read_fails io_save clock draw_scalar tls_config_ok post).



End Bound.

(** ** How often an operation reaches out *)
Section Bounded.
Context `{HS : Sha256} `{HB : Base64Url} `{HBS : Base64Std} `{HH : Hex} `{HX : X509Lib}.
Context `{HJ : JsonText} `{HCT : CredentialText}.
Context (path : string) (pkcs8_of : bytes -> option bytes).
Context {E : Type}.
Context (io_read_fails : E -> bool) (io_save : E -> SaveIo * E) (clock : E -> Z)
  (draw_scalar : E -> bytes * E) (tls_config_ok : ClientConfig -> bool)
  (post : E -> ClientConfig -> string -> value -> UreqResult * E)
  (open_enrollment_channel : E -> cliresult unit)
  (post_json_signed : E -> string -> KeyLabel -> string -> value -> cliresult value * E)
  (load_config : E -> cliresult string)
  (broker_perform : E -> ClientConfig -> string -> Op -> cliresult Response * E).

(** Counters of the world: the signed pickups made and the requests sent to the
    broker, which one call raises by at most one and no other call touches. *)
Context (pickups requests : E -> nat).

(** At most [p] pickups and [w] requests happened between two worlds. *)
Definition spent (e e' : E) (p w : nat) : Prop :=
  (pickups e' <= pickups e + p)%nat /\ (requests e' <= requests e + w)%nat.

Hypothesis save_free : forall e o e', io_save e = (o, e') -> spent e e' 0 0.
Hypothesis draw_free : forall e b e', draw_scalar e = (b, e') -> spent e e' 0 0.
Hypothesis post_free : forall e c u v r e', post e c u v = (r, e') -> spent e e' 0 0.
Hypothesis signed_costs : forall e b l p v r e', post_json_signed e b l p v = (r, e') -> spent e e' 1 0.
Hypothesis perform_costs : forall e c t op r e', broker_perform e c t op = (r, e') -> spent e e' 0 1.

Local Abbreviation token_for := (request_token tls_config_ok post).
Local Abbreviation save_cred := (save path io_save).
Local Abbreviation pick := (pickup_and_save path pkcs8_of io_save draw_scalar tls_config_ok post
  open_enrollment_channel post_json_signed).
Local Abbreviation bop := (perform_op path pkcs8_of io_read_fails io_save clock draw_scalar tls_config_ok
  post open_enrollment_channel post_json_signed load_config broker_perform).
Local Abbreviation binner := (perform_op_inner path io_save clock tls_config_ok post broker_perform).
Local Abbreviation bensure := (ensure_broker_token path io_save clock tls_config_ok post).
Local Abbreviation brefresh := (refresh_by_repickup path pkcs8_of io_read_fails io_save draw_scalar
  tls_config_ok post open_enrollment_channel post_json_signed load_config).
Local Abbreviation world s := (g_env (bk_state s)).
Local Abbreviation run := (run_ops path pkcs8_of io_read_fails io_save clock draw_scalar tls_config_ok
  post open_enrollment_channel post_json_signed load_config broker_perform).

Lemma spent_refl e : spent e e 0 0.
Proof. unfold spent. lia. Qed.
Lemma spent_trans e1 e2 e3 p w p' w' :
  spent e1 e2 p w -> spent e2 e3 p' w' -> spent e1 e3 (p + p') (w + w').
Proof. unfold spent. lia. Qed.
Lemma spent_mono e e' p w p' w' : spent e e' p w -> (p <= p')%nat -> (w <= w')%nat -> spent e e' p' w'.
Proof. unfold spent. lia. Qed.

Lemma request_token_spent e c a r e' : token_for e c a = (r, e') -> spent e e' 0 0.
Proof.
  unfold request_token. destruct (tls_config_ok _); [|intros [= <- <-]; apply spent_refl].
  destruct (post _ _ _ _) eqn:Ep. intros [= <- <-]. by eapply post_free.
Qed.

Lemma save_spent st c r st' : save_cred st c = (r, st') -> spent (g_env st) (g_env st') 0 0.
Proof.
  unfold save. destruct (io_save _) as [o e] eqn:Eo.
  destruct o; destruct (credential_to_pretty (to_stored c)); intros [= <- <-]; by eapply save_free.
Qed.

Lemma pick_spent st b h r st' : pick st b h = (r, st') -> spent (g_env st) (g_env st') 1 0.
Proof.
  unfold pickup_and_save. destruct (open_enrollment_channel _);
    [|intros [= <- <-]; eapply spent_mono; [apply spent_refl|lia|lia]].
  destruct (pickup _ _ _ _ _ _) as [p e1] eqn:Ep.
  assert (H1 : spent (g_env st) e1 1 0).
  { revert Ep. unfold pickup. destruct (from_handle h Signing);
      [|intros [= <- <-]; eapply spent_mono; [apply spent_refl|lia|lia]].
    destruct (draw_scalar _) as [sc e2] eqn:Ed. pose proof (draw_free _ _ _ Ed) as H2.
    destruct (map_err _ _); [|intros [= <- <-]; eapply spent_mono; [exact H2|lia|lia]].
    destruct (post_json_signed _ _ _ _ _) as [u e3] eqn:Es.
    pose proof (spent_trans _ _ _ _ _ _ _ H2 (signed_costs _ _ _ _ _ _ _ Es)) as H3.
    by destruct u; intros [= <- <-]. }
  destruct p as [[c x]|]; [|by intros [= <- <-]]. cbn [g_env].
  destruct (token_for e1 c "signet-broker") as [t e2] eqn:Et.
  pose proof (spent_trans _ _ _ _ _ _ _ H1 (request_token_spent _ _ _ _ _ Et)) as H2.
  destruct t as [tok|]; destruct (save_cred _ _) as [s st2] eqn:Es;
    pose proof (spent_trans _ _ _ _ _ _ _ H2 (save_spent _ _ _ _ Es)) as H3; cbn [g_env] in H3;
    destruct s; by intros [= <- <-].
Qed.

Lemma refresh_spent s r s' :
  brefresh s = (r, s') -> spent (world s) (world s') 1 0 /\ bk_reauth_attempted s' = bk_reauth_attempted s.
Proof.
  unfold refresh_by_repickup, repickup_and_reload.
  destruct (load_config _) as [b|];
    [|intros [= <- <-]; split; [|done]; eapply spent_mono; [apply spent_refl|lia|lia]].
  unfold refresh_pickup. destruct (pick _ _ _) as [p g] eqn:Ep. apply pick_spent in Ep.
  destruct p; [|by intros [= <- <-]]. destruct (load _ _ g); [|by intros [= <- <-]].
  destruct (tls_config_ok _); by intros [= <- <-].
Qed.

Lemma ensure_spent s f r s' :
  bensure s f = (r, s') -> spent (world s) (world s') 0 0 /\ bk_reauth_attempted s' = bk_reauth_attempted s.
Proof.
  unfold ensure_broker_token. destruct (_ || _)%bool; [|intros [= <- <-]; split; [apply spent_refl|done]].
  destruct (token_for _ _ _) as [t e] eqn:Et. apply request_token_spent in Et.
  destruct t as [tok|]; [|by intros [= <- <-]].
  destruct (save_cred _ _) as [r1 g] eqn:Es. apply save_spent in Es.
  pose proof (spent_trans _ _ _ _ _ _ _ Et Es) as H2.
  destruct r1; by intros [= <- <-].
Qed.

(** The code of an error of one attempt that is not the broker's own. *)
Lemma ensure_code s f e s' :
  bensure s f = (Err e, s') -> code e <> "broker_pin_mismatch".
Proof.
  unfold ensure_broker_token. destruct (_ || _)%bool.
  2:{ unfold ok_or. intros [= H1 _]. by case_match; simplify_eq. }
  destruct (token_for _ _ _) as [t e1] eqn:Et.
  destruct t as [tok|e2].
  - destruct (save_cred _ _) as [r1 g] eqn:Es. destruct r1 as [|e3]; [done|]. intros [= <- _].
    revert Es. unfold save. destruct (io_save _) as [o e4].
    destruct o; try (destruct (credential_to_pretty (to_stored _))); intros [= Hx _]; by simplify_eq.
  - intros [= <- _]. revert Et. unfold request_token, ok_or.
    destruct (tls_config_ok _); [|intros [= <- _]; done].
    destruct (post _ _ _ _) as [u e4]. intros [= Hu _]. cbn in Hu.
    destruct u as [z [b|]|z b|]; [| | |]; simplify_eq; try done.
    + destruct (ok_opt (json_from_str b)); simplify_eq; [|done]. by case_match; simplify_eq.
    + destruct (reject_kind _ _); by simplify_eq.
Qed.

Lemma wire_code c m : code (cli_error_from_wire c m) <> "broker_pin_mismatch".
Proof. unfold cli_error_from_wire. by repeat case_decide. Qed.

Lemma wire_spent s t op r s' :
  perform_wire broker_perform s t op = (r, s') ->
  spent (world s) (world s') 0 1 /\ bk_reauth_attempted s' = bk_reauth_attempted s.
Proof.
  unfold perform_wire. destruct (broker_perform _ _ _ _) eqn:Ep. intros [= <- <-].
  split; [by eapply perform_costs|done].
Qed.

Lemma inner_spent s op r s' :
  binner s op = (r, s') -> spent (world s) (world s') 0 2 /\ bk_reauth_attempted s' = bk_reauth_attempted s.
Proof.
  unfold perform_op_inner.
  destruct (bensure s false) as [t s1] eqn:E1. apply ensure_spent in E1 as [H1 F1].
  destruct t as [t|]; [|intros [= <- <-]; split; [eapply spent_mono; [exact H1|lia|lia]|done]].
  destruct (perform_wire _ s1 t op) as [u s2] eqn:E2. apply wire_spent in E2 as [H2 F2].
  pose proof (spent_trans _ _ _ _ _ _ _ H1 H2) as H12.
  assert (K2 : spent (world s) (world s2) 0 2) by (eapply spent_mono; [exact H12|lia|lia]).
  assert (K2' : bk_reauth_attempted s2 = bk_reauth_attempted s) by congruence.
  destruct u as [[ok|e]|]; [by intros [= <- <-]| |by intros [= <- <-]].
  destruct (_ || _)%bool; [|by intros [= <- <-]].
  destruct (bensure s2 true) as [t' s3] eqn:E3. apply ensure_spent in E3 as [H3 F3].
  pose proof (spent_trans _ _ _ _ _ _ _ H12 H3) as H123.
  destruct t' as [t'|];
    [|intros [= <- <-]; split; [eapply spent_mono; [exact H123|lia|lia]|congruence]].
  destruct (perform_wire _ s3 t' op) as [u' s4] eqn:E4. apply wire_spent in E4 as [H4 F4].
  pose proof (spent_trans _ _ _ _ _ _ _ H123 H4) as H1234.
  destruct u' as [[ok|e']|]; intros [= <- <-]; (split; [exact H1234|congruence]).
Qed.

(** A broker that always presents the pinned key. *)
Definition pins_hold : Prop :=
  forall e c t op x e', broker_perform e c t op = (Err x, e') -> code x <> "broker_pin_mismatch".

Lemma inner_code s op e s' : pins_hold -> binner s op = (Err e, s') -> code e <> "broker_pin_mismatch".
Proof.
  intros Hp. unfold perform_op_inner.
  destruct (bensure s false) as [[t|e1] s1] eqn:E1; [|intros [= <- <-]; by eapply ensure_code].
  unfold perform_wire at 1. destruct (broker_perform _ _ _ _) as [u e2] eqn:E2.
  destruct u as [[ok|x]|x]; [done| |intros [= <- <-]; by eapply Hp].
  destruct (_ || _)%bool; [|intros [= <- <-]; apply wire_code].
  destruct (bensure _ true) as [[t'|e3] s3] eqn:E3; [|intros [= <- <-]; by eapply ensure_code].
  unfold perform_wire. destruct (broker_perform _ _ t' _) as [u' e4] eqn:E4.
  destruct u' as [[ok|y]|y]; [done| |]; intros [= <- <-]; [apply wire_code|by eapply Hp].
Qed.

(** Pickups made, and the re-authorization still to be spent. *)
Definition potential (s : BrokerKeystore (E := E)) : nat :=
  (pickups (world s) + if bk_reauth_attempted s then 0 else 1)%nat.

Lemma op_spent s op :
  spent (world s) (world (bop s op).2) 1 4 /\
  (pins_hold -> (potential (bop s op).2 <= potential s)%nat).
Proof.
  unfold perform_op. destruct (binner s op) as [r s1] eqn:E1.
  pose proof (inner_spent _ _ _ _ E1) as [[H1 W1] F1].
  destruct r as [ok|e]; cbn [snd].
  { split; [split; lia|]. intros _. unfold potential. rewrite F1. lia. }
  unfold recovery_for.
  assert (Hretry : forall s2, brefresh (mk_BrokerKeystore (bk_client s1) (bk_cred s1) (bk_reauth_attempted s2) (bk_state s1)) = (Ok tt, s2) ->
            spent (world s) (world (binner s2 op).2) 1 4 /\
            bk_reauth_attempted (binner s2 op).2 = bk_reauth_attempted s2).
  { intros s2 E2. apply refresh_spent in E2 as [[H2 W2] F2]. cbn in *.
    destruct (binner s2 op) as [r3 s3] eqn:E3. apply inner_spent in E3 as [[H3 W3] F3].
    split; [split; cbn; lia|done]. }
  case_decide as Ep; [|case_decide as Ea; [|case_decide as Et]].
  - split; [|intros Hp; by destruct (inner_code _ _ _ _ Hp E1)].
    destruct (brefresh _) as [u s2] eqn:E2. pose proof (refresh_spent _ _ _ E2) as [[H2 W2] F2]. cbn in *.
    destruct u as [[]|]; cbn [snd]; [|split; lia].
    rewrite <- F2 in E2. by apply Hretry in E2 as [? _].
  - rewrite F1. destruct (bk_reauth_attempted s) eqn:Fs; cbn [snd].
    { split; [split; cbn; lia|]. intros _. unfold potential. cbn. rewrite Fs. lia. }
    destruct (brefresh _) as [u s2] eqn:E2. pose proof (refresh_spent _ _ _ E2) as [[H2 W2] F2]. cbn in *.
    unfold potential. rewrite Fs. destruct u as [[]|]; cbn [snd].
    + rewrite <- F2 in E2. apply Hretry in E2 as [[? ?] F3]. rewrite F3, F2. split; [by split|]. lia.
    + rewrite F2. split; [split; lia|]. lia.
  - rewrite F1. destruct (bk_reauth_attempted s) eqn:Fs; cbn [snd].
    { split; [split; cbn; lia|]. intros _. unfold potential. cbn. rewrite Fs. lia. }
    destruct (brefresh _) as [u s2] eqn:E2. pose proof (refresh_spent _ _ _ E2) as [[H2 W2] F2]. cbn in *.
    unfold potential. rewrite Fs. destruct u as [[]|]; cbn [snd].
    + rewrite <- F2 in E2. apply Hretry in E2 as [[? ?] F3]. rewrite F3, F2. split; [by split|]. lia.
    + rewrite F2. split; [split; lia|]. lia.
  - cbn [snd]. split; [split; cbn; lia|]. intros _. unfold potential. cbn. rewrite F1. lia.
Qed.

(** C24: Recovery is bounded.  Whatever the broker and the server answer, an
    operation makes at most one signed pickup and sends at most four requests to
    the broker; over the life of a keystore whose broker keeps its key, at most one
    pickup is made in all, so a paused grant is not hammered. *)
Theorem recoveries_bounded s ops :
  (requests (world (run s ops)) <= requests (world s) + 4 * length ops)%nat /\
  (pickups (world (run s ops)) <= pickups (world s) + length ops)%nat /\
  (pins_hold -> (pickups (world (run s ops)) <=
     pickups (world s) + if bk_reauth_attempted s then 0 else 1)%nat).
Proof.
  assert (Hrun : (requests (world (run s ops)) <= requests (world s) + 4 * length ops)%nat /\
    (pickups (world (run s ops)) <= pickups (world s) + length ops)%nat /\
    (pins_hold -> (potential (run s ops) <= potential s)%nat)).
  { revert s. induction ops as [|op ops IH]; intros s; cbn [run_ops length]; [split_and!; lia|].
    destruct (op_spent s op) as [[H1 W1] P1]. destruct (IH (bop s op).2) as (H2 & W2 & P2).
    split_and!; [lia|lia|]. intros Hp. specialize (P1 Hp). specialize (P2 Hp). lia. }
  destruct Hrun as (H1 & H2 & H3). split_and!; [done|done|]. intros Hp. specialize (H3 Hp).
  unfold potential in H3. lia.
Qed.

(** A paused or refused grant with no fresh one behind it: the first error is the
    one reported. *)
Theorem original_error_stands s op e s1 x s2 :
  binner s op = (Err e, s1) -> code e = "access_paused" \/ code e = "token_denied" ->
  bk_reauth_attempted s = false ->
  brefresh (mk_BrokerKeystore (bk_client s1) (bk_cred s1) true (bk_state s1)) = (Err x, s2) ->
  bop s op = (Err e, s2).
Proof.
  intros E1 Hc Hf E2. pose proof (inner_spent _ _ _ _ E1) as [_ F1].
  unfold perform_op. rewrite E1. unfold recovery_for. rewrite F1, Hf.
  destruct Hc as [Hc|Hc]; rewrite Hc; rewrite decide_False by done.
  - rewrite decide_True by done. by rewrite E2.
  - rewrite decide_False, decide_True by done. by rewrite E2.
Qed.

(** Whatever a broker answers, the keystore's results have the sizes their
    types fix: 64-byte signatures, 32-byte shared secrets, 4627-byte ML-DSA
    signatures. *)
Theorem broker_keystore_typed :
  @KeystoreTyped BrokerKeystore (broker_keystore path pkcs8_of io_read_fails io_save clock draw_scalar
    tls_config_ok post open_enrollment_channel post_json_signed load_config broker_perform).
Proof.
  constructor; intros s l; cbn;
    unfold b_sign, b_ecdh, b_ml_kem_decapsulate, b_ml_dsa_sign, performing.
  - intros m sg. destruct (bop s _) as [[[]|] s']; try done. cbn. by intros [<- ?]%to_array_Ok.
  - intros m sg. destruct (bop s _) as [[[]|] s']; try done. cbn. by intros [<- ?]%to_array_Ok.
  - intros m sg. destruct (bop s _) as [[[]|] s']; try done. cbn. by intros [<- ?]%to_array_Ok.
  - intros m c sg. destruct (validate_mldsa_ctx c); [|done].
    destruct (bop s _) as [[[]|] s']; try done. cbn -[ML_DSA_87_SIG_LEN].
    case_bool_decide; [|done]. by intros [= <-].
Qed.

End Bounded.
