(* ===== verification/GarnetToy.v ===== *)
(** * A concrete agent and its server

    An agent whose certificate is past half its life, a server that renews it and
    then does not answer the next call, and a broker that logs what it is sent.
    The witnesses of [GarnetTheorems], and what a renewal that fails half-way
    does. *)

From S2P Require Import Prelude Prims CryptoCore Ecdsa Text Channel CliError Keystore Delegated Token Receipts X509 X509Theorems GrantStatus BrokerTls Garnet BrokerKeystore GarnetTheorems.
Import Channel.Wire Prims.Toy TokenToy X509Toy TextToy.

Definition old_cert : bytes := [Byte.x02].
Definition new_cert : bytes := [Byte.x04].

Definition credential (cert : bytes) (token : option string) : PoPCredential :=
  mk_PoPCredential "hlin-ai" agent_key cert [Byte.x01] "pin" "https://g" "server" token.

#[export] Instance json_garnet : JsonText := json_table
  [("C", VObject [("client_cert", VString (String.string_of_list_byte new_cert))]);
   ("T2", VObject [("access_token", VString "tok-old")]);
   ("T4", VObject [("access_token", VString "tok-new")])] eq_refl.

#[export] Instance StoredCredential_eq_dec : EqDecision StoredCredential.
Proof. solve_decision. Defined.

Definition texts : list (string * StoredCredential) :=
  [("old", to_stored (credential old_cert (Some "tok-old")));
   ("rotated", to_stored (credential new_cert None))].

#[export, refine] Instance credential_texts : CredentialText := {|
  credential_to_pretty c := fst <$> List.find (fun x => bool_decide (x.2 = c)) texts;
  credential_from_str t := snd <$> List.find (fun x => bool_decide (x.1 = t)) texts;
|}.
Proof.
  1: intros c t E. 2: intros c t n E Hn.
  all: destruct (List.find (fun x : string * StoredCredential => bool_decide (x.2 = c)) texts) as [[x c']|] eqn:Ef; [|done]; injection E as <-.
  all: apply List.find_some in Ef as [Hin Hc]; apply bool_decide_eq_true in Hc; cbn in Hc; subst c'.
  all: cbn in Hin; destruct Hin as [[= <- <-]|[[= <- <-]|[]]]; try reflexivity.
  all: cbn in Hn; do 7 (destruct n as [|n]; [first [reflexivity|lia]|]); lia.
Defined.

(** The world: how many calls the server has had, and what the broker was sent. *)
Record world := mk_world { calls : nat; log : list (bytes * string) }.


(** The second call is not answered. *)
Definition post (w : world) (c : ClientConfig) (url : string) (v : value) : UreqResult * world :=
  (if decide (calls w = 1%nat) then UreqTransport
   else if decide (is_Some (value_get v "csr")) then UreqOk 200 (Some "C")
   else if decide (cc_client_cert_chain c = [old_cert]) then UreqOk 200 (Some "T2")
   else if decide (cc_client_cert_chain c = [new_cert]) then UreqOk 200 (Some "T4")
   else UreqStatus 403 None,
   mk_world (S (calls w)) (log w)).

Definition perform (w : world) (c : ClientConfig) (t : string) (op : Op) : cliresult Response * world :=
  (Ok (ROk (OkExists true)), mk_world (calls w) ((default [] (head (cc_client_cert_chain c)), t) :: log w)).


Definition io_save (w : world) : SaveIo * world := (SaveDone, w).
Definition draw (w : world) : bytes * world := (agent_key, w).
Definition no_pickup (w : world) (b : string) (l : KeyLabel) (p : string) (v : value) :=
  (Err (authorization_denied "no grant") : cliresult value, w).

Definition start : GState := mk_GState (Some "old") (mk_world 0 []).

(** The keystore, opened at second 1400 of a certificate valid from 1000 to 1600. *)
Definition opened := open "cred" Some (fun _ => false) io_save (fun _ => 1400) draw (fun _ => true) post
  start (Some "hlin-ai").
Definition opened_keystore : BrokerKeystore :=
  mk_BrokerKeystore (broker_client (credential old_cert (Some "tok-old")))
    (credential old_cert (Some "tok-old")) false (mk_GState (Some "rotated") (mk_world 2 [])).

Lemma opened_eq : opened = (Ok opened_keystore, mk_GState (Some "rotated") (mk_world 2 [])).
Proof. vm_compute. reflexivity. Qed.

Definition ops : list Op := [Exists "hlin-ai-signing"].
Definition after := run_ops "cred" Some (fun _ => false) io_save (fun _ => 1400) draw (fun _ => true) post
  (fun _ => Ok tt) no_pickup (fun _ => Ok "https://d") perform opened_keystore ops.



(** The server renewed the certificate, and the keystore goes on with the one the
    server has cut: after a renewal whose token call fails, the file holds the new
    certificate, the keystore presents the old one, and the next token it is given
    overwrites the file with the old one. *)
Theorem half_renewal_keeps_old_cert :
  opened = (Ok opened_keystore, mk_GState (Some "rotated") (mk_world 2 [])) /\
  client_cert_der (bk_cred opened_keystore) = old_cert /\
  (client_cert_der <$> ok_opt (load "cred" (fun _ => false) (bk_state opened_keystore))) = Some new_cert /\
  (client_cert_der <$> ok_opt (load "cred" (fun _ => false) (bk_state after))) = Some old_cert.
Proof. split; [exact opened_eq|]. vm_compute. done. Qed.

(** ** A paused grant

    The counters are the world: pickups made and requests sent. *)
Definition paused (w : nat * nat) (c : ClientConfig) (t : string) (op : Op)
    : cliresult Response * (nat * nat) :=
  (Ok (RErr (mk_OpErr "access_paused" "grant not live (Revoked)")), (w.1, S w.2)).
Definition refused (w : nat * nat) (b : string) (l : KeyLabel) (p : string) (v : value)
    : cliresult value * (nat * nat) :=
  (Err (authorization_denied "no grant"), (S w.1, w.2)).
Definition mints (w : nat * nat) (c : ClientConfig) (url : string) (v : value) : UreqResult * (nat * nat) :=
  (UreqOk 200 (Some "T2"), w).

Definition paused_keystore : BrokerKeystore :=
  mk_BrokerKeystore (broker_client (credential old_cert (Some "tok-old")))
    (credential old_cert (Some "tok-old")) false (mk_GState (Some "old") (0%nat, 0%nat)).

Definition after_paused := run_ops "cred" Some (fun _ => false) (fun w => (SaveDone, w)) (fun _ => 1100)
  (fun w => (agent_key, w)) (fun _ => true) mints (fun _ => Ok tt) refused (fun _ => Ok "https://d") paused
  paused_keystore [Exists "hlin-ai-signing"; Exists "hlin-ai-signing"; Exists "hlin-ai-signing"].

Lemma recoveries_bounded_witness :
  g_env (bk_state after_paused) = (1%nat, 3%nat) /\
  (fst (g_env (bk_state after_paused)) <= 0 + 1)%nat.
Proof.
  split; [vm_compute; reflexivity|].
  destruct (recoveries_bounded "cred" Some (fun _ => false) (fun w => (SaveDone, w)) (fun _ => 1100)
    (fun w => (agent_key, w)) (fun _ => true) mints (fun _ => Ok tt) refused (fun _ => Ok "https://d") paused
    fst snd) with (s := paused_keystore)
      (ops := [Exists "hlin-ai-signing"; Exists "hlin-ai-signing"; Exists "hlin-ai-signing"])
    as (_ & _ & Hp).
  - intros e o e' [= <- <-]. unfold spent. lia.
  - intros e o e' [= <- <-]. unfold spent. lia.
  - intros e c u v r e' [= <- <-]. unfold spent. lia.
  - intros e b l p v r e' [= <- <-]. unfold spent. cbn. lia.
  - intros e c t op r e' [= <- <-]. unfold spent. cbn. lia.
  - apply Hp. intros e c t op x e' [=].
Defined.
