(* ===== verification/BrokerCredential.v ===== *)
(** * The broker's own credential (cli/src/broker_credential.rs, broker_provision.rs, broker_transport_key.rs)

    Where the broker's TLS key lives, the labels of its generations in the
    Keychain, provisioning, the self-check before serving and the self-test after
    provisioning.  The Secure Enclave and the PKCS#8 codec are parameters; [macos]
    is the build's target. *)

From S2P Require Import Prelude Prims CryptoCore Ecdsa Text CliError Keystore Lease Token Broker X509 X509Theorems GrantStatus BrokerTls Garnet.

Inductive BrokerK3KeyHome := RawPkcs8 (pkcs8 : bytes) | SecureEnclaveHome (label : string).

Definition BROKER_K3_SE_LABEL : string := "signet-garnet-broker-k3".

(** [broker_k3_generation_label]; [nonce] is the eight bytes drawn. *)
Definition broker_k3_generation_label `{Hex} (nonce : bytes) : string :=
  BROKER_K3_SE_LABEL +:+ "-" +:+ hex_encode nonce.

Definition is_stale_broker_k3_label (label keep_label : string) : bool :=
  if decide (label = keep_label) then false
  else if decide (label = BROKER_K3_SE_LABEL) then true
  else match strip_prefix (BROKER_K3_SE_LABEL +:+ "-") label with
       | Some suffix =>
           bool_decide (length (str_bytes suffix) = 16%nat) && forallb is_lower_hex (str_bytes suffix)
       | None => false
       end.

Record BrokerCredential := mk_BrokerCredential
  { broker_id : string; k3_cert_der : bytes; k3_key : BrokerK3KeyHome; kbc_cert_der : bytes;
    kbc_key_pkcs8 : bytes; bc_ca_anchor_der : bytes; k1_verify : bytes; bc_grant_status_url : string }.

Inductive StoredK3KeyHome := StoredRawPkcs8 (pkcs8_b64 : string) | StoredSecureEnclave (label : string).

Record StoredBrokerCredential := mk_StoredBrokerCredential
  { sb_broker_id : string; sb_k3_cert_der_b64 : string; sb_k3_key : StoredK3KeyHome;
    sb_kbc_cert_der_b64 : string; sb_kbc_key_pkcs8_b64 : string; sb_ca_anchor_der_b64 : string;
    sb_k1_verify_b64 : string; sb_grant_status_url : string }.

(** serde_json on [StoredBrokerCredential]. *)
Class BrokerCredentialText := {
  broker_credential_to_pretty : StoredBrokerCredential -> option string;
  broker_credential_from_str : string -> option StoredBrokerCredential;
  broker_credential_from_to c t :
    broker_credential_to_pretty c = Some t -> broker_credential_from_str t = Some c;
}.

Section Code.
Context `{HS : Sha256} `{HB : Base64Url} `{HBS : Base64Std} `{HH : Hex} `{HX : X509Lib}.
Context `{HBT : BrokerCredentialText}.
(** The PKCS#8 codec, the enclave's signature, and the platform. *)
Context (pkcs8_of : bytes -> option bytes) (pkcs8_secret : bytes -> option bytes)
  (broker_se_sign : string -> bytes -> cliresult bytes) (macos : bool).

(** [p256_pkcs8_public_x963] (crypto/src/ecdsa.rs). *)
Definition p256_pkcs8_public_x963 (pkcs8_der : bytes) : cresult bytes :=
  let*! sk := pkcs8_secret pkcs8_der else InvalidInput "p256 pkcs8" in
  Ok (p256_x963 (p256_public sk)).

Definition k3_binding_mismatch (id : string) : CliError :=
  invalid_data ("the broker's K3 key does not match its certificate (broker " +:+ id
    +:+ "): serving is impossible (every mutual-TLS handshake would fail with a bad signature). Re-provision this broker: mint a setup code from the guardian's Signet Drive account page and run `signet broker provision <CODE>`.").

Definition se_home_is_macos_only : CliError :=
  unsupported_platform
    "the broker's Secure-Enclave K3 key home is macOS-only (this is a non-macOS build)".

Definition PROBE : bytes := str_bytes "signet-garnet-broker-k3-binding-self-check-v1".

Definition verify_k3_binding (c : BrokerCredential) : cliresult unit :=
  let*? cert_pub := map_err (fun e => invalid_data ("broker K3 cert public key: " +:+ crypto_to_string e))
      (cert_pubkey_x963 (k3_cert_der c)) in
  match k3_key c with
  | RawPkcs8 pkcs8 =>
      let*? key_pub := map_err (fun e => invalid_data ("broker K3 key: " +:+ crypto_to_string e))
          (p256_pkcs8_public_x963 pkcs8) in
      guard bool_decide (key_pub = cert_pub) else k3_binding_mismatch (broker_id c) ;;
      Ok tt
  | SecureEnclaveHome label =>
      if macos then
        let*? raw := broker_se_sign label PROBE in
        map_err (fun _ => k3_binding_mismatch (broker_id c)) (verify_es256 cert_pub PROBE raw)
      else Err se_home_is_macos_only
  end.

(** [BrokerK3Signer::sign]: the handshake signature, in DER. *)
Definition k3_signer_sign (sign_raw : bytes -> cliresult bytes) (message : bytes)
    : result TlsError bytes :=
  let*? raw := map_err (fun e => General ("garnet K3 signer: " +:+ CliError.message e))
      (sign_raw message) in
  map_err (fun e => General ("garnet K3 signature encode: " +:+ crypto_to_string e)) (sig_raw_to_der raw).

(** [BrokerK3SigningKey::choose_scheme]. *)
Definition choose_scheme (offered : list SignatureScheme) : bool :=
  existsb (fun s => match s with ECDSA_NISTP256_SHA256 => true end) offered.

(** [verify_serving]: the pinned handshake against the daemon at the loopback
    address. *)
Definition verify_serving (c : BrokerCredential) (connected : bool) (proof : bytes -> bool)
    (server_chain : list bytes) (now : Z) : cliresult unit :=
  let*? pin := map_err (fun e => invalid_data ("broker K3 cert: " +:+ crypto_to_string e))
      (cert_spki_sha256_b64url (k3_cert_der c)) in
  let config := broker_pinned_client_config (bc_ca_anchor_der c) [kbc_cert_der c] (kbc_key_pkcs8 c) pin in
  guard connected else cli_new 69 "broker_unreachable" "self-test: could not reach the broker" ;;
  match client_handshake config proof server_chain now with
  | Ok _ => Ok tt
  | Err _ => Err (cli_new 69 "broker_unreachable"
      "self-test: the mutual-TLS handshake against the just-provisioned broker failed")
  end.

(** [verify_broker_serving]: twelve attempts; the [n]-th finds what [attempt n] is. *)
Definition ATTEMPTS : nat := 12.
Fixpoint serving_within (c : BrokerCredential) (attempt : nat -> cliresult unit) (n left_ : nat)
    : cliresult unit :=
  match left_ with
  | O => Err (cli_new 69 "broker_not_serving" ("the broker was provisioned (id " +:+ broker_id c
           +:+ ") and the credential written, but the local daemon did NOT serve it within ~6 s"))
  | S left_ => match attempt n with Ok _ => Ok tt | Err _ => serving_within c attempt (S n) left_ end
  end.
Definition verify_broker_serving (c : BrokerCredential) (attempt : nat -> cliresult unit)
    : cliresult unit := serving_within c attempt 0 ATTEMPTS.

(** ** Provisioning *)

Definition provision_str (resp : value) (key : string) : cliresult string :=
  ok_or (invalid_data ("provision response missing string field '" +:+ key +:+ "'")) (get_str resp key).

Definition pem_field_to_der (resp : value) (key : string) : cliresult bytes :=
  let*? pem := provision_str resp key in
  map_err (fun e => invalid_data ("provision returned a malformed " +:+ key +:+ ": " +:+ crypto_to_string e))
    (pem_to_der pem).

Definition assemble_credential (resp : value) (k3_key : BrokerK3KeyHome) (kbc_key_pkcs8 : bytes)
    (grant_status_url : string) : cliresult BrokerCredential :=
  let*? id := provision_str resp "broker_id" in
  let*? k3_cert := pem_field_to_der resp "k3_cert" in
  let*? kbc_cert := pem_field_to_der resp "kbc_cert" in
  let*? anchor := pem_field_to_der resp "ca_cert" in
  let*? k1 := provision_str resp "k1_verify" in
  let*! k1_verify := b64std_decode (trim k1) else
    invalid_data "provision returned a malformed k1_verify (not base64)" in
  Ok (mk_BrokerCredential id k3_cert k3_key kbc_cert kbc_key_pkcs8 anchor k1_verify grant_status_url).

Context {E : Type} (draw_scalar : E -> bytes * E) (draw_nonce : E -> bytes * E)
  (generate_broker_se_key : E -> string -> cliresult bytes * E)
  (post_json : E -> string -> value -> cliresult value * E) (tier : Tier).

Notation "'do?' x ':=' r 'on' st 'in' k" :=
  (match r with Ok x => k | Err e => (Err e, st) end)
  (at level 10, x name, r at level 100, st at level 99, k at level 200).

Definition generate_k3_key (e : E) : cliresult (bytes * BrokerK3KeyHome) * E :=
  match tier with
  | SecureEnclave =>
      if macos then
        let '(nonce, e) := draw_nonce e in
        let label := broker_k3_generation_label nonce in
        let '(r, e) := generate_broker_se_key e label in
        do? pubkey := r on e in
        (Ok (pubkey, SecureEnclaveHome label), e)
      else (Err (unsupported_platform
              "the broker's Secure-Enclave K3 key is macOS-only; off a Mac set SIGNET_KEY_TIER=software"), e)
  | Software =>
      let '(scalar, e) := draw_scalar e in
      do? pkcs8 := map_err (fun x => generic ("encoding the K3 key: " +:+ crypto_to_string x))
          (p256_scalar_to_pkcs8_der pkcs8_of scalar) on e in
      (Ok (p256_x963 (p256_public scalar), RawPkcs8 pkcs8), e)
  end.

Definition provision (e : E) (base_url provision_code : string) : cliresult BrokerCredential * E :=
  let base := trim_slashes base_url in
  let '(r, e) := generate_k3_key e in
  do? k3 := r on e in
  let '(kbc_scalar, e) := draw_scalar e in
  do? kbc_csr_der := map_err (fun x => generic ("building the K_bc CSR: " +:+ crypto_to_string x))
      (build_csr kbc_scalar "broker") on e in
  do? kbc_pkcs8 := map_err (fun x => generic ("encoding the K_bc key: " +:+ crypto_to_string x))
      (p256_scalar_to_pkcs8_der pkcs8_of kbc_scalar) on e in
  let body := json_obj [("provision_code", VString provision_code);
                        ("k3_pubkey", VString (b64std_encode (fst k3)));
                        ("kbc_csr", VString (b64std_encode kbc_csr_der))] in
  let '(r, e) := post_json e (base +:+ "/v1/garnet/broker/provision") body in
  do? resp := r on e in
  do? url := provision_str resp "grant_status_url" on e in
  (assemble_credential resp (snd k3) kbc_pkcs8 url, e).

(** ** The credential file *)

Definition bc_to_stored (c : BrokerCredential) : StoredBrokerCredential :=
  mk_StoredBrokerCredential (broker_id c) (b64std_encode (k3_cert_der c))
    (match k3_key c with
     | RawPkcs8 pkcs8 => StoredRawPkcs8 (b64std_encode pkcs8)
     | SecureEnclaveHome label => StoredSecureEnclave label
     end)
    (b64std_encode (kbc_cert_der c)) (b64std_encode (kbc_key_pkcs8 c))
    (b64std_encode (bc_ca_anchor_der c)) (b64std_encode (k1_verify c)) (bc_grant_status_url c).

Definition bc_b64 (s field : string) : cliresult bytes :=
  ok_or (filesystem ("malformed broker credential field '" +:+ field +:+ "'")) (b64std_decode s).

(** [BrokerCredential::load] of the file's text. *)
Definition bc_load (path : string) (text : option string) : cliresult BrokerCredential :=
  let*! text := text else key_not_found ("no broker credential at " +:+ path) in
  let*! stored := broker_credential_from_str text else filesystem ("parsing " +:+ path) in
  let*? k3 := match sb_k3_key stored with
              | StoredRawPkcs8 s => let*? b := bc_b64 s "k3 key" in Ok (RawPkcs8 b)
              | StoredSecureEnclave label => Ok (SecureEnclaveHome label)
              end in
  let*? k3_cert := bc_b64 (sb_k3_cert_der_b64 stored) "k3 cert" in
  let*? kbc_cert := bc_b64 (sb_kbc_cert_der_b64 stored) "kbc cert" in
  let*? kbc_key := bc_b64 (sb_kbc_key_pkcs8_b64 stored) "kbc key" in
  let*? anchor := bc_b64 (sb_ca_anchor_der_b64 stored) "ca anchor" in
  let*? k1 := bc_b64 (sb_k1_verify_b64 stored) "k1 verify key" in
  Ok (mk_BrokerCredential (sb_broker_id stored) k3_cert k3 kbc_cert kbc_key anchor k1
        (sb_grant_status_url stored)).

End Code.

(** ** Theorems *)

Lemma append_length a b : String.length (a +:+ b) = (String.length a + String.length b)%nat.
Proof.
  induction a as [|c a IH]; [done|].
  change (String.length (String.String c (a +:+ b)) = S (String.length a + String.length b)).
  cbn. by rewrite IH.
Qed.

Lemma str_bytes_last s suf b :
  last (str_bytes suf) = Some b -> last (str_bytes (s +:+ suf)) = Some b.
Proof. intros Hb. rewrite str_bytes_app, last_app. by rewrite Hb. Qed.

(** The last byte of a PRSN key's label is a [g], an [m] or a [q]. *)
Lemma full_last l : exists b, last (str_bytes (full l)) = Some b /\ b ∈ [Byte.x67; Byte.x6d; Byte.x71].
Proof.
  unfold full. destruct (purpose l);
    (eexists; split; [apply str_bytes_last; reflexivity|set_solver]).
Qed.

(** The sweep of stale broker keys cannot delete a person's key.  Whatever
    handle it has - one that starts like a broker label too - no label of a PRSN
    key is taken for a stale broker label; while every earlier generation and the
    old fixed label are, and the kept one is not. *)
Theorem sweep_spares_prsn_keys `{Hex} l keep nonce :
  is_stale_broker_k3_label (full l) keep = false /\
  is_stale_broker_k3_label keep keep = false /\
  (length nonce = 8%nat -> broker_k3_generation_label nonce <> keep ->
     is_stale_broker_k3_label (broker_k3_generation_label nonce) keep = true) /\
  (BROKER_K3_SE_LABEL <> keep -> is_stale_broker_k3_label BROKER_K3_SE_LABEL keep = true).
Proof.
  unfold is_stale_broker_k3_label. split_and!.
  - case_decide; [done|]. destruct (full_last l) as (b & Hb & Hin).
    rewrite decide_False.
    2:{ intros E. rewrite E in Hb. vm_compute in Hb. injection Hb as <-. set_solver. }
    destruct (strip_prefix _ (full l)) as [suffix|] eqn:Es; [|done].
    apply strip_prefix_Some in Es. rewrite Es, str_bytes_app, last_app in Hb.
    destruct (bool_decide (length (str_bytes suffix) = 16%nat)) eqn:El; [|done]. bool_prop. cbn [andb].
    destruct (last (str_bytes suffix)) as [b'|] eqn:Eb;
      [|apply last_None in Eb; rewrite Eb in El; done].
    injection Hb as ->. destruct (forallb is_lower_hex (str_bytes suffix)) eqn:Ef; [|done]. exfalso.
    apply last_Some in Eb as [l' El']. rewrite El', forallb_app in Ef. cbn in Ef.
    bool_prop. destruct (is_lower_hex b) eqn:Ex; [|done].
    apply elem_of_cons in Hin as [->|Hin]; [done|].
    apply elem_of_cons in Hin as [->|Hin]; [done|].
    apply elem_of_cons in Hin as [->|Hin]; [done|]. by apply elem_of_nil in Hin.
  - by rewrite decide_True.
  - intros Hn Hk. rewrite decide_False by done. unfold broker_k3_generation_label in *.
    rewrite decide_False.
    2:{ intros E. apply (f_equal String.length) in E. rewrite !append_length in E. cbn in E. lia. }
    rewrite <- (string_app_assoc BROKER_K3_SE_LABEL "-" (hex_encode nonce)), strip_prefix_app.
    rewrite bool_decide_true by (rewrite hex_encode_length; lia). cbn. apply hex_encode_digits.
  - intros Hk. by rewrite decide_False, decide_True.
Qed.

Section Theorems.
Context `{HS : Sha256} `{HB : Base64Url} `{HBS : Base64Std} `{HH : Hex} `{HX : X509Lib} {HL : X509Laws}.
Context (pkcs8_secret : bytes -> option bytes) (broker_se_sign : string -> bytes -> cliresult bytes)
  (macos : bool).

(** The self-check before serving is the handshake's own condition.  When the
    binding of a software key is verified, every handshake signature made with it
    verifies under the certificate's public key - the peer's check - and when it is
    refused as a mismatch, the key is not the one the certificate names. *)
Theorem k3_binding_is_serving c pkcs8 d :
  k3_key c = RawPkcs8 pkcs8 -> pkcs8_secret pkcs8 = Some d -> is_Some (p256_scalar d) ->
  (verify_k3_binding pkcs8_secret broker_se_sign macos c = Ok tt ->
     exists pub, cert_pubkey_x963 (k3_cert_der c) = Ok pub /\
       forall m raw, sign_es256 d m = Ok raw ->
         verify_es256 pub m raw = Ok tt /\
         exists der, k3_signer_sign (fun m => lift_crypto (sign_es256 d m)) m = Ok der /\
           (length der <> 64%nat -> verify_es256 pub m der = Ok tt)) /\
  (verify_k3_binding pkcs8_secret broker_se_sign macos c = Err (k3_binding_mismatch (broker_id c)) ->
     forall pub, cert_pubkey_x963 (k3_cert_der c) = Ok pub -> pub <> p256_x963 (p256_public d)).
Proof.
  intros Hk Hd Hs. unfold verify_k3_binding, p256_pkcs8_public_x963. rewrite Hk, Hd.
  destruct (cert_pubkey_x963 (k3_cert_der c)) as [pub|] eqn:Ep; cbn [map_err];
    [|split; [done|intros [= ?]; naive_solver]].
  case_bool_decide as Eb.
  - split; [|done]. intros _. exists pub. split; [done|]. subst pub. intros m raw Hm.
    split; [by apply verify_sign_es256|].
    destruct (raw_der_verify_alike d m raw Hm) as (der & Hder & _ & Hv).
    exists der. split; [|done]. unfold k3_signer_sign. rewrite Hm. cbn [lift_crypto map_err].
    by rewrite Hder.
  - split; [done|]. intros _ pub' [= ->]. congruence.
Qed.

(** The broker's own client certificate, which the self-test presents, is not
    accepted by the broker's listener: its name is not a PRSN's. *)
Theorem self_test_identity_refused now0 ca cn serial0 secs0 ica now csr id serial secs ic tls_now :
  build_ca_cert now0 ca cn serial0 secs0 = Ok ica ->
  issue_broker_client_cert now csr id ca cn serial secs = Ok ic -> der_signature_read (ic_der ic) ->
  verify_client_cert (ic_der ica) (ic_der ic) [] tls_now = Err UnknownIssuer.
Proof.
  intros Hca Hi Hlen. unfold issue_broker_client_cert in Hi. destruct (verify_csr csr); [|done].
  assert (Kc : ID_KP_CLIENT_AUTH ∈ known_oids) by (apply (bool_decide_unpack _); done).
  unfold verify_client_cert. rewrite bool_decide_true by done. unfold verify_leaf_chains_to_ca.
  rewrite (verify_issued _ _ _ _ _ _ _ _ _ _ _ _ _ _ _ Hca Hi) by done.
  unfold issued_verdict. rewrite decide_True by done. 
  destruct (Z.max (i64_wrap tls_now) 0 <? now); [done|].
  by destruct (now + secs <? Z.max (i64_wrap tls_now) 0).
Qed.

(** A provisioned broker is the one its agents reach: the certificate issued for
    its key is accepted, in its window, by an agent that pins that certificate's
    key, and by no agent that pins another. *)
Theorem provisioned_broker_reached now0 ca cn serial0 secs0 ica now key id serial secs ic
    chain akey pin proof tls_now :
  build_ca_cert now0 ca cn serial0 secs0 = Ok ica ->
  build_server_leaf now key id ca cn serial secs = Ok ic -> der_signature_read (ic_der ic) ->
  now <= i64_wrap tls_now <= now + secs -> 0 <= i64_wrap tls_now -> proof (ic_der ic) = true ->
  exists own, cert_spki_sha256_b64url (ic_der ic) = Ok own /\
    establish (broker_pinned_client_config (ic_der ica) chain akey pin) true proof [ic_der ic] tls_now =
    if decide (own = pin) then Ok tt else Err pin_mismatch.
Proof.
  intros Hca Hi Hlen Hw H0' Hp. unfold build_server_leaf in Hi.
  destruct (p256_decode key) as [P|] eqn:EP; [|done].
  destruct (spki_from_point P) as (k & Hk & Hkd). rewrite Hk in Hi.
  assert (Ks : ID_KP_SERVER_AUTH ∈ known_oids) by (apply (bool_decide_unpack _); done).
  pose proof (verify_issued _ _ _ _ _ _ _ _ _ _ _ _ _ ID_KP_SERVER_AUTH (i64_wrap tls_now)
                Hca Hi Hlen Ks Ks) as Hu.
  unfold issued_verdict in Hu. rewrite Z.max_l in Hu by done.
  rewrite (proj2 (Z.ltb_ge _ _)) in Hu by lia. rewrite (proj2 (Z.ltb_ge _ _)) in Hu by lia.
  rewrite decide_True in Hu by done.
  apply build_leaf_Ok in Hi as (_ & c & (Hd & _)%finish_Ok & Hl).
  assert (Hown : cert_spki_sha256_b64url (ic_der ic) = Ok (b64_encode (sha256_digest (p256_spki_der P)))).
  { unfold cert_spki_sha256_b64url. by rewrite Hd, (lf_spki _ _ _ _ _ _ _ _ Hl), Hkd. }
  eexists; split; [exact Hown|].
  unfold establish, client_handshake, verify_server_cert, broker_pinned_client_config.
  cbn [cc_ca_anchor_der cc_pinned_broker_spki]. rewrite bool_decide_true by done.
  rewrite Hu, Hown. cbn [map_err]. case_decide as E.
  - rewrite bool_decide_true by done. cbn [map_err]. by rewrite Hp.
  - rewrite bool_decide_false by done. done.
Qed.

Context {HBT : BrokerCredentialText}.

(** The credential file round-trips. *)
Theorem broker_credential_round_trip c t path :
  broker_credential_to_pretty (bc_to_stored c) = Some t -> bc_load path (Some t) = Ok c.
Proof.
  intros Ht%broker_credential_from_to. unfold bc_load. rewrite Ht. unfold bc_b64, bc_to_stored.
  destruct c as [id k3c k3 kbc kbk an k1 u]; destruct k3; cbn;
    by rewrite !b64std_decode_encode.
Qed.

End Theorems.

(** ** A concrete broker *)
Import Prims.Toy TokenToy X509Toy.

Lemma k3_binding_is_serving_witness :
  let c := mk_BrokerCredential "b1" [Byte.x03] (RawPkcs8 agent_key) [Byte.x02] agent_key [Byte.x01] [] "u" in
  verify_k3_binding Some (fun _ _ => Err (generic "")) false c = Ok tt /\
  exists pub, cert_pubkey_x963 [Byte.x03] = Ok pub /\
    forall m raw, sign_es256 agent_key m = Ok raw ->
      verify_es256 pub m raw = Ok tt /\
      exists der, k3_signer_sign (fun m => lift_crypto (sign_es256 agent_key m)) m = Ok der /\
        (length der <> 64%nat -> verify_es256 pub m der = Ok tt).
Proof.
  intros c. assert (Hc : verify_k3_binding Some (fun _ _ => Err (generic "")) false c = Ok tt)
    by reflexivity.
  split; [exact Hc|].
  apply (proj1 (k3_binding_is_serving Some (fun _ _ => Err (generic "")) false c agent_key agent_key
    eq_refl eq_refl (ltac:(by eexists)))). exact Hc.
Defined.
