(* ===== verification/RecipientVerify.v ===== *)
(** * Verified-source recipient keys (cli/src/recipient_verify.rs)

    Every key a file is wrapped to for someone else passes [verified_wrap_keys]:
    the bundle's shape, the handle the user named, and the recipient's identity
    record (a dual-signed attestation for a PRSN, the log receipts for a human).
    A network read is an argument per call site, since two reads of one address
    may answer differently. *)

From S2P Require Import Prelude Prims CryptoCore Text VrfIndex Ecdsa Wrap SignedBytes Merkle CliError Token Anchors Receipts.
Import TransLog Attest.

(** The reads of one verification: the attestation response, a log receipt, and
    the re-fetch of [/v1/server-info] that looks for the key that signed it. *)
Inductive Site :=
| SiteVerification
| SiteReceipt (purpose : string)
| SiteKey (what : string).

Record ServerTrust := mk_ServerTrust { t_info : value; t_mode : LogMode; t_epoch : Z }.

Inductive HandleExpectation := UserNamed (expected : string) | ServerListed.

Section Code.
Context `{Sha256, Jcs, HB64 : Base64Url, Hex, HP : P256, !Ecdsa256, HJ : JsonText, HM : MlDsa87,
  HU : UuidLib, HV : Vrf.VrfR255}.
(** Rust's [{:?}] of an optional string, shown in a message. *)
Context (debug_opt : option string -> string).

(** ** The server's keys *)

(** The public key of an entry of [server-info]. *)
Definition key_bytes (k : value) : cliresult bytes :=
  decode_field k "public_key" (invalid_data "server-info key missing public_key")
    (invalid_data "server-info public_key base64url").

(** The first key of a list that [p] selects. *)
Fixpoint find_key (p : value -> bool) (ks : list value) : cliresult (option bytes) :=
  match ks with
  | [] => Ok None
  | k :: ks => if p k then let*? vk := key_bytes k in Ok (Some vk) else find_key p ks
  end.

Definition find_key_by_id (info : value) (key_id : string) : cliresult (option bytes) :=
  let has k := bool_decide (get_str k "key_id" = Some key_id) in
  let*? r := find_key has (default [] (get_array info "current_signing_keys")) in
  match r with
  | Some vk => Ok (Some vk)
  | None => find_key has (default [] (get_array info "retired_signing_keys"))
  end.

Definition active_pq_key (info : value) : cliresult bytes :=
  let*! ks := get_array info "current_signing_keys" else
    invalid_data "server-info missing current_signing_keys" in
  let*? r := find_key (fun k => bool_decide (get_str k "purpose" = Some "attestation_verification_pq")) ks in
  let*! vk := r else
    transparency_violation "server publishes no active ML-DSA-87 verification key: refusing to verify recipient identity records ES256-only (MF-2/N9)" in
  Ok vk.

(** [ServerTrust::fetch]: one read of [server-info], which must publish a PQ key,
    and its epoch anchored through the write path's cache. *)
Definition trust_fetch (env : AnchorEnv) (text : option string) (server_url : string)
    : cliresult ServerTrust * option string :=
  match env_json env (server_url +:+ "/v1/server-info") with
  | Err e => (Err e, text)
  | Ok info =>
      match active_pq_key info with
      | Err e => (Err e, text)
      | Ok _ =>
          match anchor_served env text server_url info None true with
          | (Err e, text) => (Err e, text)
          | (Ok anchoring, text) =>
              (let*? mode := receipt_rule (a_verdict anchoring) in
               Ok (mk_ServerTrust info mode (s_epoch (a_served anchoring))), text)
          end
      end
  end.

Definition index_for (trust : ServerTrust) (account_id : string) (proof : option string) (who : string)
    : cliresult (option (Z * bytes)) := index_under (t_mode trust) account_id proof who.

(** The reads of the network, and the server they go to. *)
Context (get : Site -> string -> cliresult value) (server_url : string).

(** [what] names the record whose key is looked up: it tells the re-fetches apart. *)
Definition key_by_id (trust : ServerTrust) (what key_id : string) : cliresult bytes :=
  let*? r := find_key_by_id (t_info trust) key_id in
  match r with
  | Some vk => Ok vk
  | None =>
      let*? fresh := get (SiteKey what) (server_url +:+ "/v1/server-info") in
      let*? r := find_key_by_id fresh key_id in
      let*! vk := r else
        transparency_violation ("server-info has no signing key with id " +:+ key_id) in
      Ok vk
  end.

(** The binding a receipt is held to: by the account's index when there is one. *)
Definition binding_of (index : option (Z * bytes)) (otherwise : AccountBinding) : AccountBinding :=
  match index with None => otherwise | Some (epoch, index) => Index epoch index end.

Definition check_bundle_epoch (bundle : value) (epoch : Z) (who : string) : cliresult unit :=
  let named := match value_get bundle "epoch" with None => Some 1 | Some v => value_as_u64 v end in
  if decide (named = Some epoch) then Ok tt
  else
    let shown := match value_get bundle "epoch" with None => "1 (absent)" | Some v => json_display v end in
    Err (as_epoch_move (transparency_violation (who +:+ ": the recipient bundle names epoch " +:+ shown
           +:+ ", but the anchored epoch is " +:+ pretty epoch))).

(** ** The attestation of a PRSN *)

Definition verify_verification_response (trust : ServerTrust) (response : value) (who : string)
    : cliresult value :=
  let*! server_key_id := get_str response "server_key_id" else
    invalid_data "response missing server_key_id" in
  let*! signed_at := value_get response "signed_at" ≫= value_as_i64 else
    invalid_data "response missing signed_at" in
  let*! attestation := value_get response "attestation" else invalid_data "response missing attestation" in
  let*? signature := decode_field response "server_signature"
    (invalid_data "response missing server_signature") (invalid_data "server_signature base64url") in
  let*? signing_input := map_err (fun _ => invalid_data "verification canonical bytes")
    (verification_signing_input attestation server_key_id signed_at) in
  let*? server_pub := key_by_id trust "response" server_key_id in
  let*? _ := map_err (fun _ => signature_invalid (who +:+ ": server signature does not verify"))
               (verify_es256 server_pub signing_input signature) in
  let*? pq_vk := match get_str response "server_pq_key_id" with
                 | Some pq_kid => key_by_id trust "response_pq" pq_kid
                 | None => active_pq_key (t_info trust)
                 end in
  let*? pq_sig := decode_field response "server_signature_mldsa87"
    (signature_invalid (who +:+ ": ES256-only verification response rejected: the server has a published ML-DSA-87 key, so the §9 response MUST be dual-signed (MF-2/N9)"))
    (invalid_data "server_signature_mldsa87 base64url") in
  let*? _ := verify_mldsa87 pq_vk signing_input SERVER_VERIFY_MLDSA_CTX pq_sig in
  let*! subject_account := get_str attestation "subject_account_id" else
    invalid_data "attestation missing subject_account_id" in
  let*? index := index_for trust subject_account (get_str attestation "subject_account_vrf_proof") who in
  let*? transparency := verify_inline_receipts response attestation server_pub (Some pq_vk)
                          (binding_of index Attested) (Some (t_epoch trust)) in
  guard bool_decide (transparency = "verified") else
    transparency_violation (who +:+ ": attestation response's transparency receipts are " +:+ transparency
      +:+ ": the write path requires the full receipt set") ;;
  Ok attestation.

Definition decode_b64 (obj : value) (field who : string) : cliresult bytes :=
  decode_field obj field (invalid_data (who +:+ ": missing " +:+ field))
    (invalid_data (who +:+ ": " +:+ field +:+ " base64url")).

(** The [match] on the attestation's status. *)
Definition check_status (attestation : value) (handle who : string) : cliresult unit :=
  let status := get_str attestation "status" in
  if decide (status = Some "active") then Ok tt
  else if decide (status = Some "revoked") then
    Err (attestation_revoked (who +:+ ": '" +:+ handle +:+ "' attestation is revoked"))
  else if decide (status = Some "expired") then
    Err (attestation_expired (who +:+ ": '" +:+ handle +:+ "' attestation is expired"))
  else Err (invalid_data (who +:+ ": attestation has unknown status " +:+ debug_opt status)).

Definition verify_against_attestation (trust : ServerTrust) (bundle : value)
    (bundle_keys : RecipientWrapKeys) (account_id handle who : string) : cliresult unit :=
  let*! attestation_id := get_str bundle "attestation_id" else
    transparency_violation (who +:+ ": '" +:+ handle +:+ "' is a PRSN but its bundle names no attestation: cannot verified-source the wrap keys") in
  let*? response := get SiteVerification
    (server_url +:+ "/v1/attestations/" +:+ attestation_id +:+ "/verification") in
  let*? attestation := verify_verification_response trust response who in
  let*? _ := check_status attestation handle who in
  let*! subject_account := get_str attestation "subject_account_id" else
    invalid_data "attestation missing subject_account_id" in
  guard eq_ignore_ascii_case subject_account account_id else
    transparency_violation (who +:+ ": attestation subject is a DIFFERENT account than the directory row: substitution") ;;
  let*! subject_handle := get_str attestation "subject_handle" else
    transparency_violation (who +:+ ": attestation carries no subject_handle: refusing (the §9 schema guarantees the field)") in
  guard bool_decide (subject_handle = handle) else
    transparency_violation (who +:+ ": attestation subject handle '" +:+ subject_handle
      +:+ "' does not match '" +:+ handle +:+ "'") ;;
  let*? att_kem := decode_b64 attestation "subject_kem_pubkey" who in
  let*? att_kem_pq := decode_field attestation "subject_kem_pq_pubkey"
    (transparency_violation (who +:+ ": '" +:+ handle +:+ "' attestation carries no ML-KEM key: refusing a classical-only wrap (mandatory hybrid write, PQR §9.2)"))
    (invalid_data (who +:+ " attested ML-KEM key base64url")) in
  let*? rfp := map_err (fun _ => invalid_data (who +:+ " attested KEM keys non-canonical"))
                 (Wrap.hybrid_rfp att_kem att_kem_pq) in
  match get_str attestation "rfp" with
  | Some committed =>
      guard bool_decide (committed = rfp) else
        transparency_violation (who +:+ ": recomputed rfp does not match the attestation's pair-commitment") ;;
      guard bool_decide (rk_ec bundle_keys = att_kem) && bool_decide (rk_pq bundle_keys = Some att_kem_pq) else
        transparency_violation (who +:+ ": directory bundle keys differ from the attested keys: substitution") ;;
      Ok tt
  | None => Err (transparency_violation (who +:+ ": hybrid attestation carries no rfp pair-commitment"))
  end.

(** ** The receipts of a human *)

(** [Display for CliError]. *)
Definition cli_display (e : CliError) : string := code e +:+ ": " +:+ message e.

(** One round of the loop. *)
Definition verify_logged_key (trust : ServerTrust) (binding : AccountBinding) (pq_vk : bytes)
    (fp purpose who : string) : cliresult unit :=
  let*? receipt := map_err (fun e =>
      if epoch_moved e then e
      else transparency_violation (who +:+ ": no verifiable " +:+ purpose
             +:+ " log receipt for the offered key (" +:+ cli_display e +:+ "); an unlogged key is not a wrap target"))
    (get (SiteReceipt purpose) (server_url +:+ "/v1/transparency/log/receipt?fingerprint=" +:+ fp
           +:+ "&purpose=" +:+ purpose +:+ "&epoch=" +:+ pretty (t_epoch trust))) in
  let*! key_id := get_str receipt "server_key_id" else
    transparency_violation "receipt missing server_key_id" in
  let*? server_pub := key_by_id trust purpose key_id in
  verify_one_receipt receipt fp binding purpose server_pub (Some pq_vk).

Definition verify_against_receipts (trust : ServerTrust) (bundle : value) (account_id : string)
    (proof : option string) (who : string) : cliresult unit :=
  let*? index := index_for trust account_id proof who in
  let binding := binding_of index (AccountId account_id) in
  let*! fp_ec := get_str bundle "kem_pubkey_fingerprint" else
    invalid_data (who +:+ " bundle missing KEM fingerprint") in
  let*! fp_pq := get_str bundle "kem_pq_pubkey_fingerprint" else
    invalid_data (who +:+ " bundle missing ML-KEM fingerprint") in
  let*? pq_vk := active_pq_key (t_info trust) in
  let*? _ := verify_logged_key trust binding pq_vk fp_ec "kem" who in
  let*? _ := verify_logged_key trust binding pq_vk fp_pq "kem_pq" who in
  Ok tt.

(** ** The entry point *)

(** The account id and its VRF proof, in the first of the two spellings present. *)
Definition bundle_account (bundle : value) : option (string * option string) :=
  match get_str bundle "account_id" with
  | Some id => Some (id, get_str bundle "account_vrf_proof")
  | None =>
      match get_str bundle "recipient_account_id" with
      | Some id => Some (id, get_str bundle "recipient_account_vrf_proof")
      | None => None
      end
  end.

Definition is_prsn (handle : string) : bool := ends_with handle "-ai".

Definition verified_wrap_keys (trust : ServerTrust) (bundle : value) (expectation : HandleExpectation)
    (who : string) : cliresult RecipientWrapKeys :=
  let*! handle := get_str bundle "handle" else
    transparency_violation (who +:+ ": recipient bundle carries no handle: cannot classify for verified-source key resolution") in
  guard match expectation with UserNamed expected => bool_decide (handle = expected) | ServerListed => true end else
    transparency_violation (who +:+ ": asked the directory for '"
      +:+ match expectation with UserNamed e => e | ServerListed => EmptyString end
      +:+ "' but the bundle answers for '" +:+ handle +:+ "'; refusing (substitution)") ;;
  let*? keys := verify_recipient_wrap_keys bundle who in
  guard match get_str bundle "account_type" with
        | Some claimed => Bool.eqb (bool_decide (claimed = "prsn")) (is_prsn handle)
        | None => true
        end else
    transparency_violation (who +:+ ": the server calls '" +:+ handle +:+ "' a "
      +:+ default EmptyString (get_str bundle "account_type")
      +:+ ", but the handle says otherwise (PRSN handles end in -ai); refusing") ;;
  let*! ap := bundle_account bundle else
    transparency_violation (who +:+ ": recipient bundle carries no account id: cannot bind the keys to an identity record") in
  let*? _ := check_bundle_epoch bundle (t_epoch trust) who in
  let*? _ := if is_prsn handle
             then verify_against_attestation trust bundle keys ap.1 handle who
             else verify_against_receipts trust bundle ap.1 ap.2 who in
  Ok keys.

End Code.
