(* ===== verification/RecipientTheorems.v ===== *)
(** * What a verified recipient key is

    A receipt that verifies vouches, under the server's signature, for the
    fingerprint, the purpose and the account it was checked for.  A key set
    returned by [verified_wrap_keys] for the handle the user typed is always
    hybrid, and is backed by the recipient's signed identity record. *)

From S2P Require Import Prelude Prims CryptoCore Text VrfIndex Ecdsa Wrap SignedBytes Merkle CliError Token Anchors Receipts RecipientVerify.
Import TransLog Attest.

Lemma obj_remove_get k ms j :
  j <> k -> value_get (VObject (obj_remove k ms)) j = value_get (VObject ms) j.
Proof.
  intros Hj. induction ms as [|[k' v] ms IH]; [done|]. unfold obj_remove. cbn [List.filter fst].
  fold (obj_remove k ms). case_bool_decide as E; cbn [negb].
  - subst. by rewrite value_get_cons, decide_False by congruence.
  - by rewrite !value_get_cons, IH.
Qed.

Lemma unsigned_receipt_get ms k :
  k <> "server_signature" -> k <> "server_signature_mldsa87" ->
  value_get (unsigned_receipt ms) k = value_get (VObject ms) k.
Proof. intros H1 H2. unfold unsigned_receipt. by rewrite !obj_remove_get. Qed.

Section Spec.
Context `{Sha256, Jcs, HB64 : Base64Url, Hex, HP : P256, !Ecdsa256, HJ : JsonText, HM : MlDsa87,
  HU : UuidLib, HV : Vrf.VrfR255}.

(** The account a signed record names, under a binding. *)
Definition names_account (signed : value) (b : AccountBinding) : Prop :=
  match b with
  | Attested => True
  | AccountId a => exists a', get_str signed "account_id" = Some a' /\ eq_ignore_ascii_case a' a = true
  | Index epoch index =>
      get_u64 signed "v" = Some 2 /\ get_u64 signed "entry_version" = Some 3 /\
      get_u64 signed "epoch" = Some epoch /\ get_str signed "account_index" ≫= hex_decode = Some index
  end.

(** The server signed, with its ES256 key and (when the record names a PQ key)
    its ML-DSA-87 key, a log receipt for this fingerprint, purpose and account. *)
Record vouched (server_pub : bytes) (server_pq_vk : option bytes) (fp purpose : string)
    (b : AccountBinding) (receipt signed : value) : Prop := mk_vouched
  { vc_fp : get_str signed "public_key_fingerprint" = Some fp;
    vc_purpose : get_str signed "key_purpose" = Some purpose;
    vc_account : names_account signed b;
    vc_signed : exists input sig, receipt_signing_input signed = Ok input /\
      verify_es256 server_pub input sig = Ok tt /\
      (is_Some (value_get signed "server_pq_key_id") ->
       exists vk pq_sig, server_pq_vk = Some vk /\ verify_mldsa87 vk input RECEIPT_MLDSA_CTX pq_sig = Ok tt) }.

Lemma get_str_unsigned ms k :
  k <> "server_signature" -> k <> "server_signature_mldsa87" ->
  get_str (unsigned_receipt ms) k = get_str (VObject ms) k.
Proof. intros ? ?. unfold get_str. by rewrite unsigned_receipt_get. Qed.

Lemma get_u64_unsigned ms k :
  k <> "server_signature" -> k <> "server_signature_mldsa87" ->
  get_u64 (unsigned_receipt ms) k = get_u64 (VObject ms) k.
Proof. intros ? ?. unfold get_u64. by rewrite unsigned_receipt_get. Qed.

Lemma check_binding_names ms b purpose :
  check_binding (VObject ms) b purpose = Ok tt -> names_account (unsigned_receipt ms) b.
Proof.
  destruct b as [|a|epoch index]; [done|..]; cbn [check_binding names_account].
  - rewrite get_str_unsigned by done. intros E. steps_in E. eauto.
  - unfold check_receipt_index. rewrite get_str_unsigned, !get_u64_unsigned by done. intros E.
    steps_in E. bool_prop. subst. done.
Qed.

Lemma map_err_Ok {E F A} (f : E -> F) (r : result E A) a : map_err f r = Ok a <-> r = Ok a.
Proof. destruct r; cbn; split; congruence. Qed.

Lemma decode_field_Ok v k m bad b :
  decode_field v k m bad = Ok b <-> exists s, get_str v k = Some s /\ b64_decode s = Some b.
Proof.
  unfold decode_field. destruct (get_str v k) as [s|]; [|split; [done|by intros (? & ? & _)]].
  destruct (b64_decode s) as [b'|] eqn:E; split.
  - intros [= <-]. eauto.
  - intros (? & [= <-] & ?). congruence.
  - done.
  - intros (? & [= <-] & ?). congruence.
Qed.

(** Everything [verify_one_receipt] checked stands under the signature. *)
Lemma verify_one_receipt_vouched receipt fp b purpose pub pq :
  verify_one_receipt receipt fp b purpose pub pq = Ok tt ->
  exists ms, receipt = VObject ms /\ vouched pub pq fp purpose b receipt (unsigned_receipt ms).
Proof.
  unfold verify_one_receipt. intros E.
  destruct (get_str receipt "public_key_fingerprint") as [rfp|] eqn:Efp; [|done].
  destruct (bool_decide (rfp = fp)) eqn:Ef; [|done].
  destruct (check_binding receipt b purpose) as [[]|] eqn:Eb; [|done].
  destruct (bool_decide (get_str receipt "key_purpose" = Some purpose)) eqn:Ep; [|done].
  destruct (decode_field receipt _ _ _) as [sig|] eqn:Es; [|done].
  destruct (value_as_object receipt) as [ms|] eqn:Em; [|done].
  destruct receipt as [| | | | | |ms']; try done. cbn in Em. injection Em as ->.
  exists ms. split; [done|]. bool_prop. subst rfp. cbv zeta in E.
  destruct (receipt_signing_input (unsigned_receipt ms)) as [input|] eqn:Ei; [|done]. cbn [map_err] in E.
  destruct (verify_es256 pub input sig) as [[]|] eqn:Ev; [|done]. cbn [map_err] in E.
  constructor; [by rewrite get_str_unsigned|by rewrite get_str_unsigned|by eapply check_binding_names|].
  exists input, sig. split; [done|]. split; [done|]. intros Hpq. unfold has_field in E.
  rewrite bool_decide_true in E by done. destruct (get_str (VObject (obj_remove _ ms)) _) as [t|]; [|done].
  destruct pq as [vk|]; [|done]. destruct (b64_decode t) as [pqs|]; [|done].
  apply map_err_Ok in E. eauto.
Qed.

(** The inline receipts of a response: each one present is vouched for the
    fingerprint the attestation states. *)
Lemma receipts_loop_vouched response att pub pq b ae rs n m :
  receipts_loop response att pub pq b ae rs n = Ok m ->
  n <= m <= n + Z.of_nat (length rs) /\
  (forall rf ff purpose r, (rf, ff, purpose) ∈ rs -> value_get response rf = Some r ->
     exists fp ms, get_str att ff = Some fp /\ r = VObject ms /\
       vouched pub pq fp purpose b r (unsigned_receipt ms)) /\
  (m = n + Z.of_nat (length rs) ->
   forall rf ff purpose, (rf, ff, purpose) ∈ rs -> is_Some (value_get response rf)).
Proof.
  revert n. induction rs as [|[[rf ff] purpose] rs IH]; intros n E; cbn [receipts_loop] in E.
  { injection E as <-. split; [cbn; lia|]. split; intros; set_solver. }
  destruct (value_get response rf) as [r|] eqn:Er.
  - destruct (match ae with Some _ => _ | None => _ end) as [[]|]; [|done].
    destruct (get_str att ff) as [fp|] eqn:Ef; [|done].
    destruct (verify_one_receipt _ _ _ _ _ _) as [[]|] eqn:Ev; [|done].
    apply IH in E as (Hm & Hv & Hall). apply verify_one_receipt_vouched in Ev as (ms & -> & Hvc).
    cbn [length]. split; [lia|]. split.
    + intros rf' ff' p' r' [[= -> -> ->]|Hin]%elem_of_cons Hr; [|by eapply Hv].
      rewrite Er in Hr. injection Hr as <-. eauto.
    + intros Hmax rf' ff' p' [[= -> -> ->]|Hin]%elem_of_cons; [by rewrite Er|].
      eapply Hall; [lia|done].
  - apply IH in E as (Hm & Hv & Hall). cbn [length]. split; [lia|]. split.
    + intros rf' ff' p' r' [[= -> -> ->]|Hin]%elem_of_cons Hr; [congruence|by eapply Hv].
    + lia.
Qed.

(** *** The two identity records *)

Context (debug_opt : option string -> string) (get : Site -> string -> cliresult value) (server_url : string).
Implicit Types (trust : ServerTrust) (bundle att response : value) (keys : RecipientWrapKeys).

(** Both of the server's signatures stand over the attestation. *)
Definition dual_signed trust response att : Prop :=
  value_get response "attestation" = Some att /\
  exists kid t input pub sig pq_vk pq_sig,
    get_str response "server_key_id" = Some kid /\
    verification_signing_input att kid t = Ok input /\
    key_by_id get server_url trust "response" kid = Ok pub /\
    verify_es256 pub input sig = Ok tt /\
    verify_mldsa87 pq_vk input SERVER_VERIFY_MLDSA_CTX pq_sig = Ok tt.

(** What the account's receipts are bound to: the account id in epoch 1, the
    index proved under the epoch's pinned key later. *)
Definition account_binding trust (account_id : string) (proof : option string) (otherwise b : AccountBinding) : Prop :=
  match t_mode trust with
  | Legacy => b = otherwise
  | V3 epoch vrf_pk _ =>
      exists u proof_hex pi index,
        uuid_parse_str account_id = Some u /\ proof = Some proof_hex /\ hex_decode proof_hex = Some pi /\
        Vrf.verify vrf_pk (uuid_as_bytes u) pi = Ok index /\ b = Index epoch index
  end.

Lemma index_for_binding trust account_id proof who otherwise index :
  index_for trust account_id proof who = Ok index ->
  account_binding trust account_id proof otherwise (binding_of index otherwise).
Proof.
  unfold index_for, index_under, account_binding. destruct (t_mode trust) as [|epoch vrf_pk g].
  { by intros [= <-]. }
  unfold account_index. intros E. destruct (uuid_parse_str account_id) as [u|]; [|done].
  destruct proof as [ph|]; [|done]. destruct (hex_decode ph) as [pi|] eqn:Eh; [|done].
  destruct (to_array _ _ pi) as [pi'|] eqn:Ea; [|done]. apply to_array_Ok in Ea as [-> _].
  destruct (Vrf.verify _ _ pi') as [i|] eqn:Ev; [|done]. cbn in E. injection E as <-.
  exists u, ph, pi', i. done.
Qed.

(** A PRSN's record: an active, dual-signed attestation of this handle and
    account that carries exactly these keys, with its receipts in the log. *)
Definition prsn_record trust bundle keys (account_id handle : string) : Prop :=
  exists att_id response att acct b,
    get_str bundle "attestation_id" = Some att_id /\
    get SiteVerification (server_url +:+ "/v1/attestations/" +:+ att_id +:+ "/verification") = Ok response /\
    dual_signed trust response att /\
    get_str att "status" = Some "active" /\ get_str att "subject_handle" = Some handle /\
    get_str att "subject_account_id" = Some acct /\ eq_ignore_ascii_case acct account_id = true /\
    get_str att "subject_kem_pubkey" ≫= b64_decode = Some (rk_ec keys) /\
    get_str att "subject_kem_pq_pubkey" ≫= b64_decode = rk_pq keys /\
    account_binding trust acct (get_str att "subject_account_vrf_proof") Attested b /\
    forall rf ff purpose, (rf, ff, purpose) ∈ inline_receipts ->
      (has_field att "subject_signing_pq_pubkey_fingerprint" = true -> is_Some (value_get response rf)) /\
      forall r, value_get response rf = Some r ->
        exists fp ms pub pq, get_str att ff = Some fp /\ r = VObject ms /\
          vouched pub pq fp purpose b r (unsigned_receipt ms).

(** A human's record: both keys stand in the log under the account. *)
Definition human_record trust bundle (account_id : string) (proof : option string) : Prop :=
  exists b, account_binding trust account_id proof (AccountId account_id) b /\
    forall field purpose, (field, purpose) ∈ [("kem_pubkey_fingerprint", "kem"); ("kem_pq_pubkey_fingerprint", "kem_pq")] ->
      exists fp r ms kid pub pq, get_str bundle field = Some fp /\
        get (SiteReceipt purpose) (server_url +:+ "/v1/transparency/log/receipt?fingerprint=" +:+ fp
               +:+ "&purpose=" +:+ purpose +:+ "&epoch=" +:+ pretty (t_epoch trust)) = Ok r /\
        r = VObject ms /\ get_str r "server_key_id" = Some kid /\
        key_by_id get server_url trust purpose kid = Ok pub /\
        vouched pub (Some pq) fp purpose b r (unsigned_receipt ms).

Lemma wrap_keys_hybrid bundle who keys :
  verify_recipient_wrap_keys bundle who = Ok keys ->
  exists ek fp fp_pq, rk_pq keys = Some ek /\ length ek = Wrap.MLKEM1024_EK_LEN /\
    get_str bundle "kem_pubkey_fingerprint" = Some fp /\ Wrap.fingerprint (rk_ec keys) = Ok fp /\
    get_str bundle "kem_pq_pubkey_fingerprint" = Some fp_pq /\ Wrap.fingerprint_raw ek = fp_pq.
Proof.
  unfold verify_recipient_wrap_keys, verify_recipient_kem_pub. intros E.
  destruct (get_str bundle "kem_pubkey") as [k|]; [|done].
  destruct (get_str bundle "kem_pubkey_fingerprint") as [fp|]; [|done].
  destruct (b64_decode k) as [ec|]; [|done].
  destruct (Wrap.fingerprint ec) as [f|] eqn:Ef; [|done]. cbn [map_err] in E.
  destruct (bool_decide (f = fp)) eqn:Efp; [|done].
  destruct (get_str bundle "kem_pq_pubkey") as [kp|], (get_str bundle "kem_pq_pubkey_fingerprint") as [fq|];
    [|done..]. destruct (b64_decode kp) as [ek|]; [|done].
  destruct (bool_decide (length ek = _)) eqn:El; [|done].
  destruct (bool_decide (_ = fq)) eqn:Eq; [|done]. bool_prop. apply (inj Ok) in E as <-. subst.
  cbn [rk_ec rk_pq]. by exists ek, fp, (Wrap.fingerprint_raw ek).
Qed.

Lemma verify_logged_key_vouched trust b pq_vk fp purpose who :
  verify_logged_key get server_url trust b pq_vk fp purpose who = Ok tt ->
  exists r ms kid pub,
    get (SiteReceipt purpose) (server_url +:+ "/v1/transparency/log/receipt?fingerprint=" +:+ fp
           +:+ "&purpose=" +:+ purpose +:+ "&epoch=" +:+ pretty (t_epoch trust)) = Ok r /\
    r = VObject ms /\ get_str r "server_key_id" = Some kid /\
    key_by_id get server_url trust purpose kid = Ok pub /\
    vouched pub (Some pq_vk) fp purpose b r (unsigned_receipt ms).
Proof.
  unfold verify_logged_key. intros E. destruct (get (SiteReceipt purpose) _) as [r|] eqn:Er; [|done].
  cbn [map_err] in E. destruct (get_str r "server_key_id") as [kid|] eqn:Ek; [|done].
  destruct (key_by_id _ _ _ _ kid) as [pub|] eqn:Ep; [|done].
  apply verify_one_receipt_vouched in E as (ms & -> & Hv). exists (VObject ms), ms, kid, pub. done.
Qed.

Lemma receipts_human trust bundle account_id proof who :
  verify_against_receipts get server_url trust bundle account_id proof who = Ok tt ->
  human_record trust bundle account_id proof.
Proof.
  unfold verify_against_receipts. intros E. destruct (index_for _ _ _ _) as [index|] eqn:Ei; [|done].
  cbv zeta in E. destruct (get_str bundle "kem_pubkey_fingerprint") as [fe|] eqn:Efe; [|done].
  destruct (get_str bundle "kem_pq_pubkey_fingerprint") as [fq|] eqn:Efq; [|done].
  destruct (active_pq_key _) as [vk|]; [|done].
  destruct (verify_logged_key _ _ _ _ _ fe _ _) as [[]|] eqn:E1; [|done].
  destruct (verify_logged_key _ _ _ _ _ fq _ _) as [[]|] eqn:E2; [|done].
  exists (binding_of index (AccountId account_id)). split; [by eapply index_for_binding|].
  apply verify_logged_key_vouched in E1 as (r1 & ms1 & k1 & p1 & ? & ? & ? & ? & ?).
  apply verify_logged_key_vouched in E2 as (r2 & ms2 & k2 & p2 & ? & ? & ? & ? & ?).
  intros field purpose [[= -> ->]|[[= -> ->]|[]%elem_of_nil]%elem_of_cons]%elem_of_cons; eauto 20.
Qed.

Lemma inline_verified response att pub pq b ae :
  verify_inline_receipts response att pub pq b ae = Ok "verified" ->
  forall rf ff purpose, (rf, ff, purpose) ∈ inline_receipts ->
    (has_field att "subject_signing_pq_pubkey_fingerprint" = true -> is_Some (value_get response rf)) /\
    forall r, value_get response rf = Some r ->
      exists fp ms, get_str att ff = Some fp /\ r = VObject ms /\
        vouched pub pq fp purpose b r (unsigned_receipt ms).
Proof.
  unfold verify_inline_receipts. cbv zeta. intros E.
  destruct (receipts_loop _ _ _ _ _ _ _ _) as [n|] eqn:El; [|done].
  apply receipts_loop_vouched in El as (_ & Hv & Hall). apply (inj Ok) in E.
  intros rf ff purpose Hin. split; [|intros r; by apply Hv]. intros Hf. rewrite Hf in E.
  destruct (n =? 0); [done|]. destruct (n =? 4) eqn:E4; [|done]. bool_prop.
  eapply Hall; [|done]. by rewrite E4.
Qed.

Lemma response_signed trust response att who :
  verify_verification_response get server_url trust response who = Ok att ->
  dual_signed trust response att /\
  exists acct b pub pq, get_str att "subject_account_id" = Some acct /\
    account_binding trust acct (get_str att "subject_account_vrf_proof") Attested b /\
    verify_inline_receipts response att pub pq b (Some (t_epoch trust)) = Ok "verified".
Proof.
  unfold verify_verification_response. intros E.
  destruct (get_str response "server_key_id") as [kid|] eqn:Ek; [|done].
  destruct (value_get response "signed_at" ≫= value_as_i64) as [t|]; [|done].
  destruct (value_get response "attestation") as [a|] eqn:Ea; [|done].
  destruct (decode_field response "server_signature" _ _) as [sig|]; [|done].
  destruct (verification_signing_input a kid t) as [input|] eqn:Ei; [|done]. cbn [map_err] in E.
  destruct (key_by_id _ _ _ _ kid) as [pub|] eqn:Ep; [|done].
  destruct (verify_es256 pub input sig) as [[]|] eqn:Ev; [|done]. cbn [map_err] in E.
  destruct (match get_str response "server_pq_key_id" with Some _ => _ | None => _ end) as [vk|]; [|done].
  destruct (decode_field response "server_signature_mldsa87" _ _) as [pqs|]; [|done].
  destruct (verify_mldsa87 vk input _ pqs) as [[]|] eqn:Em; [|done].
  destruct (get_str a "subject_account_id") as [acct|] eqn:Eacct; [|done].
  destruct (index_for _ _ _ _) as [index|] eqn:Eidx; [|done].
  destruct (verify_inline_receipts _ _ _ _ _ _) as [tr|] eqn:Et; [|done].
  destruct (bool_decide (tr = "verified")) eqn:Etr; [|done]. bool_prop. subst tr.
  apply (inj Ok) in E as <-. split.
  - split; [done|]. by exists kid, t, input, pub, sig, vk, pqs.
  - exists acct, (binding_of index Attested), pub, (Some vk). split; [done|]. split; [|done].
    by eapply index_for_binding.
Qed.

Lemma attestation_prsn trust bundle keys account_id handle who :
  verify_against_attestation debug_opt get server_url trust bundle keys account_id handle who = Ok tt ->
  prsn_record trust bundle keys account_id handle.
Proof.
  unfold verify_against_attestation. intros E.
  destruct (get_str bundle "attestation_id") as [id|] eqn:Eid; [|done].
  destruct (get SiteVerification _) as [response|] eqn:Er; [|done].
  destruct (verify_verification_response _ _ _ _ _) as [att|] eqn:Ea; [|done].
  destruct (check_status _ _ _ _) as [[]|] eqn:Es; [|done].
  destruct (get_str att "subject_account_id") as [acct|] eqn:Eacct; [|done].
  destruct (eq_ignore_ascii_case acct account_id) eqn:Eeq; [|done].
  destruct (get_str att "subject_handle") as [h|] eqn:Eh; [|done].
  destruct (bool_decide (h = handle)) eqn:Ehh; [|done].
  destruct (decode_b64 att _ _) as [kem|] eqn:Ekem; [|done].
  destruct (decode_field att "subject_kem_pq_pubkey" _ _) as [kpq|] eqn:Ekpq; [|done].
  destruct (Wrap.hybrid_rfp kem kpq) as [rfp|]; [|done]. cbn [map_err] in E.
  destruct (get_str att "rfp") as [committed|]; [|done].
  destruct (bool_decide (committed = rfp)); [|done].
  destruct (_ && _) eqn:Eg; [|done]. bool_prop. subst h.
  apply response_signed in Ea as (Hd & acct' & b & pub & pq & Hacct' & Hb & Hv).
  rewrite Eacct in Hacct'. injection Hacct' as <-.
  apply decode_field_Ok in Ekem as (s1 & Hs1 & Hd1). apply decode_field_Ok in Ekpq as (s2 & Hs2 & Hd2).
  exists id, response, att, acct, b. split_and!; try done.
  - unfold check_status in Es. cbv zeta in Es. by repeat case_decide.
  - rewrite Hs1. cbn. by subst kem.
  - rewrite Hs2. cbn. congruence.
  - intros rf ff purpose Hin. destruct (inline_verified _ _ _ _ _ _ Hv _ _ _ Hin) as [Hp Hr].
    split; [done|]. intros r Er'. destruct (Hr r Er') as (fp & ms & ? & ? & ?). by exists fp, ms, pub, pq.
Qed.

(** C6: Keys returned for a handle the user typed are that handle's.  The bundle
    answers for the typed handle; the keys are hybrid, with the fingerprints the
    bundle states; a PRSN's keys are those of an active attestation of this
    handle and account under both server signatures, with its receipts verified;
    a human's two keys are each in the log, by a receipt the server signed for
    this account and this epoch.  What kind the recipient is comes from the typed
    handle alone. *)
Theorem verified_wrap_keys_sound trust bundle h who keys :
  verified_wrap_keys debug_opt get server_url trust bundle (UserNamed h) who = Ok keys ->
  get_str bundle "handle" = Some h /\
  (exists ek fp fp_pq, rk_pq keys = Some ek /\ length ek = Wrap.MLKEM1024_EK_LEN /\
    get_str bundle "kem_pubkey_fingerprint" = Some fp /\ Wrap.fingerprint (rk_ec keys) = Ok fp /\
    get_str bundle "kem_pq_pubkey_fingerprint" = Some fp_pq /\ Wrap.fingerprint_raw ek = fp_pq) /\
  exists account_id proof, bundle_account bundle = Some (account_id, proof) /\
    (is_prsn h = true -> prsn_record trust bundle keys account_id h) /\
    (is_prsn h = false -> human_record trust bundle account_id proof).
Proof.
  unfold verified_wrap_keys. intros E. destruct (get_str bundle "handle") as [handle|]; [|done].
  destruct (bool_decide (handle = h)) eqn:Eh; [|done]. bool_prop. subst handle.
  destruct (verify_recipient_wrap_keys bundle who) as [ks|] eqn:Ek; [|done].
  destruct (match get_str bundle "account_type" with Some _ => _ | None => _ end); [|done].
  destruct (bundle_account bundle) as [[account_id proof]|]; [|done]. cbn [fst snd] in E.
  destruct (check_bundle_epoch _ _ _) as [[]|]; [|done].
  destruct (if is_prsn h then _ else _) as [[]|] eqn:Ec; [|done]. apply (inj Ok) in E as <-.
  split; [done|]. split; [by eapply wrap_keys_hybrid|]. exists account_id, proof. split; [done|].
  destruct (is_prsn h); split; intros; [by eapply attestation_prsn|done|done|by eapply receipts_human].
Qed.

End Spec.
