(* ===== verification/RecipientToy.v ===== *)
(** * Concrete recipients

    A human whose two keys are in the log, and a PRSN whose attestation states
    fingerprints that are not those of the keys it carries. *)

From S2P Require Import Prelude Prims CryptoCore Text VrfIndex Ecdsa Wrap SignedBytes Merkle CliError Token Anchors Receipts RecipientVerify RecipientTheorems.
Import TransLog Attest Prims.Toy TextToy TokenToy Vrf.VrfToy.

Module RecipientToy.

#[export] Instance b64 : Base64Url := b64_toy.

(** Canonical bytes: the members' names and string values in order. *)
#[export] Instance jcs_flat : Jcs := {|
  serde_jcs_to_vec v :=
    match v with
    | VObject ms =>
        Some (concat (map (fun kv : string * value =>
                str_bytes kv.1 ++ match kv.2 with VString s => str_bytes s | _ => [] end) ms))
    | _ => None
    end;
|}.

#[export] Instance mldsa_toy : MlDsa87 := {|
  mldsa87_signature := bytes;
  mldsa87_sig_decode := Some;
  mldsa87_verify_with_context vk msg ctx s := bool_decide (take 32 s = fit 32 (take 8 vk ++ rev msg));
|}.

Definition server_secret : bytes := Eval vm_compute in replicate 32 Byte.x05.
Definition server_pub : bytes := Eval vm_compute in p256_x963 (p256_public server_secret).
Definition pq_vk : bytes := Eval vm_compute in replicate MLDSA87_VK_LEN Byte.x06.

Definition sign (input : bytes) : string :=
  match sign_es256 server_secret input with Ok s => b64_encode s | Err _ => EmptyString end.
Definition pq_sign (input : bytes) : string :=
  b64_encode (fit 32 (take 8 pq_vk ++ rev input) ++ replicate 4595 Byte.x00).

Definition info : value := Eval vm_compute in
  VObject [("current_signing_keys", VArray
    [VObject [("key_id", VString "k1"); ("public_key", VString (b64_encode server_pub));
              ("purpose", VString "attestation_verification")];
     VObject [("key_id", VString "k2"); ("public_key", VString (b64_encode pq_vk));
              ("purpose", VString "attestation_verification_pq")]])].

Definition trust : ServerTrust := mk_ServerTrust info Legacy 1.

Definition kem_key : bytes := Eval vm_compute in p256_x963 (p256_public (replicate 32 Byte.x07)).
Definition kem_fp : string := Eval vm_compute in
  match Wrap.fingerprint kem_key with Ok f => f | Err _ => EmptyString end.
Definition pq_key : bytes := Eval vm_compute in replicate Wrap.MLKEM1024_EK_LEN Byte.x08.
Definition pq_fp : string := Eval vm_compute in Wrap.fingerprint_raw pq_key.

(** A receipt the server signs. *)
Definition receipt (account fp purpose : string) : value :=
  let unsigned := [("account_id", VString account); ("key_purpose", VString purpose);
                   ("public_key_fingerprint", VString fp); ("server_key_id", VString "k1")] in
  match receipt_signing_input (VObject unsigned) with
  | Ok input => VObject (unsigned ++ [("server_signature", VString (sign input))])
  | Err _ => VNull
  end.

Definition bundle (handle : string) : value :=
  VObject [("account_id", VString "a1"); ("attestation_id", VString "t1"); ("handle", VString handle);
           ("kem_pq_pubkey", VString (b64_encode pq_key)); ("kem_pq_pubkey_fingerprint", VString pq_fp);
           ("kem_pubkey", VString (b64_encode kem_key)); ("kem_pubkey_fingerprint", VString kem_fp)].

Definition human_bundle : value := Eval vm_compute in bundle "gus".
Definition kem_receipt : value := Eval vm_compute in receipt "a1" kem_fp "kem".
Definition kem_pq_receipt : value := Eval vm_compute in receipt "a1" pq_fp "kem_pq".

Definition human_get (s : Site) (url : string) : cliresult value :=
  match s with
  | SiteReceipt p => Ok (if decide (p = "kem") then kem_receipt else kem_pq_receipt)
  | _ => Err (generic "no such read")
  end.

End RecipientToy.
Import RecipientToy.

Definition show_opt (o : option string) : string := default "None" o.

Lemma verified_wrap_keys_sound_witness :
  verified_wrap_keys show_opt human_get "https://h" trust human_bundle (UserNamed "gus") "recipient"
    = Ok (mk_RecipientWrapKeys kem_key (Some pq_key)) /\
  exists account_id proof, bundle_account human_bundle = Some (account_id, proof) /\
    human_record human_get "https://h" trust human_bundle account_id proof.
Proof.
  assert (E : verified_wrap_keys show_opt human_get "https://h" trust human_bundle (UserNamed "gus") "recipient"
    = Ok (mk_RecipientWrapKeys kem_key (Some pq_key))) by (vm_compute; reflexivity).
  split; [exact E|].
  destruct (verified_wrap_keys_sound show_opt human_get "https://h" trust human_bundle "gus" "recipient" _ E)
    as (_ & _ & account_id & proof & Hb & _ & Hh).
  exists account_id, proof. split; [exact Hb|]. apply Hh. vm_compute. reflexivity.
Defined.

Module UnloggedToy.

Definition prsn_bundle : value := Eval vm_compute in bundle "x-ai".

(** The four fingerprints the log has receipts for; none is that of a key below. *)
Definition logged (purpose : string) : string := "logged-" +:+ purpose.

Definition attestation : value := Eval vm_compute in
  VObject [("rfp", VString (match Wrap.hybrid_rfp kem_key pq_key with Ok r => r | Err _ => EmptyString end));
           ("status", VString "active"); ("subject_account_id", VString "a1");
           ("subject_handle", VString "x-ai");
           ("subject_kem_pq_pubkey", VString (b64_encode pq_key));
           ("subject_kem_pq_pubkey_fingerprint", VString (logged "kem_pq"));
           ("subject_kem_pubkey", VString (b64_encode kem_key));
           ("subject_kem_pubkey_fingerprint", VString (logged "kem"));
           ("subject_signing_pq_pubkey_fingerprint", VString (logged "signing_pq"));
           ("subject_signing_pubkey_fingerprint", VString (logged "signing"))].

Definition input : bytes := Eval vm_compute in
  match verification_signing_input attestation "k1" 7 with Ok i => i | Err _ => [] end.

Definition response : value := Eval vm_compute in
  VObject [("attestation", attestation); ("server_key_id", VString "k1"); ("server_pq_key_id", VString "k2");
           ("server_signature", VString (sign input)); ("server_signature_mldsa87", VString (pq_sign input));
           ("signed_at", VNumber 7);
           ("subject_kem_pq_pubkey_receipt", receipt "a1" (logged "kem_pq") "kem_pq");
           ("subject_kem_pubkey_receipt", receipt "a1" (logged "kem") "kem");
           ("subject_signing_pq_pubkey_receipt", receipt "a1" (logged "signing_pq") "signing_pq");
           ("subject_signing_pubkey_receipt", receipt "a1" (logged "signing") "signing")].

Definition prsn_get (s : Site) (url : string) : cliresult value :=
  match s with SiteVerification => Ok response | _ => Err (generic "no such read") end.

End UnloggedToy.
Import UnloggedToy.

(** On the PRSN path the receipts do not reach the keys.  The receipts are
    matched with the fingerprints the attestation states, and nothing recomputes
    those from the attested keys: this response passes every check of the write
    path and returns keys of which no receipt, and so no log entry, names the
    fingerprint. *)
Theorem attested_keys_may_be_unlogged :
  exists keys,
    verified_wrap_keys show_opt prsn_get "https://h" trust prsn_bundle (UserNamed "x-ai") "recipient" = Ok keys /\
    Wrap.fingerprint (rk_ec keys) = Ok kem_fp /\ Wrap.fingerprint_raw <$> rk_pq keys = Some pq_fp /\
    forall rf ff purpose r, (rf, ff, purpose) ∈ inline_receipts -> value_get response rf = Some r ->
      get_str r "public_key_fingerprint" <> Some kem_fp /\ get_str r "public_key_fingerprint" <> Some pq_fp.
Proof.
  exists (mk_RecipientWrapKeys kem_key (Some pq_key)). split; [by vm_compute|]. split; [by vm_compute|].
  split; [by vm_compute|]. intros rf ff purpose r Hin Hr.
  repeat (apply elem_of_cons in Hin as [[= -> -> ->]|Hin];
    [vm_compute in Hr; injection Hr as <-; split; by vm_compute|]). by apply elem_of_nil in Hin.
Qed.
