(* ===== verification/PublishedRoot.v ===== *)
(** * The published root (commands.rs, judge_published_root)

    The judgement of the log a server proves against the root that was published
    for it, over the soundness and completeness of consistency proofs. *)

From S2P Require Import Prelude Prims CryptoCore Text VrfIndex Ecdsa Wrap SignedBytes Merkle MerkleLevels MerkleProofs MerkleTheorems CliError Token Anchors Receipts.
Import Merkle.

Section Judge.
Context `{Sha256}.

(** The verdicts the caller accepts. *)
Definition extends_published (v : PublishedRootVerdict) : Prop :=
  v = MatchAtSameSize \/ exists from to, v = ConsistentAdvance from to.

(** An accepted log contains the published one.  Whatever the server answers
    for the consistency nodes, a verdict of a match or a consistent advance means
    the published log is a prefix of the log the proof root commits to, or two
    hashed strings collide; and when it is one and the server answers with the
    prover's nodes, the verdict is never a violation. *)
Theorem published_root_judged published current fetch nodes v :
  log_fits published -> log_fits current -> Forall is32 published -> Forall is32 current -> Forall is32 nodes ->
  fetch (Z.of_nat (length published)) (Z.of_nat (length current)) = Ok nodes ->
  judge_published_root (merkle_root current) (Z.of_nat (length current))
    (Some (merkle_root published, Z.of_nat (length published))) fetch = Ok v ->
  (extends_published v ->
   published = take (length published) current \/
   collision_in (verify_consistency_inputs (Z.of_nat (length published)) (Z.of_nat (length current))
                   (merkle_root published) nodes
                 ++ merkle_root_inputs published ++ merkle_root_inputs current)) /\
  (published = take (length published) current -> (0 < length published)%nat ->
   ((length published < length current)%nat -> consistency_proof current (length published) = Some nodes) ->
   extends_published v).
Proof.
  intros Hfp Hfc Hp32 Hc32 Hn32 Hfetch. unfold judge_published_root.
  destruct (Z.compare_spec (Z.of_nat (length published)) (Z.of_nat (length current))) as [Hl|Hl|Hl].
  - intros [= <-]. assert (Hlen : length published = length current) by lia. case_decide as E.
    + split; [|by left]. intros _. rewrite Hlen, take_ge by lia.
      destruct (merkle_root_inj published current) as [->|Hcol]; [done..|by left|].
      right. eapply collision_in_mono; [done|]. list_sub.
    + split; [intros [?|(? & ? & ?)]; done|]. intros Hpre. rewrite Hlen, take_ge in Hpre by lia. by subst.
  - rewrite Hfetch. intros [= <-]. destruct (verify_consistency _ _ _ _ _) eqn:Ev.
    + split; [|by right; eauto]. intros _. by apply consistency_prefix.
    + split; [intros [?|(? & ? & ?)]; done|]. intros Hpre H0 Hproof.
      destruct (consistency_proof_verifies current (length published)) as (proof & Hpf & Hv); [done|lia|].
      rewrite Hproof in Hpf by lia. injection Hpf as ->. rewrite <- Hpre, Ev in Hv. done.
  - intros [= <-]. split; [intros [?|(? & ? & ?)]; done|]. intros Hpre.
    apply (f_equal length) in Hpre. rewrite length_take in Hpre. lia.
Qed.

End Judge.

Import Prims.Toy.

(** Two of the five demo entries were published. *)
Lemma published_root_judged_witness :
  exists nodes v,
    consistency_proof demo_log 2 = Some nodes /\
    judge_published_root (merkle_root demo_log) 5 (Some (merkle_root (take 2 demo_log), 2))
      (fun _ _ => Ok nodes) = Ok v /\ extends_published v.
Proof.
  destruct (consistency_proof demo_log 2) as [nodes|] eqn:En; [|done].
  exists nodes.
  destruct (judge_published_root (merkle_root demo_log) 5 (Some (merkle_root (take 2 demo_log), 2))
      (fun _ _ => Ok nodes)) as [v|] eqn:Ev; [|done].
  exists v. split; [done|]. split; [done|].
  assert (Hn : Forall is32 nodes).
  { assert (Hb : forallb (fun n => bool_decide (length n = 32%nat)) nodes = true).
    { vm_compute in En. injection En as <-. by vm_compute. }
    apply Forall_forall. intros x Hx%list_elem_of_In. rewrite forallb_forall in Hb.
    specialize (Hb x Hx). by apply bool_decide_eq_true in Hb. }
  refine (proj2 (published_root_judged (take 2 demo_log) demo_log (fun _ _ => Ok nodes) nodes v
    _ demo_log_fits _ demo_log_is32 Hn eq_refl Ev) eq_refl ltac:(cbn; lia) (fun _ => En)).
  - unfold log_fits. cbn. lia.
  - apply Forall_take, demo_log_is32.
Defined.
