(* ===== verification/Names.v ===== *)
(** * Name collisions ([cli/src/names.rs])

    The server sees file names only as ciphertext, so the client picks a name
    that is free in the decrypted listing of the folder: the wanted name, or the
    first ["stem (N)ext"] that is not taken.  The search loop counts on a [u32];
    the theorem shows that it ends, with a bound on the counter. *)

From S2P Require Import Prelude Text.

Module Names.

Definition DOT : Ascii.ascii := Ascii.ascii_of_byte Byte.x2e.

(** [str::rfind] of a character: the index of its last occurrence. *)
Fixpoint rfind (c : Ascii.ascii) (s : string) : option nat :=
  match s with
  | EmptyString => None
  | String.String a s =>
      match rfind c s with
      | Some i => Some (S i)
      | None => if decide (a = c) then Some O else None
      end
  end.

(** [&s[..i]] and [&s[i..]]. *)
Definition str_take (i : nat) (s : string) : string := String.substring 0 i s.
Definition str_drop (i : nat) (s : string) : string :=
  String.substring i (String.length s - i) s.

Definition split_extension (name : string) : string * string :=
  match rfind DOT name with
  | Some i =>
      if decide (0 < i /\ i < String.length name - 1)%nat
      then (str_take i name, str_drop i name)
      else (name, EmptyString)
  | None => (name, EmptyString)
  end.

(** [format!("{stem} ({n}){ext}")]. *)
Definition candidate (stem ext : string) (n : N) : string :=
  stem +:+ " (" +:+ pretty n +:+ ")" +:+ ext.

(** The loop [for n in 1u32..] from [n] on, for at most [fuel] rounds; [None]
    also stands for the counter leaving [u32]. *)
Fixpoint first_free (fuel : nat) (stem ext : string) (taken : gset string) (n : N)
    : option string :=
  match fuel with
  | O => None
  | S fuel =>
      if Z.of_N n <=? u32_max then
        if bool_decide (candidate stem ext n ∈ taken)
        then first_free fuel stem ext taken (n + 1)
        else Some (candidate stem ext n)
      else None
  end.

(** Every round of the loop but the last meets one more taken name, so the size
    of the set bounds the rounds. *)
Definition dedupe_name (desired : string) (taken : gset string) : option string :=
  if bool_decide (desired ∈ taken) then
    let '(stem, ext) := split_extension desired in
    first_free (S (size taken)) stem ext taken 1
  else Some desired.

(** The vectors the web client's [names.test.ts] shares. *)
Definition parity_vectors : list (string * list string * string) :=
  [ ("report.pdf", [], "report.pdf");
    ("report.pdf", ["report.pdf"], "report (1).pdf");
    ("report.pdf", ["report.pdf"; "report (1).pdf"], "report (2).pdf");
    ("archive.tar.gz", ["archive.tar.gz"], "archive.tar (1).gz");
    ("README", ["README"], "README (1)");
    (".env", [".env"], ".env (1)");
    ("trailing.", ["trailing."], "trailing. (1)");
    ("wave-a-renamed.bin", ["wave-a-renamed.bin"], "wave-a-renamed (1).bin");
    ("a (1).txt", ["a (1).txt"], "a (1) (1).txt") ].

Example shared_parity_vectors :
  Forall (fun '(desired, existing, expected) =>
            dedupe_name desired (list_to_set existing) = Some expected) parity_vectors.
Proof. repeat constructor. Qed.

(** ** Lemmas *)

Lemma substring_full (s : string) : String.substring 0 (String.length s) s = s.
Proof. induction s as [|a s IH]; cbn; [done|by rewrite IH]. Qed.

Lemma append_cons (a : Ascii.ascii) (s t : string) :
  String.String a s +:+ t = String.String a (s +:+ t).
Proof. done. Qed.

Lemma append_nil_r (s : string) : s +:+ EmptyString = s.
Proof. induction s as [|a s IH]; [done|]. by rewrite append_cons, IH. Qed.

Lemma length_app_str (a b : string) :
  String.length (a +:+ b) = (String.length a + String.length b)%nat.
Proof. induction a as [|x a IH]; [done|]. rewrite append_cons. cbn. by rewrite IH. Qed.

Lemma str_take_drop (s : string) (i : nat) :
  (i <= String.length s)%nat -> str_take i s +:+ str_drop i s = s.
Proof.
  unfold str_take, str_drop. revert i. induction s as [|a s IH]; intros i Hi.
  - by destruct i.
  - destruct i as [|i]; cbn in *.
    + by rewrite substring_full.
    + rewrite append_cons, IH; [done|lia].
Qed.

(** The pieces put together are the name. *)
Lemma split_extension_app (name : string) :
  (split_extension name).1 +:+ (split_extension name).2 = name.
Proof.
  unfold split_extension.
  assert (Hn : name +:+ EmptyString = name) by apply append_nil_r.
  destruct (rfind DOT name) as [i|]; [|done].
  case_decide as Hi; cbn [fst snd]; [|done]. apply str_take_drop. lia.
Qed.

#[local] Instance candidate_inj (stem ext : string) : Inj (=) (=) (candidate stem ext).
Proof.
  intros n m. unfold candidate. intros Heq%(inj (String.append stem))%(inj (String.append " (")).
  apply (inj pretty). revert Heq. generalize (pretty n) (pretty m). clear. intros a b Heq.
  assert (Hlen : String.length a = String.length b).
  { apply (f_equal String.length) in Heq. rewrite !length_app_str in Heq. lia. }
  revert b Hlen Heq. induction a as [|x a IH]; intros [|y b] Hlen Heq; try done.
  rewrite !append_cons in Heq. cbn in Hlen. injection Heq as -> Heq. f_equal. apply IH; [lia|exact Heq].
Qed.

(** A numbered name is longer than the name it comes from. *)
Lemma candidate_ne (desired : string) (n : N) :
  candidate (split_extension desired).1 (split_extension desired).2 n <> desired.
Proof.
  intros Heq. apply (f_equal String.length) in Heq. unfold candidate in Heq.
  pose proof (f_equal String.length (split_extension_app desired)) as Happ.
  rewrite !length_app_str in Heq. rewrite length_app_str in Happ. cbn in Heq. lia.
Qed.

(** The numbered names below [n]. *)
Definition below (stem ext : string) (n : N) : gset string :=
  list_to_set (candidate stem ext <$> (N.of_nat <$> seq 1 (N.to_nat n - 1))).

Lemma elem_of_below (stem ext : string) (n : N) (s : string) :
  s ∈ below stem ext n <-> exists k : N, (1 <= k < n)%N /\ s = candidate stem ext k.
Proof.
  unfold below. rewrite elem_of_list_to_set, list_elem_of_fmap. split.
  - intros (k & -> & (i & -> & Hi%elem_of_seq)%list_elem_of_fmap). exists (N.of_nat i). split; [lia|done].
  - intros (k & Hk & ->). exists k. split; [done|]. apply list_elem_of_fmap.
    exists (N.to_nat k). split; [lia|]. apply elem_of_seq. lia.
Qed.

Lemma size_below (stem ext : string) (n : N) :
  size (below stem ext n) = (N.to_nat n - 1)%nat.
Proof.
  unfold below. rewrite size_list_to_set.
  - by rewrite !length_fmap, length_seq.
  - apply NoDup_fmap_2; [apply _|]. apply NoDup_fmap_2; [intros ?? ?; lia|]. apply NoDup_seq.
Qed.

(** What the loop returns, from a counter whose earlier names are all taken. *)
Definition free_from (stem ext : string) (taken : gset string) (r : string) : Prop :=
  exists k : N, r = candidate stem ext k /\ r ∉ taken /\
    (1 <= k)%N /\ Z.of_N k <= Z.of_nat (size taken) /\ below stem ext k ⊆ taken.

Lemma first_free_spec (stem ext desired : string) (taken : gset string) (fuel : nat) (n : N) :
  desired ∈ taken -> (forall k, candidate stem ext k <> desired) ->
  Z.of_nat (size taken) <= u32_max ->
  (1 <= n)%N -> below stem ext n ⊆ taken -> (size taken < fuel + N.to_nat n)%nat ->
  exists r, first_free fuel stem ext taken n = Some r /\ free_from stem ext taken r.
Proof.
  intros Hd Hne Hsz. revert n. induction fuel as [|fuel IH]; intros n Hn Hbelow Hfuel.
  all: assert (Hin : below stem ext n ⊆ taken ∖ {[desired]}) by
    (intros s Hs; apply elem_of_difference; split; [by apply Hbelow|];
     apply elem_of_below in Hs as (k & _ & ->); apply not_elem_of_singleton, Hne).
  all: apply subseteq_size in Hin; rewrite size_below, size_difference, size_singleton in Hin
    by set_solver.
  all: assert (0 < size taken)%nat by (apply Nat.neq_0_lt_0; intros ?%size_empty_inv; set_solver).
  - lia.
  - cbn [first_free]. rewrite (proj2 (Z.leb_le _ _)) by lia. case_bool_decide as Htk.
    + apply IH; [lia| |lia]. intros s (k & Hk & ->)%elem_of_below.
      destruct (decide (k = n)) as [->|]; [done|]. apply Hbelow, elem_of_below. exists k. split; [lia|done].
    + eexists; split; [done|]. exists n. repeat split; [done|lia|lia|done].
Qed.

(** The search for a free name ends: for every folder of at most
    [u32::MAX] names, [dedupe_name] returns a name that is not taken.  The name
    is the wanted one when that is free; otherwise it is ["stem (k)ext"] for the
    least [k >= 1] whose name is free, [k] is at most the number of taken names
    (so the [u32] counter never overflows), and [stem] and [ext] are the wanted
    name cut in two by [split_extension]. *)
Theorem dedupe_name_total (desired : string) (taken : gset string) :
  Z.of_nat (size taken) <= u32_max ->
  exists r, dedupe_name desired taken = Some r /\ r ∉ taken /\
    (desired ∉ taken -> r = desired) /\
    (desired ∈ taken ->
     exists stem ext k, split_extension desired = (stem, ext) /\ stem +:+ ext = desired /\ r = candidate stem ext k /\
       (1 <= k)%N /\ Z.of_N k <= Z.of_nat (size taken) /\
       forall j, (1 <= j < k)%N -> candidate stem ext j ∈ taken).
Proof.
  intros Hsz. unfold dedupe_name. case_bool_decide as Hd.
  - pose proof (split_extension_app desired) as Happ. pose proof (candidate_ne desired) as Hne.
    destruct (split_extension desired) as [stem ext]; cbn [fst snd] in *.
    destruct (first_free_spec stem ext desired taken (S (size taken)) 1) as
      (r & Hr & k & -> & Hfree & Hk1 & Hk & Hbelow); [done|done|done|done| |lia|].
    { intros s (j & Hj & _)%elem_of_below. lia. }
    exists (candidate stem ext k). split; [done|]. split; [done|]. split; [done|]. intros _.
    exists stem, ext, k. repeat split; [done|done|done|]. intros j Hj. apply Hbelow, elem_of_below. by exists j.
  - exists desired. repeat split; [done|]. intros ?; done.
Qed.

Lemma dedupe_name_total_witness :
  exists r, dedupe_name "report.pdf" {["report.pdf"; "report (1).pdf"]} = Some r /\
    r ∉ ({["report.pdf"; "report (1).pdf"]} : gset string).
Proof.
  destruct (dedupe_name_total "report.pdf" {["report.pdf"; "report (1).pdf"]}) as (r & Hr & Hn & _).
  - vm_compute. discriminate.
  - exists r. split; [exact Hr|exact Hn].
Defined.

End Names.
