(* ===== verification/Float64.v ===== *)
(** * Doubles and durations

    What the transfer code uses of [f64] and of [std::time::Duration].  An [f64]
    is the Standard Library's specification float at the binary64 format: the
    arithmetic is computed bit for bit.  The lemmas show that the operations
    keep non-negative numbers well formed and free of NaN, which is what decides
    whether [Duration::from_secs_f64] panics. *)

From S2P Require Import Prelude.
From Stdlib Require Import Floats.SpecFloat.

Abbreviation f64 := spec_float.

Definition prec64 : Z := 53.
Definition emax64 : Z := 1024.

Definition f64_add : f64 -> f64 -> f64 := SFadd prec64 emax64.
Definition f64_sub : f64 -> f64 -> f64 := SFsub prec64 emax64.
Definition f64_mul : f64 -> f64 -> f64 := SFmul prec64 emax64.
Definition f64_div : f64 -> f64 -> f64 := SFdiv prec64 emax64.

(** [z as f64]: to nearest, ties to even. *)
Definition f64_of_Z (z : Z) : f64 := binary_normalize prec64 emax64 z 0 false.

(** [f64::clamp]: NaN goes through. *)
Definition f64_clamp (x lo hi : f64) : f64 :=
  let x := if SFltb x lo then lo else x in
  if SFltb hi x then hi else x.

(** [f64::min] of two numbers; a NaN gives the other. *)
Definition f64_min (x y : f64) : f64 :=
  match x, y with
  | S754_nan, _ => y
  | _, S754_nan => x
  | _, _ => if SFltb y x then y else x
  end.

(** [std::time::Duration], in nanoseconds. *)
Abbreviation Duration := Z (only parsing).
Definition NANOS_PER_SEC : Z := 1000000000.
Definition from_secs (s : Z) : Duration := s * NANOS_PER_SEC.
(** [Duration::MAX]. *)
Definition DURATION_MAX : Duration := from_secs u64_max + (NANOS_PER_SEC - 1).

(** [(secs as f64) + (nanos as f64) / (NANOS_PER_SEC as f64)]. *)
Definition as_secs_f64 (d : Duration) : f64 :=
  f64_add (f64_of_Z (d / NANOS_PER_SEC))
          (f64_div (f64_of_Z (d mod NANOS_PER_SEC)) (f64_of_Z NANOS_PER_SEC)).

(** [n / d] rounded to the nearest integer, ties to even. *)
Definition div_nearest_even (n d : Z) : Z :=
  let q := n / d in
  let r := n mod d in
  if (2 * r <? d) || ((2 * r =? d) && Z.even q) then q else q + 1.

(** [Duration::from_secs_f64]; [None] is its panic, on a negative number, a NaN
    or a value of [2^64] seconds and more. *)
Definition from_secs_f64 (x : f64) : option Duration :=
  match x with
  | S754_zero _ => Some 0
  | S754_infinity _ | S754_nan => None
  | S754_finite true _ _ => None
  | S754_finite false m e =>
      let n := if 0 <=? e then Zpos m * 2 ^ e * NANOS_PER_SEC
               else div_nearest_even (Zpos m * NANOS_PER_SEC) (2 ^ (- e)) in
      if n / NANOS_PER_SEC <=? u64_max then Some n else None
  end.

Example secs_round_trip : from_secs_f64 (as_secs_f64 1500000000) = Some 1500000000.
Proof. reflexivity. Qed.
Example third_of_a_second : from_secs_f64 (f64_div (f64_of_Z 1) (f64_of_Z 3)) = Some 333333333.
Proof. reflexivity. Qed.

(** ** Well-formed non-negative numbers *)

(** Not NaN, sign positive, and in the binary64 format. *)
Definition nonneg (x : f64) : Prop :=
  match x with
  | S754_zero s | S754_infinity s => s = false
  | S754_nan => False
  | S754_finite s m e => s = false /\ bounded prec64 emax64 m e = true
  end.

Definition nonzero (x : f64) : Prop :=
  match x with S754_zero _ => False | _ => True end.

Abbreviation fexp64 := (fexp prec64 emax64).

Lemma fexp64_eq e : fexp64 e = Z.max (e - 53) (-1074).
Proof. reflexivity. Qed.

Lemma Zdigits2_log2 z : 0 <= z -> Zdigits2 z = if z =? 0 then 0 else Z.log2 z + 1.
Proof.
  destruct z as [|p|p]; [done| |lia]. intros _. cbn [Zdigits2 Z.eqb].
  induction p as [p IH|p IH|]; [..|done]; cbn [digits2_pos]; rewrite Pos2Z.inj_succ, IH; clear IH.
  - rewrite (Pos2Z.inj_xI p), Z.log2_succ_double by lia. lia.
  - rewrite (Pos2Z.inj_xO p), Z.log2_double by lia. lia.
Qed.

(** [z] has [d] binary digits, for [z] positive. *)
Lemma Zdigits2_spec z : 0 < z -> 2 ^ (Zdigits2 z - 1) <= z < 2 ^ Zdigits2 z.
Proof.
  intros Hz. rewrite Zdigits2_log2, (proj2 (Z.eqb_neq z 0)) by lia.
  replace (Z.log2 z + 1 - 1) with (Z.log2 z) by lia.
  rewrite Z.add_1_r. by apply Z.log2_spec.
Qed.

Lemma Zdigits2_pos z : 0 < z -> 0 < Zdigits2 z.
Proof. intros Hz. rewrite Zdigits2_log2, (proj2 (Z.eqb_neq z 0)) by lia. pose proof (Z.log2_nonneg z). lia. Qed.

Lemma Zdigits2_mono a b : 0 <= a <= b -> Zdigits2 a <= Zdigits2 b.
Proof.
  intros Hab. rewrite !Zdigits2_log2 by lia.
  destruct (Z.eqb_spec a 0), (Z.eqb_spec b 0); try lia.
  - pose proof (Z.log2_nonneg b). lia.
  - pose proof (Z.log2_le_mono a b). lia.
Qed.

Lemma Zdigits2_unique z d : 0 < d -> 2 ^ (d - 1) <= z < 2 ^ d -> Zdigits2 z = d.
Proof.
  intros Hd Hz. assert (0 < 2 ^ (d - 1)) by (apply Z.pow_pos_nonneg; lia).
  rewrite Zdigits2_log2, (proj2 (Z.eqb_neq z 0)) by lia.
  rewrite (Z.log2_unique z (d - 1)); [lia|lia|]. by replace (Z.succ (d - 1)) with d by lia.
Qed.

Lemma Zdigits2_shiftr z n : 0 < z -> 0 <= n < Zdigits2 z -> Zdigits2 (z / 2 ^ n) = Zdigits2 z - n.
Proof.
  intros Hz Hn. pose proof (Zdigits2_spec z Hz) as [Hlo Hhi].
  apply Zdigits2_unique; [lia|]. split.
  - apply Z.div_le_lower_bound; [apply Z.pow_pos_nonneg; lia|].
    rewrite <- Z.pow_add_r by lia. by replace (n + (Zdigits2 z - n - 1)) with (Zdigits2 z - 1) by lia.
  - apply Z.div_lt_upper_bound; [apply Z.pow_pos_nonneg; lia|].
    rewrite <- Z.pow_add_r by lia. by replace (n + (Zdigits2 z - n)) with (Zdigits2 z) by lia.
Qed.

Lemma Zdigits2_shiftl z n : 0 < z -> 0 <= n -> Zdigits2 (z * 2 ^ n) = Zdigits2 z + n.
Proof.
  intros Hz Hn. rewrite !Zdigits2_log2 by nia.
  rewrite (proj2 (Z.eqb_neq z 0)) by lia.
  assert (0 < 2 ^ n) by (apply Z.pow_pos_nonneg; lia).
  rewrite (proj2 (Z.eqb_neq (z * 2 ^ n) 0)), Z.log2_mul_pow2 by nia. lia.
Qed.

Lemma Zdigits2_nonneg z : 0 <= z -> 0 <= Zdigits2 z.
Proof. by destruct z. Qed.

Lemma Zdigits2_div a b : 0 < a -> 0 < b -> Zdigits2 a - Zdigits2 b <= Zdigits2 (a / b).
Proof.
  intros Ha Hb. pose proof (Zdigits2_pos a Ha). pose proof (Zdigits2_pos b Hb).
  assert (0 <= a / b) by (apply Z.div_pos; lia).
  destruct (decide (Zdigits2 a - Zdigits2 b <= 0)) as [|Hgt]; [pose proof (Zdigits2_nonneg (a / b)); lia|].
  pose proof (Zdigits2_spec a Ha) as [Hlo _]. pose proof (Zdigits2_spec b Hb) as [_ Hhi].
  set (k := Zdigits2 a - Zdigits2 b - 1). assert (Hk : 0 <= k) by lia.
  assert (0 < 2 ^ k) by (apply Z.pow_pos_nonneg; lia).
  assert (Hge : 2 ^ k <= a / b).
  { apply Z.div_le_lower_bound; [lia|].
    transitivity (2 ^ Zdigits2 b * 2 ^ k); [apply Z.mul_le_mono_nonneg_r; lia|].
    rewrite <- Z.pow_add_r by lia. by replace (Zdigits2 b + k) with (Zdigits2 a - 1) by lia. }
  pose proof (Zdigits2_mono (2 ^ k) (a / b)) as Hmono.
  rewrite (Zdigits2_unique (2 ^ k) (k + 1)) in Hmono; [lia|lia|].
  replace (k + 1 - 1) with k by lia. split; [lia|]. apply Z.pow_lt_mono_r; lia.
Qed.

(** ** Rounding *)

Lemma shr_1_m mrs : 0 <= shr_m mrs -> shr_m (shr_1 mrs) = shr_m mrs / 2.
Proof.
  destruct mrs as [m r s]; cbn. intros Hm. destruct m as [|[p|p|]|]; try done; cbn [shr_m].
  - rewrite Pos2Z.inj_xI. apply (Z.div_unique _ _ _ 1); lia.
  - rewrite Pos2Z.inj_xO. apply (Z.div_unique _ _ _ 0); lia.
Qed.

Lemma iter_shr_1_m p mrs :
  0 <= shr_m mrs -> shr_m (iter_pos shr_1 p mrs) = shr_m mrs / 2 ^ Zpos p.
Proof.
  assert (Hpow : forall q, 0 < 2 ^ Zpos q) by (intros; apply Z.pow_pos_nonneg; lia).
  revert mrs. induction p as [p IH|p IH|]; intros mrs Hm; cbn [iter_pos].
  - assert (Hm1 : 0 <= shr_m (shr_1 mrs)) by (rewrite shr_1_m by done; apply Z.div_pos; lia).
    rewrite IH, IH, shr_1_m, !Z.div_div by
      (rewrite ?IH, ?shr_1_m by done; try apply Z.div_pos; rewrite ?shr_1_m by done; first [done|apply Z.div_pos; lia|pose proof (Hpow p); lia]).
    f_equal. rewrite (Pos2Z.inj_xI p), Z.pow_add_r, Z.pow_mul_r by lia. change (2 ^ 2) with (2 * 2).
    rewrite Z.pow_mul_l. lia.
  - rewrite IH, IH, Z.div_div by (rewrite ?IH by done; first [done|apply Z.div_pos; [lia|apply Hpow]|pose proof (Hpow p); lia]).
    f_equal. rewrite (Pos2Z.inj_xO p), Z.pow_mul_r by lia. change (2 ^ 2) with (2 * 2).
    by rewrite Z.pow_mul_l.
  - by apply shr_1_m.
Qed.

Lemma shr_fexp_eq m e l n :
  0 <= m -> n = fexp64 (Zdigits2 m + e) - e -> 0 <= n ->
  shr_m (shr_fexp prec64 emax64 m e l).1 = m / 2 ^ n /\ (shr_fexp prec64 emax64 m e l).2 = e + n.
Proof.
  intros Hm Hn Hpos. unfold shr_fexp. rewrite <- Hn.
  assert (Hloc : shr_m (shr_record_of_loc m l) = m) by (by destruct l as [|[]]).
  destruct n as [|p|p]; cbn [shr fst snd].
  - rewrite Hloc, Z.div_1_r. lia.
  - rewrite iter_shr_1_m, Hloc by (rewrite Hloc; lia). done.
  - lia.
Qed.

Lemma round_nearest_even_near m l : m <= round_nearest_even m l <= m + 1.
Proof. destruct l as [|[]]; cbn; try lia. destruct (Z.even m); lia. Qed.

(** One alignment step: the shifted mantissa keeps the magnitude, or is lost
    below the smallest exponent. *)
Lemma shr_fexp_step m e l :
  0 <= m -> e <= fexp64 (Zdigits2 m + e) ->
  let r := shr_fexp prec64 emax64 m e l in
  r.2 = fexp64 (Zdigits2 m + e) /\
  ((0 < shr_m r.1 /\ Zdigits2 (shr_m r.1) + r.2 = Zdigits2 m + e) \/
   (shr_m r.1 = 0 /\ (m = 0 \/ (r.2 = -1074 /\ Zdigits2 m + e <= -1074)))).
Proof.
  intros Hm He r. destruct (shr_fexp_eq m e l _ Hm eq_refl) as [Hm1 He1]; [lia|]. fold r in Hm1, He1.
  split; [lia|]. remember (fexp64 (Zdigits2 m + e) - e) as n eqn:Hn.
  destruct (decide (m = 0)) as [->|Hne].
  { right. split; [|by left]. rewrite Hm1. apply Z.div_0_l, Z.pow_nonzero; lia. }
  destruct (decide (n < Zdigits2 m)) as [Hlt|Hge].
  - left. assert (Hd : Zdigits2 (shr_m r.1) = Zdigits2 m - n) by (rewrite Hm1; apply Zdigits2_shiftr; lia).
    assert (0 <= shr_m r.1) by (rewrite Hm1; apply Z.div_pos; [lia|apply Z.pow_pos_nonneg; lia]).
    destruct (decide (shr_m r.1 = 0)) as [Hz|]; [rewrite Hz in Hd; cbn in Hd; lia|]. lia.
  - right. rewrite fexp64_eq in Hn. split; [|right; lia]. rewrite Hm1. apply Z.div_small.
    pose proof (Zdigits2_spec m ltac:(lia)). pose proof (Z.pow_le_mono_r 2 (Zdigits2 m) n ltac:(lia) ltac:(lia)). lia.
Qed.

Lemma Zdigits2_succ z : 0 < z -> Zdigits2 (z + 1) <= Zdigits2 z + 1.
Proof.
  intros Hz. pose proof (Zdigits2_shiftl z 1 Hz ltac:(lia)) as Hd. rewrite <- Hd.
  apply Zdigits2_mono. lia.
Qed.

(** The shape of a rounding: a canonical mantissa, not zero and not much larger
    than the argument when that is in the range of the format. *)
Lemma round_aux_shape m e l :
  0 <= m -> e <= fexp64 (Zdigits2 m + e) ->
  exists m2 e2, 0 <= m2 /\ (m2 <> 0 -> fexp64 (Zdigits2 m2 + e2) = e2) /\
    (m <> 0 -> -1074 < Zdigits2 m + e -> m2 <> 0 /\ e2 <= Z.max (Zdigits2 m + e - 52) (-1074)) /\
    binary_round_aux prec64 emax64 false m e l =
      match m2 with
      | Z0 => S754_zero false
      | Zpos p => if e2 <=? emax64 - prec64 then S754_finite false p e2 else S754_infinity false
      | Zneg _ => S754_nan
      end.
Proof.
  intros Hm He. unfold binary_round_aux.
  pose proof (shr_fexp_step m e l Hm He) as Hstep. cbv zeta in Hstep.
  destruct (shr_fexp prec64 emax64 m e l) as [mrs1 e1]; cbn [fst snd] in Hstep.
  destruct Hstep as [He1 Hcase].
  pose proof (round_nearest_even_near (shr_m mrs1) (loc_of_shr_record mrs1)) as Hnear.
  set (m1 := round_nearest_even _ _) in *. clearbody m1.
  assert (Hm1 : 0 <= m1 /\ (m1 <> 0 -> e1 <= fexp64 (Zdigits2 m1 + e1)) /\
    (m <> 0 -> -1074 < Zdigits2 m + e ->
     m1 <> 0 /\ Zdigits2 m + e <= Zdigits2 m1 + e1 <= Zdigits2 m + e + 1)).
  { rewrite !fexp64_eq in *. destruct Hcase as [[Hp Hd]|[Hz Hc]].
    - pose proof (Zdigits2_mono (shr_m mrs1) m1 ltac:(lia)).
      pose proof (Zdigits2_succ (shr_m mrs1) Hp). pose proof (Zdigits2_mono m1 (shr_m mrs1 + 1) ltac:(lia)). lia.
    - split; [lia|]. split; [|lia]. intros Hne. pose proof (Zdigits2_pos m1 ltac:(lia)).
      destruct Hc as [->|]; [cbn in He, He1|]; lia. }
  clear Hcase Hnear. destruct Hm1 as (Hm1 & He1' & Hsize).
  destruct (decide (m1 = 0)) as [->|Hne].
  { exists 0, 0. split; [done|]. split; [done|]. split; [intros Hz Hr; by destruct (Hsize Hz Hr)|].
    unfold shr_fexp. destruct (_ - e1) as [|p|p]; cbn [shr shr_record_of_loc shr_m]; [done| |done].
    rewrite iter_shr_1_m by done. cbn [shr_m]. by rewrite Z.div_0_l by (apply Z.pow_nonzero; lia). }
  pose proof (shr_fexp_step m1 e1 loc_Exact Hm1 (He1' Hne)) as Hstep. cbv zeta in Hstep.
  destruct (shr_fexp prec64 emax64 m1 e1 loc_Exact) as [mrs2 e2]; cbn [fst snd] in Hstep.
  destruct Hstep as [He2 Hcase]. exists (shr_m mrs2), e2. rewrite !fexp64_eq in *.
  repeat split; [lia|lia|lia|lia].
Qed.

Definition finite_pos (x : f64) : Prop :=
  match x with
  | S754_finite s m e => s = false /\ bounded prec64 emax64 m e = true
  | _ => False
  end.

Lemma finite_pos_nonneg x : finite_pos x -> nonneg x.
Proof. by destruct x. Qed.

Lemma bounded_iff m e :
  bounded prec64 emax64 m e = true <-> fexp64 (Zdigits2 (Zpos m) + e) = e /\ e <= 971.
Proof. unfold bounded, canonical_mantissa. rewrite andb_true_iff, Z.leb_le, Z.eqb_eq. done. Qed.

Lemma round_aux_nonneg m e l :
  0 <= m -> e <= fexp64 (Zdigits2 m + e) -> nonneg (binary_round_aux prec64 emax64 false m e l).
Proof.
  intros Hm He. destruct (round_aux_shape m e l Hm He) as (m2 & e2 & Hpos & Hcan & _ & ->).
  destruct m2 as [|p|p]; [done| |lia]. destruct (Z.leb_spec e2 (emax64 - prec64)); [|done].
  split; [done|]. apply bounded_iff. split; [by apply Hcan|done].
Qed.

Lemma round_aux_finite m e l :
  0 < m -> e <= fexp64 (Zdigits2 m + e) -> -1074 < Zdigits2 m + e <= 1000 ->
  finite_pos (binary_round_aux prec64 emax64 false m e l).
Proof.
  intros Hm He Hr. destruct (round_aux_shape m e l) as (m2 & e2 & Hpos & Hcan & Hsz & ->); [lia|done|].
  destruct Hsz as [Hne Hle]; [lia|lia|]. destruct m2 as [|p|p]; [done| |lia].
  rewrite (proj2 (Z.leb_le _ _)) by (unfold emax64, prec64; lia).
  split; [done|]. apply bounded_iff. split; [by apply Hcan|lia].
Qed.

(** ** The operations *)

Lemma shl_align_eq m e e' :
  (shl_align m e e').1 = Z.to_pos (Zpos m * 2 ^ Z.max 0 (e - e')) /\ (shl_align m e e').2 = Z.min e e'.
Proof.
  unfold shl_align. destruct (e' - e) as [|d|d] eqn:Hd; cbn [fst snd].
  - replace (Z.max 0 (e - e')) with 0 by lia. split; [by rewrite Z.mul_1_r|lia].
  - replace (Z.max 0 (e - e')) with 0 by lia. split; [by rewrite Z.mul_1_r|lia].
  - replace (Z.max 0 (e - e')) with (Zpos d) by lia. split; [|lia].
    apply (inj Zpos). rewrite Z2Pos.id by (pose proof (Z.pow_pos_nonneg 2 (Zpos d)); lia).
    clear Hd. induction d as [|d IH] using Pos.peano_ind; [cbn; lia|].
    rewrite Pos.iter_succ, Pos2Z.inj_succ, Z.pow_succ_r by lia.
    rewrite (Pos2Z.inj_xO (Pos.iter _ _ _)), IH. lia.
Qed.

(** [binary_round] aligns first, so the exponent is canonical or below. *)
Lemma binary_round_align m e :
  exists m' e', 0 < m' /\ e' <= fexp64 (Zdigits2 m' + e') /\ Zdigits2 m' + e' = Zdigits2 (Zpos m) + e /\
    binary_round prec64 emax64 false m e = binary_round_aux prec64 emax64 false m' e' loc_Exact.
Proof.
  unfold binary_round. set (f := fexp prec64 emax64 _).
  destruct (shl_align_eq m e f) as [H1 H2]. destruct (shl_align m e f) as [mz ez]; cbn [fst snd] in *.
  assert (0 < 2 ^ Z.max 0 (e - f)) by (apply Z.pow_pos_nonneg; lia).
  exists (Zpos mz), ez. split; [lia|].
  assert (Hd : Zdigits2 (Zpos mz) = Zdigits2 (Zpos m) + Z.max 0 (e - f)).
  { rewrite H1, Z2Pos.id by lia. apply Zdigits2_shiftl; lia. }
  assert (Hf : f = fexp64 (Zdigits2 (Zpos m) + e)) by done. rewrite fexp64_eq in *.
  repeat split; lia.
Qed.

Lemma f64_of_Z_nonneg z : 0 <= z -> nonneg (f64_of_Z z).
Proof.
  intros Hz. unfold f64_of_Z, binary_normalize. destruct z as [|p|p]; [done| |lia].
  destruct (binary_round_align p 0) as (m & e & Hm & He & _ & ->). apply round_aux_nonneg; [lia|done].
Qed.

Lemma f64_of_Z_finite z : 0 < z < 2 ^ 900 -> finite_pos (f64_of_Z z).
Proof.
  intros Hz. unfold f64_of_Z, binary_normalize. destruct z as [|p|p]; [lia| |lia].
  destruct (binary_round_align p 0) as (m & e & Hm & He & Hd & ->).
  pose proof (Zdigits2_pos (Zpos p) ltac:(lia)).
  assert (Zdigits2 (Zpos p) <= 900).
  { destruct (decide (Zdigits2 (Zpos p) <= 900)); [done|]. pose proof (Zdigits2_spec (Zpos p) ltac:(lia)).
    pose proof (Z.pow_le_mono_r 2 900 (Zdigits2 (Zpos p) - 1)). lia. }
  apply round_aux_finite; [done|done|lia].
Qed.

Lemma f64_add_nonneg x y : nonneg x -> nonneg y -> nonneg (f64_add x y).
Proof.
  destruct x as [[]|[]| |sx mx ex], y as [[]|[]| |sy my ey]; try done.
  intros [-> Hx] [-> Hy]. unfold f64_add, SFadd, cond_Zopp, binary_normalize.
  destruct (Zpos _ + Zpos _) as [|p|p] eqn:Hs; [lia| |lia].
  destruct (binary_round_align p (Z.min ex ey)) as (m & e & Hm & He & _ & ->).
  apply round_aux_nonneg; [lia|done].
Qed.

Lemma f64_mul_nonneg x y : nonneg x -> finite_pos y -> nonneg (f64_mul x y).
Proof.
  destruct x as [s|s| |sx mx ex], y as [| | |sy my ey]; try done; cbn [nonneg finite_pos].
  1,2: intros -> [-> _]; done.
  intros [-> [Hx1 Hx2]%bounded_iff] [-> [Hy1 Hy2]%bounded_iff].
  unfold f64_mul, SFmul, xorb. apply round_aux_nonneg; [lia|].
  pose proof (Zdigits2_pos (Zpos mx) ltac:(lia)). pose proof (Zdigits2_pos (Zpos my) ltac:(lia)).
  assert (Hd : Zdigits2 (Zpos mx) + Zdigits2 (Zpos my) - 1 <= Zdigits2 (Zpos (mx * my))).
  { rewrite !Zdigits2_log2 in * by lia. cbn [Z.eqb] in *. rewrite Pos2Z.inj_mul.
    pose proof (Z.log2_mul_below (Zpos mx) (Zpos my)). lia. }
  rewrite !fexp64_eq in *. lia.
Qed.

Lemma f64_div_nonneg x y : finite_pos x -> nonneg y -> nonneg (f64_div x y).
Proof.
  destruct x as [s|s| |sx mx ex], y as [t|t| |sy my ey]; try done; cbn [nonneg finite_pos].
  1,2: intros [-> _] ->; done.
  intros [-> _] [-> _]. unfold f64_div, SFdiv, SFdiv_core_binary, xorb.
  set (d1 := Zdigits2 (Zpos mx)). set (d2 := Zdigits2 (Zpos my)).
  set (e' := Z.min (fexp prec64 emax64 (d1 + ex - (d2 + ey))) (ex - ey)).
  assert (He' : e' = Z.min (Z.max (d1 + ex - (d2 + ey) - 53) (-1074)) (ex - ey)) by done. clearbody e'.
  set (m' := match ex - ey - e' with Z0 => Zpos mx | Zpos _ => _ | Zneg _ => 0 end).
  assert (Hm' : m' = Zpos mx * 2 ^ (ex - ey - e')).
  { unfold m'. destruct (ex - ey - e') as [|p|p] eqn:Hs; [lia| |lia]. by rewrite Z.shiftl_mul_pow2 by lia. }
  rewrite (surjective_pairing (Z.div_eucl m' (Zpos my))). cbn [fst].
  change (Z.div_eucl m' (Zpos my)).1 with (m' / Zpos my).
  assert (0 < m') by (rewrite Hm'; pose proof (Z.pow_pos_nonneg 2 (ex - ey - e')); lia).
  assert (Hq : 0 <= m' / Zpos my) by (apply Z.div_pos; lia).
  apply round_aux_nonneg; [done|].
  assert (Hd : Zdigits2 m' = d1 + (ex - ey - e')) by (rewrite Hm'; apply Zdigits2_shiftl; lia).
  pose proof (Zdigits2_pos m' ltac:(lia)). pose proof (Zdigits2_pos (Zpos my) ltac:(lia)).
  pose proof (Zdigits2_div m' (Zpos my)). rewrite !fexp64_eq in *. lia.
Qed.

(** ** Seconds *)

Lemma div_nearest_even_bounds n d a b :
  0 < d -> a * d <= n <= b * d -> a <= div_nearest_even n d <= b.
Proof.
  intros Hd [Ha Hb]. unfold div_nearest_even.
  pose proof (Z.div_mod n d ltac:(lia)) as Hn. pose proof (Z.mod_pos_bound n d Hd).
  assert (Hq : a <= n / d) by (apply Z.div_le_lower_bound; lia).
  assert (Hq' : n / d <= b) by (apply Z.div_le_upper_bound; lia).
  destruct (Z.ltb_spec (2 * (n mod d)) d); [cbn; lia|].
  destruct (_ =? _); cbn [andb orb]; [destruct (Z.even _)|]; cbn; try lia.
  all: assert (n / d <> b) by nia; lia.
Qed.

(** A finite number between 1 and 86400, by the comparisons of the code. *)
Lemma finite_between m e :
  bounded prec64 emax64 m e = true ->
  SFltb (S754_finite false m e) (f64_of_Z 1) = false ->
  SFltb (f64_of_Z 86400) (S754_finite false m e) = false ->
  -52 <= e <= -36 /\ 2 ^ (- e) <= Zpos m <= 86400 * 2 ^ (- e).
Proof.
  intros [Hc _]%bounded_iff Hlo Hhi. rewrite fexp64_eq in Hc.
  pose proof (Zdigits2_spec (Zpos m) ltac:(lia)) as [Hd1 Hd2].
  unfold SFltb in Hlo, Hhi.
  change (f64_of_Z 1) with (S754_finite false 4503599627370496 (-52)) in Hlo.
  change (f64_of_Z 86400) with (S754_finite false 5937362789990400 (-36)) in Hhi.
  cbn [SFcompare] in Hlo, Hhi. change (Pos.compare_cont Eq) with Pos.compare in Hlo, Hhi.
  revert Hlo Hhi. destruct (Z.compare_spec e (-52)) as [->|?|Hgt]; [|discriminate|].
  - rewrite Pos2Z.inj_compare.
    destruct (Z.compare_spec (Zpos m) 4503599627370496); [|discriminate|]; intros _ _.
    all: assert (Zdigits2 (Zpos m) <= 53) by lia.
    all: pose proof (Z.pow_le_mono_r 2 (Zdigits2 (Zpos m)) 53).
    all: change (2 ^ (- (-52))) with 4503599627370496; change (2 ^ 53) with 9007199254740992 in *; lia.
  - intros _. assert (Hd : Zdigits2 (Zpos m) = 53) by lia. rewrite Hd in Hd1, Hd2.
    change (2 ^ (53 - 1)) with 4503599627370496 in Hd1. change (2 ^ 53) with 9007199254740992 in Hd2.
    destruct (Z.compare_spec (-36) e) as [<-|Hlt|Hgt']; [|discriminate|].
    + rewrite Pos2Z.inj_compare.
      destruct (Z.compare_spec 5937362789990400 (Zpos m)); [|discriminate|]; intros _.
      all: change (2 ^ (- (-36))) with 68719476736; lia.
    + intros _. pose proof (Z.pow_le_mono_r 2 (- e) 51). pose proof (Z.pow_le_mono_r 2 37 (- e)).
      change (2 ^ 51) with 2251799813685248 in *. change (2 ^ 37) with 137438953472 in *. lia.
Qed.

(** A clamped number of seconds is a duration within the clamp. *)
Lemma clamped_secs x :
  nonneg x ->
  exists d, from_secs_f64 (f64_clamp x (f64_of_Z 1) (f64_of_Z 86400)) = Some d /\
    from_secs 1 <= d <= from_secs 86400.
Proof.
  intros Hx. unfold f64_clamp.
  destruct (SFltb x (f64_of_Z 1)) eqn:Hlo; [exists (from_secs 1); by vm_compute|].
  destruct (SFltb (f64_of_Z 86400) x) eqn:Hhi; [exists (from_secs 86400); by vm_compute|].
  destruct x as [s|s| |s m e]; [done|by destruct s|done|]. destruct Hx as [-> Hb].
  destruct (finite_between m e Hb Hlo Hhi) as [He Hm].
  cbn [from_secs_f64]. rewrite (proj2 (Z.leb_gt 0 e)) by lia.
  destruct (div_nearest_even_bounds (Zpos m * NANOS_PER_SEC) (2 ^ (- e)) (from_secs 1) (from_secs 86400))
    as [H1 H2]; [apply Z.pow_pos_nonneg; lia|unfold from_secs, NANOS_PER_SEC; lia|].
  rewrite (proj2 (Z.leb_le _ _)); [by eexists|].
  apply Z.div_le_upper_bound; [done|]. unfold from_secs, NANOS_PER_SEC, u64_max in *. lia.
Qed.

(** A finite number that is not above a cap, by the comparison of the code. *)
Lemma finite_below cap mc ec m e :
  Zpos mc = cap * 2 ^ (- ec) -> ec < 0 -> 2 ^ 52 <= Zpos mc -> bounded prec64 emax64 m e = true ->
  SFltb (S754_finite false mc ec) (S754_finite false m e) = false ->
  e < 0 /\ Zpos m <= cap * 2 ^ (- e).
Proof.
  intros Hcap Hec Hmc [Hc _]%bounded_iff Hlt. rewrite fexp64_eq in Hc.
  pose proof (Zdigits2_spec (Zpos m) ltac:(lia)) as [_ Hd].
  unfold SFltb in Hlt. cbn [SFcompare] in Hlt. change (Pos.compare_cont Eq) with Pos.compare in Hlt. revert Hlt.
  destruct (Z.compare_spec ec e) as [<-|Hlt|Hgt]; [|discriminate|].
  - rewrite Pos2Z.inj_compare. destruct (Z.compare_spec (Zpos mc) (Zpos m)); [|discriminate|]; intros _; lia.
  - intros _. split; [lia|].
    assert (Hm : Zpos m <= 2 ^ 53 ).
    { destruct (Z.le_gt_cases (Zdigits2 (Zpos m)) 53); [|exfalso; lia].
      pose proof (Z.pow_le_mono_r 2 (Zdigits2 (Zpos m)) 53). lia. }
    replace (- e) with (- ec + (ec - e)) by lia. rewrite Z.pow_add_r, Z.mul_assoc, <- Hcap by lia.
    pose proof (Z.pow_le_mono_r 2 1 (ec - e) ltac:(lia) ltac:(lia)). change (2 ^ 1) with 2 in *.
    change (2 ^ 53) with (2 * 2 ^ 52) in Hm. nia.
Qed.

(** A number of seconds cut at a cap is a duration up to the cap. *)
Lemma capped_secs cap mc ec x :
  f64_of_Z cap = S754_finite false mc ec -> from_secs_f64 (f64_of_Z cap) = Some (from_secs cap) ->
  Zpos mc = cap * 2 ^ (- ec) -> ec < 0 -> 2 ^ 52 <= Zpos mc -> 0 < cap <= u64_max ->
  nonneg x -> exists d, from_secs_f64 (f64_min x (f64_of_Z cap)) = Some d /\ 0 <= d <= from_secs cap.
Proof.
  intros Hf Hs Hmc Hec Hbig Hcap Hx. assert (Hpos : 0 <= from_secs cap) by (unfold from_secs, NANOS_PER_SEC; lia).
  assert (Hfull : exists d, from_secs_f64 (f64_of_Z cap) = Some d /\ 0 <= d <= from_secs cap) by (exists (from_secs cap); split; [done|lia]).
  destruct x as [s|s| |s m e]; [| |done|].
  - cbn in Hx. subst s. rewrite Hf. exists 0. split; [done|lia].
  - cbn in Hx. subst s. rewrite Hf. cbn [f64_min]. change (SFltb (S754_finite false mc ec) (S754_infinity false)) with true.
    by rewrite <- Hf.
  - destruct Hx as [-> Hb]. unfold f64_min. rewrite Hf. destruct (SFltb _ _) eqn:El; [by rewrite <- Hf|].
    destruct (finite_below cap mc ec m e Hmc Hec Hbig Hb El) as [He Hm]. cbn [from_secs_f64].
    rewrite (proj2 (Z.leb_gt 0 e)) by lia.
    destruct (div_nearest_even_bounds (Zpos m * NANOS_PER_SEC) (2 ^ (- e)) 0 (from_secs cap)) as [H1 H2];
      [apply Z.pow_pos_nonneg; lia|unfold from_secs, NANOS_PER_SEC; lia|].
    rewrite (proj2 (Z.leb_le _ _)); [by eexists|]. apply Z.div_le_upper_bound; [done|].
    unfold from_secs, NANOS_PER_SEC, u64_max in *. lia.
Qed.

Lemma capped_day x : nonneg x ->
  exists d, from_secs_f64 (f64_min x (f64_of_Z 86400)) = Some d /\ 0 <= d <= from_secs 86400.
Proof. apply (capped_secs 86400 5937362789990400 (-36)); done. Qed.

Lemma capped_600 x : nonneg x ->
  exists d, from_secs_f64 (f64_min x (f64_of_Z 600)) = Some d /\ 0 <= d <= from_secs 600.
Proof. apply (capped_secs 600 5277655813324800 (-43)); done. Qed.
