(* ===== verification/Governor.v ===== *)
(** * The rate governor of transfers ([cli/src/transfer_governor.rs])

    An estimate of the link's rate, raised by an average over completed parts and
    halved after a stall, and the time bound of one attempt that follows from it.
    The numbers are doubles, computed as the hardware does. *)

From S2P Require Import Prelude CryptoCore Text Float64.
From Stdlib Require Import Floats.SpecFloat.

Module Governor.

(** [serde_json::Value::as_i64]. *)
Definition value_as_i64 (v : value) : option Z :=
  match v with
  | VNumber z => if bool_decide (is_i64 z) then Some z else None
  | _ => None
  end.
Definition get_i64 (v : value) (k : string) : option Z := value_get v k ≫= value_as_i64.

(** [Ord::clamp] of integers. *)
Definition clampZ (lo hi v : Z) : Z := Z.min hi (Z.max lo v).

(** The nearest double to 4/10, which is what the literal [0.4] denotes. *)
Definition ALPHA : f64 := f64_div (f64_of_Z 4) (f64_of_Z 10).
Definition ONE : f64 := f64_of_Z 1.
Definition MIN_CREDIBLE_RATE : f64 := f64_of_Z 1024.
Definition RATE_FRESHNESS : Duration := from_secs (15 * 60).

Record GovernorKnobs := mk_GovernorKnobs {
  ceiling_k : Z;
  target_part_seconds : Z;
  part_min_bytes : Z;
  part_max_bytes : Z;
}.

Definition default_knobs : GovernorKnobs :=
  mk_GovernorKnobs 4 10 (5 * 1024 * 1024) (64 * 1024 * 1024).

Definition knob (response : value) (name : string) (lo hi fallback : Z) : Z :=
  match value_get response "governor" ≫= (fun g => get_i64 g name) with
  | Some v => clampZ lo hi v
  | None => fallback
  end.

Definition from_response (response : value) : GovernorKnobs :=
  let d := default_knobs in
  mk_GovernorKnobs
    (knob response "ceiling_k_cli" 2 20 (ceiling_k d))
    (knob response "target_part_seconds" 2 120 (target_part_seconds d))
    (knob response "part_min_bytes" (5 * 1024 * 1024) (64 * 1024 * 1024) (part_min_bytes d))
    (knob response "part_max_bytes" (5 * 1024 * 1024) (1024 * 1024 * 1024) (part_max_bytes d)).

Record TransferGovernor := mk_TransferGovernor {
  knobs : GovernorKnobs;
  rate_est : option f64;
  generation : Z;
}.

Definition new (k : GovernorKnobs) : TransferGovernor := mk_TransferGovernor k None 0.

Definition with_warm_start (k : GovernorKnobs) (rate_bps : f64) (age : Duration) : TransferGovernor :=
  mk_TransferGovernor k
    (if (age <=? RATE_FRESHNESS) && SFleb MIN_CREDIBLE_RATE rate_bps then Some rate_bps else None) 0.

Definition rate_estimate (g : TransferGovernor) : option f64 := rate_est g.

Definition observe_part (g : TransferGovernor) (bytes : Z) (elapsed : Duration) : TransferGovernor :=
  let secs := as_secs_f64 elapsed in
  if SFleb secs (S754_zero false) || (bytes =? 0) then g
  else
    let observed := f64_div (f64_of_Z bytes) secs in
    if SFltb observed MIN_CREDIBLE_RATE then g
    else
      mk_TransferGovernor (knobs g)
        (Some match rate_est g with
              | Some prev => f64_add (f64_mul ALPHA observed) (f64_mul (f64_sub ONE ALPHA) prev)
              | None => observed
              end)
        (generation g).

(** The generation is a [u64]; a release build wraps it. *)
Definition penalize_stall (g : TransferGovernor) (start_generation : Z) : TransferGovernor :=
  if start_generation =? generation g then
    match rate_est g with
    | Some rate =>
        let halved := f64_div rate (f64_of_Z 2) in
        mk_TransferGovernor (knobs g)
          (if SFleb MIN_CREDIBLE_RATE halved then Some halved else None)
          ((generation g + 1) mod 2 ^ 64)
    | None => g
    end
  else g.

(** The bound of one attempt: [None] is no bound, [Some None] is the panic of
    [Duration::from_secs_f64]. *)
Definition ceiling (g : TransferGovernor) (bytes : Z) : option (option Duration) :=
  match rate_est g with
  | None => None
  | Some rate =>
      let expected := f64_div (f64_of_Z bytes) rate in
      Some (from_secs_f64 (f64_clamp (f64_mul expected (f64_of_Z (ceiling_k (knobs g))))
                                     (f64_of_Z 1) (f64_of_Z 86400)))
  end.

(** ** Runs

    What the upload does with its governor: completed parts and stalled attempts,
    in any order. *)
Inductive event :=
| Completed (bytes : Z) (elapsed : Duration)
| Stalled (stamp : Z).

Definition apply_event (g : TransferGovernor) (e : event) : TransferGovernor :=
  match e with
  | Completed bytes elapsed => observe_part g bytes elapsed
  | Stalled stamp => penalize_stall g stamp
  end.
Definition run : TransferGovernor -> list event -> TransferGovernor := foldl apply_event.

(** Knobs read from a response, or the defaults. *)
Definition knobs_ok (k : GovernorKnobs) : Prop :=
  2 <= ceiling_k k <= 20 /\ 2 <= target_part_seconds k <= 120 /\
  5 * 1024 * 1024 <= part_min_bytes k <= 64 * 1024 * 1024 /\
  5 * 1024 * 1024 <= part_max_bytes k <= 1024 * 1024 * 1024.

(** The invariant: the estimate is a number, not negative and in the format. *)
Definition gov_ok (g : TransferGovernor) : Prop :=
  knobs_ok (knobs g) /\ (forall r, rate_est g = Some r -> nonneg r) /\ is_u64 (generation g).

(** A well-formed event: the lengths and times are machine integers. *)
Definition event_ok (e : event) : Prop :=
  match e with
  | Completed bytes elapsed => 0 <= bytes <= u64_max /\ 0 <= elapsed <= DURATION_MAX
  | Stalled stamp => is_u64 stamp
  end.

Lemma clampZ_bounds lo hi v : lo <= hi -> lo <= clampZ lo hi v <= hi.
Proof. unfold clampZ. lia. Qed.

Lemma knob_bounds v name lo hi d : lo <= d <= hi -> lo <= knob v name lo hi d <= hi.
Proof. intros Hd. unfold knob. destruct (_ ≫= _); [apply clampZ_bounds; lia|done]. Qed.

Lemma from_response_ok v : knobs_ok (from_response v).
Proof. repeat split; apply knob_bounds; cbn; lia. Qed.

(** A positive machine integer is a finite positive double. *)
Lemma f64_of_u64 z : 0 < z <= u64_max -> finite_pos (f64_of_Z z).
Proof.
  intros Hz. apply f64_of_Z_finite. split; [lia|]. unfold u64_max in Hz.
  pose proof (Z.pow_lt_mono_r 2 64 900). lia.
Qed.

Lemma as_secs_f64_nonneg d : 0 <= d -> nonneg (as_secs_f64 d).
Proof.
  intros Hd. unfold as_secs_f64. pose proof (Z.mod_pos_bound d NANOS_PER_SEC ltac:(done)) as Hm.
  apply f64_add_nonneg; [apply f64_of_Z_nonneg, Z.div_pos; done|].
  destruct (decide (d mod NANOS_PER_SEC = 0)) as [->|]; [done|].
  apply f64_div_nonneg; [apply f64_of_u64; unfold NANOS_PER_SEC, u64_max in *; lia|by apply f64_of_Z_nonneg].
Qed.

Lemma ALPHA_finite : finite_pos ALPHA.
Proof. by vm_compute. Qed.
Lemma one_minus_ALPHA_finite : finite_pos (f64_sub ONE ALPHA).
Proof. by vm_compute. Qed.

Lemma f64_mul_comm_nonneg x y : finite_pos x -> nonneg y -> nonneg (f64_mul x y).
Proof.
  intros Hx Hy. replace (f64_mul x y) with (f64_mul y x); [by apply f64_mul_nonneg|].
  destruct x as [s|s| |s m e], y as [s'|s'| |s' m' e']; try done; cbn; try by rewrite xorb_comm.
  by rewrite xorb_comm, Pos.mul_comm, Z.add_comm.
Qed.

Lemma halved_nonneg r : nonneg r -> nonneg (f64_div r (f64_of_Z 2)).
Proof.
  intros Hr. destruct r as [s|s| |s m e]; cbn in Hr; subst; try done.
  apply f64_div_nonneg; [done|by apply f64_of_Z_nonneg].
Qed.

#[local] Opaque f64_mul f64_add f64_div f64_sub f64_of_Z as_secs_f64 from_secs_f64 f64_clamp.

Lemma observe_ok g bytes elapsed :
  gov_ok g -> event_ok (Completed bytes elapsed) -> gov_ok (observe_part g bytes elapsed).
Proof.
  intros (Hk & Hr & Hg) [Hb He]. unfold observe_part.
  destruct (SFleb _ _); [done|]. cbn [orb]. destruct (Z.eqb_spec bytes 0); [done|].
  destruct (SFltb _ _); [done|]. split; [done|]. split; [|done]. cbn [rate_est]. intros r [= <-].
  assert (Hobs : nonneg (f64_div (f64_of_Z bytes) (as_secs_f64 elapsed))).
  { apply f64_div_nonneg; [apply f64_of_u64; lia|apply as_secs_f64_nonneg; lia]. }
  destruct (rate_est g) as [prev|]; [|done].
  apply f64_add_nonneg; apply f64_mul_comm_nonneg; auto using ALPHA_finite, one_minus_ALPHA_finite.
Qed.

Lemma penalize_ok g stamp : gov_ok g -> gov_ok (penalize_stall g stamp).
Proof.
  intros (Hk & Hr & Hg). unfold penalize_stall. destruct (_ =? _); [|done].
  destruct (rate_est g) as [r|] eqn:Er; [|split; [done|]; rewrite Er; done].
  split; [done|]. split; cbn [rate_est generation].
  - intros r'. destruct (SFleb _ _); [intros [= <-]|done]. apply halved_nonneg. by apply Hr.
  - unfold is_u64, u64_max. pose proof (Z.mod_pos_bound (generation g + 1) (2 ^ 64) ltac:(lia)). lia.
Qed.

Lemma run_ok g es : gov_ok g -> Forall event_ok es -> gov_ok (run g es).
Proof.
  intros Hg Hes. revert g Hg. induction Hes as [|e es He Hes IH]; intros g Hg; cbn; [done|].
  apply IH. destruct e as [bytes elapsed|stamp]; [by apply observe_ok|by apply penalize_ok].
Qed.

Lemma new_ok k : knobs_ok k -> gov_ok (new k).
Proof. intros Hk. split; [done|]. split; [intros r [=]|]. unfold is_u64, u64_max. cbn. lia. Qed.

(** The bound of an attempt is always a duration from one second to one day:
    whatever the server's knobs, the persisted rate, and the completed parts and
    stalls before, the bound for a part that is not empty never panics in
    [Duration::from_secs_f64] (no NaN and no overflow reaches it) and lies within
    the clamp.  Without an estimate there is no bound. *)
Theorem ceiling_in_range response (warm : option (f64 * Duration)) es bytes :
  (forall r age, warm = Some (r, age) -> valid_binary prec64 emax64 r = true) ->
  Forall event_ok es -> 0 < bytes <= u64_max ->
  let g0 := match warm with
            | Some (r, age) => with_warm_start (from_response response) r age
            | None => new (from_response response)
            end in
  let g := run g0 es in
  match ceiling g bytes with
  | None => rate_est g = None
  | Some None => False
  | Some (Some d) => from_secs 1 <= d <= from_secs 86400
  end.
Proof.
  intros Hwarm Hes Hb g0 g. assert (Hg0 : gov_ok g0).
  { unfold g0. destruct warm as [[r age]|]; [|apply new_ok, from_response_ok].
    split; [apply from_response_ok|]. split; [|cbn; unfold is_u64, u64_max; lia]. cbn.
    intros r'. destruct (age <=? _); cbn [andb]; [|done]. destruct (SFleb _ r) eqn:Hle; intros [= <-].
    specialize (Hwarm r age eq_refl). destruct r as [[]|[]| |[] m e]; try done. }
  destruct (run_ok g0 es Hg0 Hes) as (Hk & Hr & _). fold g in Hk, Hr. unfold ceiling.
  destruct (rate_est g) as [rate|]; [|done].
  destruct (clamped_secs (f64_mul (f64_div (f64_of_Z bytes) rate) (f64_of_Z (ceiling_k (knobs g)))))
    as (d & -> & Hd); [|done].
  apply f64_mul_nonneg; [apply f64_div_nonneg; [by apply f64_of_u64|by apply Hr]|].
  apply f64_of_u64. destruct Hk as [? _]. unfold u64_max. lia.
Qed.

Definition toy_events : list event :=
  [Completed 4194304 (from_secs 4); Stalled 0; Stalled 0; Completed 4194304 (from_secs 2)].

Lemma ceiling_in_range_witness :
  match ceiling (run (with_warm_start (from_response VNull) (f64_of_Z 2048) 0) toy_events) 4194304 with
  | Some (Some d) => from_secs 1 <= d <= from_secs 86400
  | _ => False
  end.
Proof.
  pose proof (ceiling_in_range VNull (Some (f64_of_Z 2048, 0)) toy_events 4194304
    ltac:(intros r age [= <- <-]; reflexivity)
    ltac:(repeat constructor; vm_compute; discriminate)
    ltac:(split; [reflexivity|vm_compute; discriminate])) as Hc.
  cbv zeta in Hc. destruct (ceiling _ _) as [[d|]|] eqn:E; [exact Hc|destruct Hc|].
  apply (f_equal (fun o => match o with None => true | _ => false end)) in E. vm_compute in E. discriminate E.
Defined.

(** ** One link event, one halving *)

Definition is_stall_before (gen : Z) (e : event) : Prop :=
  match e with Completed _ _ => True | Stalled s => s <> gen end.

Lemma stale_stall_ignored g stamp : stamp <> generation g -> penalize_stall g stamp = g.
Proof. intros Hne. unfold penalize_stall. by rewrite (proj2 (Z.eqb_neq _ _)). Qed.

Lemma observe_generation g bytes elapsed : generation (observe_part g bytes elapsed) = generation g.
Proof. unfold observe_part. destruct (_ || _); [done|]. by destruct (SFltb _ _). Qed.

(** The completed parts of a run. *)
Definition is_completed (e : event) : bool :=
  match e with Completed _ _ => true | Stalled _ => false end.
Definition completions : list event -> list event := List.filter is_completed.

Lemma stale_run g es :
  Forall (is_stall_before (generation g)) es -> run g es = run g (completions es).
Proof.
  intros Hes. revert g Hes. induction es as [|e es IH]; intros g Hes; [done|].
  apply Forall_cons in Hes as [He Hes]. destruct e as [bytes elapsed|stamp].
  - cbn. apply IH. by rewrite observe_generation.
  - cbn. rewrite stale_stall_ignored by done. by apply IH.
Qed.

(** One link event costs one halving: when any number of attempts that
    started under one generation of the estimate stall, interleaved with
    completed parts in any order, and the estimate is known at the first stall,
    the governor ends in the state where only the first stall happened.  The
    estimate of every other stamped stall is ignored, so a burst of [N] stalls
    does not collapse the estimate by [2^N]. *)
Theorem burst_costs_one_halving g stamp before after :
  is_u64 (generation g) -> generation g = stamp ->
  Forall (fun e => match e with Completed _ _ => True | Stalled s => s = stamp end) after ->
  Forall (fun e => match e with Completed _ _ => True | Stalled s => False end) before ->
  is_Some (rate_est (run g before)) ->
  run g (before ++ Stalled stamp :: after) = run g (before ++ Stalled stamp :: completions after) /\
  generation (run g (before ++ Stalled stamp :: after)) = (stamp + 1) mod 2 ^ 64.
Proof.
  intros Hu Hst Hafter Hbefore Hrate. unfold run. rewrite !foldl_app. cbn [foldl apply_event]. fold run.
  assert (Hgen : generation (foldl apply_event g before) = stamp).
  { subst stamp. clear Hrate Hafter. revert g Hu. induction Hbefore as [|e es He Hes IH]; intros g Hu; [done|].
    destruct e as [bytes elapsed|]; [|done]. cbn. rewrite IH; by rewrite observe_generation. }
  change (foldl apply_event g before) with (run g before) in *.
  remember (run g before) as g1 eqn:Hg1. clear Hg1 Hbefore.
  assert (Hg2 : generation (penalize_stall g1 stamp) = (stamp + 1) mod 2 ^ 64).
  { unfold penalize_stall. rewrite Hgen, Z.eqb_refl. by destruct Hrate as [r ->]. }
  assert (Hne : stamp <> (stamp + 1) mod 2 ^ 64).
  { rewrite Hst in Hu. unfold is_u64, u64_max in Hu. destruct (decide (stamp = 2 ^ 64 - 1)) as [->|]; [done|].
    rewrite Z.mod_small; lia. }
  assert (Hst' : Forall (is_stall_before (generation (penalize_stall g1 stamp))) after).
  { rewrite Hg2. eapply Forall_impl; [exact Hafter|]. intros [|s]; [done|]. intros ->. done. }
  split; [by apply stale_run|].
  change (generation (run (penalize_stall g1 stamp) after) = (stamp + 1) mod 2 ^ 64).
  rewrite stale_run, <- Hg2 by done. clear. generalize (penalize_stall g1 stamp). intros g.
  revert g. induction after as [|[bytes elapsed|s] after IH]; intros g; [done| |apply IH].
  cbn. by rewrite IH, observe_generation.
Qed.

Lemma burst_costs_one_halving_witness :
  let g := new default_knobs in
  run g ([Completed 4194304 (from_secs 4)] ++ Stalled 0 :: [Stalled 0; Stalled 0]) =
  run g ([Completed 4194304 (from_secs 4)] ++ Stalled 0 :: completions [Stalled 0; Stalled 0]) /\
  generation (run g ([Completed 4194304 (from_secs 4)] ++ Stalled 0 :: [Stalled 0; Stalled 0])) = (0 + 1) mod 2 ^ 64.
Proof.
  apply (burst_costs_one_halving (new default_knobs) 0 [Completed 4194304 (from_secs 4)] [Stalled 0; Stalled 0]).
  - vm_compute. split; discriminate.
  - reflexivity.
  - repeat constructor.
  - repeat constructor.
  - vm_compute. eexists. reflexivity.
Defined.

End Governor.
