(* ===== verification/UploadState.v ===== *)
(** * Resume state of uploads ([cli/src/upload_state.rs])

    One state file per upload in flight, and the rule that decides whether a new
    run of the command may go on with it: same destination, same source signature
    and the same content anchor, a hash over the first and the last chunk. *)

From S2P Require Import Prelude Prims CryptoCore CliError Wrap Float64.
From Stdlib Require Import Floats.SpecFloat.

Module UploadState.

Record UploadState := mk_UploadState {
  file_id : string;
  upload_id : string;
  server_url : string;
  folder_id : string;
  root_folder_id : string;
  name : string;
  source_path : string;
  file_size : Z;
  file_mtime_unix : Z;
  chunk_size : Z;
  chunk_count : Z;
  anchor : option string;
  rate_estimate_bps : option f64;
  rate_measured_at_unix : option Z;
}.

Record ResumeKey := mk_ResumeKey {
  k_server_url : string;
  k_folder_id : string;
  k_name : string;
  k_source_path : string;
  k_file_size : Z;
  k_file_mtime_unix : Z;
  k_content_anchor : option string;
}.

(** Two states that differ at most in the measured rate. *)
Definition same_but_rate (s t : UploadState) : Prop :=
  t = mk_UploadState (file_id s) (upload_id s) (server_url s) (folder_id s) (root_folder_id s)
        (name s) (source_path s) (file_size s) (file_mtime_unix s) (chunk_size s) (chunk_count s)
        (anchor s) (rate_estimate_bps t) (rate_measured_at_unix s).

(** [serde_json::to_vec_pretty] and [from_slice] at [UploadState].  Reading back a
    written state gives it again, up to the double, which the decimal text need
    not keep exactly. *)
Class StateText := {
  to_vec_pretty : UploadState -> result string bytes;
  from_slice : bytes -> option UploadState;
  from_slice_written s b : to_vec_pretty s = Ok b -> exists t, from_slice b = Some t /\ same_but_rate s t;
}.

(** A directory: its entries in the order [read_dir] lists them, each with its
    contents, [None] where the file cannot be read. *)
Abbreviation dir := (list (string * option bytes)).

Fixpoint dir_write (d : dir) (p : string) (c : option bytes) : dir :=
  match d with
  | [] => [(p, c)]
  | (q, x) :: d => if decide (q = p) then (q, c) :: d else (q, x) :: dir_write d p c
  end.
Definition dir_remove (d : dir) (p : string) : dir := filter (fun e => e.1 <> p) d.

(** What may go wrong in the file system during one call: the directory cannot be
    created, the write fails after leaving some contents, files cannot be removed. *)
Record fs_faults := mk_fs_faults {
  mkdir_error : option string;
  write_error : option (string * option bytes);
  unremovable : string -> bool;
}.
Definition no_faults : fs_faults := mk_fs_faults None None (fun _ => false).

(** [Duration] since the rate was measured; [now] is the clock in Unix seconds. *)
Definition rate_measured_age (s : UploadState) (now : Z) : Duration :=
  match rate_measured_at_unix s with
  | None => DURATION_MAX
  | Some measured_at => from_secs (Z.max 0 (i64_wrap (now - measured_at)))
  end.

Definition path_for (file_id : string) : string := file_id +:+ ".json".

Lemma NoDup_fmap_fst_eq {A B} (l : list (A * B)) p x y :
  NoDup (l.*1) -> (p, x) ∈ l -> (p, y) ∈ l -> x = y.
Proof.
  induction l as [|[q z] l IH]; cbn; intros Hnd Hx Hy; [by apply elem_of_nil in Hx|].
  apply NoDup_cons in Hnd as [Hq Hnd].
  apply elem_of_cons in Hx as [Hx|Hx]; apply elem_of_cons in Hy as [Hy|Hy]; simplify_eq; [done| | |by apply IH].
  - destruct Hq. apply list_elem_of_fmap. by exists (q, y).
  - destruct Hq. apply list_elem_of_fmap. by exists (q, x).
Qed.

Section Code.
Context `{Hex, Sha256, StateText}.

(** [at_] is the path of the directory, for the messages. *)
Definition save_in (f : fs_faults) (at_ : string) (d : dir) (s : UploadState) : cliresult unit * dir :=
  match mkdir_error f with
  | Some e => (Err (filesystem ("creating " +:+ at_ +:+ ": " +:+ e)), d)
  | None =>
      let path := path_for (file_id s) in
      match to_vec_pretty s with
      | Err e => (Err (generic ("serializing upload state: " +:+ e)), d)
      | Ok json =>
          match write_error f with
          | Some (e, left_over) =>
              (Err (filesystem ("writing " +:+ at_ +:+ "/" +:+ path +:+ ": " +:+ e)), dir_write d path left_over)
          | None => (Ok tt, dir_write d path (Some json))
          end
      end
  end.

(** [let _ = std::fs::remove_file(..)]. *)
Definition try_remove (f : fs_faults) (d : dir) (p : string) : dir :=
  if unremovable f p then d else dir_remove d p.
Definition remove_in (f : fs_faults) (d : dir) (file_id : string) : dir :=
  try_remove f d (path_for file_id).

(** [File::read_exact] of [n] bytes at [pos]. *)
Definition read_exact (contents : bytes) (pos n : Z) : option bytes :=
  if bool_decide (pos + n <= Z.of_nat (length contents))
  then Some (take (Z.to_nat n) (drop (Z.to_nat pos) contents))
  else None.

Definition anchor_span (file_size chunk_size : Z) : Z := Z.min chunk_size file_size.
Definition anchor_input (file_size : Z) (head tail : bytes) : bytes :=
  str_bytes "signet:resume-anchor:v1" ++ be_bytes 8 file_size ++ head ++ tail.

(** [contents] is the file, [None] when it cannot be opened. *)
Definition content_anchor (contents : option bytes) (file_size chunk_size : Z) : option string :=
  f ← contents;
  let span := anchor_span file_size chunk_size in
  head ← read_exact f 0 span;
  tail ← read_exact f (Z.max 0 (file_size - span)) span;
  Some (Wrap.fingerprint_raw (anchor_input file_size head tail)).

Definition same_dest (s : UploadState) (k : ResumeKey) : bool :=
  bool_decide (server_url s = k_server_url k) && bool_decide (folder_id s = k_folder_id k)
  && bool_decide (name s = k_name k).
Definition same_content (s : UploadState) (k : ResumeKey) : bool :=
  match anchor s, k_content_anchor k with
  | Some stored, Some current => bool_decide (stored = current)
  | _, _ => false
  end.
Definition same_source (s : UploadState) (k : ResumeKey) : bool :=
  bool_decide (source_path s = k_source_path k) && bool_decide (file_size s = k_file_size k)
  && bool_decide (file_mtime_unix s = k_file_mtime_unix k) && same_content s k.

(** The loop over the entries; the directory it changes is threaded. *)
Fixpoint find_match_loop (f : fs_faults) (entries d : dir) (k : ResumeKey) : option UploadState * dir :=
  match entries with
  | [] => (None, d)
  | (p, c) :: entries =>
      match c ≫= from_slice with
      | None => find_match_loop f entries d k
      | Some s =>
          if same_dest s k then
            if same_source s k then (Some s, d)
            else find_match_loop f entries (try_remove f d p) k
          else find_match_loop f entries d k
      end
  end.

(** [None] for the directory is [read_dir] failing. *)
Definition find_match_in (f : fs_faults) (d : option dir) (k : ResumeKey)
    : option UploadState * option dir :=
  match d with
  | None => (None, None)
  | Some d => let '(r, d') := find_match_loop f d d k in (r, Some d')
  end.

(** ** What the anchor fixes *)

Lemma read_exact_length c pos n l :
  0 <= pos -> 0 <= n -> read_exact c pos n = Some l -> Z.of_nat (length l) = n.
Proof.
  unfold read_exact. case_bool_decide; [|done]. intros Hp Hn [= <-].
  rewrite length_take, length_drop. lia.
Qed.

Lemma content_anchor_some c size chunk a :
  content_anchor c size chunk = Some a -> 0 <= size -> 0 <= chunk ->
  exists f head tail, c = Some f /\
    read_exact f 0 (anchor_span size chunk) = Some head /\
    read_exact f (size - anchor_span size chunk) (anchor_span size chunk) = Some tail /\
    Z.of_nat (length head) = anchor_span size chunk /\
    Z.of_nat (length tail) = anchor_span size chunk /\
    a = hex_encode (sha256 (anchor_input size head tail)).
Proof.
  intros Ha Hs Hc. unfold content_anchor in Ha. destruct c as [f|]; [|done]. cbn in Ha.
  assert (0 <= anchor_span size chunk <= size) by (unfold anchor_span; lia).
  destruct (read_exact f 0 _) as [head|] eqn:Hh; [|done]. cbn in Ha.
  rewrite Z.max_r in Ha by lia.
  destruct (read_exact f (size - anchor_span size chunk) _) as [tail|] eqn:Ht; [|done]. injection Ha as <-.
  exists f, head, tail. split; [done|]. split; [done|]. split; [done|].
  split; [eapply read_exact_length, Hh; lia|]. split; [eapply read_exact_length, Ht; lia|done].
Qed.

(** The hashed strings behind two anchors. *)
Definition anchor_inputs (c : bytes) (size chunk : Z) : bytes :=
  let span := anchor_span size chunk in
  anchor_input size (take (Z.to_nat span) c) (take (Z.to_nat span) (drop (Z.to_nat (size - span)) c)).

Lemma read_exact_eq c pos n l : read_exact c pos n = Some l -> l = take (Z.to_nat n) (drop (Z.to_nat pos) c).
Proof. unfold read_exact. case_bool_decide; [|done]. by intros [= <-]. Qed.

Lemma content_anchor_inputs c size chunk a :
  content_anchor (Some c) size chunk = Some a -> 0 <= size -> 0 <= chunk ->
  a = hex_encode (sha256 (anchor_inputs c size chunk)).
Proof.
  intros Ha Hs Hc. destruct (content_anchor_some _ _ _ _ Ha Hs Hc)
    as (f & head & tail & [= <-] & Hh%read_exact_eq & Ht%read_exact_eq & _ & _ & ->).
  unfold anchor_inputs. by rewrite Hh, Ht.
Qed.

Lemma anchor_input_inj n m h h' t t' :
  is_u64 n -> is_u64 m -> length h = length t -> length h' = length t' ->
  anchor_input n h t = anchor_input m h' t' -> n = m /\ h = h' /\ t = t'.
Proof.
  intros Hn Hm Hht Hht' Heq. unfold anchor_input in Heq. apply app_inv_head in Heq.
  apply app_inj_1 in Heq as [Hnm Heq]; [|by rewrite !length_be_bytes].
  assert (length h = length h').
  { apply (f_equal length) in Heq. rewrite !length_app in Heq. lia. }
  apply app_inj_1 in Heq as [-> ->]; [|done]. split; [|done].
  apply (be_bytes_inj 8); [| |done]; unfold is_u64, u64_max in *; lia.
Qed.

Lemma take_drop_cover {A} (x y : list A) (a b : nat) :
  (b <= a)%nat -> take a x = take a y -> drop b x = drop b y -> x = y.
Proof.
  intros Hab Ht Hd. rewrite <- (take_drop a x), <- (take_drop a y), Ht. f_equal.
  replace a with (b + (a - b))%nat by lia. by rewrite <- !drop_drop, Hd.
Qed.

Lemma anchor_lengths c size chunk a :
  content_anchor (Some c) size chunk = Some a -> 0 <= size -> 0 <= chunk ->
  let span := anchor_span size chunk in
  Z.of_nat (length (take (Z.to_nat span) c)) = span /\
  Z.of_nat (length (take (Z.to_nat span) (drop (Z.to_nat (size - span)) c))) = span.
Proof.
  intros Ha Hs Hc. destruct (content_anchor_some _ _ _ _ Ha Hs Hc)
    as (f & head & tail & [= <-] & Hh%read_exact_eq & Ht%read_exact_eq & Hlh & Hlt & _).
  cbv zeta. rewrite Hh in Hlh. rewrite Ht in Hlt. done.
Qed.

(** Equal anchors of one size: the files agree on their first and last chunk,
    and are equal when two chunks cover them. *)
Lemma anchor_binds c0 c1 size chunk0 chunk1 a :
  content_anchor (Some c0) size chunk0 = Some a -> content_anchor (Some c1) size chunk1 = Some a ->
  is_u64 size -> 0 <= chunk0 -> 0 <= chunk1 ->
  let span := anchor_span size chunk0 in
  (anchor_span size chunk1 = span /\
   take (Z.to_nat span) c0 = take (Z.to_nat span) c1 /\
   take (Z.to_nat span) (drop (Z.to_nat (size - span)) c0) =
     take (Z.to_nat span) (drop (Z.to_nat (size - span)) c1) /\
   (Z.of_nat (length c0) = size -> Z.of_nat (length c1) = size -> size <= 2 * chunk0 -> c0 = c1))
  \/ collision_in [anchor_inputs c0 size chunk0; anchor_inputs c1 size chunk1].
Proof.
  intros Ha0 Ha1 Hs Hc0 Hc1 span. pose proof Hs as [Hs0 _].
  destruct (anchor_lengths _ _ _ _ Ha0 Hs0 Hc0) as [Hh0 Ht0]. destruct (anchor_lengths _ _ _ _ Ha1 Hs0 Hc1) as [Hh1 Ht1].
  pose proof (content_anchor_inputs _ _ _ _ Ha0 Hs0 Hc0) as He0.
  pose proof (content_anchor_inputs _ _ _ _ Ha1 Hs0 Hc1) as He1.
  rewrite He0 in He1. apply hex_encode_inj in He1.
  destruct (sha256_eq_or_collision [anchor_inputs c0 size chunk0; anchor_inputs c1 size chunk1]
    (anchor_inputs c0 size chunk0) (anchor_inputs c1 size chunk1)) as [Heq|];
    [set_solver|set_solver|exact He1|left|by right].
  apply anchor_input_inj in Heq as (_ & Hhead & Htail); [|done|done|lia|lia].
  assert (Hspan : anchor_span size chunk1 = span) by (rewrite Hhead in Hh0; unfold span; lia).
  rewrite Hspan in *. fold span in Hh0, Ht0, Hhead, Htail. split; [done|]. split; [done|]. split; [done|].
  intros Hl0 Hl1 Hcover. assert (Hsp : span = Z.min chunk0 size) by done.
  apply (take_drop_cover c0 c1 (Z.to_nat span) (Z.to_nat (size - span))); [lia|done|].
  rewrite !(take_ge (drop _ _)) in Htail by (rewrite length_drop; lia). done.
Qed.

(** ** The search *)

Lemma find_match_some f entries d k s d' :
  find_match_loop f entries d k = (Some s, d') ->
  (exists p c, (p, Some c) ∈ entries /\ from_slice c = Some s) /\ same_dest s k = true /\ same_source s k = true.
Proof.
  revert d. induction entries as [|[p c] entries IH]; intros d Hf; cbn in Hf; [done|].
  destruct (c ≫= from_slice) as [s'|] eqn:Hc.
  - destruct (same_dest s' k) eqn:Hd; [destruct (same_source s' k) eqn:Hs|].
    + injection Hf as <- _. split; [|done]. destruct c as [c|]; [|done]. exists p, c.
      split; [apply list_elem_of_here|exact Hc].
    + apply IH in Hf as [(q & b & ? & ?) ?]. split; [exists q, b; split; [by apply list_elem_of_further|done]|done].
    + apply IH in Hf as [(q & b & ? & ?) ?]. split; [exists q, b; split; [by apply list_elem_of_further|done]|done].
  - apply IH in Hf as [(q & b & ? & ?) ?]. split; [exists q, b; split; [by apply list_elem_of_further|done]|done].
Qed.

(** A resumed upload goes on with the same upload of the same source: the
    state found is one of the readable state files; server, folder, name, path,
    size and modification time are those of this run; and the content anchors
    are present and equal, so (unless the two anchor inputs collide under
    SHA-256) the source the interrupted run read and the source of this run have
    the same first and last chunk, and are the same file when two chunks cover
    it. *)
Theorem resume_same_upload f d k s d' c0 chunk0 c1 chunk1 :
  find_match_in f (Some d) k = (Some s, d') ->
  anchor s = content_anchor (Some c0) (file_size s) chunk0 ->
  k_content_anchor k = content_anchor (Some c1) (k_file_size k) chunk1 ->
  is_u64 (file_size s) -> 0 <= chunk0 -> 0 <= chunk1 ->
  let size := k_file_size k in
  let span := anchor_span size chunk0 in
  (exists p c, (p, Some c) ∈ d /\ from_slice c = Some s) /\
  (server_url s = k_server_url k /\ folder_id s = k_folder_id k /\ name s = k_name k) /\
  (source_path s = k_source_path k /\ file_size s = size /\ file_mtime_unix s = k_file_mtime_unix k) /\
  ((take (Z.to_nat span) c0 = take (Z.to_nat span) c1 /\
    take (Z.to_nat span) (drop (Z.to_nat (size - span)) c0) =
      take (Z.to_nat span) (drop (Z.to_nat (size - span)) c1) /\
    (Z.of_nat (length c0) = size -> Z.of_nat (length c1) = size -> size <= 2 * chunk0 -> c0 = c1))
   \/ collision_in [anchor_inputs c0 size chunk0; anchor_inputs c1 size chunk1]).
Proof.
  unfold find_match_in. destruct (find_match_loop f d d k) as [r d''] eqn:Hf. intros [= -> <-] Ha Hk Hu Hc0 Hc1.
  apply find_match_some in Hf as (Hin & Hd & Hs). cbv zeta. split; [done|].
  unfold same_dest in Hd. unfold same_source, same_content in Hs.
  rewrite !andb_true_iff, !bool_decide_eq_true in Hd. rewrite !andb_true_iff, !bool_decide_eq_true in Hs.
  destruct Hd as [[? ?] ?], Hs as [[[? Hsz] ?] Hcont]. split; [done|]. split; [done|].
  rewrite Hsz in *. destruct (anchor s) as [a|]; [|done].
  destruct (k_content_anchor k) as [b|]; [|done]. apply bool_decide_eq_true in Hcont as ->.
  symmetry in Ha, Hk. destruct (anchor_binds _ _ _ _ _ _ Ha Hk Hu Hc0 Hc1) as [(_ & H1' & H2' & H3')|]; [by left|by right].
Qed.

(** ** What the search leaves *)

Lemma dir_remove_elem d p q c : (q, c) ∈ dir_remove d p <-> (q, c) ∈ d /\ q <> p.
Proof. unfold dir_remove. rewrite list_elem_of_filter. cbn. tauto. Qed.

(** The entry is a state of this destination from another source. *)
Definition stale_entry (k : ResumeKey) (c : option bytes) : Prop :=
  exists s, c ≫= from_slice = Some s /\ same_dest s k = true /\ same_source s k = false.

Lemma try_remove_elem f d p q c :
  (q, c) ∈ try_remove f d p <-> (q, c) ∈ d /\ (q <> p \/ unremovable f p = true).
Proof.
  unfold try_remove. destruct (unremovable f p); [tauto|]. rewrite dir_remove_elem. intuition discriminate.
Qed.

Lemma find_match_keeps f entries d k r d' q c :
  find_match_loop f entries d k = (r, d') -> (q, c) ∈ d ->
  (forall x, (q, x) ∈ entries -> ~ stale_entry k x) -> (q, c) ∈ d'.
Proof.
  revert d. induction entries as [|[p x] entries IH]; intros d Hf Hin Hns; cbn in Hf; [congruence|].
  assert (Htail : forall y, (q, y) ∈ entries -> ~ stale_entry k y).
  { intros y Hy. apply Hns. by apply list_elem_of_further. }
  destruct (x ≫= from_slice) as [s|] eqn:Hx; [|by eapply IH].
  destruct (same_dest s k) eqn:Hd; [|by eapply IH].
  destruct (same_source s k) eqn:Hs; [congruence|].
  eapply IH; [exact Hf| |done]. apply try_remove_elem. split; [done|]. left. intros ->.
  apply (Hns x); [apply list_elem_of_here|]. by exists s.
Qed.

Lemma find_match_subset f entries d k r d' e :
  find_match_loop f entries d k = (r, d') -> e ∈ d' -> e ∈ d.
Proof.
  revert d. induction entries as [|[p x] entries IH]; intros d Hf He; cbn in Hf; [congruence|].
  destruct (x ≫= from_slice) as [s|]; [|by eapply IH].
  destruct (same_dest s k); [|by eapply IH]. destruct (same_source s k); [congruence|].
  destruct e as [q c]. eapply IH in Hf; [|done]. by apply try_remove_elem in Hf as [? _].
Qed.

Lemma find_match_drops entries d k d' p c :
  find_match_loop no_faults entries d k = (None, d') -> (p, c) ∈ entries -> stale_entry k c ->
  forall x, (p, x) ∉ d'.
Proof.
  revert d. induction entries as [|[q y] entries IH]; intros d Hf Hin Hst x Hx; cbn in Hf; [by apply elem_of_nil in Hin|].
  apply elem_of_cons in Hin as [[= <- <-]|Hin].
  - destruct Hst as (s & Hs & Hd & Hns). rewrite Hs, Hd, Hns in Hf.
    eapply find_match_subset in Hf; [|exact Hx].
    apply (try_remove_elem no_faults) in Hf as [_ [?|[=]]]. done.
  - destruct (y ≫= from_slice) as [s|]; [|by eapply IH].
    destruct (same_dest s k); [|by eapply IH]. destruct (same_source s k); [done|by eapply IH].
Qed.

(** The search touches nothing but stale states of its own destination, and a
    search that finds nothing leaves none of them (unless a file cannot be
    removed). *)
Theorem find_match_cleans f d k r d' :
  NoDup (d.*1) -> find_match_in f (Some d) k = (r, Some d') ->
  (forall e, e ∈ d' -> e ∈ d) /\
  (forall p c, (p, c) ∈ d -> ~ stale_entry k c -> (p, c) ∈ d') /\
  (r = None -> f = no_faults -> forall p c, (p, c) ∈ d' -> ~ stale_entry k c).
Proof.
  intros Hnd Hf. unfold find_match_in in Hf. destruct (find_match_loop f d d k) as [r0 d0] eqn:Hl.
  injection Hf as -> ->. split; [intros e; by eapply find_match_subset|]. split.
  - intros p c Hin Hns. eapply find_match_keeps; [done|done|]. intros x Hx.
    by rewrite (NoDup_fmap_fst_eq d p x c Hnd Hx Hin).
  - intros -> -> p c Hin Hst. eapply find_match_drops; [exact Hl| |exact Hst|exact Hin].
    eapply find_match_subset; eassumption.
Qed.

(** The bytes between the first and the last chunk are not part of the anchor:
    two sources of one size that differ only there have the same anchor, so a
    resume that also meets the same path and modification time goes on with
    chunks of one file and chunks of the other. *)
Theorem middle_not_anchored (head m0 m1 tail : bytes) (chunk : Z) :
  Z.of_nat (length head) = chunk -> Z.of_nat (length tail) = chunk -> length m0 = length m1 ->
  let size := 2 * chunk + Z.of_nat (length m0) in
  content_anchor (Some (head ++ m0 ++ tail)) size chunk = content_anchor (Some (head ++ m1 ++ tail)) size chunk.
Proof.
  intros Hh Ht Hm size. unfold content_anchor, read_exact, anchor_span. cbn [mbind option_bind].
  rewrite Z.min_l by lia. rewrite !bool_decide_eq_true_2 by (rewrite !length_app; lia).
  cbn [mbind option_bind]. rewrite !drop_0.
  rewrite Z.max_r by lia.
  replace (Z.to_nat chunk) with (length head) by lia. rewrite !take_app_length.
  replace (Z.to_nat (size - chunk)) with (length head + length m0)%nat by lia.
  rewrite <- !drop_drop, !drop_app_length, Hm. by rewrite drop_app_length.
Qed.

End Code.

(** A concrete state file and a source of two chunks. *)
Module UploadToy.
Import Toy.

Definition src : bytes := str_bytes "abcd".
Definition toy_anchor : option string := Eval vm_compute in content_anchor (Some src) 4 2.
Definition st : UploadState :=
  mk_UploadState "f1" "u1" "https://s" "d1" "d1" "a.txt" "/a.txt" 4 7 2 2 toy_anchor None None.
Definition key_of (s : UploadState) : ResumeKey :=
  mk_ResumeKey (server_url s) (folder_id s) (name s) (source_path s) (file_size s) (file_mtime_unix s) (anchor s).

#[export] Instance spec_float_eq_dec : EqDecision spec_float.
Proof. solve_decision. Defined.
#[export] Instance UploadState_eq_dec : EqDecision UploadState.
Proof. solve_decision. Defined.

#[export] Program Instance state_text_toy : StateText := {
  to_vec_pretty s := if decide (s = st) then Ok (str_bytes "st") else Err "unknown";
  from_slice b := if decide (b = str_bytes "st") then Some st else None;
}.
Next Obligation.
  cbn. intros s b. destruct (decide (s = st)) as [->|]; [|done]. intros [= <-].
  exists st. split; [by vm_compute|done].
Qed.

Definition toy_dir : dir := [("other.json", Some []); ("f1.json", Some (str_bytes "st"))].

End UploadToy.

Import Toy UploadToy.
Lemma resume_same_upload_witness :
  (exists (p : string) (c : bytes), (p, Some c) ∈ UploadToy.toy_dir /\ from_slice c = Some UploadToy.st) /\
  anchor UploadToy.st = k_content_anchor (UploadToy.key_of UploadToy.st).
Proof.
  split; [|reflexivity].
  apply (resume_same_upload no_faults UploadToy.toy_dir (UploadToy.key_of UploadToy.st) UploadToy.st
           (Some UploadToy.toy_dir) UploadToy.src 2 UploadToy.src 2).
  - vm_compute. reflexivity.
  - vm_compute. reflexivity.
  - vm_compute. reflexivity.
  - vm_compute. split; discriminate.
  - lia.
  - lia.
Defined.

End UploadState.
