(* ===== verification/Transfer.v ===== *)
(** * Transfer plans and attempts

    The pieces of an upload and of a download that are functions of their
    inputs: the chunk plan, the capacity check and the ranges of
    [cli/src/commands.rs], and the attempt loops of [cli/src/http.rs] with the
    answers of the object store as their input. *)

From S2P Require Import Prelude Prims CryptoCore Text Envelope CliError Float64 Governor.

Module Transfer.
Import Envelope Governor.

Definition DEFAULT_CHUNK_SIZE : Z := 16 * 1024 * 1024.
Definition MAX_PARTS : Z := 10000.
Definition MIN_MULTIPART_CHUNK_SIZE : Z := 5 * 1024 * 1024.
Definition CLI_MAX_UPLOAD_PREPARE_AHEAD : Z := 4.
Definition CLI_MAX_UPLOAD_CONCURRENCY : Z := 8.
Definition CLI_MAX_DOWNLOAD_CONCURRENCY : Z := 8.
Definition PRESIGNED_STALE_REFRESH_BUDGET : Z := 3.
Definition DOWNLOAD_ATTEMPTS : nat := 3.

(** ** Plans *)

(** [n as i32] and [n as u32] of a wider integer. *)
Definition i32_wrap (z : Z) : Z := (z + 2 ^ 31) mod 2 ^ 32 - 2 ^ 31.
Definition u32_wrap (z : Z) : Z := z mod 2 ^ 32.

(** The command refuses a zero chunk size before, so [div_ceil] does not panic. *)
Definition check_chunk_size (chunk_size : Z) : cliresult unit :=
  guard negb ((chunk_size =? 0) || (2 ^ 31 - 1 <? chunk_size)) else
    invalid_args "--chunk-size must be between 1 and 2147483647 bytes" ;;
  Ok tt.

Definition div_ceil_u64 (a b : Z) : Z := if a mod b =? 0 then a / b else a / b + 1.

Definition chunk_plan (file_size chunk_size : Z) : cliresult (Z * Z) :=
  let chunk_count := if file_size =? 0 then 1 else div_ceil_u64 file_size chunk_size in
  guard negb (MAX_PARTS <? chunk_count) else
    invalid_args ("file needs " +:+ pretty chunk_count +:+ " chunks at chunk_size " +:+ pretty chunk_size
      +:+ "; the max is " +:+ pretty MAX_PARTS +:+ ". Use a larger --chunk-size") ;;
  let declared_size := i64_wrap (i64_wrap file_size + chunk_count * MULTIPART_CHUNK_OVERHEAD) in
  Ok (i32_wrap chunk_count, declared_size).

Definition capacity_refusal (declared_size : Z) (ceiling remaining : option Z) : option string :=
  let over := match ceiling with Some c => c <? declared_size | None => false end in
  if over then
    Some ("file is too large: it stores as " +:+ pretty declared_size +:+ " bytes, over the server's "
      +:+ pretty (default 0 ceiling) +:+ "-byte single-file limit")
  else
    match remaining with
    | None => None
    | Some remaining =>
        if remaining <? declared_size then
          Some ("not enough storage: this upload needs " +:+ pretty declared_size +:+ " bytes but only "
            +:+ pretty remaining +:+ " of the account's pooled quota is available; free space, or ask your Guardian to move to a larger plan")
        else None
    end.

(** [quota] is the answer of [/v1/me/quota], [Err] when the read failed. *)
Definition preflight_capacity (me : value) (quota : cliresult value) (declared_size : Z) : cliresult unit :=
  let ceiling := get_i64 me "max_upload_size_bytes" in
  let remaining :=
    quota ← ok_opt quota;
    used ← get_i64 quota "bytes_used";
    limit ← get_i64 quota "bytes_quota";
    Some (Z.max 0 (i64_wrap (limit - used))) in
  match capacity_refusal declared_size ceiling remaining with
  | Some message => Err (insufficient_storage message)
  | None => Ok tt
  end.

Definition check_multipart_floor (chunk_count chunk_size : Z) : cliresult unit :=
  guard negb ((1 <? chunk_count) && (chunk_size <? MIN_MULTIPART_CHUNK_SIZE)) else
    invalid_args ("--chunk-size " +:+ pretty chunk_size +:+ " is below the " +:+ pretty MIN_MULTIPART_CHUNK_SIZE
      +:+ "-byte (5 MiB) minimum that object storage requires for multi-part uploads; this file needs "
      +:+ pretty chunk_count +:+ " parts (use a larger --chunk-size; only a single-part upload may go below the minimum)") ;;
  Ok tt.

Definition governor_i64 (response : value) (k : string) : option Z :=
  value_get response "governor" ≫= (fun g => get_i64 g k).

Definition upload_prepare_ahead (response : value) : Z :=
  clampZ 0 CLI_MAX_UPLOAD_PREPARE_AHEAD (default 0 (governor_i64 response "upload_prepare_ahead")).
Definition upload_concurrency (response : value) : Z :=
  clampZ 1 CLI_MAX_UPLOAD_CONCURRENCY (default 1 (governor_i64 response "concurrency_upload")).
Definition download_concurrency (served : option Z) : Z :=
  Z.max 1 (clampZ 1 CLI_MAX_DOWNLOAD_CONCURRENCY (default 1 served)).

Definition part_fields (part : value) : cliresult (Z * string) :=
  let*! part_number := get_i64 part "part_number" else invalid_data "part url missing part_number" in
  let*! url := get_str part "url" else invalid_data "part url missing url" in
  Ok (i32_wrap part_number, url).

(** [part_urls.iter().map(part_fields).collect::<Result<_>>()]. *)
Fixpoint planned (part_urls : list value) : cliresult (list (Z * string)) :=
  match part_urls with
  | [] => Ok []
  | p :: rest => let*? f := part_fields p in let*? fs := planned rest in Ok (f :: fs)
  end.

(** The stored ranges of the chunks, both ends included; [u64] arithmetic. *)
Definition chunk_ranges (multipart_chunks chunk_size size_bytes : Z) : list (Z * Z) :=
  let on_disk := u64_wrap (chunk_size + MULTIPART_CHUNK_OVERHEAD) in
  let last := Z.max 0 (size_bytes - 1) in
  (fun i : nat =>
     let start := u64_wrap (Z.of_nat i * on_disk) in
     let end_ := if Z.of_nat i <? multipart_chunks - 1 then u64_wrap (start + on_disk - 1) else last in
     (start, end_)) <$> seq 0 (Z.to_nat multipart_chunks).

(** The flag and the counter it updates. *)
Definition presigned_refresh_decision (progressed : bool) (stale_refreshes : Z) : bool * Z :=
  if progressed then (true, 0)
  else let stale := stale_refreshes + 1 in (stale <? PRESIGNED_STALE_REFRESH_BUDGET, stale).

(** ** Reading the source *)

(** The source file of an upload, and how its calls behave: the error of [open],
    the error of the seek of a part, and what each [read] of a part gives, an
    error or at most so many bytes (a short read).  Past the list, a read gives
    all that is asked for. *)
Record source := mk_source {
  in_path : string;
  open_error : option string;
  contents : bytes;
  seek_error : Z -> option string;
  reads : Z -> list (result string nat);
}.

(** The loop of [fill_chunk]: [rest] is the file from the cursor on, [want] the
    room left in the buffer.  Every round but the last fills at least one byte,
    so [want + 1] rounds are enough. *)
Fixpoint fill_chunk_loop (fuel : nat) (rs : list (result string nat)) (rest : bytes) (want : nat)
    : cliresult bytes :=
  match fuel with
  | O => Ok []
  | S fuel =>
      if decide (want = 0)%nat then Ok []
      else
        match rs with
        | Err e :: _ => Err (input_read ("reading input: " +:+ e))
        | _ =>
            let n := match rs with
                     | Ok cap :: _ => Nat.min (Nat.max 1 cap) (Nat.min want (length rest))
                     | _ => Nat.min want (length rest)
                     end in
            if decide (n = 0)%nat then Ok []
            else
              let*? more := fill_chunk_loop fuel (tail rs) (drop n rest) (want - n) in
              Ok (take n rest ++ more)
        end
  end.
Definition fill_chunk (rs : list (result string nat)) (rest : bytes) (want : nat) : cliresult bytes :=
  fill_chunk_loop (S want) rs rest want.

(** Short reads do not matter: without an error the buffer holds what the file
    has at the cursor, up to its size. *)
Lemma fill_chunk_loop_ok fuel rs rest want b :
  (want < fuel)%nat -> fill_chunk_loop fuel rs rest want = Ok b -> b = take want rest.
Proof.
  revert rs rest want b. induction fuel as [|fuel IH]; intros rs rest want b Hf Hb; [lia|].
  cbn in Hb. case_decide as Hw; [subst; injection Hb as <-; by rewrite take_0|].
  assert (Hread : forall n, (n <= want)%nat -> (n <= length rest)%nat ->
    ((n = 0)%nat -> rest = []) ->
    (if decide (n = 0)%nat then Ok []
     else let*? more := fill_chunk_loop fuel (tail rs) (drop n rest) (want - n) in Ok (take n rest ++ more)) = Ok b ->
    b = take want rest).
  { intros n Hn Hl Hz. destruct (decide (n = 0)%nat) as [Hn0|Hn0].
    - intros Hok. apply (inj Ok) in Hok as <-. rewrite (Hz Hn0), take_nil. reflexivity.
    - clear Hb. destruct (fill_chunk_loop fuel (tail rs) (drop n rest) (want - n)) as [more|] eqn:Hm; [|discriminate].
      intros Hok. apply (inj Ok) in Hok as <-.
      apply IH in Hm as ->; [|lia]. replace want with (n + (want - n))%nat at 2 by lia.
      by rewrite take_take_drop. }
  assert (Hz : forall n, n = Nat.min want (length rest) -> (n = 0)%nat -> rest = []).
  { intros n -> Hn. apply nil_length_inv. lia. }
  destruct rs as [|[cap|e] rs]; [| |done].
  - apply (Hread (Nat.min want (length rest))); [lia|lia|by apply Hz|exact Hb].
  - apply (Hread (Nat.min (Nat.max 1 cap) (Nat.min want (length rest)))); [lia|lia| |exact Hb].
    intros Hn. apply (Hz (Nat.min want (length rest))); [done|lia].
Qed.

Lemma fill_chunk_ok rs rest want b : fill_chunk rs rest want = Ok b -> b = take want rest.
Proof. apply fill_chunk_loop_ok. lia. Qed.

(** Without a read error the loop gives a chunk. *)
Lemma fill_chunk_loop_total fuel rs rest want :
  Forall (fun r => is_ok r = true) rs -> exists b, fill_chunk_loop fuel rs rest want = Ok b.
Proof.
  revert rs rest want. induction fuel as [|fuel IH]; intros rs rest want Hrs; [by eexists|].
  cbn. case_decide; [by eexists|]. destruct rs as [|r rs].
  - case_decide; [by eexists|]. edestruct IH as [b Hb]; [exact Hrs|]. cbn in Hb. rewrite Hb. by eexists.
  - apply Forall_cons in Hrs as [Hr Hrs]. destruct r as [cap|e]; [|done].
    case_decide; [by eexists|]. edestruct IH as [b Hb]; [exact Hrs|]. cbn. rewrite Hb. by eexists.
Qed.

Lemma fill_chunk_total rs rest want :
  Forall (fun r => is_ok r = true) rs -> fill_chunk rs rest want = Ok (take want rest).
Proof.
  intros Hrs. destruct (fill_chunk_loop_total (S want) rs rest want Hrs) as [b Hb].
  unfold fill_chunk. rewrite Hb. by rewrite (fill_chunk_ok rs rest want b).
Qed.

Section Parts.
Context `{AesGcm, Hkdf}.

(** One part: seek, fill the buffer, seal.  The index is the [i32] part number
    less one, cast to [u32]; the offset is a [u64]. *)
Definition part_index (part_number : Z) : Z := u32_wrap (i32_wrap (part_number - 1)).

Definition prepare_part (src : source) (dek file_id : bytes) (chunk_size chunk_count : Z) (p : Z * string)
    : cliresult (Z * string * bytes) :=
  let index := part_index p.1 in
  match seek_error src p.1 with
  | Some e => Err (input_read ("seeking input: " +:+ e))
  | None =>
      let offset := u64_wrap (index * chunk_size) in
      let*? chunk := fill_chunk (reads src p.1) (drop (Z.to_nat offset) (contents src)) (Z.to_nat chunk_size) in
      let*? envelope :=
        map_err (fun _ => encryption_failed "chunk encryption failed")
          (seal_chunk dek file_id index chunk_count chunk) in
      Ok (p.1, p.2, envelope)
  end.

End Parts.

(** ** Attempts *)

Definition network : string -> CliError := cli_new 31 "network_error".
Definition presigned_rejected : string -> CliError := cli_new 31 "presigned_rejected".

Record TransferKnobs := mk_TransferKnobs {
  attempts : Z;
  stall_timeout : Duration;
  sndbuf_bytes : Z;
}.
Definition default_transfer_knobs : TransferKnobs := mk_TransferKnobs 10 (from_secs 15) (1024 * 1024).

Definition transfer_knobs (response : value) : TransferKnobs :=
  mk_TransferKnobs
    (match get_i64 response "part_retry_attempts" with
     | Some v => clampZ 1 100 v | None => attempts default_transfer_knobs end)
    (match get_i64 response "stall_timeout_seconds" with
     | Some v => from_secs (clampZ 5 300 v) | None => stall_timeout default_transfer_knobs end)
    (match governor_i64 response "sndbuf_bytes" with
     | Some v => clampZ (256 * 1024) (8 * 1024 * 1024) v | None => sndbuf_bytes default_transfer_knobs end).

Definition refuse_write_if_read_only (read_only : bool) (method : string) : cliresult unit :=
  guard negb read_only else
    generic ("internal: a " +:+ method +:+ " inside an epoch-bound attempt, which may run twice; refusing the write") ;;
  Ok tt.

Definition redact (url : string) : string :=
  match split_once (Ascii.ascii_of_byte Byte.x3f) url with
  | Some (head, _) => head +:+ "?<redacted>"
  | None => url
  end.

(** The upper end of the random wait before an attempt, in milliseconds; the wait
    is [OsRng] modulo it. *)
Definition transfer_backoff_cap (attempt : Z) : Z :=
  if attempt <=? 2 then 0 else Z.min 10000 (1000 * Z.shiftl 1 (Z.min 3 (attempt - 3))).

Definition relax_ceiling (c : Duration) : Duration := Z.min (c * 2) (from_secs 86400).

(** What the bucket transport answers to one attempt: a status with the [ETag]
    and the start of the body as text, or an error of the connection. *)
Inductive answer :=
| Answered (status : Z) (etag : option string) (body : bytes) (detail : string)
| Broken (e : CliError).

Definition is_5xx (status : Z) : bool := (500 <=? status) && (status <? 600).

(** [more] attempts remain; [store n c] is the answer to attempt [n] under the
    ceiling [c].  The ceilings of the attempts made are returned too. *)
Fixpoint put_attempts (store : nat -> option Duration -> answer) (url : string) (total : Z)
    (more attempt : nat) (ceiling : option Duration) (last_error : string)
    : cliresult string * list (option Duration) :=
  match more with
  | O =>
      (Err (transfer_stalled ("part transfer failed after " +:+ pretty total
         +:+ " attempts on fresh connections (" +:+ last_error
         +:+ "): a bad network window between this host and object storage; the upload is preserved: re-run the same command to resume")), [])
  | S more =>
      match store attempt ceiling with
      | Answered status etag body detail =>
          if (status =? 200) || (status =? 204) then
            (match etag with
             | Some etag => Ok etag
             | None => Err (network "pre-signed PUT response is missing an ETag header")
             end, [ceiling])
          else if is_5xx status then
            let '(r, cs) := put_attempts store url total more (S attempt) ceiling
                              ("storage answered HTTP " +:+ pretty status) in
            (r, ceiling :: cs)
          else
            (Err (network ("pre-signed PUT to " +:+ redact url +:+ " returned HTTP " +:+ pretty status
               +:+ ": " +:+ detail)), [ceiling])
      | Broken e =>
          let next := if bool_decide (code e = "transfer_stalled") then relax_ceiling <$> ceiling else ceiling in
          let '(r, cs) := put_attempts store url total more (S attempt) next (message e) in
          (r, ceiling :: cs)
      end
  end.

Definition put_presigned (read_only : bool) (store : nat -> option Duration -> answer) (url : string)
    (k : TransferKnobs) (ceiling : option Duration) : cliresult string * list (option Duration) :=
  match refuse_write_if_read_only read_only "PUT" with
  | Err e => (Err e, [])
  | Ok _ => put_attempts store url (attempts k) (Z.to_nat (attempts k)) 1 ceiling EmptyString
  end.

(** [store n pooled] is the answer to attempt [n] of a ranged read; [pooled] says
    whether a kept connection is offered. *)
Fixpoint get_attempts (store : nat -> bool -> answer) (url : string) (pool : bool)
    (more attempt : nat) (last_error : string) : cliresult bytes :=
  match more with
  | O => Err (network ("pre-signed GET from storage failed after " +:+ pretty DOWNLOAD_ATTEMPTS
                +:+ " attempts (" +:+ last_error +:+ ")"))
  | S more =>
      match store attempt (pool && bool_decide (attempt = 1)%nat) with
      | Answered status etag body detail =>
          if (status =? 200) || (status =? 206) then Ok body
          else if is_5xx status then
            get_attempts store url pool more (S attempt) ("storage answered HTTP " +:+ pretty status)
          else if status =? 403 then
            Err (presigned_rejected ("storage rejected the pre-signed URL (HTTP 403; likely expired): " +:+ detail))
          else
            Err (network ("pre-signed GET from " +:+ redact url +:+ " returned HTTP " +:+ pretty status
                   +:+ ": " +:+ detail))
      | Broken e => get_attempts store url pool more (S attempt) (message e)
      end
  end.
Definition get_presigned_range (store : nat -> bool -> answer) (url : string) (pool : bool) : cliresult bytes :=
  get_attempts store url pool DOWNLOAD_ATTEMPTS 1 EmptyString.

(** ** Lemmas on plans *)

Lemma div_ceil_spec a b : 0 < a -> 0 < b ->
  1 <= div_ceil_u64 a b /\ (div_ceil_u64 a b - 1) * b < a <= div_ceil_u64 a b * b.
Proof.
  intros Ha Hb. unfold div_ceil_u64. pose proof (Z.div_mod a b ltac:(lia)) as Hd.
  pose proof (Z.mod_pos_bound a b Hb). pose proof (Z.div_pos a b ltac:(lia) Hb).
  destruct (Z.eqb_spec (a mod b) 0); nia.
Qed.

Lemma i32_wrap_id z : - 2 ^ 31 <= z < 2 ^ 31 -> i32_wrap z = z.
Proof. intros Hz. unfold i32_wrap. rewrite Z.mod_small; lia. Qed.

(** What an accepted plan says. *)
Lemma chunk_plan_ok size chunk n declared :
  0 <= size < 2 ^ 62 -> 0 < chunk <= 2 ^ 31 - 1 -> chunk_plan size chunk = Ok (n, declared) ->
  1 <= n <= MAX_PARTS /\ (n - 1) * chunk <= size <= n * chunk /\ (1 < n -> (n - 1) * chunk < size) /\
  declared = size + n * MULTIPART_CHUNK_OVERHEAD.
Proof.
  unfold chunk_plan, MAX_PARTS. intros Hs Hc Hp.
  set (cnt := if size =? 0 then 1 else div_ceil_u64 size chunk) in Hp.
  assert (Hcnt : 1 <= cnt /\ (cnt - 1) * chunk <= size <= cnt * chunk /\ (1 < cnt -> (cnt - 1) * chunk < size)).
  { unfold cnt. destruct (Z.eqb_spec size 0); [lia|]. destruct (div_ceil_spec size chunk); [lia|lia|]. lia. }
  clearbody cnt. destruct (Z.ltb_spec 10000 cnt); cbn [negb] in Hp; [done|].
  rewrite i32_wrap_id in Hp by lia. unfold i64_wrap, MULTIPART_CHUNK_OVERHEAD in Hp.
  rewrite (Z.mod_small (size + 2 ^ 63)), Z.mod_small in Hp by lia.
  apply (inj Ok) in Hp. injection Hp as <- <-. unfold MULTIPART_CHUNK_OVERHEAD. lia.
Qed.

Lemma chunk_ranges_lookup n chunk size i :
  (i < Z.to_nat n)%nat -> 0 <= chunk -> n * (chunk + MULTIPART_CHUNK_OVERHEAD) < 2 ^ 63 -> 1 <= n ->
  chunk_ranges n chunk size !! i =
  Some (Z.of_nat i * (chunk + MULTIPART_CHUNK_OVERHEAD),
        if Z.of_nat i <? n - 1 then (Z.of_nat i + 1) * (chunk + MULTIPART_CHUNK_OVERHEAD) - 1 else Z.max 0 (size - 1)).
Proof.
  intros Hi Hc Hb Hn. unfold chunk_ranges. rewrite list_lookup_fmap, lookup_seq_lt by done. cbn [fmap option_fmap option_map].
  unfold MULTIPART_CHUNK_OVERHEAD in *. rewrite !Nat.add_0_l.
  assert (Hw : u64_wrap (chunk + 34) = chunk + 34) by (apply Z.mod_small; nia). rewrite Hw.
  assert (Hw' : u64_wrap (Z.of_nat i * (chunk + 34)) = Z.of_nat i * (chunk + 34)) by (apply Z.mod_small; nia).
  rewrite Hw'. do 2 f_equal. destruct (Z.ltb_spec (Z.of_nat i) (n - 1)); [|done].
  unfold u64_wrap. rewrite Z.mod_small by nia. lia.
Qed.

(** ** Lemmas on attempts *)

(** The answers after which the loop tries again. *)
Definition retryable (a : answer) : bool :=
  match a with
  | Answered status _ _ _ => negb ((status =? 200) || (status =? 204)) && is_5xx status
  | Broken _ => true
  end.
(** The ceiling of the next attempt. *)
Definition next_ceiling (a : answer) (c : option Duration) : option Duration :=
  match a with
  | Broken e => if bool_decide (code e = "transfer_stalled") then relax_ceiling <$> c else c
  | _ => c
  end.

(** The ceilings of the attempts form a chain. *)
Fixpoint ceiling_chain (store : nat -> option Duration -> answer) (n : nat) (c : option Duration)
    (cs : list (option Duration)) : Prop :=
  match cs with
  | [] => True
  | c' :: cs => c' = c /\ (cs <> [] -> retryable (store n c) = true) /\
                ceiling_chain store (S n) (next_ceiling (store n c) c) cs
  end.

Lemma put_attempts_chain store url total left n c e :
  ceiling_chain store n c (put_attempts store url total left n c e).2 /\
  (length (put_attempts store url total left n c e).2 <= left)%nat.
Proof.
  revert n c e. induction left as [|left IH]; intros n c e; cbn; [done|].
  destruct (store n c) as [status etag body detail|er] eqn:Hs.
  - destruct ((status =? 200) || (status =? 204)) eqn:Hok; [cbn; rewrite Hs; cbn; split; [done|lia]|].
    destruct (is_5xx status) eqn:H5; [|cbn; split; [done|lia]].
    specialize (IH (S n) c ("storage answered HTTP " +:+ pretty status)).
    destruct (put_attempts _ _ _ _ _ _ _) as [r cs]; cbn in *. rewrite Hs. cbn. rewrite Hok, H5. cbn.
    destruct IH. split; [done|lia].
  - specialize (IH (S n) (if bool_decide (code er = "transfer_stalled") then relax_ceiling <$> c else c) (message er)).
    destruct (put_attempts _ _ _ _ _ _ _) as [r cs]; cbn in *. rewrite Hs. cbn. destruct IH. split; [done|lia].
Qed.

(** The error of an upload that ran out of attempts is [transfer_stalled], and the
    loop gives it only when every attempt was retryable. *)
Lemma put_attempts_stalled store url total left n c e m :
  (put_attempts store url total left n c e).1 = Err m -> code m = "transfer_stalled" ->
  length (put_attempts store url total left n c e).2 = left.
Proof.
  revert n c e. induction left as [|left IH]; intros n c e; cbn; [done|].
  destruct (store n c) as [status etag body detail|er] eqn:Hs.
  - destruct ((status =? 200) || (status =? 204)).
    { cbn. destruct etag; [done|]. by intros [= <-]. }
    destruct (is_5xx status); [|cbn; by intros [= <-]].
    specialize (IH (S n) c ("storage answered HTTP " +:+ pretty status)).
    destruct (put_attempts _ _ _ _ _ _ _) as [r cs]; cbn in *. intros Hr Hc. by rewrite IH.
  - specialize (IH (S n) (if bool_decide (code er = "transfer_stalled") then relax_ceiling <$> c else c) (message er)).
    destruct (put_attempts _ _ _ _ _ _ _) as [r cs]; cbn in *. intros Hr Hc. by rewrite IH.
Qed.

End Transfer.
