(* ===== verification/Http.v ===== *)
(** * Requests to the API server ([cli/src/http.rs])

    The public, the unsigned and the signed requests with their retries, the
    mapping of the server's refusals to the errors of the command line, and the
    guard that refuses writes in an attempt that may run twice.  ureq, the clock
    and the random generator are the environment [E]; the keystore is any state
    with the trait of [Keystore].  The world records the requests sent and the
    waits, which the theorems read; the update hint printed on a response and the
    text of lower-level errors are left out. *)

From S2P Require Import Prelude Prims CryptoCore Text SignedBytes CliError Keystore SoftKeystore Delegated GrantStatus Anchors Transfer.
Import TransLog Attest Signing Transfer.

Record HttpReq := mk_HttpReq
  { hr_method : string; hr_url : string; hr_headers : list (string * string); hr_body : option bytes }.

(** ureq's call, [SystemTime::now] in seconds ([None] before the epoch), and
    [OsRng.fill_bytes] of 16 bytes. *)
Class HttpEnv (E : Type) := {
  he_call : E -> HttpReq -> UreqResult * E;
  he_now : E -> option Z * E;
  he_fill : E -> bytes * E;
  he_fill_length e : length (he_fill e).1 = 16%nat;
}.

Record World (St E : Type) := mk_World
  { w_ks : St; w_env : E; w_read_only : bool; w_sent : list HttpReq; w_slept : list Z }.
Arguments mk_World {St E} _ _ _ _ _.
Arguments w_ks {St E} _.
Arguments w_env {St E} _.
Arguments w_read_only {St E} _.
Arguments w_sent {St E} _.
Arguments w_slept {St E} _.

Definition MAX_RETRIES : nat := 3.
Definition REQUEST_MLDSA_CTX : bytes := str_bytes "signet:req:v1".

(** [x := r?] where [r] also changes the world [w]. *)
Notation "'do?' x ':=' r 'on' w 'in' k" :=
  (match r with (Ok x, w) => k | (Err e, w) => (Err e, w) end)
  (at level 10, x name, r at level 100, w name, k at level 200) : rust_scope.

Section Code.
Context `{HJ : JsonText, HS : Sha256, HX : Hex, HB : Base64Url}.
Context {St E : Type} `{HK : Keystore St, HE : HttpEnv E}.
Context (CLI_VERSION : string).
Abbreviation W := (World St E).

(** ** Errors *)

Definition epoch_refusal (code : Z) (body : string) : option CliError :=
  doc ← ok_opt (json_from_str body);
  error ← value_get doc "error";
  name ← get_str error "code";
  if (code =? 410) && bool_decide (name = "epoch_retired")
     || (code =? 404) && bool_decide (name = "epoch_unknown") then
    let message := default name (get_str error "message") in
    Some (epoch_changed ("the server's epoch changed during this command (" +:+ name +:+ ": "
            +:+ message +:+ "); nothing was bound, run it again"))
  else None.

Definition api_status_error (code : Z) (body : string) : CliError :=
  match epoch_refusal code body with
  | Some refusal => refusal
  | None =>
      if code =? 401 then
        authentication_failed ("the server did not accept the request's authentication (HTTP 401): " +:+ body)
      else if code =? 403 then
        authorization_denied ("the server refused the request (HTTP 403): " +:+ body)
      else if code =? 404 then
        not_found ("the server reported the resource does not exist (HTTP 404): " +:+ body)
      else if code =? 409 then
        conflict ("the request conflicts with the current state (HTTP 409): " +:+ body)
      else network ("server returned HTTP " +:+ pretty code +:+ ": " +:+ body)
  end.

(** ** Attempts *)

(** Seconds before the attempt after number [attempt]. *)
Definition backoff (attempt : Z) : Z := Z.shiftl 1 (attempt - 1).

Definition send (req : HttpReq) (w : W) : UreqResult * W :=
  let '(r, e) := he_call (w_env w) req in
  (r, mk_World (w_ks w) e (w_read_only w) (w_sent w ++ [req]) (w_slept w)).

Definition sleep (secs : Z) (w : W) : W :=
  mk_World (w_ks w) (w_env w) (w_read_only w) (w_sent w) (w_slept w ++ [secs]).

(** The outcomes that are tried again while attempts remain. *)
Definition transient (r : UreqResult) : bool :=
  match r with
  | UreqOk _ _ => false
  | UreqStatus code _ => is_5xx code
  | UreqTransport => true
  end.

(** What the caller gets of an outcome that is not tried again. *)
Definition conclude (url : string) (r : UreqResult) : cliresult string :=
  match r with
  | UreqOk _ (Some text) => Ok text
  | UreqOk _ None => Err (network "reading response body")
  | UreqStatus code body =>
      let body := default EmptyString body in
      if code =? 400 then
        if contains body "cli_outdated" then
          Err (cli_new 16 "cli_outdated"
                 "this CLI version is no longer accepted; run 'signet update' to upgrade")
        else Err (invalid_data ("server rejected the request: " +:+ body))
      else Err (api_status_error code body)
  | UreqTransport => Err (network ("request to " +:+ url +:+ " failed"))
  end.

(** The loop of the three request families: [once] makes and sends one attempt,
    [more] retries remain after it. *)
Fixpoint attempt_loop (once : W -> cliresult UreqResult * W) (url : string) (more : nat) (attempt : Z)
    (w : W) : cliresult string * W :=
  do? r := once w on w in
  match more with
  | S more =>
      if transient r then
        attempt_loop once url more (attempt + 1) (sleep (backoff (attempt + 1)) w)
      else (conclude url r, w)
  | O => (conclude url r, w)
  end.

Definition send_ok (req : HttpReq) (w : W) : cliresult UreqResult * W :=
  let '(r, w) := send req w in (Ok r, w).

(** [serde_json::from_str] of an answer. *)
Definition parsed (x : cliresult string * W) : cliresult value * W :=
  (match x.1 with
   | Ok text => map_err (fun _ => invalid_data "server returned invalid JSON") (json_from_str text)
   | Err e => Err e
   end, x.2).

(** ** Public and unsigned requests *)

Definition version_header : string * string := ("Signet-Cli-Version", CLI_VERSION).

Definition get_text (url : string) (headers : list (string * string)) (w : W) : cliresult string * W :=
  attempt_loop (send_ok (mk_HttpReq "GET" url (version_header :: headers) None)) url MAX_RETRIES 0 w.

Definition get_json (url : string) (headers : list (string * string)) (w : W) : cliresult value * W :=
  parsed (get_text url headers w).

(** One attempt; a refusal is mapped as it is, also a 400. *)
Definition get_text_once (url : string) (w : W) : cliresult string * W :=
  let '(r, w) := send (mk_HttpReq "GET" url [version_header] None) w in
  (match r with
   | UreqOk _ (Some text) => Ok text
   | UreqOk _ None => Err (network "reading response body")
   | UreqStatus code body => Err (api_status_error code (default EmptyString body))
   | UreqTransport => Err (network ("request to " +:+ url +:+ " failed"))
   end, w).

Definition content_type (body : option bytes) : list (string * string) :=
  match body with Some _ => [("Content-Type", "application/json")] | None => [] end.

Definition post_text (url : string) (body : option bytes) (w : W) : cliresult string * W :=
  match refuse_write_if_read_only (w_read_only w) "POST" with
  | Err e => (Err e, w)
  | Ok _ =>
      attempt_loop (send_ok (mk_HttpReq "POST" url (version_header :: content_type body) body))
        url MAX_RETRIES 0 w
  end.

Definition post_json (url : string) (body : option bytes) (w : W) : cliresult value * W :=
  parsed (post_text url body w).

(** ** Signed requests *)

(** An operation of the keystore, in the world. *)
Definition on_ks {A} (f : St -> cliresult A * St) (w : W) : cliresult A * W :=
  let '(r, st) := f (w_ks w) in
  (r, mk_World st (w_env w) (w_read_only w) (w_sent w) (w_slept w)).

Definition on_env {A} (f : E -> A * E) (w : W) : A * W :=
  let '(r, e) := f (w_env w) in
  (r, mk_World (w_ks w) e (w_read_only w) (w_sent w) (w_slept w)).

Definition request_signature (signing : KeyLabel) (canonical : bytes) (w : W) : cliresult bytes * W :=
  match from_handle (handle signing) Keystore.SigningPq with
  | Err e => (Err e, w)
  | Ok pq_label =>
      do? pq := on_ks (fun st => ks_exists st pq_label) w on w in
      if negb pq then on_ks (fun st => ks_sign st signing canonical) w
      else
        do? sig_es := on_ks (fun st => ks_sign st signing canonical) w on w in
        do? sig_pq := on_ks (fun st => ks_ml_dsa_sign st pq_label canonical REQUEST_MLDSA_CTX) w on w in
        if negb (bool_decide (length sig_pq = ML_DSA_87_SIG_LEN)) then
          (Err (generic ("keystore returned a " +:+ pretty (length sig_pq)
                  +:+ "-byte ML-DSA-87 signature (expected 4627)")), w)
        else (Ok (sig_es ++ sig_pq), w)
  end.

Definition auth_headers (signing : KeyLabel) (method path : string) (body : bytes) (w : W)
    : cliresult (list (string * string)) * W :=
  do? meta := on_ks (fun st => ks_meta st signing) w on w in
  let fingerprint := km_fingerprint meta in
  let '(now, w) := on_env he_now w in
  match now with
  | None => (Err (network "system clock is before the unix epoch"), w)
  | Some now =>
      let timestamp := pretty now in
      let '(nonce_bytes, w) := on_env he_fill w in
      let nonce := hex_encode nonce_bytes in
      let canonical := signet_v1_canonical_bytes method path body timestamp nonce fingerprint in
      do? signature := request_signature signing canonical w on w in
      (Ok [("Signet-Timestamp", timestamp); ("Signet-Nonce", nonce);
           ("Signet-Fingerprint", fingerprint); ("Signet-Signature", b64_encode signature)], w)
  end.

Definition known_method (method : string) : bool :=
  bool_decide (method ∈ ["GET"; "POST"; "PATCH"; "DELETE"]%string).

(** One attempt of [signed_call]: new headers, then the request. *)
Definition signed_once (signing : KeyLabel) (method url path : string) (body : option bytes) (w : W)
    : cliresult UreqResult * W :=
  do? headers := auth_headers signing method path (default [] body) w on w in
  if negb (known_method method) then
    (Err (invalid_args ("unsupported signed HTTP method '" +:+ method +:+ "'")), w)
  else send_ok (mk_HttpReq method url (version_header :: headers ++ content_type body) body) w.

Definition signed_call (signing : KeyLabel) (method base_url path : string) (body : option bytes) (w : W)
    : cliresult string * W :=
  match (if decide (method = "GET") then Ok tt
         else refuse_write_if_read_only (w_read_only w) method) with
  | Err e => (Err e, w)
  | Ok _ =>
      let url := base_url +:+ path in
      attempt_loop (signed_once signing method url path body) url MAX_RETRIES 0 w
  end.

Definition get_json_signed (signing : KeyLabel) (base_url path : string) (w : W) : cliresult value * W :=
  parsed (signed_call signing "GET" base_url path None w).
Definition get_text_signed (signing : KeyLabel) (base_url path : string) (w : W) : cliresult string * W :=
  signed_call signing "GET" base_url path None w.
Definition post_json_signed (signing : KeyLabel) (base_url path : string) (body : bytes) (w : W)
    : cliresult value * W :=
  parsed (signed_call signing "POST" base_url path (Some body) w).
Definition post_signed (signing : KeyLabel) (base_url path : string) (w : W) : cliresult string * W :=
  signed_call signing "POST" base_url path None w.
Definition patch_json_signed (signing : KeyLabel) (base_url path : string) (body : bytes) (w : W)
    : cliresult value * W :=
  parsed (signed_call signing "PATCH" base_url path (Some body) w).
Definition delete_signed (signing : KeyLabel) (base_url path : string) (w : W) : cliresult unit * W :=
  on_res (fun _ => tt) (signed_call signing "DELETE" base_url path None w).
Definition delete_json_signed (signing : KeyLabel) (base_url path : string) (body : bytes) (w : W)
    : cliresult value * W :=
  parsed (signed_call signing "DELETE" base_url path (Some body) w).

(** ** The read-only guard *)

Definition set_read_only (b : bool) (w : W) : W :=
  mk_World (w_ks w) (w_env w) b (w_sent w) (w_slept w).

(** [read_only]: the previous value comes back when [f] is left. *)
Definition read_only {A} (f : W -> A * W) (w : W) : A * W :=
  let '(r, w') := f (set_read_only true w) in (r, set_read_only (w_read_only w) w').

End Code.
