(* ===== verification/HttpTheorems.v ===== *)
(** * What the request layer guarantees

    The attempts of a request and the error it ends with; the signed requests,
    each of which is signed for itself; and the guard on the attempts of a command
    that may run twice. *)

From S2P Require Import Prelude Prims CryptoCore Text SignedBytes CliError Keystore SoftKeystore Delegated GrantStatus Anchors Transfer Http.
Import TransLog Attest Signing Transfer.

(** ** The attempts of one request *)

Section Attempts.
Context `{HJ : JsonText, HS : Sha256, HX : Hex, HB : Base64Url}.
Context {St E : Type} `{HK : Keystore St, HE : HttpEnv E}.
Context (CLI_VERSION : string).
Abbreviation W := (World St E).

(** The answers of the environment to a sequence of requests. *)
Fixpoint serve (e : E) (reqs : list HttpReq) : list UreqResult * E :=
  match reqs with
  | [] => ([], e)
  | q :: reqs =>
      let '(r, e) := he_call e q in
      let '(rs, e) := serve e reqs in (r :: rs, e)
  end.

(** Attempts [n] to [m] of the waits 1 s, 2 s, 4 s. *)
Definition waits (attempt : Z) (n : nat) : list Z := map (fun k => backoff (attempt + Z.of_nat k)) (seq 1 n).

Lemma waits_cons attempt n : waits attempt (S n) = backoff (attempt + 1) :: waits (attempt + 1) n.
Proof.
  unfold waits. cbn. f_equal. rewrite <- (seq_shift n 1), map_map. apply map_ext.
  intros k. f_equal. lia.
Qed.

Lemma send_ok_eq req (w : W) r e :
  he_call (w_env w) req = (r, e) ->
  send_ok req w = (Ok r, mk_World (w_ks w) e (w_read_only w) (w_sent w ++ [req]) (w_slept w)).
Proof. unfold send_ok, send. by intros ->. Qed.

Lemma send_loop req url more attempt (w : W) :
  let x := attempt_loop (send_ok req) url more attempt w in
  exists before last e, (length before <= more)%nat /\
    serve (w_env w) (replicate (S (length before)) req) = (before ++ [last], e) /\
    Forall (fun r => transient r = true) before /\
    (transient last = true -> length before = more) /\
    x = (conclude url last, mk_World (w_ks w) e (w_read_only w)
           (w_sent w ++ replicate (S (length before)) req) (w_slept w ++ waits attempt (length before))).
Proof.
  cbv zeta. revert attempt w. induction more as [|more IH]; intros attempt w;
    cbn [attempt_loop]; destruct (he_call (w_env w) req) as [r e] eqn:Ec;
    rewrite (send_ok_eq _ _ _ _ Ec).
  - exists [], r, e. cbn. rewrite Ec, app_nil_r. split_and!; try done; constructor.
  - destruct (transient r) eqn:Et.
    + destruct (IH (attempt + 1) (sleep (backoff (attempt + 1))
        (mk_World (w_ks w) e (w_read_only w) (w_sent w ++ [req]) (w_slept w))))
        as (before & last & e' & Hl & Hs & Hf & Ht & Hx).
      exists (r :: before), last, e'. rewrite Hx. cbn [w_ks w_env w_read_only w_sent w_slept sleep] in *.
      split_and!; [cbn; lia| |by constructor|intros; cbn; f_equal; auto|].
      * change (replicate (S (length (r :: before))) req) with (req :: replicate (S (length before)) req).
        cbn [serve]. rewrite Ec. cbn [sleep w_env] in Hs. by rewrite Hs.
      * cbn [length]. rewrite waits_cons. cbn [replicate]. by rewrite <- !app_assoc.
    + exists [], r, e. cbn. rewrite Ec, app_nil_r. split_and!; try done; try lia; try congruence; constructor.
Qed.

(** ** The errors *)

Lemma epoch_refusal_is_moved c body e : epoch_refusal c body = Some e -> epoch_moved e = true /\ exit_code e = 62.
Proof.
  unfold epoch_refusal. destruct (ok_opt _) as [doc|]; [|done]. cbn [mbind option_bind].
  destruct (value_get doc "error") as [er|]; [|done]. cbn [mbind option_bind].
  destruct (get_str er "code") as [name|]; [|done]. cbn [mbind option_bind].
  case_match; [|done]. by intros [= <-].
Qed.

Lemma epoch_refusal_status c body e : epoch_refusal c body = Some e -> c = 410 \/ c = 404.
Proof.
  unfold epoch_refusal. destruct (ok_opt _) as [doc|]; [|done]. cbn [mbind option_bind].
  destruct (value_get doc "error") as [er|]; [|done]. cbn [mbind option_bind].
  destruct (get_str er "code") as [name|]; [|done]. cbn [mbind option_bind].
  destruct (_ || _)%bool eqn:Eo; [|done]. intros _.
  apply orb_true_iff in Eo as [Eo|Eo]; bool_prop; auto.
Qed.

(** The exit code an outcome stands for. *)
Definition exit_of (r : UreqResult) : option Z :=
  match r with
  | UreqOk _ (Some _) => None
  | UreqOk _ None | UreqTransport => Some 31
  | UreqStatus c body =>
      let body := default EmptyString body in
      Some (if c =? 400 then if contains body "cli_outdated" then 16 else 24
            else if bool_decide (is_Some (epoch_refusal c body)) then 62
            else if c =? 401 then 10 else if c =? 403 then 17 else if c =? 404 then 26
            else if c =? 409 then 27 else 31)
  end.

Lemma api_status_error_exit c body :
  exit_code (api_status_error c body)
  = (if bool_decide (is_Some (epoch_refusal c body)) then 62
     else if c =? 401 then 10 else if c =? 403 then 17 else if c =? 404 then 26
     else if c =? 409 then 27 else 31) /\
  (epoch_moved (api_status_error c body) = bool_decide (is_Some (epoch_refusal c body))).
Proof.
  unfold api_status_error. destruct (epoch_refusal c body) as [e|] eqn:Ee.
  - rewrite bool_decide_true by eauto. by apply epoch_refusal_is_moved in Ee as [-> ->].
  - rewrite bool_decide_false by (by intros [? ?]). by repeat case_match.
Qed.

Lemma conclude_exit url r :
  match conclude url r with
  | Ok text => exists s, r = UreqOk s (Some text)
  | Err e => exit_of r = Some (exit_code e) /\
      (epoch_moved e = true <-> exists c body, r = UreqStatus c body /\
         is_Some (epoch_refusal c (default EmptyString body)))
  end.
Proof.
  destruct r as [s [t|]|c body|]; cbn.
  - eauto.
  - split; [done|]. split; [done|]. by intros (? & ? & ? & ?).
  - destruct (Z.eqb_spec c 400) as [->|Hc].
    + assert (Hn : epoch_refusal 400 (default EmptyString body) = None)
        by (destruct (epoch_refusal 400 _) eqn:E0; [by apply epoch_refusal_status in E0 as [?|?]|done]).
      destruct (contains _ _); cbn; (split; [done|]; split; [done|]);
        intros (c & b & [= <- <-] & [? Hs]); congruence.
    + destruct (api_status_error_exit c (default EmptyString body)) as [E1 E2].
      rewrite E1, E2. split; [done|]. rewrite bool_decide_eq_true. split; [eauto|].
      by intros (? & ? & [= <- <-] & ?).
  - split; [done|]. split; [done|]. by intros (? & ? & ? & ?).
Qed.

(** The contract of a request that is not signed.  Whatever the server does, a
    [get_text] or a permitted [post_text] sends the same request at most four
    times, one, two and four seconds apart, and goes on exactly after a transport
    error or a 5xx; the caller gets the answer to the last attempt.  The exit code
    says which answer that was: 16 a 400 that names an outdated client, 24 any other
    400, 62 a refusal that names the epoch and only that (which is also exactly what
    makes a command try again), 10, 17, 26 and 27 the statuses 401, 403, 404 and
    409, and 31 everything else. *)
Theorem request_contract method url headers body (w : W) :
  let req := mk_HttpReq method url (version_header CLI_VERSION :: headers) body in
  let x := if decide (method = "GET") then get_text CLI_VERSION url headers w
           else post_text CLI_VERSION url body w in
  (method = "GET" /\ body = None \/
   method = "POST" /\ headers = content_type body /\ w_read_only w = false) ->
  exists before last, (length before <= 3)%nat /\
    (serve (w_env w) (replicate (S (length before)) req)).1 = before ++ [last] /\
    w_sent x.2 = w_sent w ++ replicate (S (length before)) req /\
    w_slept x.2 = w_slept w ++ take (length before) [1; 2; 4] /\
    Forall (fun r => transient r = true) before /\
    (transient last = true -> length before = 3%nat) /\
    match x.1 with
    | Ok text => exists s, last = UreqOk s (Some text)
    | Err e => exit_of last = Some (exit_code e) /\
        (epoch_moved e = true <-> exists c body, last = UreqStatus c body /\
           is_Some (epoch_refusal c (default EmptyString body)))
    end.
Proof.
  cbv zeta. intros Hm. set (req := mk_HttpReq _ _ _ _).
  assert (Hx : (if decide (method = "GET") then get_text CLI_VERSION url headers w
                else post_text CLI_VERSION url body w)
             = attempt_loop (send_ok req) url MAX_RETRIES 0 w).
  { destruct Hm as [[-> ->]|(-> & -> & Hr)]; cbn; [done|]. unfold post_text. by rewrite Hr. }
  rewrite Hx. destruct (send_loop req url MAX_RETRIES 0 w) as (before & last & e & Hl & Hs & Hf & Ht & ->).
  exists before, last. rewrite Hs. cbn [fst snd w_sent w_slept]. split_and!; try done.
  - f_equal. unfold MAX_RETRIES in Hl. by destruct before as [|? [|? [|? [|]]]]; cbn in *; try lia.
  - apply conclude_exit.
Qed.

End Attempts.

(** ** Signed requests *)

(** What one attempt puts into its headers. *)
Record Signed := mk_Signed { sg_time : Z; sg_nonce : bytes; sg_fingerprint : string; sg_signature : bytes }.

(** A reading of the clock, or a draw of the generator. *)
Inductive reading := Clock (t : option Z) | Drew (n : bytes).

(** The readings one attempt makes for itself. *)
Definition own_readings (s : Signed) : list reading := [Clock (Some (sg_time s)); Drew (sg_nonce s)].

Definition drawn (rs : list reading) : list bytes :=
  omap (fun r => match r with Drew n => Some n | Clock _ => None end) rs.

Lemma drawn_own l : drawn (concat (map own_readings l)) = map sg_nonce l.
Proof. induction l as [|s l IH]; [done|]. cbn in *. by f_equal. Qed.

Section Signing.
Context `{HJ : JsonText, HS : Sha256, HX : Hex, HB : Base64Url}.
Context {St E : Type} `{HK : Keystore St, !KeystoreTyped St, HE : HttpEnv E}.
Context (CLI_VERSION : string).
Abbreviation W := (World St E).
Context (signing : KeyLabel) (method base_url path : string) (body : option bytes).

(** What the keystore's signatures are good for: [es_valid] and [pq_valid] are
    the verifications under the two keys of the identity, [has_pq] says whether
    it has the second. *)
Context (es_valid : bytes -> bytes -> Prop) (pq_valid : bytes -> bytes -> bytes -> Prop) (has_pq : bool).
Abbreviation pq_label := (mk_KeyLabel (handle signing) Keystore.SigningPq).
Hypothesis sign_valid : forall st m s, (ks_sign st signing m).1 = Ok s -> es_valid m s.
Hypothesis mldsa_valid : forall st m c s, (ks_ml_dsa_sign st pq_label m c).1 = Ok s -> pq_valid m c s.
Hypothesis exists_pq : forall st b, (ks_exists st pq_label).1 = Ok b -> b = has_pq.

(** [readings e]: what the clock and the generator have given so far, in order. *)
Context (readings : E -> list reading).
Hypothesis fill_reads : forall e, readings (he_fill e).2 = readings e ++ [Drew (he_fill e).1].
Hypothesis now_reads : forall e, readings (he_now e).2 = readings e ++ [Clock (he_now e).1].
Hypothesis call_reads : forall e q, readings (he_call e q).2 = readings e.

Definition signed_bytes (s : Signed) : bytes :=
  signet_v1_canonical_bytes method path (default [] body) (pretty (sg_time s))
    (hex_encode (sg_nonce s)) (sg_fingerprint s).

(** The signature is fixed-width: the server splits it at 64 bytes. *)
Definition signature_good (s : Signed) : Prop :=
  let sig := sg_signature s in
  if has_pq then length sig = (64 + ML_DSA_87_SIG_LEN)%nat /\
    es_valid (signed_bytes s) (take 64 sig) /\ pq_valid (signed_bytes s) REQUEST_MLDSA_CTX (drop 64 sig)
  else length sig = 64%nat /\ es_valid (signed_bytes s) sig.

Definition signed_req (s : Signed) : HttpReq :=
  mk_HttpReq method (base_url +:+ path)
    (version_header CLI_VERSION ::
     [("Signet-Timestamp", pretty (sg_time s)); ("Signet-Nonce", hex_encode (sg_nonce s));
      ("Signet-Fingerprint", sg_fingerprint s); ("Signet-Signature", b64_encode (sg_signature s))]
     ++ content_type body) body.

Lemma on_ks_inv {A} (f : St -> cliresult A * St) (w w' : W) r :
  on_ks f w = (r, w') -> r = (f (w_ks w)).1 /\ w_env w' = w_env w /\ w_sent w' = w_sent w.
Proof. unfold on_ks. destruct (f (w_ks w)). by intros [= <- <-]. Qed.

Ltac ks_step H :=
  match type of H with
  | context [match on_ks ?f ?w with _ => _ end] =>
      let r := fresh "r" in let w' := fresh "w" in let E := fresh "Ek" in
      destruct (on_ks f w) as [r w'] eqn:E; apply on_ks_inv in E as (? & ? & ?);
      destruct r; [|by (simplify_eq; split_and!; first [done | congruence])]
  end.

Lemma request_signature_inv m (w w' : W) r :
  request_signature signing m w = (r, w') ->
  w_env w' = w_env w /\ w_sent w' = w_sent w /\
  match r with
  | Ok sig => if has_pq then length sig = (64 + ML_DSA_87_SIG_LEN)%nat /\ es_valid m (take 64 sig) /\
                pq_valid m REQUEST_MLDSA_CTX (drop 64 sig)
              else length sig = 64%nat /\ es_valid m sig
  | Err _ => True
  end.
Proof.
  unfold request_signature. destruct (from_handle _ _) as [pq|e] eqn:Eh; [|by intros [= <- <-]].
  apply from_handle_Ok in Eh as [-> _]. intros Hx. ks_step Hx.
  match goal with Hb : Ok _ = (ks_exists _ _).1 |- _ => apply eq_sym, exists_pq in Hb as -> end.
  destruct has_pq; cbn [negb] in Hx.
  - ks_step Hx. ks_step Hx.
    match goal with Hs : Ok ?s = (ks_sign _ _ _).1, Hp : Ok ?p = (ks_ml_dsa_sign _ _ _ _).1 |- _ =>
      pose proof (ks_sign_length _ _ _ _ (eq_sym Hs)) as Hl;
      apply eq_sym, sign_valid in Hs; apply eq_sym, mldsa_valid in Hp end.
    case_bool_decide as Hq; cbn [negb] in Hx; injection Hx as <- <-; split_and!; try congruence; try done.
    + by rewrite length_app, Hl, Hq.
    + by rewrite <- Hl, take_app_length.
    + by rewrite <- Hl, drop_app_length.
  - apply on_ks_inv in Hx as (-> & ? & ?). split_and!; try congruence.
    destruct (ks_sign _ _ _).1 as [s|] eqn:Es; [|done].
    split; [by eapply ks_sign_length|by eapply sign_valid].
Qed.

(** An attempt sends one request, signed for itself at its own reading of the clock with
    a nonce drawn for it, or none, when it fails before. *)
Lemma signed_once_inv (w w' : W) r :
  signed_once CLI_VERSION signing method (base_url +:+ path) path body w = (r, w') ->
  (exists s, w_sent w' = w_sent w ++ [signed_req s] /\ signature_good s /\ length (sg_nonce s) = 16%nat /\
     readings (w_env w') = readings (w_env w) ++ own_readings s) \/
  (w_sent w' = w_sent w /\ (exists e, r = Err e) /\
   exists rest, (length rest <= 2)%nat /\ readings (w_env w') = readings (w_env w) ++ rest).
Proof.
  unfold signed_once, auth_headers. intros Hx.
  destruct (on_ks _ w) as [[meta|e] w1] eqn:Em; apply on_ks_inv in Em as (_ & He1 & Hs1);
    [|injection Hx as <- <-; right; rewrite He1; split_and!; [done|eauto|exists []; rewrite app_nil_r; cbn; auto]].
  unfold on_env in Hx. pose proof (now_reads (w_env w1)) as G2.
  destruct (he_now (w_env w1)) as [now e2] eqn:En. cbn [fst snd w_env] in *. rewrite He1 in G2.
  destruct now as [now|];
    [|injection Hx as <- <-; right; split_and!; [done|eauto|exists [Clock None]; cbn; split; [lia|done]]].
  pose proof (fill_reads e2) as G3. pose proof (he_fill_length e2) as L3.
  destruct (he_fill e2) as [n e3]. cbn [fst snd] in *. rewrite G2, <- app_assoc in G3.
  assert (Hrest : exists rest, (length rest <= 2)%nat /\ readings e3 = readings (w_env w) ++ rest)
    by (eexists; split; [|exact G3]; cbn; lia).
  destruct (request_signature _ _ _) as [[sig|e] w4] eqn:Er;
    apply request_signature_inv in Er as (He4 & Hs4 & Hg); cbn [w_env w_sent] in *;
    [|injection Hx as <- <-; right; rewrite He4, Hs4, Hs1; eauto].
  destruct (known_method method); cbn [negb] in Hx; [|injection Hx as <- <-; right; rewrite He4, Hs4, Hs1; eauto].
  unfold send_ok, send in Hx. pose proof (call_reads (w_env w4)) as Gc.
  match type of Hx with context [he_call _ ?q] => specialize (Gc q); destruct (he_call (w_env w4) q) as [u e5] end.
  injection Hx as <- <-. cbn [w_env w_sent snd] in *. rewrite He4 in Gc.
  left. exists (mk_Signed now n (km_fingerprint meta) sig). rewrite Hs4, Hs1, Gc. by split_and!.
Qed.

(** What the requests of a call have in common: each is signed for itself, and the
    clock was read and the generator drawn from for each, in turn. *)
Definition signed_run (w w' : W) (l : list Signed) : Prop :=
  w_sent w' = w_sent w ++ map signed_req l /\ Forall (fun s => signature_good s /\ length (sg_nonce s) = 16%nat) l /\
  exists rest, (length rest <= 2)%nat /\
    readings (w_env w') = readings (w_env w) ++ concat (map own_readings l) ++ rest.

Lemma signed_run_cons (w w1 w' : W) s l :
  w_sent w1 = w_sent w ++ [signed_req s] -> signature_good s -> length (sg_nonce s) = 16%nat ->
  readings (w_env w1) = readings (w_env w) ++ own_readings s -> signed_run w1 w' l -> signed_run w w' (s :: l).
Proof.
  intros Hs Hg Hn Hr (Hs' & Hf & rest & Hl & Hr'). split_and!.
  - by rewrite Hs', Hs, <- app_assoc.
  - by constructor.
  - exists rest. split; [done|]. by rewrite Hr', Hr, <- app_assoc.
Qed.

Lemma signed_run_nil (w w' : W) :
  w_sent w' = w_sent w ->
  (exists rest, (length rest <= 2)%nat /\ readings (w_env w') = readings (w_env w) ++ rest) -> signed_run w w' [].
Proof. intros Hs Hr. split_and!; [by rewrite app_nil_r|constructor|exact Hr]. Qed.

Lemma signed_loop more attempt (w w' : W) r :
  attempt_loop (signed_once CLI_VERSION signing method (base_url +:+ path) path body)
    (base_url +:+ path) more attempt w = (r, w') ->
  exists l, (length l <= S more)%nat /\ signed_run w w' l.
Proof.
  revert attempt w. induction more as [|more IH]; intros attempt w; cbn [attempt_loop];
    destruct (signed_once _ _ _ _ _ _ w) as [x w1] eqn:E1;
    (apply signed_once_inv in E1 as [(s & H1 & H2 & H3 & H4)|(H1 & (e & ->) & H2)];
      [|intros [= _ <-]; exists []; cbn; split; [lia|by apply signed_run_nil]]);
    (assert (Hone : signed_run w w1 [s]); [eapply signed_run_cons; [done..|]; apply signed_run_nil; [done|];
      exists []; rewrite app_nil_r; cbn; split; [lia|done]|]).
  - destruct x as [x|e]; intros [= _ <-]; exists [s]; by cbn; split; [lia|].
  - destruct x as [x|e]; [|intros [= _ <-]; exists [s]; by cbn; split; [lia|]].
    destruct (transient x); [|intros [= _ <-]; exists [s]; by cbn; split; [lia|]].
    intros Hl. apply IH in Hl as (l & Hl & Hrun). exists (s :: l). cbn [length]. split; [lia|].
    by eapply signed_run_cons.
Qed.

(** C34: Every attempt is signed for itself.  A signed call sends at most four
    requests; each carries the method, the address and the body it was called with,
    the fingerprint, and a signature over exactly these (the method, the path the server
    sees, the body, the time, the nonce and the fingerprint).  The times are readings of
    the clock and the nonces draws of sixteen bytes from the generator, made for each
    request in turn and for nothing else, so two requests of the call share a nonce, or
    carry one that was drawn before, only if the generator itself repeated: a retry is
    never a replay.  An identity with a post-quantum signing key never sends a request
    without that half, and each half is where the server's fixed split looks for it. *)
Theorem signed_requests_fresh (w w' : W) r :
  signed_call CLI_VERSION signing method base_url path body w = (r, w') ->
  exists l, (length l <= 4)%nat /\ w_sent w' = w_sent w ++ map signed_req l /\
    Forall (fun s => signature_good s /\ length (sg_nonce s) = 16%nat) l /\
    (exists rest, (length rest <= 2)%nat /\
       readings (w_env w') = readings (w_env w) ++ concat (map own_readings l) ++ rest) /\
    (NoDup (drawn (readings (w_env w'))) ->
     NoDup (map sg_nonce l) /\ forall n, n ∈ map sg_nonce l -> n ∉ drawn (readings (w_env w))).
Proof.
  intros Hx. assert (Hl : exists l, (length l <= 4)%nat /\ signed_run w w' l).
  { unfold signed_call in Hx. destruct (if decide _ then _ else _) as [[]|e]; [by apply signed_loop in Hx|].
    injection Hx as _ <-. exists []. cbn. split; [lia|]. apply signed_run_nil; [done|]. exists []. by rewrite app_nil_r; cbn; split; [lia|]. }
  destruct Hl as (l & Hl & Hs & Hf & rest & Hr & Hrd). exists l. split_and!; [done..|by exists rest|].
  rewrite Hrd. unfold drawn. rewrite !omap_app. fold (drawn (concat (map own_readings l))). rewrite drawn_own.
  intros (_ & Hdis & (Hnd & _ & _)%NoDup_app)%NoDup_app. split; [done|].
  intros n Hn Hold. apply (Hdis n Hold), elem_of_app. by left.
Qed.

End Signing.

(** ** The guard on attempts that may run twice *)

Section Guard.
Context `{HJ : JsonText, HS : Sha256, HX : Hex, HB : Base64Url}.
Context {St E : Type} `{HK : Keystore St, HE : HttpEnv E}.
Context (CLI_VERSION : string).
Abbreviation W := (World St E).

(** A request of any family; [CPut] is the pre-signed upload of one part. *)
Inductive hcall :=
| CGet (url : string) (headers : list (string * string))
| CGetOnce (url : string)
| CPost (url : string) (body : option bytes)
| CSigned (signing : KeyLabel) (method base_url path : string) (body : option bytes)
| CPut (store : nat -> option Z -> answer) (url : string) (k : TransferKnobs) (ceiling : option Z).

Definition run_call (c : hcall) (w : W) : cliresult string * W :=
  match c with
  | CGet url headers => get_text CLI_VERSION url headers w
  | CGetOnce url => get_text_once CLI_VERSION url w
  | CPost url body => post_text CLI_VERSION url body w
  | CSigned signing method base_url path body => signed_call CLI_VERSION signing method base_url path body w
  | CPut store url k ceiling =>
      let '(r, tried) := put_presigned (w_read_only w) store url k ceiling in
      (r, mk_World (w_ks w) (w_env w) (w_read_only w)
            (w_sent w ++ map (fun _ => mk_HttpReq "PUT" url [] None) tried) (w_slept w))
  end.

(** A command: requests one after another, each chosen by the answers before it,
    with read-only blocks in it. *)
Inductive prog (T : Type) :=
| PRet (r : cliresult T)
| PCall (c : hcall) (k : cliresult string -> prog T)
| PBlock (p : prog T) (k : cliresult T -> prog T).
Arguments PRet {T} r.
Arguments PCall {T} c k.
Arguments PBlock {T} p k.

Fixpoint run {T} (p : prog T) (w : W) : cliresult T * W :=
  match p with
  | PRet r => (r, w)
  | PCall c k => let '(r, w) := run_call c w in run (k r) w
  | PBlock p k => let '(r, w) := read_only (run p) w in run (k r) w
  end.

(** [w'] goes on from [w], with requests all of which satisfy [P]. *)
Definition extends (P : HttpReq -> Prop) (w w' : W) : Prop :=
  w_read_only w' = w_read_only w /\ exists l, w_sent w' = w_sent w ++ l /\ Forall P l.

Lemma extends_refl P w : extends P w w.
Proof. split; [done|]. exists []. by rewrite app_nil_r. Qed.

Lemma extends_trans P w1 w2 w3 : extends P w1 w2 -> extends P w2 w3 -> extends P w1 w3.
Proof.
  intros [E1 (l1 & S1 & F1)] [E2 (l2 & S2 & F2)]. split; [congruence|].
  exists (l1 ++ l2). by rewrite S2, S1, app_assoc, Forall_app.
Qed.

Lemma extends_same P (w w' : W) :
  w_read_only w' = w_read_only w -> w_sent w' = w_sent w -> extends P w w'.
Proof. intros E1 E2. split; [done|]. exists []. by rewrite app_nil_r. Qed.

Lemma send_extends P q w : (P q : Prop) -> extends P w (send q w).2.
Proof. intros Hq. unfold send. destruct (he_call _ _). split; [done|]. exists [q]. auto. Qed.

Lemma loop_extends P once url more attempt (w : W) :
  (forall w, extends P w (once w).2) -> extends P w (attempt_loop once url more attempt w).2.
Proof.
  intros Ho. revert attempt w. induction more as [|more IH]; intros attempt w; cbn [attempt_loop];
    specialize (Ho w); destruct (once w) as [[r|e] w1]; try done.
  destruct (transient r); [|done]. eapply extends_trans; [exact Ho|].
  eapply extends_trans; [|apply IH]. by apply extends_same.
Qed.

Lemma send_ok_extends P q w : (P q : Prop) -> extends P w (send_ok q w).2.
Proof.
  intros Hq. unfold send_ok. pose proof (send_extends P q w Hq). by destruct (send q w).
Qed.

Lemma on_ks_extends {A} P (f : St -> cliresult A * St) (w : W) : extends P w (on_ks f w).2.
Proof. unfold on_ks. destruct (f _). by apply extends_same. Qed.

Lemma on_env_extends {A} P (f : E -> A * E) (w : W) : extends P w (on_env f w).2.
Proof. unfold on_env. destruct (f _). by apply extends_same. Qed.

(** Follow the world through the next operation of a definition. *)
Ltac follow :=
  match goal with
  | |- extends ?P ?w (match ?op ?w with _ => _ end).2 =>
      let r := fresh "r" in let w' := fresh "w" in let Ex := fresh "Ex" in
      assert (Ex : extends P w (op w).2) by
        first [apply on_ks_extends | apply on_env_extends];
      destruct (op w) as [r w']; cbn [snd] in Ex; eapply extends_trans; [exact Ex|]; clear Ex
  end.

Lemma request_signature_extends P signing m (w : W) : extends P w (request_signature signing m w).2.
Proof.
  unfold request_signature. destruct (from_handle _ _) as [pq|]; [|apply extends_refl].
  follow. destruct r as [[]|]; cbn [negb]; [|apply on_ks_extends|apply extends_refl].
  follow. destruct r as [es|]; [|apply extends_refl]. follow.
  destruct r as [pqs|]; [|apply extends_refl]. case_bool_decide; apply extends_refl.
Qed.

Lemma auth_headers_extends P signing method path body (w : W) :
  extends P w (auth_headers signing method path body w).2.
Proof.
  unfold auth_headers. follow. destruct r as [meta|]; [|apply extends_refl]. follow.
  destruct r as [now|]; [|apply extends_refl]. follow.
  match goal with |- context [request_signature ?a ?b ?c] =>
    pose proof (request_signature_extends P a b c) as Hr; destruct (request_signature a b c) as [[]]; done end.
Qed.

Lemma signed_once_extends (P : HttpReq -> Prop) signing method url path body (w : W) :
  (forall q, hr_method q = method -> P q) ->
  extends P w (signed_once CLI_VERSION signing method url path body w).2.
Proof.
  intros HP. unfold signed_once. pose proof (auth_headers_extends P signing method path (default [] body) w) as Ha.
  destruct (auth_headers _ _ _ _ _) as [[hs|e] w1]; [|done].
  destruct (known_method method); cbn [negb]; [|done].
  eapply extends_trans; [exact Ha|]. apply send_ok_extends. by apply HP.
Qed.

(** What may be sent in a world: anything, or reads only. *)
Definition permitted (read_only : bool) (q : HttpReq) : Prop :=
  read_only = true -> hr_method q = "GET"%string.

Lemma run_call_extends c (w : W) : extends (permitted (w_read_only w)) w (run_call c w).2.
Proof.
  destruct c as [url hs|url|url body|s m b p body|store url k c]; cbn [run_call].
  - apply loop_extends. intros w'. by apply send_ok_extends.
  - unfold get_text_once. pose proof (send_extends (permitted (w_read_only w))
      (mk_HttpReq "GET" url [version_header CLI_VERSION] None) w (fun _ => eq_refl)) as Hs.
    by destruct (send _ w).
  - unfold post_text. destruct (w_read_only w) eqn:Er; cbn [refuse_write_if_read_only negb];
      [apply extends_refl|].
    apply loop_extends. intros w'. by apply send_ok_extends.
  - unfold signed_call. case_decide as Hm.
    + subst m. apply loop_extends. intros w'. apply signed_once_extends. by intros q Hq ?.
    + destruct (w_read_only w) eqn:Er; cbn [refuse_write_if_read_only negb];
      [apply extends_refl|].
      apply loop_extends. intros w'. apply signed_once_extends. by intros q Hq ?.
  - unfold put_presigned. destruct (w_read_only w) eqn:Er; cbn [refuse_write_if_read_only negb].
    + apply extends_same; [done|]. cbn. by rewrite app_nil_r.
    + destruct (put_attempts _ _ _ _ _ _ _) as [r tried]. split; [done|]. eexists. split; [done|].
      apply Forall_forall. by intros q _ ?.
Qed.

Lemma extends_weaken (P Q : HttpReq -> Prop) w w' :
  (forall q, P q -> Q q) -> extends P w w' -> extends Q w w'.
Proof. intros HPQ [E1 (l & S1 & F1)]. split; [done|]. exists l. split; [done|]. by eapply Forall_impl. Qed.

Lemma run_extends {T} (p : prog T) (w : W) : extends (permitted (w_read_only w)) w (run p w).2.
Proof.
  revert w. induction p as [r|c k IH|p IHp k IHk]; intros w; cbn [run]; [apply extends_refl|..].
  - pose proof (run_call_extends c w) as Hc. destruct (run_call c w) as [r w1].
    eapply extends_trans; [exact Hc|]. destruct Hc as [<- _]. apply IH.
  - unfold read_only. pose proof (IHp (set_read_only true w)) as Hp.
    destruct (run p _) as [r w1]. cbn in Hp.
    assert (Hw : extends (permitted (w_read_only w)) w (set_read_only (w_read_only w) w1)).
    { destruct Hp as [_ (l & Hs & Hf)]. split; [done|]. exists l. split; [done|].
      eapply Forall_impl; [exact Hf|]. intros q Hq _. by apply Hq. }
    eapply extends_trans; [exact Hw|]. destruct Hw as [<- _]. apply IHk.
Qed.

(** A computation that reaches the network through the requests above and nothing
    else. *)
Definition via_http {T} (f : W -> cliresult T * W) : Prop := exists p : prog T, forall w, f w = run p w.

Lemma via_http_reads {T} (f : W -> cliresult T * W) w :
  via_http f -> w_read_only w = true -> extends (fun q => hr_method q = "GET"%string) w (f w).2.
Proof.
  intros [p Hp] Hro. rewrite Hp. eapply extends_weaken; [|apply run_extends]. rewrite Hro. intros q Hq. by apply Hq.
Qed.

(** An attempt that may run twice writes nothing.  Whatever a command does in
    its epoch-bound attempt, whatever the server answers and whether or not the
    attempt runs again, every request sent is a GET, nothing is put to the object
    store, and afterwards writes are permitted or refused as before. *)
Theorem epoch_attempts_never_write {T} (p : prog T) (w : W) :
  let w' := (once_more_on_epoch_change (read_only (run p)) w).2 in
  w_read_only w' = w_read_only w /\
  exists l, w_sent w' = w_sent w ++ l /\ Forall (fun q => hr_method q = "GET"%string) l.
Proof.
  cbv zeta.
  assert (Ha : forall w : W, extends (fun q => hr_method q = "GET"%string) w (read_only (run p) w).2).
  { intros w0. unfold read_only. pose proof (run_extends p (set_read_only true w0)) as Hp.
    destruct (run p _) as [r w1]. destruct Hp as [_ (l & Hs & Hf)]. split; [done|]. exists l.
    split; [done|]. eapply Forall_impl; [exact Hf|]. intros q Hq. by apply Hq. }
  unfold once_more_on_epoch_change. pose proof (Ha w) as H1.
  destruct (read_only (run p) w) as [[t|e] w1]; [done|]. destruct (epoch_moved e); [|done].
  change (extends (fun q => hr_method q = "GET"%string) w (read_only (run p) w1).2).
  eapply extends_trans; [exact H1|apply Ha].
Qed.

End Guard.

(** ** A concrete server *)

Module HttpToy.
Import Toy TextToy.

(** What was read of the clock and the generator, which counts, and the answers still
    to come. *)
Record Net := mk_Net { n_read : list reading; n_answers : list UreqResult }.
Definition counted (e : Net) : bytes := replicate 15 Byte.x00 ++ [byte_of_Z (Z.of_nat (length (n_read e)))].

#[export] Instance net_env : HttpEnv Net := {
  he_call e _ := (default UreqTransport (head (n_answers e)), mk_Net (n_read e) (tail (n_answers e)));
  he_now e := (Some 17, mk_Net (n_read e ++ [Clock (Some 17)]) (n_answers e));
  he_fill e := (counted e, mk_Net (n_read e ++ [Drew (counted e)]) (n_answers e));
  he_fill_length _ := eq_refl;
}.

(** A keystore with both signing keys. *)
#[export] Instance fixed_keystore : Keystore unit := {
  ks_tier := Software;
  ks_generate st l a := (Err (key_exists "k"), st);
  ks_meta st l := (Ok (mk_KeyMeta "k" "signing" "ES256" "software" "fp" []), st);
  ks_sign st l m := (Ok (replicate 64 Byte.x01), st);
  ks_ecdh st l p := (Err (key_not_found "k"), st);
  ks_ml_kem_decapsulate st l ek := (Err (key_not_found "k"), st);
  ks_ml_dsa_sign st l m c := (Ok (replicate ML_DSA_87_SIG_LEN Byte.x02), st);
  ks_list st := (Ok [], st);
  ks_delete st l := (Ok tt, st);
  ks_exists st l := (Ok true, st);
}.

#[export] Instance fixed_typed : KeystoreTyped unit.
Proof.
  constructor; intros *; cbn [fst ks_sign ks_ecdh ks_ml_kem_decapsulate ks_ml_dsa_sign fixed_keystore];
    try done; intros Hs; apply (inj Ok) in Hs as <-; apply length_replicate.
Qed.

Definition world (read_only : bool) (answers : list UreqResult) : World unit Net :=
  mk_World tt (mk_Net [] answers) read_only [] [].

Definition me : KeyLabel := mk_KeyLabel "ab-ai" Keystore.Signing.

Lemma request_contract_witness :
  let req := mk_HttpReq "GET" "u" [("Signet-Cli-Version", "1")%string] None in
  let w := world true [UreqStatus 503 None; UreqTransport; UreqStatus 404 (Some "no")] in
  let x := get_text "1" "u" [] w in
  exists before last, (length before <= 3)%nat /\
    (serve (w_env w) (replicate (S (length before)) req)).1 = before ++ [last] /\
    w_sent x.2 = replicate (S (length before)) req /\
    w_slept x.2 = take (length before) [1; 2; 4] /\
    Forall (fun r => transient r = true) before /\
    (transient last = true -> length before = 3%nat) /\
    match x.1 with
    | Ok text => exists s, last = UreqOk s (Some text)
    | Err e => exit_of last = Some (exit_code e) /\
        (epoch_moved e = true <-> exists c body, last = UreqStatus c body /\
           is_Some (epoch_refusal c (default EmptyString body)))
    end.
Proof.
  apply (request_contract "1" "GET" "u" [] None
    (world true [UreqStatus 503 None; UreqTransport; UreqStatus 404 (Some "no"%string)])).
  by left.
Defined.

(** A call whose first attempt fails on the way: the second has a nonce of its own. *)
Lemma signed_requests_fresh_witness :
  let w := world false [UreqTransport; UreqOk 200 (Some "{}"%string)] in
  let x := signed_call "1" me "POST" "https://s" "/v1/x" (Some []) w in
  length (w_sent x.2) = 2%nat /\
  exists l, w_sent x.2 = map (signed_req "1" "POST" "https://s" "/v1/x" (Some [])) l /\ NoDup (map sg_nonce l) /\
    Forall (fun s => signature_good "POST" "/v1/x" (Some []) (fun _ s => s = replicate 64 Byte.x01)
        (fun _ _ s => s = replicate ML_DSA_87_SIG_LEN Byte.x02) true s /\ length (sg_nonce s) = 16%nat) l.
Proof.
  cbv zeta. split; [by vm_compute|].
  edestruct (signed_requests_fresh "1" me "POST" "https://s" "/v1/x" (Some [])
    (fun _ s => s = replicate 64 Byte.x01) (fun _ _ s => s = replicate ML_DSA_87_SIG_LEN Byte.x02) true)
    with (readings := n_read) (w := world false [UreqTransport; UreqOk 200 (Some "{}"%string)])
    as (l & _ & Hs & Hf & _ & Hn); [..|apply surjective_pairing|].
  1-3: intros *; cbn [fst ks_sign ks_exists ks_ml_dsa_sign fixed_keystore];
    intros Hs; by apply (inj Ok) in Hs as <-.
  1-3: reflexivity.
  exists l. split; [exact Hs|]. split; [|exact Hf]. apply Hn. apply (bool_decide_unpack _). vm_compute. reflexivity.
Defined.

End HttpToy.
