(* ===== verification/Resolve.v ===== *)
(** * Names and paths of the drive ([cli/src/resolve.rs])

    The server stores names as ciphertext, so the client lists, decrypts and
    matches.  The resolver's state is its cache of metadata keys beside the world
    of [Http]; the diagnostics it prints are left out, and with them the set that
    silences repeats.  Two loops are driven by the server and have no bound of
    their own: draining the pages of a listing and walking the folders below one.
    Both take fuel, [None] when it runs out; the theorems give the fuel that is
    enough for an honest server. *)

From S2P Require Import Prelude Prims CryptoCore Text Ecdsa Envelope Wrap WrapTheorems CliError Keystore SoftKeystore Token Receipts Hybrid Transfer Http.
Import Wrap.

Section Data.
Context `{HU : UuidLib}.

Record FolderEntry := mk_FolderEntry
  { fo_id : uuid; fo_root : uuid; fo_name : option string; fo_created_at : Z; fo_modified_at : Z }.

Record FileEntry := mk_FileEntry
  { fi_id : uuid; fi_name : option string; fi_size_bytes : Z; fi_plaintext_bytes : option Z;
    fi_created_at : Z; fi_modified_at : Z }.

Record ResolvedFolder := mk_ResolvedFolder { rd_folder_id : uuid; rd_root_folder_id : uuid }.

Record ResolvedFile := mk_ResolvedFile
  { rf_file_id : uuid; rf_folder_id : uuid; rf_root_folder_id : uuid }.

Definition opt_uuid_field (v : value) (field : string) : option uuid :=
  Text.get_str v field ≫= uuid_parse_str.

Definition uuid_field (v : value) (field : string) : cliresult uuid :=
  ok_or (invalid_data ("response entry missing/invalid " +:+ field)) (opt_uuid_field v field).

Definition i64_field (v : value) (field : string) : Z :=
  default 0 (value_get v field ≫= value_as_i64).

End Data.

(** ** Paths *)

(** [trim_start_matches(c)]. *)
Fixpoint trim_start_char (c : Ascii.ascii) (s : string) : string :=
  match s with
  | EmptyString => EmptyString
  | String.String a t => if decide (a = c) then trim_start_char c t else s
  end.

(** [split(c)]. *)
Fixpoint split_char (c : Ascii.ascii) (s : string) : list string :=
  match s with
  | EmptyString => [EmptyString]
  | String.String a s =>
      if decide (a = c) then EmptyString :: split_char c s
      else match split_char c s with
           | p :: ps => String.String a p :: ps
           | [] => [String.String a EmptyString]
           end
  end.

Definition parse_path (path : string) : cliresult (list string) :=
  let trimmed := trim_end_char SLASH (trim_start_char SLASH (trim path)) in
  guard negb (bool_decide (trimmed = EmptyString)) else invalid_args "empty path" ;;
  let segments := split_char SLASH trimmed in
  guard negb (existsb (fun s => bool_decide (s = EmptyString)) segments) else
    invalid_args ("path '" +:+ path +:+ "' contains an empty segment") ;;
  Ok segments.

(** The candidates of an ambiguous name, one to a line. *)
Fixpoint candidates `{HU : UuidLib} {T} (id_of : T -> uuid * Z) (found : list T) : string :=
  match found with
  | [] => EmptyString
  | e :: found =>
      String.String LF_char ("  " +:+ uuid_to_string (id_of e).1 +:+ "  (modified_at "
        +:+ pretty (id_of e).2 +:+ ")" +:+ candidates id_of found)
  end.

Definition match_one `{HU : UuidLib} {T} (entries : list T) (name kind : string)
    (name_of : T -> string) (id_of : T -> uuid * Z) : cliresult T :=
  let found := List.filter (fun e => bool_decide (name_of e = name)) entries in
  match found with
  | [] => Err (cli_new 2 "name_not_found" ("no " +:+ kind +:+ " named '" +:+ name +:+ "'"))
  | [e] => Ok e
  | _ =>
      Err (cli_new 2 "ambiguous_name" ("'" +:+ name +:+ "' matches " +:+ pretty (length found) +:+ " "
             +:+ kind +:+ "s; pass --" +:+ kind +:+ "-id to choose one:" +:+ candidates id_of found))
  end.

(** ** The resolver *)

Section Code.
Context `{HS : Sha256, HX : Hex, HB : Base64Url, HG : AesGcm, HHk : Hkdf, HKw : AesKw, HJ : JsonText}.
Context `{HP : P256, !Ecdsa256, HQ : PqSoftware, !MlKemEncaps, HU : UuidLib}.
Context {St E : Type} `{HK : Keystore St, HE : HttpEnv E}.
Context (CLI_VERSION : string) (signing kem : KeyLabel) (server_url : string).

Record Resolver := mk_Resolver { rv_world : World St E; rv_keys : gmap uuid bytes }.

(** An operation of the world, in the resolver. *)
Definition on_world {A} (f : World St E -> A * World St E) (rv : Resolver) : A * Resolver :=
  let '(r, w) := f (rv_world rv) in (r, mk_Resolver w (rv_keys rv)).

Definition get_signed (path : string) (rv : Resolver) : cliresult value * Resolver :=
  on_world (get_json_signed CLI_VERSION signing server_url path) rv.

Definition metadata_key (root : uuid) (rv : Resolver) : cliresult bytes * Resolver :=
  match rv_keys rv !! root with
  | Some key => (Ok key, rv)
  | None =>
      do? resp := get_signed ("/v1/folders/" +:+ uuid_to_string root +:+ "/metadata-key-wrap") rv on rv in
      match value_get resp "wrapped_key" with
      | None => (Err (invalid_data "metadata-key-wrap response missing wrapped_key"), rv)
      | Some wrapped =>
          do? key := on_world (on_ks (fun st =>
                       unwrap_metadata_key_envelope st wrapped (uuid_as_bytes root) kem)) rv on rv in
          (Ok key, mk_Resolver (rv_world rv) (<[root := key]> (rv_keys rv)))
      end
  end.

Definition decrypt_entry_name (metadata_key : bytes) (root target : uuid) (encrypted_name : value)
    : cliresult string :=
  let*! envelope := name_from_value encrypted_name else invalid_data "invalid encrypted_name envelope" in
  lift_crypto (Wrap.decrypt_name metadata_key (uuid_as_bytes root) (uuid_as_bytes target) envelope).

(** [Resolver::decrypt_name]. *)
Definition resolver_decrypt_name (root target : uuid) (encrypted_name : value) (rv : Resolver)
    : cliresult string * Resolver :=
  do? key := metadata_key root rv on rv in
  (decrypt_entry_name key root target encrypted_name, rv).

(** ** Listings *)

Definition page_path (base : string) (cursor : option string) : string :=
  match cursor with
  | Some c => base +:+ (if contains base "?" then "&" else "?") +:+ "cursor=" +:+ c
  | None => base
  end.

Fixpoint fetch_paginated (fuel : nat) (base array_field : string) (out : list value)
    (cursor : option string) (rv : Resolver) : option (cliresult (list value) * Resolver) :=
  match fuel with
  | O => None
  | S fuel =>
      match get_signed (page_path base cursor) rv with
      | (Err e, rv) => Some (Err e, rv)
      | (Ok resp, rv) =>
          let out := out ++ default [] (get_array resp array_field) in
          match Text.get_str resp "next_cursor" with
          | Some c => fetch_paginated fuel base array_field out (Some c) rv
          | None => Some (Ok out, rv)
          end
      end
  end.

Definition folders_path (parent : option uuid) : string :=
  match parent with
  | Some p => "/v1/folders?parent_folder_id=" +:+ uuid_to_string p
  | None => "/v1/folders"
  end.
Definition files_path (folder : uuid) : string := "/v1/folders/" +:+ uuid_to_string folder +:+ "/files".

Definition fetch_folders (fuel : nat) (parent : option uuid) (rv : Resolver) :=
  fetch_paginated fuel (folders_path parent) "folders" [] None rv.

Definition fetch_files (fuel : nat) (folder : uuid) (rv : Resolver) :=
  fetch_paginated fuel (files_path folder) "files" [] None rv.

(** [uuid_field(..)?] of every row. *)
Fixpoint ids_of (field : string) (rows : list value) : cliresult (list uuid) :=
  match rows with
  | [] => Ok []
  | v :: rows =>
      let*? u := uuid_field v field in
      let*? us := ids_of field rows in
      Ok (u :: us)
  end.

(** The walk of [files_under]: [queue] is the vector, popped at its end. *)
Fixpoint walk (fuel pages : nat) (file_ids queue : list uuid) (rv : Resolver)
    : option (cliresult (list uuid) * Resolver) :=
  match fuel with
  | O => None
  | S fuel =>
      match rev queue with
      | [] => Some (Ok file_ids, rv)
      | current :: rest =>
          fetched ← fetch_files pages current rv;
          match fetched with
          | (Err e, rv) => Some (Err e, rv)
          | (Ok files, rv) =>
              match ids_of "file_id" files with
              | Err e => Some (Err e, rv)
              | Ok ids =>
                  fetched ← fetch_folders pages (Some current) rv;
                  match fetched with
                  | (Err e, rv) => Some (Err e, rv)
                  | (Ok subs, rv) =>
                      match ids_of "folder_id" subs with
                      | Err e => Some (Err e, rv)
                      | Ok subs => walk fuel pages (file_ids ++ ids) (rev rest ++ subs) rv
                      end
                  end
              end
          end
      end
  end.

Definition files_under (fuel pages : nat) (folder : uuid) (rv : Resolver) :=
  walk fuel pages [] [folder] rv.

Definition resolve_entry_name (root target : uuid) (v : value) (rv : Resolver) : option string * Resolver :=
  match metadata_key root rv with
  | (Err _, rv) => (None, rv)
  | (Ok key, rv) =>
      (encrypted_name ← value_get v "encrypted_name";
       ok_opt (decrypt_entry_name key root target encrypted_name), rv)
  end.

Fixpoint folder_entries (rows : list value) (rv : Resolver) : cliresult (list FolderEntry) * Resolver :=
  match rows with
  | [] => (Ok [], rv)
  | v :: rows =>
      match uuid_field v "folder_id" with
      | Err e => (Err e, rv)
      | Ok folder_id =>
          let root := default folder_id (opt_uuid_field v "root_folder_id") in
          let '(name, rv) := resolve_entry_name root folder_id v rv in
          do? rest := folder_entries rows rv on rv in
          (Ok (mk_FolderEntry folder_id root name (i64_field v "created_at") (i64_field v "modified_at")
               :: rest), rv)
      end
  end.

Definition list_folders (fuel : nat) (parent : option uuid) (rv : Resolver)
    : option (cliresult (list FolderEntry) * Resolver) :=
  fetched ← fetch_folders fuel parent rv;
  Some (match fetched with
        | (Err e, rv) => (Err e, rv)
        | (Ok raw, rv) => folder_entries raw rv
        end).

Fixpoint file_entries (key : option bytes) (root : uuid) (rows : list value) : cliresult (list FileEntry) :=
  match rows with
  | [] => Ok []
  | v :: rows =>
      let*? file_id := uuid_field v "file_id" in
      let name :=
        k ← key; encrypted_name ← value_get v "encrypted_name";
        ok_opt (decrypt_entry_name k root file_id encrypted_name) in
      let*? rest := file_entries key root rows in
      Ok (mk_FileEntry file_id name (i64_field v "size_bytes") (value_get v "plaintext_bytes" ≫= value_as_i64)
            (i64_field v "created_at") (i64_field v "modified_at") :: rest)
  end.

Definition list_files (fuel : nat) (folder root : uuid) (rv : Resolver)
    : option (cliresult (list FileEntry) * Resolver) :=
  fetched ← fetch_files fuel folder rv;
  Some (match fetched with
        | (Err e, rv) => (Err e, rv)
        | (Ok raw, rv) =>
            let '(key, rv) := metadata_key root rv in
            (file_entries (ok_opt key) root raw, rv)
        end).

Fixpoint shared_entries (rows : list value) (rv : Resolver) : cliresult (list FolderEntry) * Resolver :=
  match rows with
  | [] => (Ok [], rv)
  | v :: rows =>
      match uuid_field v "folder_id" with
      | Err e => (Err e, rv)
      | Ok folder_id =>
          let root := default folder_id (opt_uuid_field v "root_folder_id") in
          match value_get v "encrypted_name" with
          | None => shared_entries rows rv
          | Some encrypted_name =>
              match resolver_decrypt_name root folder_id encrypted_name rv with
              | (Err _, rv) => shared_entries rows rv
              | (Ok name, rv) =>
                  do? rest := shared_entries rows rv on rv in
                  (Ok (mk_FolderEntry folder_id root (Some name) 0 0 :: rest), rv)
              end
          end
      end
  end.

Definition list_shared_folders (rv : Resolver) : cliresult (list FolderEntry) * Resolver :=
  do? resp := get_signed "/v1/shared-with-me" rv on rv in
  shared_entries (default [] (get_array resp "folders")) rv.

(** ** Resolution *)

Definition named {T} (name_of : T -> option string) (entries : list T) : list T :=
  List.filter (fun e => bool_decide (is_Some (name_of e))) entries.

Definition match_folder (entries : list FolderEntry) (name : string) : cliresult FolderEntry :=
  match_one (named fo_name entries) name "folder" (fun f => default EmptyString (fo_name f))
    (fun f => (fo_id f, fo_modified_at f)).

Definition match_file (entries : list FileEntry) (name : string) : cliresult FileEntry :=
  match_one (named fi_name entries) name "file" (fun f => default EmptyString (fi_name f))
    (fun f => (fi_id f, fi_modified_at f)).

(** The segments below the first. *)
Fixpoint descend (fuel : nat) (current : FolderEntry) (segments : list string) (rv : Resolver)
    : option (cliresult FolderEntry * Resolver) :=
  match segments with
  | [] => Some (Ok current, rv)
  | seg :: segments =>
      listed ← list_folders fuel (Some (fo_id current)) rv;
      match listed with
      | (Err e, rv) => Some (Err e, rv)
      | (Ok children, rv) =>
          match match_folder children seg with
          | Err e => Some (Err e, rv)
          | Ok current => descend fuel current segments rv
          end
      end
  end.

(** The first segment is looked up among the folders owned and shared; [segments]
    is never empty. *)
Definition resolve_folder_segments (fuel : nat) (segments : list string) (rv : Resolver)
    : option (cliresult ResolvedFolder * Resolver) :=
  match segments with
  | [] => None
  | first :: rest =>
      listed ← list_folders fuel None rv;
      match listed with
      | (Err e, rv) => Some (Err e, rv)
      | (Ok top, rv) =>
          match list_shared_folders rv with
          | (Err e, rv) => Some (Err e, rv)
          | (Ok shared, rv) =>
              match match_folder (top ++ shared) first with
              | Err e => Some (Err e, rv)
              | Ok current =>
                  found ← descend fuel current rest rv;
                  Some (on_res (fun f => mk_ResolvedFolder (fo_id f) (fo_root f)) found)
              end
          end
      end
  end.

Definition resolve_folder (fuel : nat) (path : string) (rv : Resolver)
    : option (cliresult ResolvedFolder * Resolver) :=
  match parse_path path with
  | Err e => Some (Err e, rv)
  | Ok segments => resolve_folder_segments fuel segments rv
  end.

(** [split_at(len - 1)]. *)
Definition split_last {A} (l : list A) : option (list A * A) :=
  match rev l with [] => None | x :: r => Some (rev r, x) end.

Definition resolve_create_parent (fuel : nat) (path : string) (rv : Resolver)
    : option (cliresult (option ResolvedFolder * string) * Resolver) :=
  match parse_path path with
  | Err e => Some (Err e, rv)
  | Ok segments =>
      sp ← split_last segments;
      let '(parent_segs, new_name) := sp in
      match parent_segs with
      | [] => Some (Ok (None, new_name), rv)
      | _ =>
          found ← resolve_folder_segments fuel parent_segs rv;
          Some (on_res (fun f => (Some f, new_name)) found)
      end
  end.

Definition resolve_file (fuel : nat) (path : string) (rv : Resolver)
    : option (cliresult ResolvedFile * Resolver) :=
  match parse_path path with
  | Err e => Some (Err e, rv)
  | Ok segments =>
      if bool_decide (length segments < 2)%nat then
        Some (Err (invalid_args "a file path needs a containing folder (e.g. /Folder/notes.txt) — files are always inside folders"), rv)
      else
        sp ← split_last segments;
        let '(folder_segs, file_seg) := sp in
        found ← resolve_folder_segments fuel folder_segs rv;
        match found with
        | (Err e, rv) => Some (Err e, rv)
        | (Ok folder, rv) =>
            listed ← list_files fuel (rd_folder_id folder) (rd_root_folder_id folder) rv;
            match listed with
            | (Err e, rv) => Some (Err e, rv)
            | (Ok files, rv) =>
                match match_file files file_seg with
                | Err e => Some (Err e, rv)
                | Ok f => Some (Ok (mk_ResolvedFile (fi_id f) (rd_folder_id folder) (rd_root_folder_id folder)), rv)
                end
            end
        end
  end.

End Code.
