(* ===== verification/ResolveTheorems.v ===== *)
(** * What the resolver guarantees

    [Paths]: which texts are paths and what they mean.  [Listing] and [Tree]: over
    any server that answers its listings, resolving a path through the encrypted
    names is the lookup in the tree of decrypted names, in which an entry that
    cannot be read has no name; nothing is ever picked among several.  [Below]:
    the walk below a folder ends and finds every file. *)

From S2P Require Import Prelude Prims CryptoCore Text Ecdsa Envelope Wrap WrapTheorems CliError Keystore SoftKeystore Delegated Token SignedBytes Receipts Hybrid HybridTheorems GrantStatus Transfer Http HttpTheorems Resolve.
Import Wrap.

(** ** Paths *)

Definition slash_free (s : string) : Prop := SLASH ∉ String.list_ascii_of_string s.
#[export] Instance slash_free_dec s : Decision (slash_free s).
Proof. unfold slash_free. apply _. Defined.

Definition slash : string := String.String SLASH EmptyString.

(** The segments of a path, each followed by a slash. *)
Definition path_of (segments : list string) : string :=
  slash +:+ String.concat EmptyString (map (fun s => s +:+ slash) segments).

Lemma split_char_nonempty c s : split_char c s <> [].
Proof. destruct s; cbn; [done|]. case_decide; [done|]. by destruct (split_char c s). Qed.

Lemma split_char_free c s : c ∉ String.list_ascii_of_string s -> split_char c s = [s].
Proof.
  induction s as [|a s IH]; [done|]. cbn. rewrite not_elem_of_cons. intros [Ha Hs].
  rewrite decide_False by congruence. by rewrite IH.
Qed.

Lemma split_char_app c s t :
  c ∉ String.list_ascii_of_string s -> split_char c (s +:+ String.String c t) = s :: split_char c t.
Proof.
  induction s as [|a s IH]; intros Hs.
  { change (split_char c (String.String c t) = EmptyString :: split_char c t).
    cbn [split_char]. by rewrite decide_True. }
  cbn in Hs. apply not_elem_of_cons in Hs as [Ha Hs].
  change (split_char c (String.String a (s +:+ String.String c t)) = String.String a s :: split_char c t).
  cbn [split_char]. rewrite decide_False by congruence. by rewrite IH.
Qed.

Lemma split_char_pieces c s : Forall (fun p => c ∉ String.list_ascii_of_string p) (split_char c s).
Proof.
  induction s as [|a s IH]; cbn; [repeat constructor; apply not_elem_of_nil|]. case_decide.
  - constructor; [apply not_elem_of_nil|done].
  - destruct (split_char c s) as [|p ps]; [repeat constructor|]; [cbn; set_solver|].
    apply Forall_cons in IH as [Hp Hps]. constructor; [|done]. cbn. by rewrite not_elem_of_cons.
Qed.

(** [a/b/../z]. *)
Fixpoint joined (segments : list string) : string :=
  match segments with
  | [] => EmptyString
  | [s] => s
  | s :: segments => s +:+ String.String SLASH (joined segments)
  end.

Lemma split_joined segments :
  segments <> [] -> Forall slash_free segments -> split_char SLASH (joined segments) = segments.
Proof.
  induction segments as [|s [|s' segments] IH]; intros Hne HF; [done|..].
  - apply Forall_cons in HF as [Hs _]. by apply split_char_free.
  - apply Forall_cons in HF as [Hs HF]. cbn [joined]. rewrite split_char_app by done.
    f_equal. by apply IH.
Qed.

Lemma string_app_assoc' (a b c : string) : (a +:+ b) +:+ c = a +:+ (b +:+ c).
Proof. induction a as [|x a IH]; [done|]. change (String.String x ((a +:+ b) +:+ c) = String.String x (a +:+ (b +:+ c))). by rewrite IH. Qed.

Lemma path_of_joined segments : segments <> [] -> path_of segments = String.String SLASH (joined segments +:+ slash).
Proof.
  intros Hne. unfold path_of. change (slash +:+ ?x) with (String.String SLASH x). f_equal.
  induction segments as [|s [|s' segments] IH]; [done|done|].
  cbn [joined map String.concat] in *. rewrite IH by done.
  rewrite string_app_assoc'. change (EmptyString +:+ ?x) with x.
  rewrite string_app_assoc'. done.
Qed.

Definition segment_ok (s : string) : Prop := s <> EmptyString /\ slash_free s.
#[export] Instance segment_ok_dec s : Decision (segment_ok s).
Proof. unfold segment_ok. apply _. Defined.

Lemma trim_end_app c s t :
  trim_end_char c t <> EmptyString -> trim_end_char c (s +:+ t) = s +:+ trim_end_char c t.
Proof.
  intros Ht. induction s as [|a s IH]; [done|].
  change (trim_end_char c (String.String a (s +:+ t)) = String.String a (s +:+ trim_end_char c t)).
  cbn [trim_end_char]. rewrite IH. rewrite bool_decide_false; [done|].
  destruct s as [|x s]; [done|]. by intros [=].
Qed.

Lemma trim_end_free s : slash_free s -> trim_end_char SLASH s = s.
Proof.
  unfold slash_free. induction s as [|a s IH]; [done|].
  cbn [trim_end_char String.list_ascii_of_string]. rewrite not_elem_of_cons. intros [Ha Hs].
  rewrite IH by done. rewrite (bool_decide_false (a = SLASH)) by congruence. by rewrite andb_false_r.
Qed.

Lemma trim_end_joined segments :
  segments <> [] -> Forall segment_ok segments ->
  trim_end_char SLASH (joined segments) = joined segments /\ joined segments <> EmptyString.
Proof.
  induction segments as [|s [|s' segments] IH]; intros Hne HF; [done|..];
    apply Forall_cons in HF as [[Hs1 Hs2] HF].
  - split; [by apply trim_end_free|done].
  - destruct IH as [IH1 IH2]; [done..|]. cbn [joined].
    split; [|by destruct s].
    change (trim_end_char SLASH (s +:+ (slash +:+ joined (s' :: segments)))
      = s +:+ (slash +:+ joined (s' :: segments))).
    assert (Ej : trim_end_char SLASH (slash +:+ joined (s' :: segments)) = slash +:+ joined (s' :: segments))
      by (rewrite (trim_end_app SLASH slash (joined (s' :: segments))); by rewrite IH1).
    rewrite (trim_end_app SLASH s (slash +:+ joined (s' :: segments))); by rewrite Ej.
Qed.

Lemma trim_end_snoc s : trim_end_char SLASH (s +:+ slash) = trim_end_char SLASH s.
Proof.
  induction s as [|a s IH]; [done|].
  change (trim_end_char SLASH (String.String a (s +:+ slash)) = trim_end_char SLASH (String.String a s)).
  cbn [trim_end_char]. by rewrite IH.
Qed.

Lemma trim_start_joined segments t :
  segments <> [] -> Forall segment_ok segments ->
  trim_start_char SLASH (joined segments +:+ t) = joined segments +:+ t.
Proof.
  destruct segments as [|s segments]; [done|]. intros _ HF. apply Forall_cons in HF as [[Hs1 Hs2] _].
  destruct s as [|a s]; [done|]. apply not_elem_of_cons in Hs2 as [Ha _].
  assert (exists u, joined (String.String a s :: segments) +:+ t = String.String a u) as [u ->]
    by (destruct segments; by eexists).
  cbn [trim_start_char]. by rewrite decide_False.
Qed.

Lemma str_bytes_snoc s : str_bytes (s +:+ slash) = str_bytes s ++ [Byte.x2f].
Proof. apply str_bytes_app. Qed.

(** Every list of proper names is the reading of a path, and a path reads as
    proper names only: what a path says is what is looked up. *)
Theorem path_round_trip :
  (forall segments, segments <> [] -> Forall segment_ok segments ->
     parse_path (path_of segments) = Ok segments) /\
  (forall path segments, parse_path path = Ok segments -> segments <> [] /\ Forall segment_ok segments).
Proof.
  split.
  - intros segments Hne HF. unfold parse_path. rewrite path_of_joined by done.
    assert (Et : trim (String.String SLASH (joined segments +:+ slash))
               = String.String SLASH (joined segments +:+ slash)).
    { eapply (trim_id _ Byte.x2f _ (str_bytes (slash +:+ joined segments)) Byte.x2f); [done| |done|done].
      change (String.String SLASH (joined segments +:+ slash)) with ((slash +:+ joined segments) +:+ slash).
      apply str_bytes_snoc. }
    rewrite Et. cbn [trim_start_char]. rewrite decide_True by done.
    rewrite trim_start_joined, trim_end_snoc by done.
    destruct (trim_end_joined segments Hne HF) as [-> Hj]. rewrite bool_decide_false by done. cbn [negb].
    rewrite split_joined; [|done|eapply Forall_impl; [exact HF|by intros ? [_ ?]]].
    assert (existsb (fun s => bool_decide (s = EmptyString)) segments = false) as ->; [|done].
    apply not_true_is_false. intros (x & Hx & Ex)%existsb_exists. bool_prop.
    rewrite Forall_forall in HF. apply list_elem_of_In in Hx. by destruct (HF x Hx).
  - intros path segments. unfold parse_path. case_bool_decide; cbn [negb]; [done|].
    destruct (existsb _ _) eqn:Ex; cbn [negb]; [done|]. intros [= <-].
    split; [apply split_char_nonempty|]. apply Forall_forall. intros s Hs. split.
    + intros ->. assert (existsb (fun s => bool_decide (s = EmptyString))
        (split_char SLASH (trim_end_char SLASH (trim_start_char SLASH (trim path)))) = true) as E; [|congruence].
      apply existsb_exists. exists EmptyString. by rewrite <- list_elem_of_In.
    + pose proof (split_char_pieces SLASH (trim_end_char SLASH (trim_start_char SLASH (trim path)))) as HF.
      rewrite Forall_forall in HF. by apply HF.
Qed.

(** ** The tree of decrypted names *)

Section Tree.
Context `{HS : Sha256, HX : Hex, HB : Base64Url, HG : AesGcm, HHk : Hkdf, HKw : AesKw, HJ : JsonText}.
Context `{HP : P256, !Ecdsa256, HQ : PqSoftware, !MlKemEncaps, HU : UuidLib}.
Context {St E : Type} `{HK : Keystore St, HE : HttpEnv E}.
Context (CLI_VERSION : string) (signing kem : KeyLabel) (server_url : string).

(** A folder or a file, with its name if it can be read. *)
Record Node := mk_Node { n_id : uuid; n_root : uuid; n_name : option string }.

(** [keyof] has the metadata keys this identity can get; the rest is the drive
    as the server lists it. *)
Context (keyof : uuid -> option bytes) (children : option uuid -> list Node) (shared : list Node)
  (files : uuid -> uuid -> list Node).

(** The name of a row: nothing if the key, the envelope or its opening fails. *)
Definition row_name (v : value) (root target : uuid) : option string :=
  k ← keyof root; encrypted_name ← value_get v "encrypted_name";
  ok_opt (decrypt_entry_name k root target encrypted_name).

Definition shows (v : value) (n : Node) : Prop :=
  opt_uuid_field v "folder_id" = Some (n_id n) /\
  default (n_id n) (opt_uuid_field v "root_folder_id") = n_root n /\
  row_name v (n_root n) (n_id n) = n_name n.

Definition shows_file (root : uuid) (v : value) (n : Node) : Prop :=
  opt_uuid_field v "file_id" = Some (n_id n) /\ n_root n = root /\ row_name v root (n_id n) = n_name n.

(** A server that answers every listing, in the states [P]; [fuel] is enough for
    its pages ([pages_drained]).  A metadata key it does not give, or gives in a
    wrap that does not open, is no failure here: the names under it are unread. *)
Context (fuel : nat) (P : @Resolver HU St E -> Prop).
Abbreviation fetch_folders := (fetch_folders CLI_VERSION signing server_url fuel).
Abbreviation fetch_files := (fetch_files CLI_VERSION signing server_url fuel).
Abbreviation metadata_key := (metadata_key CLI_VERSION signing kem server_url).
Hypothesis keys_given : forall rv root, P rv ->
  exists r rv', metadata_key root rv = (r, rv') /\ P rv' /\ ok_opt r = keyof root.
Hypothesis folders_given : forall rv parent, P rv ->
  exists rows rv', fetch_folders parent rv = Some (Ok rows, rv') /\ P rv' /\ Forall2 shows rows (children parent).
Hypothesis files_given : forall rv folder root, P rv ->
  exists rows rv', fetch_files folder rv = Some (Ok rows, rv') /\ P rv' /\
    Forall2 (shows_file root) rows (files folder root).
Hypothesis shared_given : forall rv, P rv ->
  exists resp rv', get_signed CLI_VERSION signing server_url "/v1/shared-with-me" rv = (Ok resp, rv') /\
    P rv' /\ Forall2 shows (default [] (get_array resp "folders")) shared.

(** The lookup in the tree: the one node of that name, never one of several. *)
Definition pick (nodes : list Node) (name : string) : result string Node :=
  match List.filter (fun n => bool_decide (n_name n = Some name)) nodes with
  | [] => Err "name_not_found"
  | [n] => Ok n
  | _ => Err "ambiguous_name"
  end%string.

Fixpoint pick_below (current : Node) (segments : list string) : result string Node :=
  match segments with
  | [] => Ok current
  | s :: segments =>
      let*? n := pick (children (Some (n_id current))) s in
      pick_below n segments
  end.

Definition pick_folder (segments : list string) : result string Node :=
  match segments with
  | [] => Err EmptyString
  | s :: segments =>
      let*? n := pick (children None ++ shared) s in
      pick_below n segments
  end.

Definition pick_file (folders : list string) (name : string) : result string (Node * Node) :=
  let*? d := pick_folder folders in
  let*? f := pick (files (n_id d) (n_root d)) name in
  Ok (d, f).

(** The code's answer is the tree's; a failure has exit code 2 and its code. *)
Definition agrees {A B} (same : A -> B -> Prop) (r : cliresult A) (spec : result string B) : Prop :=
  match r, spec with
  | Ok a, Ok b => same a b
  | Err e, Err c => exit_code e = 2 /\ code e = c
  | _, _ => False
  end.

Definition node_of (e : FolderEntry) : Node := mk_Node (fo_id e) (fo_root e) (fo_name e).
Definition node_of_file (root : uuid) (e : FileEntry) : Node := mk_Node (fi_id e) root (fi_name e).

Lemma folder_entries_shown rows nodes rv :
  P rv -> Forall2 shows rows nodes ->
  exists es rv', folder_entries CLI_VERSION signing kem server_url rows rv = (Ok es, rv') /\ P rv' /\
    map node_of es = nodes.
Proof.
  intros Hrv HF. revert rv Hrv. induction HF as [|v n rows nodes (Hid & Hroot & Hname) HF IH]; intros rv Hrv.
  { by exists [], rv. }
  cbn [folder_entries]. unfold uuid_field. rewrite Hid. cbn [ok_or]. rewrite Hroot.
  unfold resolve_entry_name. destruct (keys_given rv (n_root n) Hrv) as (r & rv1 & -> & H1 & Hk).
  unfold row_name in Hname. rewrite <- Hk in Hname. destruct (IH rv1 H1) as (es & rv2 & Ees & H2 & Hes).
  destruct r as [k|e]; cbn [ok_opt mbind option_bind] in Hname; rewrite Ees.
  - eexists _, rv2. split; [done|]. split; [done|]. cbn. rewrite Hes. f_equal. unfold node_of. cbn.
    cbn in Hname. rewrite Hname. by destruct n.
  - eexists _, rv2. split; [done|]. split; [done|]. cbn. rewrite Hes. f_equal. unfold node_of. cbn.
    rewrite Hname. by destruct n.
Qed.

Lemma shared_entries_shown rows nodes rv :
  P rv -> Forall2 shows rows nodes ->
  exists es rv', shared_entries CLI_VERSION signing kem server_url rows rv = (Ok es, rv') /\ P rv' /\
    map node_of es = List.filter (fun n => bool_decide (is_Some (n_name n))) nodes.
Proof.
  intros Hrv HF. revert rv Hrv. induction HF as [|v n rows nodes (Hid & Hroot & Hname) HF IH]; intros rv Hrv.
  { by exists [], rv. }
  cbn [shared_entries]. unfold uuid_field. rewrite Hid. cbn [ok_or]. rewrite Hroot.
  unfold row_name in Hname. cbn [List.filter].
  destruct (value_get v "encrypted_name") as [en|] eqn:Een.
  2:{ assert (n_name n = None) as -> by (rewrite <- Hname; by destruct (keyof (n_root n))).
      rewrite bool_decide_false by (by intros [? ?]). by apply IH. }
  unfold resolver_decrypt_name. destruct (keys_given rv (n_root n) Hrv) as (r & rv1 & -> & H1 & Hk).
  rewrite <- Hk in Hname. destruct (IH rv1 H1) as (es & rv2 & Ees & H2 & Hes).
  destruct r as [k|e]; cbn [ok_opt mbind option_bind] in Hname.
  - destruct (decrypt_entry_name k (n_root n) (n_id n) en) as [nm|e]; cbn [ok_opt] in Hname.
    + rewrite Ees. eexists _, rv2. split; [done|]. split; [done|]. rewrite <- Hname.
      rewrite bool_decide_true by eauto. cbn. rewrite Hes. f_equal. unfold node_of. cbn. rewrite Hname.
      by destruct n.
    + rewrite <- Hname, bool_decide_false by (by intros [? ?]). eauto.
  - rewrite <- Hname, bool_decide_false by (by intros [? ?]). eauto.
Qed.

Lemma file_entries_shown root rows nodes :
  Forall2 (shows_file root) rows nodes ->
  exists es, file_entries (keyof root) root rows = Ok es /\ map (node_of_file root) es = nodes.
Proof.
  induction 1 as [|v n rows nodes (Hid & Hroot & Hname) HF (es & Ees & Hes)]; [by exists []|].
  cbn [file_entries]. unfold uuid_field. rewrite Hid. cbn [ok_or]. rewrite Ees.
  eexists. split; [done|]. cbn. rewrite Hes. f_equal. unfold node_of_file. cbn.
  change (k ← keyof root; encrypted_name ← value_get v "encrypted_name";
    ok_opt (decrypt_entry_name k root (n_id n) encrypted_name)) with (row_name v root (n_id n)).
  rewrite Hname, <- Hroot. by destruct n.
Qed.

(** Matching by name is [pick] on the nodes of the entries. *)
Lemma match_one_pick {T} (node : T -> Node) (name_of : T -> option string) entries name kind id_of :
  (forall e, n_name (node e) = name_of e) ->
  agrees (fun e n => node e = n)
    (match_one (named name_of entries) name kind (fun e => default EmptyString (name_of e)) id_of)
    (pick (map node entries) name).
Proof.
  intros Hn. unfold match_one, pick.
  assert (Ef : List.filter (fun n => bool_decide (n_name n = Some name)) (map node entries)
             = map node (List.filter (fun e => bool_decide (default EmptyString (name_of e) = name))
                           (named name_of entries))).
  { unfold named. induction entries as [|e entries IH]; [done|]. cbn [map List.filter]. rewrite Hn.
    destruct (name_of e) as [nm|] eqn:En; cbn [List.filter].
    - rewrite (bool_decide_true (is_Some _)) by eauto. cbn [List.filter]. rewrite En. cbn [from_option id].
      destruct (decide (nm = name)) as [->|Hne].
      + rewrite !bool_decide_true by done. cbn [map]. by rewrite IH.
      + rewrite !bool_decide_false by congruence. apply IH.
    - rewrite bool_decide_false by done. rewrite (bool_decide_false (is_Some _)) by (by intros [? ?]). apply IH. }
  rewrite Ef. by destruct (List.filter _ (named name_of entries)) as [|e [|e' l]].
Qed.

Lemma match_folder_pick entries nodes name :
  map node_of entries = nodes ->
  agrees (fun e n => node_of e = n) (match_folder entries name) (pick nodes name).
Proof. intros <-. by apply match_one_pick. Qed.

Lemma match_file_pick root entries nodes name :
  map (node_of_file root) entries = nodes ->
  agrees (fun e n => node_of_file root e = n) (match_file entries name) (pick nodes name).
Proof. intros <-. by apply match_one_pick. Qed.

(** An entry without a name changes nothing. *)
Lemma pick_named nodes nodes' name :
  pick (nodes ++ List.filter (fun n => bool_decide (is_Some (n_name n))) nodes') name
  = pick (nodes ++ nodes') name.
Proof.
  assert (Ef : List.filter (fun n => bool_decide (n_name n = Some name))
      (List.filter (fun n => bool_decide (is_Some (n_name n))) nodes')
    = List.filter (fun n => bool_decide (n_name n = Some name)) nodes').
  { induction nodes' as [|n nodes' IH]; [done|]. cbn [List.filter].
    destruct (n_name n) as [nm|] eqn:En.
    - rewrite (bool_decide_true (is_Some _)) by eauto. cbn [List.filter]. by rewrite En, IH.
    - rewrite (bool_decide_false (is_Some _)) by (by intros [? ?]).
      rewrite (bool_decide_false (None = Some name)) by done. apply IH. }
  unfold pick. by rewrite !List.filter_app, Ef.
Qed.

Lemma list_folders_shown parent rv :
  P rv -> exists es rv', list_folders CLI_VERSION signing kem server_url fuel parent rv = Some (Ok es, rv') /\
    P rv' /\ map node_of es = children parent.
Proof.
  intros Hrv. unfold list_folders. destruct (folders_given rv parent Hrv) as (rows & rv1 & -> & H1 & HF).
  cbn [mbind option_bind]. destruct (folder_entries_shown rows _ rv1 H1 HF) as (es & rv2 & -> & ?). eauto.
Qed.

Lemma descend_agrees current segments rv :
  P rv -> exists r rv', descend CLI_VERSION signing kem server_url fuel current segments rv = Some (r, rv') /\
    P rv' /\ agrees (fun e n => node_of e = n) r (pick_below (node_of current) segments).
Proof.
  revert current rv. induction segments as [|s segments IH]; intros current rv Hrv.
  { by exists (Ok current), rv. }
  cbn [descend pick_below]. destruct (list_folders_shown (Some (fo_id current)) rv Hrv) as (es & rv1 & -> & H1 & Hes).
  cbn [mbind option_bind]. change (n_id (node_of current)) with (fo_id current).
  pose proof (match_folder_pick es _ s Hes) as Hm.
  destruct (match_folder es s) as [e|e], (pick _ s) as [n|c]; cbn in Hm; try done.
  - subst n. by apply IH.
  - eauto.
Qed.

Definition same_folder (r : ResolvedFolder) (n : Node) : Prop :=
  rd_folder_id r = n_id n /\ rd_root_folder_id r = n_root n.

Lemma segments_agree segments rv :
  segments <> [] -> P rv ->
  exists r rv', resolve_folder_segments CLI_VERSION signing kem server_url fuel segments rv = Some (r, rv') /\
    P rv' /\ agrees same_folder r (pick_folder segments).
Proof.
  intros Hne Hrv. destruct segments as [|s segments]; [done|]. cbn [resolve_folder_segments pick_folder].
  destruct (list_folders_shown None rv Hrv) as (es & rv1 & -> & H1 & Hes). cbn [mbind option_bind].
  unfold list_shared_folders. destruct (shared_given rv1 H1) as (resp & rv2 & -> & H2 & HF).
  destruct (shared_entries_shown _ _ rv2 H2 HF) as (es' & rv3 & -> & H3 & Hes').
  assert (Hm : agrees (fun e n => node_of e = n) (match_folder (es ++ es') s) (pick (children None ++ shared) s)).
  { rewrite <- pick_named. apply match_folder_pick. by rewrite map_app, Hes, Hes'. }
  destruct (match_folder (es ++ es') s) as [e|e], (pick _ s) as [n|c]; cbn in Hm; try done; [|eauto].
  subst n. destruct (descend_agrees e segments rv3 H3) as (r & rv4 & -> & H4 & Ha).
  cbn [mbind option_bind]. eexists _, rv4. split; [done|]. split; [done|].
  destruct r as [f|er], (pick_below _ segments) as [n|c]; cbn in Ha |- *; try done. by subst n.
Qed.

(** C11: Resolving a path is looking it up in the tree of names.  Over a server that
    answers its listings, a path of folder names resolves to the ids of the one
    folder they lead to, through owned and shared folders alike, and a file path to
    the one file of that name in it.  Where a segment names nothing, or more than
    one entry, the command fails with exit code 2 and says which; it never picks.
    An entry whose name cannot be read, for whatever reason, neither matches nor
    hinders a match. *)
Theorem resolution_refines_tree path segments rv :
  P rv -> parse_path path = Ok segments ->
  (exists r rv', resolve_folder CLI_VERSION signing kem server_url fuel path rv = Some (r, rv') /\ P rv' /\
     agrees same_folder r (pick_folder segments)) /\
  (forall folders name, segments = folders ++ [name] -> folders <> [] ->
     exists r rv', resolve_file CLI_VERSION signing kem server_url fuel path rv = Some (r, rv') /\ P rv' /\
       agrees (fun a df => rf_file_id a = n_id df.2 /\ rf_folder_id a = n_id df.1 /\
                           rf_root_folder_id a = n_root df.1) r (pick_file folders name)).
Proof.
  intros Hrv Hp. assert (Hne : segments <> []) by (by apply path_round_trip in Hp as [? _]).
  unfold resolve_folder, resolve_file. rewrite Hp. split; [by apply segments_agree|].
  intros folders name -> Hf.
  rewrite bool_decide_false by (rewrite length_app; destruct folders; cbn; [done|lia]).
  unfold split_last. rewrite rev_unit, rev_involutive. cbn [mbind option_bind].
  destruct (segments_agree folders rv Hf Hrv) as (r & rv1 & -> & H1 & Ha). cbn [mbind option_bind].
  unfold pick_file. destruct r as [d|er], (pick_folder folders) as [n|c]; cbn in Ha; try done; [|eauto].
  destruct Ha as [Ha1 Ha2].
  unfold list_files. rewrite Ha1, Ha2.
  destruct (files_given rv1 (n_id n) (n_root n) H1) as (rows & rv2 & -> & H2 & HF). cbn [mbind option_bind].
  destruct (keys_given rv2 (n_root n) H2) as (k & rv3 & -> & H3 & ->).
  destruct (file_entries_shown _ _ _ HF) as (es & -> & Hes).
  pose proof (match_file_pick (n_root n) es _ name Hes) as Hm.
  destruct (match_file es name) as [f|er], (pick _ name) as [m|c]; cbn in Hm; try done.
  - eexists _, rv3. split; [done|]. split; [done|]. cbn. by subst m.
  - eauto.
Qed.

End Tree.

(** ** Pages, and the files below a folder *)

Section Below.
Context `{HS : Sha256, HX : Hex, HB : Base64Url, HG : AesGcm, HHk : Hkdf, HKw : AesKw, HJ : JsonText}.
Context `{HP : P256, !Ecdsa256, HQ : PqSoftware, !MlKemEncaps, HU : UuidLib}.
Context {St E : Type} `{HK : Keystore St, HE : HttpEnv E}.
Context (CLI_VERSION : string) (signing kem : KeyLabel) (server_url : string).
Abbreviation R := (@Resolver HU St E).
Abbreviation get_signed := (get_signed CLI_VERSION signing server_url).
Abbreviation fetch_paginated := (fetch_paginated CLI_VERSION signing server_url).

(** The server ends its listing after [n] pages, which have [rows] in all. *)
Inductive drained (base field : string) : nat -> option string -> R -> list value -> R -> Prop :=
| drained_last cursor rv resp rv' :
    get_signed (page_path base cursor) rv = (Ok resp, rv') ->
    Text.get_str resp "next_cursor" = None ->
    drained base field 1 cursor rv (default [] (get_array resp field)) rv'
| drained_more n cursor rv resp rv1 c rows rv' :
    get_signed (page_path base cursor) rv = (Ok resp, rv1) ->
    Text.get_str resp "next_cursor" = Some c ->
    drained base field n (Some c) rv1 rows rv' ->
    drained base field (S n) cursor rv (default [] (get_array resp field) ++ rows) rv'.

(** A listing of [n] pages is read in full with fuel [n]. *)
Lemma pages_drained base field n cursor rv rows rv' fuel out :
  drained base field n cursor rv rows rv' -> (n <= fuel)%nat ->
  fetch_paginated fuel base field out cursor rv = Some (Ok (out ++ rows), rv').
Proof.
  intros Hd. revert fuel out.
  induction Hd as [cursor rv resp rv' Hg Hc|n cursor rv resp rv1 c rows rv' Hg Hc Hd IH];
    intros [|fuel] out Hf; try lia; cbn [Resolve.fetch_paginated]; rewrite Hg, Hc.
  - done.
  - rewrite IH by lia. by rewrite app_assoc.
Qed.

(** The loop itself has no bound: a server that always names a next page is read
    for ever. *)
Lemma endless_pages base field :
  (forall path rv, exists resp rv' c, get_signed path rv = (Ok resp, rv') /\
     Text.get_str resp "next_cursor" = Some c) ->
  forall fuel out cursor rv, fetch_paginated fuel base field out cursor rv = None.
Proof.
  intros Hs fuel. induction fuel as [|fuel IH]; intros out cursor rv; [done|].
  cbn [Resolve.fetch_paginated].
  destruct (Hs (page_path base cursor) rv) as (resp & rv' & c & -> & ->). apply IH.
Qed.

(** A server whose folders have these files and subfolders, in the states [P]. *)
Context (pages : nat) (P : R -> Prop) (files_of subs_of : uuid -> list uuid).
Hypothesis files_listed : forall rv u, P rv -> exists rows rv',
  fetch_files CLI_VERSION signing server_url pages u rv = Some (Ok rows, rv') /\ P rv' /\
  ids_of "file_id" rows = Ok (files_of u).
Hypothesis subs_listed : forall rv u, P rv -> exists rows rv',
  fetch_folders CLI_VERSION signing server_url pages (Some u) rv = Some (Ok rows, rv') /\ P rv' /\
  ids_of "folder_id" rows = Ok (subs_of u).

(** [below us fs n]: [fs] are the files in and below the folders [us], which
    have [n] folders in all. *)
Inductive below : list uuid -> list uuid -> nat -> Prop :=
| below_nil : below [] [] 0
| below_cons u us fs fs' n m :
    below (subs_of u) fs n -> below us fs' m -> below (u :: us) (files_of u ++ fs ++ fs') (S (n + m)).

Lemma below_app us us' fs fs' n m :
  below us fs n -> below us' fs' m -> exists fs'', below (us ++ us') fs'' (n + m) /\ fs'' ≡ₚ fs ++ fs'.
Proof.
  induction 1 as [|u us f1 f2 k k' Hs _ Hu IH]; intros Hb; [by exists fs'|].
  destruct (IH Hb) as (fs'' & Hb' & Hp). exists (files_of u ++ f1 ++ fs''). split.
  - cbn. replace (k + k' + m)%nat with (k + (k' + m))%nat by lia. by constructor.
  - rewrite Hp. by rewrite <- !app_assoc.
Qed.

Lemma below_app_inv us us' fs n :
  below (us ++ us') fs n ->
  exists f1 f2 n1 n2, below us f1 n1 /\ below us' f2 n2 /\ fs ≡ₚ f1 ++ f2 /\ n = (n1 + n2)%nat.
Proof.
  revert fs n. induction us as [|u us IH]; intros fs n Hb.
  { exists [], fs, 0%nat, n. by repeat constructor. }
  inversion Hb as [|? ? f1 f2 k k' Hs Hu]; subst. destruct (IH _ _ Hu) as (g1 & g2 & n1 & n2 & H1 & H2 & Hp & ->).
  exists (files_of u ++ f1 ++ g1), g2, (S (k + n1)), n2. split_and!; [by constructor|done| |lia].
  rewrite Hp. by rewrite <- !app_assoc.
Qed.

Lemma walk_complete n acc queue fs rv :
  below queue fs n -> P rv ->
  exists ids rv', walk CLI_VERSION signing server_url (S n) pages acc queue rv = Some (Ok ids, rv') /\
    P rv' /\ ids ≡ₚ acc ++ fs.
Proof.
  revert acc queue fs rv. induction n as [|n IH]; intros acc queue fs rv Hb Hrv.
  - inversion Hb; subst. cbn. exists acc, rv. by rewrite app_nil_r.
  - destruct queue as [|u queue _] using rev_ind; [by inversion Hb|].
    apply below_app_inv in Hb as (f1 & f2 & n1 & n2 & H1 & H2 & Hp & Hn).
    inversion H2 as [|? ? g1 g2 k k' Hs Hnil]; subst. inversion Hnil; subst.
    cbn [walk]. rewrite rev_unit.
    destruct (files_listed rv u Hrv) as (rows & rv1 & -> & P1 & Hids). cbn [mbind option_bind]. rewrite Hids.
    destruct (subs_listed rv1 u P1) as (rows' & rv2 & -> & P2 & Hsubs). cbn [mbind option_bind]. rewrite Hsubs.
    rewrite rev_involutive. destruct (below_app _ _ _ _ _ _ H1 Hs) as (f & Hf & Hpf).
    replace (n1 + k)%nat with n in Hf by lia.
    destruct (IH (acc ++ files_of u) (queue ++ subs_of u) f rv2 Hf P2) as (ids & rv' & Hw & P' & Hi).
    exists ids, rv'. split; [exact Hw|]. split; [done|]. rewrite Hi, Hpf, Hp, app_nil_r.
    rewrite <- !app_assoc. f_equiv. rewrite (Permutation_app_comm f1 (files_of u ++ g1)), <- app_assoc.
    f_equiv. apply Permutation_app_comm.
Qed.

(** Nothing below a folder is missed.  Over a server whose folders form a tree
    of [n] folders, the walk of [files_under] ends after [n] rounds and returns
    every file in the folder and below it, each as often as it is listed: the set of
    keys that sharing the folder has to wrap again. *)
Theorem files_under_complete folder fs n rv :
  below [folder] fs n -> P rv ->
  exists ids rv', files_under CLI_VERSION signing server_url (S n) pages folder rv = Some (Ok ids, rv') /\
    ids ≡ₚ fs.
Proof.
  intros Hb Hrv. destruct (walk_complete n [] [folder] fs rv Hb Hrv) as (ids & rv' & Hw & _ & Hi). eauto.
Qed.

End Below.

(** A name written with [encrypt_name] is the name its row shows. *)
Lemma written_name_shown `{HS : Sha256, HX : Hex, HB : Base64Url, HG : AesGcm, HU : UuidLib}
    (keyof : uuid -> option bytes) iv key root target name env v :
  keyof root = Some key -> length iv = 12%nat -> utf8_valid (str_bytes name) = true ->
  encrypt_name iv key (uuid_as_bytes root) (uuid_as_bytes target) name = Ok env ->
  value_get v "encrypted_name" = Some (name_to_value env) ->
  row_name keyof v root target = Some name.
Proof.
  intros Hk Hiv Hu He Hv. unfold row_name. rewrite Hk. cbn [mbind option_bind]. rewrite Hv.
  cbn [mbind option_bind]. unfold decrypt_entry_name.
  assert (Hsv : s_v env = 1) by (unfold encrypt_name in He; by steps_in He).
  rewrite name_from_to by (by rewrite Hsv).
  destruct (name_round_trip_and_binding iv key (uuid_as_bytes root) (uuid_as_bytes target) name env
    (uuid_as_bytes root) (uuid_as_bytes target) name Hiv Hu (uuid_as_bytes_length _)
    (uuid_as_bytes_length _) He) as [Hd _].
  unfold lift_crypto. by rewrite Hd.
Qed.

(** ** A concrete drive *)

Module ResolveToy.
Import Toy TextToy HybridToy Signing.

(** Two ids. *)
#[export, refine] Instance uuid_bool : UuidLib := {|
  uuid := bool;
  uuid_to_string b := if b then "1" else "0";
  uuid_parse_str s := if decide (s = "1") then Some true else if decide (s = "0") then Some false else None;
  uuid_as_bytes b := replicate 16 (if b then Byte.x01 else Byte.x00);
|}%string.
Proof.
  - by intros [].
  - intros []; apply length_replicate.
Defined.

Definition key : bytes := replicate 32 Byte.x11.
Definition iv : bytes := replicate 12 Byte.x22.
Definition name_value (target : bool) (name : string) : value :=
  match encrypt_name iv key (uuid_as_bytes false) (uuid_as_bytes target) name with
  | Ok e => name_to_value e
  | Err _ => VNull
  end.

(** The folder [Docs] and one whose key this identity cannot get; the file [a]. *)
Definition folders_doc : value := Eval vm_compute in
  VObject [("folders", VArray [
    VObject [("folder_id", VString "0"); ("encrypted_name", name_value false "Docs")];
    VObject [("folder_id", VString "1"); ("encrypted_name", VNull)]])]%string.
Definition files_doc : value := Eval vm_compute in
  VObject [("files", VArray [
    VObject [("file_id", VString "1"); ("encrypted_name", name_value true "a")]])]%string.

#[export] Instance json_drive : JsonText := json_table
  [("F", folders_doc); ("X", files_doc); ("E", VObject [])]%string eq_refl.

Definition text_of (url : string) : string :=
  if decide (url = "/v1/folders") then "F"
  else if decide (url = "/v1/folders/0/files") then "X" else "E".

#[export] Instance site : HttpEnv unit := {
  he_call e q := (UreqOk 200 (Some (text_of (hr_url q))), e);
  he_now e := (Some 17, e);
  he_fill e := (replicate 16 Byte.x00, e);
  he_fill_length _ := eq_refl;
}.

Definition me : KeyLabel := mk_KeyLabel "ab-ai" Keystore.Signing.
Definition kem : KeyLabel := mk_KeyLabel "ab-ai" Keystore.Kem.

#[export] Instance es_only : Keystore unit := {
  ks_tier := Software;
  ks_generate st l a := (Err (key_exists "k"), st);
  ks_meta st l := (Ok (mk_KeyMeta "k" "signing" "ES256" "software" "fp" []), st);
  ks_sign st l m := (Ok [], st);
  ks_ecdh st l p := (Err (key_not_found "k"), st);
  ks_ml_kem_decapsulate st l ek := (Err (key_not_found "k"), st);
  ks_ml_dsa_sign st l m c := (Err (key_not_found "k"), st);
  ks_list st := (Ok [], st);
  ks_delete st l := (Ok tt, st);
  ks_exists st l := (Ok false, st);
}.

(** The key of the first folder is known. *)
Definition known (rv : @Resolver uuid_bool unit unit) : Prop := rv_keys rv = {[ false := key ]}.
Definition start : @Resolver uuid_bool unit unit := mk_Resolver (mk_World tt tt false [] []) {[ false := key ]}.

Lemma site_answers path rv doc :
  json_from_str (text_of path) = Ok doc ->
  exists rv', get_signed "1" me "" path rv = (Ok doc, rv') /\ rv_keys rv' = rv_keys rv.
Proof.
  intros Hd. destruct rv as [[[] [] ro sent slept] ks].
  unfold get_signed, on_world, get_json_signed, parsed, signed_call. cbn [rv_world rv_keys].
  rewrite decide_True by done. unfold MAX_RETRIES. cbn [attempt_loop]. unfold signed_once.
  assert (Ha : exists hs, auth_headers me "GET" path [] (mk_World tt tt ro sent slept)
             = (Ok hs, mk_World tt tt ro sent slept)).
  { unfold auth_headers. cbn -[request_signature signet_v1_canonical_bytes hex_encode]. eexists.
    unfold request_signature. assert (from_handle (handle me) Keystore.SigningPq
      = Ok (mk_KeyLabel "ab-ai" Keystore.SigningPq)) as -> by (by vm_compute). reflexivity. }
  destruct Ha as [hs Ha]. cbn [default from_option]. rewrite Ha.
  change (known_method "GET") with true. cbn -[json_from_str text_of].
  change (EmptyString +:+ path) with path. rewrite Hd. by eexists.
Qed.

Definition keyof (u : bool) : option bytes := if u then None else Some key.
Definition children (parent : option bool) : list (@Node uuid_bool) :=
  match parent with
  | None => [mk_Node (HU := uuid_bool) false false (Some "Docs"%string); mk_Node (HU := uuid_bool) true true None]
  | Some _ => []
  end.
Definition files (folder root : bool) : list (@Node uuid_bool) :=
  if folder then []
  else [mk_Node (HU := uuid_bool) true root (if root then None else Some "a"%string)].

Lemma keys_known rv root : known rv -> exists r rv',
  metadata_key "1" me kem "" root rv = (r, rv') /\ known rv' /\ ok_opt r = keyof root.
Proof.
  intros Hk. unfold metadata_key. rewrite Hk. destruct root.
  - rewrite lookup_singleton_ne by done.
    destruct (site_answers "/v1/folders/1/metadata-key-wrap" rv (VObject [])) as (rv' & Hg & Hk'); [done|].
    change ("/v1/folders/" +:+ @uuid_to_string uuid_bool true +:+ "/metadata-key-wrap")
      with "/v1/folders/1/metadata-key-wrap"%string.
    rewrite Hg. cbn. eexists _, rv'. split; [done|]. split; [|done]. unfold known. by rewrite Hk'.
  - rewrite lookup_singleton_eq. eexists _, rv. done.
Qed.

(** A listing of one page. *)
Lemma one_page base field rv doc :
  json_from_str (text_of base) = Ok doc -> Text.get_str doc "next_cursor" = None -> known rv ->
  exists rv', fetch_paginated "1" me "" 1 base field [] None rv
    = Some (Ok (default [] (get_array doc field)), rv') /\ known rv'.
Proof.
  intros Hd Hn Hk. destruct (site_answers base rv doc Hd) as (rv' & Hg & Hk'). exists rv'.
  cbn [fetch_paginated]. unfold page_path. rewrite Hg, Hn. split; [done|]. unfold known. by rewrite Hk'.
Qed.

Lemma docs_folder_listed rv parent : known rv -> exists rows rv',
  fetch_folders "1" me "" 1 parent rv = Some (Ok rows, rv') /\ known rv' /\
  Forall2 (shows keyof) rows (children parent).
Proof.
  intros Hk. unfold fetch_folders. destruct parent as [u|].
  - destruct (one_page (folders_path (HU := uuid_bool) (Some u)) "folders" rv (VObject [])) as (rv' & Hf & Hk');
      [by destruct u|done|done|]. rewrite Hf. eexists _, rv'. split; [done|]. split; [done|constructor].
  - destruct (one_page (folders_path (HU := uuid_bool) None) "folders" rv folders_doc) as (rv' & Hf & Hk');
      [done|done|done|]. rewrite Hf. eexists _, rv'. split; [done|]. split; [done|].
    repeat constructor; by vm_compute.
Qed.

Lemma docs_files_listed rv folder root : known rv -> exists rows rv',
  fetch_files "1" me "" 1 folder rv = Some (Ok rows, rv') /\ known rv' /\
  Forall2 (shows_file keyof root) rows (files folder root).
Proof.
  intros Hk. unfold fetch_files. destruct folder.
  - destruct (one_page (files_path (HU := uuid_bool) true) "files" rv (VObject [])) as (rv' & Hf & Hk'); [done..|].
    rewrite Hf. eexists _, rv'. split; [done|]. split; [done|constructor].
  - destruct (one_page (files_path (HU := uuid_bool) false) "files" rv files_doc) as (rv' & Hf & Hk'); [done..|].
    rewrite Hf. eexists _, rv'. split; [done|]. split; [done|].
    repeat constructor; destruct root; by vm_compute.
Qed.

Lemma nothing_shared rv : known rv -> exists resp rv',
  get_signed "1" me "" "/v1/shared-with-me" rv = (Ok resp, rv') /\ known rv' /\
  Forall2 (shows keyof) (default [] (get_array resp "folders")) [].
Proof.
  intros Hk. destruct (site_answers "/v1/shared-with-me" rv (VObject [])) as (rv' & Hg & Hk'); [done|].
  exists (VObject []), rv'. split; [done|]. split; [unfold known; by rewrite Hk'|constructor].
Qed.

(** [/Docs/a] is the file; the folder that cannot be read is not in the way. *)
Lemma resolution_refines_tree_witness :
  (exists r rv', resolve_folder "1" me kem "" 1 "/Docs/a" start = Some (r, rv') /\ known rv' /\
     agrees same_folder r (pick_folder children [] ["Docs"; "a"]%string)) /\
  (exists r rv', resolve_file "1" me kem "" 1 "/Docs/a" start = Some (r, rv') /\ known rv' /\
     agrees (fun a df => rf_file_id a = n_id df.2 /\ rf_folder_id a = n_id df.1 /\
                         rf_root_folder_id a = n_root df.1) r
       (pick_file children [] files ["Docs"%string] "a")).
Proof.
  destruct (resolution_refines_tree (HU := uuid_bool) "1" me kem "" keyof children [] files 1 known keys_known
    docs_folder_listed docs_files_listed nothing_shared "/Docs/a" ["Docs"; "a"]%string start) as [H1 H2];
    [done|by vm_compute|].
  split; [exact H1|]. by apply (H2 ["Docs"%string] "a"%string).
Defined.

Definition ids_in (folder : bool) : list bool := if folder then [] else [true].

Lemma files_under_complete_witness :
  exists ids rv', files_under "1" me "" 2 1 false start = Some (Ok ids, rv') /\ ids ≡ₚ [true].
Proof.
  apply (files_under_complete (HU := uuid_bool) "1" me "" 1 known ids_in (fun _ => [])) with (n := 1%nat).
  - intros rv u Hk. destruct (docs_files_listed rv u false Hk) as (rows & rv' & Hf & Hk' & HF).
    exists rows, rv'. split; [done|]. split; [done|]. destruct u; inversion HF as [|v n rows' ns Hs HF']; subst;
      [done|]. inversion HF'; subst. cbn [ids_of]. unfold uuid_field. by destruct Hs as [-> _].
  - intros rv u Hk. destruct (docs_folder_listed rv (Some u) Hk) as (rows & rv' & Hf & Hk' & HF).
    exists rows, rv'. split; [done|]. split; [done|]. by inversion HF.
  - apply (below_cons (HU := uuid_bool) ids_in (fun _ => []) false [] [] [] 0 0); constructor.
  - done.
Defined.

End ResolveToy.

(** A row without a readable id ends the whole listing, whatever the other rows
    are. *)
Lemma bad_id_aborts_listing `{HS : Sha256, HX : Hex, HB : Base64Url, HG : AesGcm, HHk : Hkdf, HKw : AesKw, HJ : JsonText}
    `{HP : P256, !Ecdsa256, HQ : PqSoftware, !MlKemEncaps, HU : UuidLib}
    {St E : Type} `{HK : Keystore St, HE : HttpEnv E} version signing kem url v rows (rv : @Resolver HU St E) :
  opt_uuid_field v "folder_id" = None ->
  exists e, (folder_entries version signing kem url (v :: rows) rv).1 = Err e /\
            (shared_entries version signing kem url (v :: rows) rv).1 = Err e.
Proof. intros Hv. cbn [folder_entries shared_entries]. unfold uuid_field. rewrite Hv. by eexists. Qed.
