(* ===== verification/Transparency.v ===== *)
(** * The transparency commands ([cli/src/commands.rs])

    [transparency verify --self] scans the published log for the owner's keys,
    [transparency verify] proves that one key is logged, and [attestation verify]
    checks a server's statement about a subject.  Each runs as an attempt that only
    reads, and once more when the epoch moved under it.  [anchor] is the anchoring that
    the code passes in; a file that is read is an argument; what a command prints is in
    its state, since it prints before it decides how to end. *)

From S2P Require Import Prelude Prims CryptoCore Text VrfIndex Ecdsa Envelope Wrap SignedBytes Merkle CliError Keystore Token Anchors Receipts Hybrid GrantStatus RecipientVerify Transfer Http.
Import TransLog Attest.

(** [hex::decode] of a string into 32 bytes. *)
Definition hex32 `{Hex} (v : option value) (what : string) : cliresult bytes :=
  let*! s := v ≫= value_as_str else invalid_data ("missing/invalid " +:+ what) in
  let*! b := hex_decode s else invalid_data (what +:+ " is not hex") in
  to_array 32 (invalid_data (what +:+ " is not 32 bytes")) b.

(** [iter().map(hex32).collect()]. *)
Fixpoint hex32_all `{Hex} (vs : list value) (what : string) : cliresult (list bytes) :=
  match vs with
  | [] => Ok []
  | v :: vs => let*? b := hex32 (Some v) what in let*? bs := hex32_all vs what in Ok (b :: bs)
  end.

Definition verdict_str (v : PublishedRootVerdict) : string :=
  match v with
  | NoPublishedRoot => "no_published_root"
  | MatchAtSameSize => "match"
  | ConsistentAdvance _ _ => "consistent_advance"
  | RootMismatchAtSameSize => "root_mismatch_at_same_size"
  | LogShrank _ _ => "log_shrank"
  | NotAnExtension _ _ => "not_an_extension"
  end.

Section Code.
Context `{Sha256, HB64 : Base64Url, HX : Hex, HJc : Jcs, HP : P256, !Ecdsa256, HJ : JsonText, HM : MlDsa87, HU : UuidLib, HV : Vrf.VrfR255}.
Context {St E : Type} `{HK : Keystore St, HE : HttpEnv E}.
Context (CLI_VERSION server_url : string).
Context (anchor : World St E -> cliresult Anchoring * World St E).

(** ** The state of a command: the requests, and what it printed *)

Definition Tw : Type := World St E * list value.

Definition on_world_of {A} (f : World St E -> cliresult A * World St E) (t : Tw) : cliresult A * Tw :=
  let '(r, w) := f t.1 in (r, (w, t.2)).

Definition print_json (v : value) (t : Tw) : Tw := (t.1, t.2 ++ [v]).

(** An attempt of a command: it may only read. *)
Definition attempt_reading {A} (f : Tw -> cliresult A * Tw) (t : Tw) : cliresult A * Tw :=
  let '(r, (w, out)) := f (set_read_only true t.1, t.2) in (r, (set_read_only (w_read_only t.1) w, out)).

Definition get_public (path : string) : Tw -> cliresult value * Tw :=
  on_world_of (get_json CLI_VERSION (server_url +:+ path) []).

(** ** The owner's watch *)

(** The scan: pages until the published size is reached.  Every page adds an entry,
    so the size bounds the pages ([scan_exact]). *)
Fixpoint scan (fuel : nat) (epoch size : Z) (scanned : list value) (t : Tw) : cliresult (list value) * Tw :=
  match fuel with
  | O => (Ok scanned, t)
  | S fuel =>
      if Z.of_nat (length scanned) <? size then
        let next := Z.of_nat (length scanned) + 1 in
        do? page := get_public ("/v1/transparency/log/range?epoch=" +:+ pretty epoch +:+ "&start=" +:+ pretty next
                                +:+ "&end=" +:+ pretty size) t on t in
        match get_array page "entries" with
        | Some (e :: es) => scan fuel epoch size (scanned ++ take (Z.to_nat (size - next + 1)) (e :: es)) t
        | _ => (Err (transparency_violation ("the server served no entries from " +:+ pretty next
                 +:+ ", inside epoch " +:+ pretty epoch +:+ "'s published size " +:+ pretty size)), t)
        end
      else (Ok scanned, t)
  end.

(** The keys held, by the log's names and fingerprints. *)
Fixpoint held_keys (h : string) (ps : list (Keystore.Purpose * string)) (st : St)
    : cliresult (list (string * string)) * St :=
  match ps with
  | [] => (Ok [], st)
  | (p, wire) :: ps =>
      match from_handle h p with
      | Err e => (Err e, st)
      | Ok label =>
          ks? here := ks_exists st label on st in
          if here then
            ks? m := ks_meta st label on st in
            match fingerprint_for wire (km_public_key m) with
            | Err e => (Err e, st)
            | Ok fp => ks? rest := held_keys h ps st on st in (Ok ((wire, fp) :: rest), st)
            end
          else held_keys h ps st
      end
  end.

Definition log_purposes : list (Keystore.Purpose * string) :=
  [(Keystore.Signing, "signing"); (Keystore.Kem, "kem"); (Keystore.SigningPq, "signing_pq"); (Keystore.KemPq, "kem_pq")]%string.

(** [/v1/me] names the anchored epoch, or the epoch moved. *)
Definition check_me_epoch (me : value) (epoch : Z) : cliresult unit :=
  let named := match value_get me "epoch" with None => Some 1 | Some v => value_as_u64 v end in
  if decide (named = Some epoch) then Ok tt
  else
    let shown := match value_get me "epoch" with None => "1 (absent)" | Some v => json_display v end in
    Err (as_epoch_move (transparency_violation ("/v1/me names epoch " +:+ shown +:+ ", but the anchored epoch is " +:+ pretty epoch))).

(** The epoch, the account's index and the published root that the watch goes by. *)
Definition watch_target (a : Anchoring) (me : value) (account_id : string) : cliresult (Z * bytes * RootLine) :=
  match a_verdict a with
  | Unanchored why => Err (unanchored why)
  | Violation why => Err (transparency_violation why)
  | Anchored Legacy =>
      Err (unanchored "epoch 1 carries no account index, so the owner's watch begins at the epoch-2 cut")
  | Anchored (V3 epoch vrf_public_key _) =>
      let*? _ := check_me_epoch me epoch in
      let*? index := account_index vrf_public_key account_id (Text.get_str me "account_vrf_proof") "your account" in
      let*! anchors := a_anchors a else unanchored "the anchor files could not be read" in
      let*! published := latest_root anchors epoch else
        unanchored ("epoch " +:+ pretty epoch +:+ " has no published root yet, so there is no prefix to scan") in
      Ok (epoch, index, published)
  end.

Definition watch_report (w : OwnerWatch) (epoch : Z) (published : RootLine) (index : bytes) : value :=
  VObject [("verdict", VString (w_verdict w)); ("epoch", VNumber epoch); ("scanned", VNumber (log_size published));
           ("published_root", VString (hex_encode (merkle_root_of published)));
           ("account_index", VString (hex_encode index)); ("entries", VArray (w_entries w));
           ("held_not_in_published_log", VArray (map VString (w_unlogged w)))]%string.

(** How the command ends. *)
Definition watch_end (w : OwnerWatch) (epoch size : Z) : cliresult unit :=
  if decide (w_verdict w = "clean"%string) then Ok tt
  else if decide (w_verdict w = "foreign_key"%string) then
    Err (transparency_violation ("the log holds " +:+ pretty (length (w_foreign w))
      +:+ " key(s) under your account that this CLI does not hold: " +:+ String.concat ", " (w_foreign w)
      +:+ ". Unless this CLI's keystore lost one of its own keys, a key was logged in your name"))
  else Err (unanchored (pretty (length (w_unlogged w)) +:+ " of your keys are not in epoch " +:+ pretty epoch
      +:+ "'s published prefix yet (size " +:+ pretty size +:+ "); run again after the next published root")).

Definition me_and_account (label : KeyLabel) (t : Tw) : cliresult (value * string) * Tw :=
  do? me := on_world_of (get_json_signed CLI_VERSION label server_url "/v1/me") t on t in
  (let*! account_id := Text.get_str me "account_id" else invalid_data "/v1/me carries no account_id" in
   Ok (me, account_id), t).

(** [label] is the label that was resolved. *)
Definition transparency_verify_self_once (label : cliresult KeyLabel) (t : Tw) : cliresult unit * Tw :=
  match label with
  | Err e => (Err e, t)
  | Ok label =>
      do? ma := me_and_account label t on t in
      do? anchoring := on_world_of anchor t on t in
      match watch_target anchoring ma.1 ma.2 with
      | Err e => (Err e, t)
      | Ok (epoch, index, published) =>
          let size := log_size published in
          do? scanned := scan (Z.to_nat size) epoch size [] t on t in
          do? held := on_world_of (on_ks (held_keys (handle label) log_purposes)) t on t in
          match owner_watch scanned epoch published index held with
          | Err e => (Err e, t)
          | Ok watch => (watch_end watch epoch size, print_json (watch_report watch epoch published index) t)
          end
      end
  end.

Definition transparency_verify_self (label : cliresult KeyLabel) : Tw -> cliresult unit * Tw :=
  once_more_on_epoch_change (attempt_reading (transparency_verify_self_once label)).

(** ** One key in the log *)

Definition proof_epoch_of (proof_doc : value) : Z :=
  match get_u64 proof_doc "epoch" with Some e => if e <? 2 ^ 16 then e else 1 | None => 1 end.

Definition fetch_consistency_nodes (epoch from to : Z) (t : Tw) : cliresult (list bytes) * Tw :=
  do? doc := get_public ("/v1/transparency/log/consistency-proof?from=" +:+ pretty from +:+ "&to=" +:+ pretty to
                         +:+ "&epoch=" +:+ pretty epoch) t on t in
  (let*! vs := get_array doc "consistency_proof" else
     invalid_data "consistency-proof response missing proof array" in
   hex32_all vs "consistency_proof element", t).

(** [judge_published_root], whose fetch is made exactly when the log is longer than
    what was published. *)
Definition judge_live (epoch : Z) (proof_root : bytes) (proof_size : Z) (committed : option (bytes * Z)) (t : Tw)
    : cliresult PublishedRootVerdict * Tw :=
  match committed with
  | Some (_, published_size) =>
      if published_size <? proof_size then
        do? nodes := fetch_consistency_nodes epoch published_size proof_size t on t in
        (judge_published_root proof_root proof_size committed (fun _ _ => Ok nodes), t)
      else (judge_published_root proof_root proof_size committed (fun _ _ => Ok []), t)
  | None => (judge_published_root proof_root proof_size None (fun _ _ => Ok []), t)
  end.

(** A proof from an epoch that has ended: stated, not an alarm. *)
Definition retired (proof_doc : value) (proof_epoch : Z) (line : RootLine) : cliresult value :=
  let at_end := bool_decide (get_u64 proof_doc "log_size_at_proof" = Some (log_size line)) in
  let root_matches := at_end &&
    bool_decide (to_ascii_lowercase <$> Text.get_str proof_doc "merkle_root_at_proof" = Some (hex_encode (merkle_root_of line))) in
  guard negb (at_end && negb root_matches) else
    transparency_violation ("this epoch-" +:+ pretty proof_epoch +:+ " proof's root at size " +:+ pretty (log_size line)
      +:+ " is not the epoch's published end root: TRANSPARENCY VIOLATION") ;;
  Ok (VObject [("valid", VNull); ("published_root_status", VString "epoch_retired"); ("epoch", VNumber proof_epoch);
               ("epoch_final_log_size", VNumber (log_size line));
               ("epoch_final_merkle_root", VString (hex_encode (merkle_root_of line)));
               ("matches_epoch_end", VBool root_matches);
               ("note", VString ("epoch " +:+ pretty proof_epoch +:+ " was retired at size " +:+ pretty (log_size line)
                  +:+ " (published end line); its entries are no longer served"))]%string).

(** What a proof document says: the leaf, recomputed and bound to the key, its place,
    the size, the root and the path. *)
Record Proof := mk_Proof
  { p_leaf : bytes; p_entry_id : Z; p_size : Z; p_root : bytes; p_path : list bytes }.

Definition read_proof (proof_doc : value) (fingerprint purpose : option string) : cliresult Proof :=
  let*? leaf := bind_leaf proof_doc fingerprint purpose in
  let*! entry_id := get_u64 proof_doc "entry_id" else invalid_data "proof missing entry_id" in
  let*! size := get_u64 proof_doc "log_size_at_proof" else invalid_data "proof missing log_size_at_proof" in
  let*? root := hex32 (value_get proof_doc "merkle_root_at_proof") "merkle_root_at_proof" in
  let*! vs := get_array proof_doc "inclusion_proof" else invalid_data "proof missing inclusion_proof array" in
  let*? path := hex32_all vs "inclusion_proof element" in
  Ok (mk_Proof leaf entry_id size root path).

Definition inclusion_holds (p : Proof) : bool :=
  (1 <=? p_entry_id p) && Merkle.verify_inclusion (p_leaf p) (p_entry_id p - 1) (p_size p) (p_path p) (p_root p).

(** The root to hold the proof to, or why there is none to hold it to. *)
Definition committed_root (published_root : option string) (published_size : option Z) (anchoring : option Anchoring)
    : cliresult (option (bytes * Z) * option string) :=
  match published_root, published_size with
  | Some hex, Some size =>
      let*! b := hex_decode (trim hex) else invalid_args "--published-root must be 32-byte hex" in
      let*? root := to_array 32 (invalid_args "--published-root must be 32-byte hex") b in
      Ok (Some (root, size), None)
  | _, _ =>
      match anchoring with
      | Some (mk_Anchoring served (Some files) (Anchored _) _) =>
          Ok ((fun r => (merkle_root_of r, log_size r)) <$> latest_root files (s_epoch served), None)
      | Some (mk_Anchoring _ _ (Unanchored why) _) => Ok (None, Some why)
      | _ =>
          Ok (None, Some (if default false (repo_known <$> anchoring)
                          then "the public anchor files could not be read"
                          else "no public anchor repository is known for this server (pass --anchor-repo)")%string)
      end
  end.

Definition anchored_pass (verdict : option PublishedRootVerdict) : bool :=
  match verdict with Some MatchAtSameSize | Some (ConsistentAdvance _ _) => true | _ => false end.

Definition proof_report (proof_doc : value) (p : Proof) (epoch : Z) (offline consistent : bool)
    (committed : option (bytes * Z)) (why : option string) (verdict : option PublishedRootVerdict) : value :=
  VObject [("valid", VBool (consistent && anchored_pass verdict)); ("inclusion_holds", VBool consistent);
           ("fingerprint", default VNull (value_get proof_doc "public_key_fingerprint"));
           ("purpose", default VNull (value_get proof_doc "key_purpose")); ("epoch", VNumber epoch);
           ("anchor", VString (if offline then "explicit" else "public_file"));
           ("entry_id", VNumber (p_entry_id p)); ("leaf_bound", VBool true);
           ("log_size_at_proof", VNumber (p_size p)); ("merkle_root_at_proof", VString (hex_encode (p_root p)));
           ("merkle_root_publicly_committed", json_opt (fun c => VString (hex_encode c.1)) committed);
           ("published_log_size", json_opt (fun c => VNumber c.2) committed);
           ("match", match verdict with
                     | Some MatchAtSameSize => VBool true
                     | Some RootMismatchAtSameSize => VBool false
                     | _ => VNull
                     end);
           ("published_root_status", match why, verdict with
                                     | Some _, _ => VString "unanchored"
                                     | None, Some v => VString (verdict_str v)
                                     | None, None => VNull
                                     end);
           ("unanchored_reason", json_opt VString why)]%string.

(** How the command ends. *)
Definition proof_end (consistent : bool) (why : option string) (verdict : option PublishedRootVerdict) : cliresult unit :=
  guard consistent else signature_invalid "inclusion proof does not verify against its root" ;;
  match verdict with
  | None =>
      Err (unanchored ("the inclusion holds but the root is not anchored: " +:+ default "no public anchor" why))
  | Some NoPublishedRoot =>
      Err (unanchored "the inclusion holds but no root is published for this epoch yet")
  | Some MatchAtSameSize => Ok tt
  | Some (ConsistentAdvance _ _) => Ok tt
  | Some RootMismatchAtSameSize =>
      Err (transparency_violation "the log presents a DIFFERENT root for the publicly-committed size (fork or rewrite): TRANSPARENCY VIOLATION")
  | Some (LogShrank published proof) =>
      Err (transparency_violation ("the log (" +:+ pretty proof +:+ " entries) is SMALLER than the publicly-committed size ("
        +:+ pretty published +:+ "): entries have been removed. TRANSPARENCY VIOLATION"))
  | Some (NotAnExtension from to) =>
      Err (transparency_violation ("the log's advance " +:+ pretty from +:+ " → " +:+ pretty to
        +:+ " does NOT extend the publicly-committed root: history rewritten. TRANSPARENCY VIOLATION"))
  end.

(** The saved proof, or the one fetched at the anchored epoch. *)
Definition proof_document (file : option (cliresult value)) (fingerprint purpose : option string)
    (anchoring : option Anchoring) (t : Tw) : cliresult value * Tw :=
  match file with
  | Some read => (read, t)
  | None =>
      get_public ("/v1/transparency/log/inclusion-proof?fingerprint=" +:+ default EmptyString fingerprint
        +:+ "&purpose=" +:+ default EmptyString purpose
        +:+ "&epoch=" +:+ pretty (default 1 ((fun a => s_epoch (a_served a)) <$> anchoring))) t
  end.

(** Steps (2) and (3): the leaf, the tree and the published root. *)
Definition check_proof (proof_doc : value) (fingerprint purpose published_root : option string)
    (published_size : option Z) (offline : bool) (anchoring : option Anchoring) (t : Tw) : cliresult unit * Tw :=
  let proof_epoch := proof_epoch_of proof_doc in
  match read_proof proof_doc fingerprint purpose with
  | Err e => (Err e, t)
  | Ok p =>
      let consistent := inclusion_holds p in
      match committed_root published_root published_size anchoring with
      | Err e => (Err e, t)
      | Ok (committed, why) =>
          do? verdict := (if consistent && bool_decide (why = None)
                          then on_res Some (judge_live proof_epoch (p_root p) (p_size p) committed t)
                          else (Ok None, t)) on t in
          let epoch := default proof_epoch ((fun a => s_epoch (a_served a)) <$> anchoring) in
          (proof_end consistent why verdict,
           print_json (proof_report proof_doc p epoch offline consistent committed why verdict) t)
      end
  end.

Definition violation_of (anchoring : option Anchoring) : option string :=
  match anchoring with Some (mk_Anchoring _ _ (Violation why) _) => Some why | _ => None end.

Definition ended (anchoring : option Anchoring) (epoch : Z) : option RootLine :=
  a ← anchoring; files ← a_anchors a; epoch_end files epoch.

Definition transparency_verify_once (file : option (cliresult value)) (fingerprint purpose published_root : option string)
    (published_size : option Z) (t : Tw) : cliresult unit * Tw :=
  let offline := bool_decide (is_Some file) && bool_decide (is_Some published_root) in
  do? anchoring := (if offline then (Ok None, t) else on_res Some (on_world_of anchor t)) on t in
  match violation_of anchoring with
  | Some why => (Err (transparency_violation (why +:+ ": TRANSPARENCY VIOLATION")), t)
  | None =>
      do? proof_doc := proof_document file fingerprint purpose anchoring t on t in
      let proof_epoch := proof_epoch_of proof_doc in
      match ended anchoring proof_epoch with
      | Some line =>
          match retired proof_doc proof_epoch line with
          | Err e => (Err e, t)
          | Ok report => (Ok tt, print_json report t)
          end
      | None => check_proof proof_doc fingerprint purpose published_root published_size offline anchoring t
      end
  end.

Definition transparency_verify (file : option (cliresult value)) (fingerprint purpose published_root : option string)
    (published_size : option Z) (t : Tw) : cliresult unit * Tw :=
  if negb (Bool.eqb (bool_decide (is_Some published_root)) (bool_decide (is_Some published_size))) then
    (Err (invalid_args "--published-root and --published-size must be given together: the roots.jsonl line carries both"), t)
  else
    match file, fingerprint, purpose with
    | Some _, None, _ | None, Some _, Some _ =>
        once_more_on_epoch_change
          (attempt_reading (transparency_verify_once file fingerprint purpose published_root published_size)) t
    | None, Some _, None => (Err (invalid_args "--purpose is required with --fingerprint"), t)
    | _, _, _ => (Err (invalid_args "specify --inclusion-proof <file> or --fingerprint --purpose"), t)
    end.

(** ** A statement about a subject *)

Definition fetch_server_pubkey (key_id : string) (t : Tw) : cliresult bytes * Tw :=
  do? info := get_public "/v1/server-info" t on t in
  (let*? r := find_key_by_id info key_id in
   ok_or (transparency_violation ("server-info has no signing key with id " +:+ key_id)) r, t).

Definition fetch_server_pq_key (t : Tw) : cliresult (option bytes) * Tw :=
  do? info := get_public "/v1/server-info" t on t in
  (match get_array info "current_signing_keys" with
   | None => Ok None
   | Some ks => find_key (fun k => bool_decide (Text.get_str k "purpose" = Some "attestation_verification_pq"%string)) ks
   end, t).

(** What a response states: the id of the key that signed it, the attestation, the
    signature and the bytes it is over. *)
Record Statement := mk_Statement
  { st_key_id : string; st_attestation : value; st_signature : bytes; st_input : bytes }.

Definition read_statement (response : value) : cliresult Statement :=
  let*! server_key_id := Text.get_str response "server_key_id" else invalid_data "response missing server_key_id" in
  let*! signed_at := value_get response "signed_at" ≫= value_as_i64 else invalid_data "response missing signed_at" in
  let*! attestation := value_get response "attestation" else invalid_data "response missing attestation" in
  let*? signature := decode_field response "server_signature"
    (invalid_data "response missing server_signature") (invalid_data "server_signature base64url") in
  let*? input := map_err (fun _ => invalid_data "verification canonical bytes")
    (verification_signing_input attestation server_key_id signed_at) in
  Ok (mk_Statement server_key_id attestation signature input).

(** [pin] is the operator's key, parsed; without one the key is fetched, and fetched
    once more when the signature does not verify. *)
Definition signing_key (pin : option (cliresult bytes)) (s : Statement) (t : Tw) : cliresult bytes * Tw :=
  do? server_pub := (match pin with
                     | Some pk => (pk, t)
                     | None => fetch_server_pubkey (st_key_id s) t
                     end) on t in
  match verify_es256 server_pub (st_input s) (st_signature s) with
  | Ok _ => (Ok server_pub, t)
  | Err _ =>
      do? server_pub := (match pin with
                         | Some _ => (Ok server_pub, t)
                         | None => fetch_server_pubkey (st_key_id s) t
                         end) on t in
      (let*? _ := map_err (fun _ => signature_invalid "server signature does not verify")
                    (verify_es256 server_pub (st_input s) (st_signature s)) in
       Ok server_pub, t)
  end.

(** The key for the second signature: the operator's, or the one the response names,
    or the active one; none when only the first is pinned. *)
Definition pq_key (pinned : bool) (pq_pin : option string) (response : value) (t : Tw) : cliresult (option bytes) * Tw :=
  match pq_pin with
  | Some pk => (map_ok Some (ok_or (invalid_args "--server-pq-pubkey base64url") (b64_decode pk)), t)
  | None =>
      if pinned then (Ok None, t)
      else match Text.get_str response "server_pq_key_id" with
           | Some pq_kid => on_res Some (fetch_server_pubkey pq_kid t)
           | None => fetch_server_pq_key t
           end
  end.

(** The index the receipts are held to, online in an epoch that has one. *)
Definition statement_index (anchoring : option Anchoring) (attestation : value) : cliresult (option (Z * bytes)) :=
  match anchoring with
  | None => Ok None
  | Some a =>
      let*? mode := receipt_rule (a_verdict a) in
      let*! subject := Text.get_str attestation "subject_account_id" else
        invalid_data "attestation missing subject_account_id" in
      index_under mode subject (Text.get_str attestation "subject_account_vrf_proof") "attestation"
  end.

Definition member (v : value) (k : string) : value := default VNull (value_get v k).

Definition attestation_report (attestation : value) (status transparency : string) (index : option (Z * bytes)) : value :=
  VObject [("valid", VBool (bool_decide (status = "active"))); ("subject_account_id", member attestation "subject_account_id");
           ("subject_handle", member attestation "subject_handle");
           ("subject_signing_pubkey_fingerprint", member attestation "subject_signing_pubkey_fingerprint");
           ("subject_kem_pubkey_fingerprint", member attestation "subject_kem_pubkey_fingerprint");
           ("expires_at", member attestation "expires_at"); ("status", VString status);
           ("prsn_sharing_capability", member attestation "prsn_sharing_capability");
           ("transparency", VString transparency);
           ("receipt_binding", VString (if bool_decide (index = None) then "attestation" else "index"))]%string.

Definition status_end (status : string) : cliresult unit :=
  if decide (status = "active"%string) then Ok tt
  else if decide (status = "revoked"%string) then Err (attestation_revoked "attestation is revoked")
  else if decide (status = "expired"%string) then Err (attestation_expired "attestation is expired")
  else Err (invalid_data ("unknown status '" +:+ status +:+ "'")).

(** The response: [Some id] is fetched, a saved one was read. *)
Definition verification_response (source : string + cliresult value) (t : Tw) : cliresult value * Tw :=
  match source with
  | inl id => get_public ("/v1/attestations/" +:+ id +:+ "/verification") t
  | inr read => (read, t)
  end.

(** [source] is the one argument that was given. *)
Definition attestation_verify_once (source : string + cliresult value) (pin : option (cliresult bytes))
    (pq_pin : option string) (t : Tw) : cliresult unit * Tw :=
  do? anchoring := (match pin with None => on_res Some (on_world_of anchor t) | Some _ => (Ok None, t) end) on t in
  do? response := verification_response source t on t in
  match read_statement response with
  | Err e => (Err e, t)
  | Ok s =>
      do? server_pub := signing_key pin s t on t in
      do? server_pq_vk := pq_key (bool_decide (is_Some pin)) pq_pin response t on t in
      let attestation := st_attestation s in
      match (let*? _ := enforce_response_dual_signature response (st_input s) server_pq_vk in
             let*? index := statement_index anchoring attestation in
             let anchored_epoch := match source with
                                   | inl _ => (fun a => s_epoch (a_served a)) <$> anchoring
                                   | inr _ => None
                                   end in
             let*? transparency := verify_inline_receipts response attestation server_pub server_pq_vk
                                     (binding_of index Attested) anchored_epoch in
             Ok (index, transparency)) with
      | Err e => (Err e, t)
      | Ok (index, transparency) =>
          let status := default "unknown"%string (Text.get_str attestation "status") in
          (status_end status, print_json (attestation_report attestation status transparency index) t)
      end
  end.

Definition attestation_verify (attestation_id : option string) (file : option (cliresult value))
    (pin : option (cliresult bytes)) (pq_pin : option string) (t : Tw) : cliresult unit * Tw :=
  match attestation_id, file with
  | Some id, None => once_more_on_epoch_change (attempt_reading (attestation_verify_once (inl id) pin pq_pin)) t
  | None, Some read => once_more_on_epoch_change (attempt_reading (attestation_verify_once (inr read) pin pq_pin)) t
  | _, _ => (Err (invalid_args "specify exactly one of --attestation-id or --in"), t)
  end.

End Code.
