(* ===== verification/TransparencyTheorems.v ===== *)
(** * What the transparency commands guarantee

    The scan is of the whole published prefix; a watch that ends well covers the log;
    a key that verifies is logged in an extension of the published log; a statement
    that verifies is signed, and is not signed with one signature where two are due. *)

From S2P Require Import Prelude Prims CryptoCore Text VrfIndex Ecdsa Envelope Wrap SignedBytes Merkle MerkleLevels MerkleProofs MerkleTheorems CliError Keystore Token Anchors Watch Receipts Hybrid GrantStatus RecipientVerify RecipientTheorems PublishedRoot Transfer Http HttpTheorems Transparency.
Import TransLog Attest.

(** A command that runs at most twice ended with the answer of one of its attempts. *)
Lemma once_more_ends {W T} (f : W -> cliresult T * W) w r w' :
  once_more_on_epoch_change f w = (r, w') -> exists w0, f w0 = (r, w').
Proof.
  unfold once_more_on_epoch_change. destruct (f w) as [[a|e] w1] eqn:E1; [intros [= <- <-]; eauto|].
  destruct (epoch_moved e); [eauto|]. intros [= <- <-]. eauto.
Qed.

Section Commands.
Context `{HSh : Sha256, HB64 : Base64Url, HX : Hex, HJc : Jcs, HP : P256, !Ecdsa256, HJ : JsonText, HM : MlDsa87, HU : UuidLib, HV : Vrf.VrfR255}.
Context {St E : Type} `{HK : Keystore St, HE : HttpEnv E}.
Context (CLI_VERSION server_url : string).
Context (anchor : World St E -> cliresult Anchoring * World St E).
Abbreviation T := (@Tw St E).

Lemma attempt_ends {A} (f : T -> cliresult A * T) t r t' :
  attempt_reading f t = (r, t') -> exists t0 t1, f t0 = (r, t1) /\ t1.2 = t'.2.
Proof.
  unfold attempt_reading. destruct (f _) as [r0 [w out]] eqn:Ef. intros [= <- <-]. eexists _, (w, out). by split; [exact Ef|].
Qed.

(** The state in which the last attempt of a command began: the one the command was
    given, or the one a first attempt left that failed because the epoch moved. *)
Definition last_attempt {A} (f : T -> cliresult A * T) (t t0 : T) : Prop :=
  t0 = t \/ exists e, attempt_reading f t = (Err e, t0) /\ epoch_moved e = true.

(** A command that ended well did what its last attempt did. *)
Lemma last_attempt_ends {A} (f : T -> cliresult A * T) t x t' :
  once_more_on_epoch_change (attempt_reading f) t = (Ok x, t') ->
  exists t0 t1, last_attempt f t t0 /\ f (set_read_only true t0.1, t0.2) = (Ok x, t1) /\ t'.2 = t1.2.
Proof.
  assert (Hone : forall t0, attempt_reading f t0 = (Ok x, t') ->
    exists t1, f (set_read_only true t0.1, t0.2) = (Ok x, t1) /\ t'.2 = t1.2).
  { intros t0. unfold attempt_reading. destruct (f _) as [r [w out]]. intros [= -> <-]. by exists (w, out). }
  unfold once_more_on_epoch_change. destruct (attempt_reading f t) as [[a|e] t0] eqn:E1.
  - intros [= -> ->]. destruct (Hone t) as (t1 & ? & ?); [done|]. exists t, t1. split; [by left|done].
  - destruct (epoch_moved e) eqn:Em; [|done]. intros (t1 & ? & ?)%Hone. exists t0, t1. split; [|done].
    right. by exists e.
Qed.

Lemma on_world_of_inv {A} (f : World St E -> cliresult A * World St E) (t : T) r t' :
  on_world_of f t = (r, t') -> f t.1 = (r, t'.1) /\ t'.2 = t.2.
Proof. unfold on_world_of. destruct (f t.1) as [x w]. by intros [= <- <-]. Qed.

(** ** The owner's watch *)

(** The scan ends after at most as many pages as entries, with exactly the entries
    that were published, or with an error. *)
Theorem scan_exact fuel epoch size scanned (t : T) s t' :
  Z.of_nat (length scanned) <= size -> size <= Z.of_nat (length scanned + fuel) ->
  scan CLI_VERSION server_url fuel epoch size scanned t = (Ok s, t') -> Z.of_nat (length s) = size.
Proof.
  revert scanned t. induction fuel as [|fuel IH]; intros scanned t Hle Hge; cbn [scan].
  { intros [= <- _]. lia. }
  destruct (Z.ltb_spec (Z.of_nat (length scanned)) size) as [Hlt|]; [|intros [= <- _]; lia].
  destruct (get_public _ _ _ t) as [[page|e] t1]; [|done].
  destruct (get_array page "entries") as [[|v vs]|]; [done| |done].
  set (room := Z.to_nat _). assert (Hroom : Z.of_nat room = size - Z.of_nat (length scanned)) by lia.
  assert (Hn : (1 <= length (take room (v :: vs)) <= room)%nat).
  { rewrite length_take. cbn [length]. lia. }
  apply IH; rewrite length_app; lia.
Qed.

(** Every key in the list of held keys is the fingerprint of a key of the keystore. *)
Definition from_keystore (h : string) (key : string * string) : Prop :=
  exists p st st' m, (p, key.1) ∈ log_purposes /\ ks_meta st (mk_KeyLabel h p) = (Ok m, st') /\
    fingerprint_for key.1 (km_public_key m) = Ok key.2.

Lemma held_keys_spec h ps st held st' :
  ps ⊆ log_purposes -> held_keys h ps st = (Ok held, st') -> Forall (from_keystore h) held.
Proof.
  revert st held st'. induction ps as [|[p wire] ps IH]; intros st held st' Hsub; cbn [held_keys].
  { intros [= <- _]. constructor. }
  destruct (from_handle h p) as [l|] eqn:Ef; [|done]. apply from_handle_Ok in Ef as [-> _].
  destruct (ks_exists st _) as [[here|] st1]; [|done].
  assert (Hps : ps ⊆ log_purposes) by set_solver.
  destruct here; [|by apply IH].
  destruct (ks_meta st1 _) as [[m|] st2] eqn:Em; [|done].
  destruct (fingerprint_for wire _) as [fp|] eqn:Efp; [|done].
  destruct (held_keys h ps st2) as [[rest|] st3] eqn:Er; [|done]. intros [= <- _].
  constructor; [|by eapply IH]. exists p, st1, st2, m. split; [apply Hsub; by left|done].
Qed.

Lemma watch_target_Ok a me account epoch index published :
  watch_target a me account = Ok (epoch, index, published) ->
  exists key g files, a_verdict a = Anchored (V3 epoch key g) /\
    account_index key account (Text.get_str me "account_vrf_proof") "your account" = Ok index /\
    a_anchors a = Some files /\ latest_root files epoch = Some published.
Proof.
  unfold watch_target. destruct (a_verdict a) as [[|e0 key g]| |]; [done| |done..].
  destruct (check_me_epoch me e0) as [[]|]; [|done].
  destruct (account_index key account _ _) as [i|] eqn:Ei; [|done].
  destruct (a_anchors a) as [files|]; [|done]. destruct (latest_root files e0) as [pub|] eqn:El; [|done].
  intros [= <- <- <-]. by exists key, g, files.
Qed.

Lemma watch_end_clean w epoch size : watch_end w epoch size = Ok tt -> w_verdict w = "clean"%string.
Proof. unfold watch_end. repeat case_decide; done. Qed.

Lemma self_once_Ok label (t t' : T) :
  transparency_verify_self_once CLI_VERSION server_url anchor (Ok label) t = (Ok tt, t') ->
  exists me account a epoch index published scanned held w w1 w2 (t2 t3 : T) (st st' : St),
    get_json_signed CLI_VERSION label server_url "/v1/me" w = (Ok me, w1) /\
    Text.get_str me "account_id" = Some account /\ anchor w1 = (Ok a, w2) /\
    watch_target a me account = Ok (epoch, index, published) /\
    scan CLI_VERSION server_url (Z.to_nat (log_size published)) epoch (log_size published) [] t2 = (Ok scanned, t3) /\
    held_keys (handle label) log_purposes st = (Ok held, st') /\
    exists watch, owner_watch scanned epoch published index held = Ok watch /\ w_verdict watch = "clean"%string.
Proof.
  unfold transparency_verify_self_once, me_and_account.
  destruct (on_world_of (get_json_signed _ _ _ _) t) as [[me|] t1] eqn:Em; [|done].
  apply on_world_of_inv in Em as [Em _].
  destruct (Text.get_str me "account_id") as [account|] eqn:Ea; [|done]. cbn [fst snd].
  destruct (on_world_of anchor t1) as [[a|] t2] eqn:Ean; [|done]. apply on_world_of_inv in Ean as [Ean _].
  destruct (watch_target a me account) as [[[epoch index] published]|] eqn:Et; [|done].
  destruct (scan _ _ _ _ _ _ t2) as [[scanned|] t3] eqn:Esc; [|done].
  destruct (on_world_of (on_ks _) t3) as [[held|] t4] eqn:Eh; [|done]. apply on_world_of_inv in Eh as [Eh _].
  unfold on_ks in Eh. destruct (held_keys _ _ _) as [hk st'] eqn:Ehk. injection Eh as -> _.
  destruct (owner_watch _ _ _ _ _) as [watch|] eqn:Ew; [|done]. intros [= Hend _].
  exists me, account, a, epoch, index, published, scanned, held, t.1, t1.1, t2.1, t2, t3, (w_ks t3.1), st'.
  split_and!; try done.
  exists watch. split; [done|by eapply watch_end_clean].
Qed.

(** C3: The owner's watch covers the log.  When [transparency verify --self] ends
    well, the epoch was anchored in the public files and has a VRF key and a published
    root there; and if that root is of a log of the published size, every entry of that
    log under this account's index, which is the one the VRF key proves for the account
    the server named, is for a key whose fingerprint this keystore has: whatever the
    server left out of the scan or altered in it, or two of the hashed strings collide. *)
Theorem self_watch_covers label (t t' : T) :
  transparency_verify_self CLI_VERSION server_url anchor (Ok label) t = (Ok tt, t') ->
  exists me account a epoch key g files index published scanned held w w1 w2 (t2 t3 : T) (st st' : St),
    get_json_signed CLI_VERSION label server_url "/v1/me" w = (Ok me, w1) /\
    Text.get_str me "account_id" = Some account /\
    anchor w1 = (Ok a, w2) /\ a_verdict a = Anchored (V3 epoch key g) /\
    account_index key account (Text.get_str me "account_vrf_proof") "your account" = Ok index /\
    a_anchors a = Some files /\ latest_root files epoch = Some published /\
    scan CLI_VERSION server_url (Z.to_nat (log_size published)) epoch (log_size published) [] t2 = (Ok scanned, t3) /\
    held_keys (handle label) log_purposes st = (Ok held, st') /\ Forall (from_keystore (handle label)) held /\
    forall es, Forall le_ok es -> Forall served_small scanned -> Z.of_nat (length es) <= 2 ^ 63 ->
      log_size published = Z.of_nat (length es) ->
      merkle_root_of published = Merkle.merkle_root (log_hashes es) ->
      index <> replicate INDEX_LEN Byte.x00 ->
      (forall e, e ∈ es -> le_index e = Some index -> holds_key held (le_purpose e) (le_key e))
      \/ exists leaves mine, watch_scan epoch index 1 scanned = Ok (leaves, mine) /\
           collision_in (watch_inputs scanned es leaves).
Proof.
  intros (t0 & Ht)%once_more_ends. apply attempt_ends in Ht as (t1 & t2 & Ht & _).
  apply self_once_Ok in Ht as (me & account & a & epoch & index & published & scanned & held & w & w1 & w2 & t3 & t4
    & st & st' & Hme & Hacc & Ha & Htg & Hsc & Hheld & watch & Hw & Hc).
  apply watch_target_Ok in Htg as (key & g & files & Hv & Hi & Hf & Hl).
  exists me, account, a, epoch, key, g, files, index, published, scanned, held, w, w1, w2, t3, t4, st, st'.
  split_and!; try done; [by eapply held_keys_spec|].
  intros es He Hs Hn Hsz Hr Hz. destruct (watch_scan epoch index 1 scanned) as [[leaves mine]|] eqn:Esc.
  2:{ unfold owner_watch in Hw. destruct (_ =? _); [|done]. by rewrite Esc in Hw. }
  destruct (clean_watch_covers_the_log scanned epoch published index held watch es leaves mine) as [?|?];
    [done..|by left|right; by exists leaves, mine].
Qed.

(** ** One key in the log *)

Lemma hex32_32 v w b : hex32 v w = Ok b -> is32 b.
Proof. unfold hex32. intros Hx. steps_in Hx. by apply to_array_Ok in Hx as [-> ?]. Qed.

Lemma hex32_all_32 vs w bs : hex32_all vs w = Ok bs -> Forall is32 bs.
Proof.
  revert bs. induction vs as [|v vs IH]; intros bs; cbn [hex32_all]; [intros [= <-]; constructor|].
  destruct (hex32 (Some v) w) as [b|] eqn:Eb; [|done]. destruct (hex32_all vs w) as [bs'|]; [|done].
  intros [= <-]. constructor; [by eapply hex32_32|by apply IH].
Qed.

(** What [bind_leaf] checks of the key that was asked about. *)
Lemma bind_leaf_asked v a b leaf :
  bind_leaf v a b = Ok leaf ->
  bind_leaf v None None = Ok leaf /\ is32 leaf /\
  (forall fp, a = Some fp -> exists own, get_str v "public_key_fingerprint" = Some own /\ eq_ignore_ascii_case fp own = true) /\
  (forall p, b = Some p -> get_str v "key_purpose" = Some p).
Proof.
  unfold bind_leaf. intros Hx.
  destruct (get_u64 v "entry_version") as [version|]; [|done]. destruct (get_u64 v "entry_id") as [id|]; [|done].
  destruct (get_str v "key_purpose") as [purpose|]; [|done]. destruct (get_str v "algorithm") as [alg|]; [|done].
  destruct (get_str v "public_key") as [pkt|]; [|done]. destruct (b64_decode pkt) as [pk|]; [|done].
  destruct (get_u64 v "created_at") as [c|]; [|done].
  destruct (Anchors.hex32 (value_get v "prev_entry_hash") _) as [prev|]; [|done]. cbn [map_err] in Hx |- *.
  destruct (Anchors.hex32 (value_get v "entry_hash") _) as [served|] eqn:Es; [|done].
  destruct (purpose_of purpose) as [kp|]; [|done].
  match type of Hx with context [match ?r with Ok _ => _ | Err _ => _ end] => destruct r as [re|] end; [|done].
  destruct (bool_decide (re = served)) eqn:Er; [|done].
  destruct (fingerprint_for purpose pk) as [own|]; [|done].
  destruct (bool_decide (get_str v "public_key_fingerprint" = Some own)) eqn:Eo; [|done].
  destruct (match a with Some _ => _ | None => _ end) eqn:Ea; [|done].
  destruct (match b with Some _ => _ | None => _ end) eqn:Eb; [|done]. bool_prop. apply (inj Ok) in Hx as <-.
  split; [done|]. split; [subst; by eapply hex32_length|]. split; [intros fp ->; eauto|].
  intros p ->. by apply bool_decide_eq_true in Eb as ->.
Qed.

Lemma get_public_prints path (t : T) : (get_public CLI_VERSION server_url path t).2.2 = t.2.
Proof. unfold get_public, on_world_of. by destruct (get_json _ _ _ t.1). Qed.

Lemma judge_live_prints epoch root size committed (t : T) :
  (judge_live CLI_VERSION server_url epoch root size committed t).2.2 = t.2.
Proof.
  unfold judge_live, fetch_consistency_nodes. destruct committed as [[r ps]|]; [|done].
  destruct (ps <? size); [|done].
  match goal with |- context [get_public _ _ ?p t] => pose proof (get_public_prints p t) as Hg;
    destruct (get_public _ _ p t) as [[doc|] t1] end; [|done].
  by destruct (get_array doc "consistency_proof") as [vs|]; [destruct (hex32_all vs _)|].
Qed.

Lemma judge_live_Ok epoch root size committed (t t' : T) v :
  judge_live CLI_VERSION server_url epoch root size committed t = (Ok v, t') ->
  exists nodes, Forall is32 nodes /\ judge_published_root root size committed (fun _ _ => Ok nodes) = Ok v /\
    match committed with
    | Some (_, published) => published < size -> fetch_consistency_nodes CLI_VERSION server_url epoch published size t = (Ok nodes, t')
    | None => True
    end.
Proof.
  unfold judge_live. destruct committed as [[r published]|].
  2:{ intros [= Hv _]. exists []. split; [constructor|]. by subst v. }
  destruct (Z.ltb_spec published size) as [Hl|Hl].
  - destruct (fetch_consistency_nodes _ _ _ _ _ t) as [[nodes|] t1] eqn:Ef; [|done]. intros [= Hv <-].
    exists nodes. split; [|done]. unfold fetch_consistency_nodes in Ef.
    destruct (get_public _ _ _ t) as [[doc|] t2]; [|done].
    destruct (get_array doc "consistency_proof"); [|done]. injection Ef as Ef _. by eapply hex32_all_32.
  - intros [= Hv _]. exists []. split; [done|]. split; [done|]. lia.
Qed.

(** What a report says and how the command ends agree. *)
Lemma valid_iff_end consistent why verdict :
  consistent && anchored_pass verdict = true <-> proof_end consistent why verdict = Ok tt.
Proof. destruct consistent; [|done]. cbn. by destruct verdict as [[]|]. Qed.

(** The proof that was accepted, the root it was held to, and what that means: [nodes]
    are those the server sent to connect the two. *)
Definition proof_accepted (doc : value) (fingerprint purpose : option string) (p : Proof) (root : bytes) (size : Z)
    (nodes : list bytes) : Prop :=
  read_proof doc fingerprint purpose = Ok p /\ inclusion_holds p = true /\ Forall is32 nodes /\
  exists v, judge_published_root (p_root p) (p_size p) (Some (root, size)) (fun _ _ => Ok nodes) = Ok v /\
    extends_published v.

Lemma check_proof_Ok doc fp purpose pr ps offline a (t t' : T) :
  check_proof CLI_VERSION server_url doc fp purpose pr ps offline a t = (Ok tt, t') ->
  exists p root size nodes t1 report,
    committed_root pr ps a = Ok (Some (root, size), None) /\ proof_accepted doc fp purpose p root size nodes /\
    (size < p_size p ->
     fetch_consistency_nodes CLI_VERSION server_url (proof_epoch_of doc) size (p_size p) t = (Ok nodes, t1)) /\
    t'.2 = t.2 ++ [report] /\ value_get report "valid" = Some (VBool true).
Proof.
  unfold check_proof. destruct (read_proof doc fp purpose) as [p|] eqn:Ep; [|done].
  destruct (committed_root pr ps a) as [[committed why]|] eqn:Ec; [|done].
  destruct (inclusion_holds p) eqn:Ei; cbn [andb].
  2:{ intros [= ? _]. }
  destruct (bool_decide (why = None)) eqn:Ew; [|by intros [= ? _]]. bool_prop. subst why. unfold on_res.
  pose proof (judge_live_prints (proof_epoch_of doc) (p_root p) (p_size p) committed t) as Hpr.
  destruct (judge_live _ _ _ _ _ committed t) as [[v|] t1] eqn:Ej; [|done]. cbn [fst snd map_ok].
  intros [Hend <-]%pair_equal_spec. pose proof Hend as Hv. rewrite <- valid_iff_end in Hv. cbn [andb] in Hv.
  apply judge_live_Ok in Ej as (nodes & Hn & Hj & Hf).
  destruct committed as [[root size]|]; [|injection Hj as <-; done].
  eexists p, root, size, nodes, t1, _. split_and!; [done| |done|cbn; by rewrite <- Hpr|].
  - split_and!; [done..|]. exists v. split; [done|]. destruct v; try done; [by left|right; eauto].
  - transitivity (Some (VBool (anchored_pass (Some v)))); [done|by rewrite Hv].
Qed.

(** The log the accepted root commits to has the entry, and extends what was
    published. *)
Lemma accepted_is_logged doc fp purpose p root size nodes published current :
  proof_accepted doc fp purpose p root size nodes ->
  Merkle.log_fits published -> Merkle.log_fits current -> Forall is32 published -> Forall is32 current ->
  root = Merkle.merkle_root published -> size = Z.of_nat (length published) ->
  p_root p = Merkle.merkle_root current -> p_size p = Z.of_nat (length current) ->
  (current !! Z.to_nat (p_entry_id p - 1) = Some (p_leaf p) /\ published = take (length published) current) \/
  collision_in (Merkle.verify_inclusion_inputs (p_leaf p) (p_entry_id p - 1) (p_size p) (p_path p)
    ++ Merkle.verify_consistency_inputs size (p_size p) root nodes
    ++ Merkle.merkle_root_inputs published ++ Merkle.merkle_root_inputs current).
Proof.
  intros (Hp & Hi & Hn & v & Hj & Hv) Hfp Hfc Hp32 Hc32 -> -> Hr Hs. rewrite Hr, Hs in *.
  assert (H32 : is32 (p_leaf p)).
  { unfold read_proof in Hp. destruct (bind_leaf doc fp purpose) as [leaf|] eqn:Eb; [|done].
    steps_in Hp. cbn. by apply bind_leaf_asked in Eb as (_ & ? & _). }
  unfold inclusion_holds in Hi. apply andb_true_iff in Hi as [Hid%Z.leb_le Hi]. rewrite Hr, Hs in Hi.
  assert (Hz : p_entry_id p - 1 = Z.of_nat (Z.to_nat (p_entry_id p - 1))) by lia. rewrite Hz in Hi |- *.
  rewrite Nat2Z.id.
  destruct (inclusion_entry current (Z.to_nat (p_entry_id p - 1)) (p_leaf p) (p_path p)) as [He|Hc];
    [done..| |right; eapply collision_in_mono; [done|]; list_sub].
  destruct (published_root_judged published current (fun _ _ => Ok nodes) nodes v) as [Hpre _]; [done..|].
  destruct (Hpre Hv) as [?|Hc]; [by left|right; eapply collision_in_mono; [done|]; list_sub].
Qed.

(** The leaf of a proof is the hash of an entry, of either version there is, for a key
    of that purpose with that fingerprint; its fields are the ones of the document. *)
Definition leaf_for (doc : value) (fp purpose : string) (p : Proof) : Prop :=
  exists kp algorithm public_key created_at prev own,
    get_str doc "algorithm" = Some algorithm /\ get_str doc "public_key" ≫= b64_decode = Some public_key /\
    get_u64 doc "created_at" = Some created_at /\
    Anchors.hex32 (value_get doc "prev_entry_hash") "prev_entry_hash" = Ok prev /\
    purpose_of purpose = Ok kp /\ fingerprint_for purpose public_key = Ok own /\ eq_ignore_ascii_case fp own = true /\
    ((get_u64 doc "entry_version" = Some 2 /\ exists account, entry_account doc = Ok account /\
        p_leaf p = entry_hash_v2 (p_entry_id p) (uuid_as_bytes <$> account) kp algorithm public_key created_at prev) \/
     (get_u64 doc "entry_version" = Some 3 /\ exists index, entry_index doc = Ok index /\
        p_leaf p = entry_hash_v3 (p_entry_id p) index kp algorithm public_key created_at prev)).

Lemma bind_leaf_for doc fp purpose leaf id size root path :
  bind_leaf doc (Some fp) (Some purpose) = Ok leaf -> get_u64 doc "entry_id" = Some id ->
  leaf_for doc fp purpose (mk_Proof leaf id size root path).
Proof.
  unfold bind_leaf. intros Hx Hid. rewrite Hid in Hx.
  destruct (get_u64 doc "entry_version") as [version|] eqn:Ever; [|done].
  destruct (get_str doc "key_purpose") as [purpose'|]; [|done].
  destruct (get_str doc "algorithm") as [alg|] eqn:Ealg; [|done].
  destruct (get_str doc "public_key") as [pkt|] eqn:Epk; [|done].
  destruct (b64_decode pkt) as [pk|] eqn:Edec; [|done].
  destruct (get_u64 doc "created_at") as [c|] eqn:Ec; [|done].
  destruct (Anchors.hex32 (value_get doc "prev_entry_hash") _) as [prev|] eqn:Eprev; [|done]. cbn [map_err] in Hx.
  destruct (Anchors.hex32 (value_get doc "entry_hash") _) as [served|]; [|done].
  destruct (purpose_of purpose') as [kp|] eqn:Ekp; [|done].
  match type of Hx with context [match ?r with Ok _ => _ | Err _ => _ end] => destruct r as [re|] eqn:Ere end; [|done].
  destruct (bool_decide (re = served)); [|done].
  destruct (fingerprint_for purpose' pk) as [own|] eqn:Eown; [|done].
  destruct (bool_decide (_ = Some own)); [|done].
  destruct (eq_ignore_ascii_case fp own) eqn:Eeq; [|done].
  destruct (bool_decide (purpose = purpose')) eqn:Epu; [|done]. bool_prop. subst purpose'. apply (inj Ok) in Hx as <-.
  exists kp, alg, pk, c, prev, own. rewrite Epk. cbn [mbind option_bind p_leaf p_entry_id]. split_and!; try done.
  destruct (Z.eqb_spec version 2) as [->|_].
  - left. split; [done|]. destruct (entry_account doc) as [account|]; [|done]. injection Ere as <-. by exists account.
  - destruct (Z.eqb_spec version 3) as [->|_]; [|done].
    right. split; [done|]. destruct (entry_index doc) as [index|]; [|done]. injection Ere as <-. by exists index.
Qed.

Lemma accepted_key doc fp purpose p root size nodes :
  proof_accepted doc (Some fp) (Some purpose) p root size nodes -> leaf_for doc fp purpose p.
Proof.
  intros (Hp & _). unfold read_proof in Hp. destruct (bind_leaf doc _ _) as [leaf|] eqn:Eb; [|done].
  destruct (get_u64 doc "entry_id") as [id|] eqn:Eid; [|done]. steps_in Hp. by apply bind_leaf_for.
Qed.

(** What an attempt that was not given a saved proof went through. *)
Lemma verify_once_Ok fp purpose pr ps (t t' : T) :
  transparency_verify_once CLI_VERSION server_url anchor None fp purpose pr ps t = (Ok tt, t') ->
  exists a w1 doc t2,
    anchor t.1 = (Ok a, w1) /\
    proof_document CLI_VERSION server_url None fp purpose (Some a) (w1, t.2) = (Ok doc, t2) /\ t2.2 = t.2 /\
    ((exists line report, ended (Some a) (proof_epoch_of doc) = Some line /\
        retired doc (proof_epoch_of doc) line = Ok report /\ t'.2 = t2.2 ++ [report]) \/
     (ended (Some a) (proof_epoch_of doc) = None /\
      check_proof CLI_VERSION server_url doc fp purpose pr ps false (Some a) t2 = (Ok tt, t'))).
Proof.
  unfold transparency_verify_once. cbn [andb]. change (bool_decide (is_Some (@None (cliresult value)))) with false. cbn [andb].
  unfold on_res, on_world_of. destruct (anchor t.1) as [[a|] w1]; [|done]. cbn [fst snd map_ok].
  destruct (violation_of (Some a)); [done|].
  pose proof (get_public_prints ("/v1/transparency/log/inclusion-proof?fingerprint=" +:+ default EmptyString fp
        +:+ "&purpose=" +:+ default EmptyString purpose
        +:+ "&epoch=" +:+ pretty (default 1 ((fun a => s_epoch (a_served a)) <$> Some a))) (w1, t.2)) as Hpr.
  change (get_public _ _ _ (w1, t.2)) with (proof_document CLI_VERSION server_url None fp purpose (Some a) (w1, t.2)) in Hpr.
  destruct (proof_document _ _ _ _ _ (Some a) _) as [[doc|] t2] eqn:Ed; [|done]. cbn [snd] in Hpr.
  intros Hx. exists a, w1, doc, t2. split_and!; [done..|].
  destruct (ended (Some a) (proof_epoch_of doc)) as [line|].
  - destruct (retired doc _ line) as [report|] eqn:Er; [|done]. injection Hx as <-. left. by exists line, report.
  - by right.
Qed.

(** C4: A key that verifies is logged.  When [transparency verify] of a fingerprint
    and purpose ends well, its last attempt (which began where the command began, or
    where a first attempt left off that failed because the epoch moved) anchored as [a]
    and then fetched the proof document [doc].  If the published files say that the
    epoch of the document has ended, the command printed one report, with no verdict.
    Otherwise it printed one report, that the key is valid; the document reads as the
    proof [p], whose leaf is the hash of an entry, of version 2 or 3, for a key of that
    purpose with that fingerprint; [p] was held to the root the operator gave or [a]
    published; and if that root and the one of [p] are the roots of logs of their
    sizes, then the log the server showed has the leaf of [p] at its place and extends
    the published log, or two of the hashed strings collide, those of the consistency
    nodes fetched in this attempt among them. *)
Theorem verified_key_is_logged fp purpose pr ps (t t' : T) :
  transparency_verify CLI_VERSION server_url anchor None (Some fp) (Some purpose) pr ps t = (Ok tt, t') ->
  exists t0 a w1 doc t2 report,
    last_attempt (transparency_verify_once CLI_VERSION server_url anchor None (Some fp) (Some purpose) pr ps) t t0 /\
    anchor (set_read_only true t0.1) = (Ok a, w1) /\
    proof_document CLI_VERSION server_url None (Some fp) (Some purpose) (Some a) (w1, t0.2) = (Ok doc, t2) /\
    t'.2 = t0.2 ++ [report] /\
    match ended (Some a) (proof_epoch_of doc) with
    | Some line => value_get report "valid" = Some VNull
    | None =>
        value_get report "valid" = Some (VBool true) /\
        exists p root size nodes t3,
          read_proof doc (Some fp) (Some purpose) = Ok p /\ leaf_for doc fp purpose p /\
          committed_root pr ps (Some a) = Ok (Some (root, size), None) /\
          (size < p_size p ->
           fetch_consistency_nodes CLI_VERSION server_url (proof_epoch_of doc) size (p_size p) t2 = (Ok nodes, t3)) /\
          forall published current,
            Merkle.log_fits published -> Merkle.log_fits current -> Forall is32 published -> Forall is32 current ->
            root = Merkle.merkle_root published -> size = Z.of_nat (length published) ->
            p_root p = Merkle.merkle_root current -> p_size p = Z.of_nat (length current) ->
            (current !! Z.to_nat (p_entry_id p - 1) = Some (p_leaf p) /\ published = take (length published) current) \/
            collision_in (Merkle.verify_inclusion_inputs (p_leaf p) (p_entry_id p - 1) (p_size p) (p_path p)
              ++ Merkle.verify_consistency_inputs size (p_size p) root nodes
              ++ Merkle.merkle_root_inputs published ++ Merkle.merkle_root_inputs current)
    end.
Proof.
  unfold transparency_verify. destruct (negb _); [done|].
  intros (t0 & t1 & Hl & Ht & Hout)%last_attempt_ends.
  apply verify_once_Ok in Ht as (a & w1 & doc & t2 & Ha & Hd & H2 & [(line & report & He & Hr & Hp)|[He Hc]]).
  - exists t0, a, w1, doc, t2, report. rewrite He, Hout, Hp, H2. split_and!; [done..|].
    unfold retired in Hr. cbv zeta in Hr. destruct (negb _) in Hr; [|done]. by injection Hr as <-.
  - apply check_proof_Ok in Hc as (p & root & size & nodes & t4 & report & Hcr & Hacc & Hf & Hp & Hv).
    exists t0, a, w1, doc, t2, report. rewrite He, Hout, Hp, H2. split_and!; [done..|].
    exists p, root, size, nodes, t4. split_and!; [by destruct Hacc|by eapply accepted_key|done..|].
    intros. by eapply accepted_is_logged.
Qed.

Lemma check_proof_prints doc fp purpose pr ps offline a (t t' : T) r :
  check_proof CLI_VERSION server_url doc fp purpose pr ps offline a t = (r, t') ->
  (t'.2 = t.2 /\ r <> Ok tt) \/
  exists report b, t'.2 = t.2 ++ [report] /\ value_get report "valid" = Some (VBool b) /\ (b = true <-> r = Ok tt).
Proof.
  unfold check_proof. destruct (read_proof doc fp purpose) as [p|]; [|intros [= <- <-]; by left].
  destruct (committed_root pr ps a) as [[committed why]|]; [|intros [= <- <-]; by left].
  match goal with |- context [if ?b then on_res ?f ?y else ?z] => set (x := if b then on_res f y else z) end.
  assert (Hj : x.2.2 = t.2) by (subst x; destruct (_ && _); [apply judge_live_prints|done]).
  destruct x as [[verdict|] t1]; cbn in Hj; [|intros [= <- <-]; by left].
  intros [<- <-]%pair_equal_spec. right. eexists _, (inclusion_holds p && anchored_pass verdict).
  split; [by cbn; rewrite Hj|]. split; [done|]. apply valid_iff_end.
Qed.

(** Only a verified key is reported as valid.  An attempt prints nothing or one
    report, last; if that report says [valid: true], the command ends well, and if the
    command ends well, the report says so or says that the epoch is retired. *)
Theorem valid_only_when_verified file fp purpose pr ps (t t' : T) r :
  transparency_verify_once CLI_VERSION server_url anchor file fp purpose pr ps t = (r, t') ->
  (t'.2 = t.2 /\ r <> Ok tt) \/
  exists report, t'.2 = t.2 ++ [report] /\
    (value_get report "valid" = Some (VBool true) \/ value_get report "valid" = Some VNull <-> r = Ok tt).
Proof.
  unfold transparency_verify_once. set (b := bool_decide (is_Some file) && bool_decide (is_Some pr)).
  match goal with |- context [if b then ?y else ?z] => set (x := if b then y else z) end.
  assert (H0 : x.2.2 = t.2).
  { subst x. destruct b; [done|]. unfold on_world_of. by destruct (anchor t.1). }
  destruct x as [[a|] t1]; cbn in H0; [|intros [= <- <-]; by left].
  destruct (violation_of a); [intros [= <- <-]; by left|].
  assert (H1 : (proof_document CLI_VERSION server_url file fp purpose a t1).2.2 = t1.2).
  { unfold proof_document. destruct file; [done|apply get_public_prints]. }
  destruct (proof_document _ _ _ _ _ a t1) as [[doc|] t2]; cbn in H1; [|intros [= <- <-]; left; by rewrite H1].
  destruct (ended a _) as [line|].
  - destruct (retired doc _ line) as [report|] eqn:Er; [|intros [= <- <-]; left; by rewrite H1].
    intros [= <- <-]. right. exists report. cbn. split; [by rewrite H1, H0|]. split; [done|]. intros _. right.
    unfold retired in Er. cbv zeta in Er. destruct (negb _) in Er; [|done]. by injection Er as <-.
  - intros Hc. apply check_proof_prints in Hc as [Hc|(report & b' & Hp & Hb & Hv)].
    + left. destruct Hc as [Hc ?]. split; [by rewrite Hc, H1|done].
    + right. exists report. split; [by rewrite Hp, H1, H0|]. rewrite Hb, <- Hv. split; [|by intros ->; left].
      by intros [[= ->]|?].
Qed.

(** ** A statement about a subject *)

(** The key the signature was held to: the operator's, or one the server published
    under the named id, fetched at most twice. *)
Definition held_to (pin : option (cliresult bytes)) (key_id : string) (t : T) (pub : bytes) (t' : T) : Prop :=
  match pin with
  | Some pk => pk = Ok pub /\ t' = t
  | None =>
      fetch_server_pubkey CLI_VERSION server_url key_id t = (Ok pub, t') \/
      exists first t1, fetch_server_pubkey CLI_VERSION server_url key_id t = (Ok first, t1) /\
        fetch_server_pubkey CLI_VERSION server_url key_id t1 = (Ok pub, t')
  end.

Lemma signing_key_Ok pin s (t t' : T) pub :
  signing_key CLI_VERSION server_url pin s t = (Ok pub, t') ->
  verify_es256 pub (st_input s) (st_signature s) = Ok tt /\ held_to pin (st_key_id s) t pub t'.
Proof.
  unfold signing_key, held_to. destruct pin as [[pk|]|]; [| done|].
  - destruct (verify_es256 pk _ _) as [[]|] eqn:Ev; [by intros [= <- <-]|done].
  - destruct (fetch_server_pubkey _ _ _ t) as [[pk|] t1] eqn:E1; [|done].
    destruct (verify_es256 pk _ _) as [[]|] eqn:Ev; [intros [= <- <-]; split; [done|by left]|].
    destruct (fetch_server_pubkey _ _ _ t1) as [[pk'|] t2] eqn:E2; [|done].
    destruct (verify_es256 pk' _ _) as [[]|] eqn:Ev'; [|done]. intros [= <- <-]. split; [done|]. right. by exists pk, t1.
Qed.

Lemma pq_key_None pinned pq_pin response (t t' : T) :
  pq_key CLI_VERSION server_url pinned pq_pin response t = (Ok None, t') ->
  pq_pin = None /\
  (pinned = true \/ Text.get_str response "server_pq_key_id" = None /\
                    fetch_server_pq_key CLI_VERSION server_url t = (Ok None, t')).
Proof.
  unfold pq_key. destruct pq_pin as [pk|]; [by destruct (b64_decode pk)|].
  destruct pinned; [by split; [|left]|]. intros Hx. split; [done|right].
  destruct (Text.get_str response "server_pq_key_id") as [kid|]; [|done].
  unfold on_res in Hx. by destruct (fetch_server_pubkey _ _ kid t) as [[]].
Qed.

Lemma dual_enforced response input vk :
  enforce_response_dual_signature response input (Some vk) = Ok tt ->
  exists sig, Text.get_str response "server_signature_mldsa87" ≫= b64_decode = Some sig /\
    verify_mldsa87 vk input SERVER_VERIFY_MLDSA_CTX sig = Ok tt.
Proof.
  unfold enforce_response_dual_signature. destruct (decode_field _ _ _ _) as [sig|] eqn:Ed; [|done].
  apply decode_field_Ok in Ed as (str & Hs & Hd). destruct (verify_mldsa87 _ _ _ sig) as [[]|] eqn:Ev; [|done].
  intros _. exists sig. by rewrite Hs.
Qed.

(** What is known of a response that was accepted.  [a] is the anchoring, when there
    was one, [t2] the state after the response was fetched and [t4] the one after the
    keys were; the last clause is about the receipts that are present. *)
Definition statement_accepted (pin : option (cliresult bytes)) (pq_pin : option string) (a : option Anchoring)
    (response : value) (s : Statement) (pub : bytes) (pq : option bytes) (t2 t3 t4 : T) : Prop :=
  read_statement response = Ok s /\
  Text.get_str (st_attestation s) "status" = Some "active"%string /\
  verify_es256 pub (st_input s) (st_signature s) = Ok tt /\ held_to pin (st_key_id s) t2 pub t3 /\
  pq_key CLI_VERSION server_url (bool_decide (is_Some pin)) pq_pin response t3 = (Ok pq, t4) /\
  match pq with
  | Some vk => exists sig, Text.get_str response "server_signature_mldsa87" ≫= b64_decode = Some sig /\
                 verify_mldsa87 vk (st_input s) SERVER_VERIFY_MLDSA_CTX sig = Ok tt
  | None => pq_pin = None /\
      (is_Some pin \/ Text.get_str response "server_pq_key_id" = None /\
         fetch_server_pq_key CLI_VERSION server_url t3 = (Ok None, t4))
  end /\
  exists index, statement_index a (st_attestation s) = Ok index /\
    forall rf ff purpose r, (rf, ff, purpose) ∈ inline_receipts -> value_get response rf = Some r ->
      exists fp ms, Text.get_str (st_attestation s) ff = Some fp /\ r = VObject ms /\
        vouched pub pq fp purpose (binding_of index Attested) r (unsigned_receipt ms).

(** The anchoring an attempt begins with: none is made when the operator pinned a key. *)
Definition anchored_for (pin : option (cliresult bytes)) (t : T) (a : option Anchoring) (t1 : T) : Prop :=
  match pin with
  | None => exists x w1, anchor t.1 = (Ok x, w1) /\ a = Some x /\ t1 = (w1, t.2)
  | Some _ => a = None /\ t1 = t
  end.

Lemma attestation_once_Ok source pin pq_pin (t t' : T) :
  attestation_verify_once CLI_VERSION server_url anchor source pin pq_pin t = (Ok tt, t') ->
  exists a t1 response t2 s pub t3 pq t4,
    anchored_for pin t a t1 /\ verification_response CLI_VERSION server_url source t1 = (Ok response, t2) /\
    statement_accepted pin pq_pin a response s pub pq t2 t3 t4.
Proof.
  unfold attestation_verify_once.
  destruct (match pin with None => _ | Some _ => _ end) as [[a|] t1] eqn:Ea; [|done].
  destruct (verification_response _ _ source t1) as [[response|] t2] eqn:Er; [|done].
  destruct (read_statement response) as [s|] eqn:Es; [|done].
  destruct (signing_key _ _ pin s t2) as [[pub|] t3] eqn:Ek; [|done]. apply signing_key_Ok in Ek as [Hv Hpin].
  destruct (pq_key _ _ _ pq_pin response t3) as [[pq|] t4] eqn:Epq; [|done].
  destruct (enforce_response_dual_signature _ _ pq) as [[]|] eqn:Ed; [|done].
  destruct (statement_index a _) as [index|] eqn:Ei; [|done].
  destruct (verify_inline_receipts _ _ _ _ _ _) as [tr|] eqn:Et; [|done].
  intros [Hst _]%pair_equal_spec. exists a, t1, response, t2, s, pub, t3, pq, t4. split; [|split; [done|]].
  - unfold anchored_for. destruct pin; [by injection Ea as <- <-|]. unfold on_res, on_world_of in Ea.
    destruct (anchor t.1) as [[x|] w'] eqn:Ean; [|done]. injection Ea as <- <-. by exists x, w'.
  - split_and!; [done| |done|done|done| |].
    + unfold status_end in Hst. destruct (Text.get_str (st_attestation s) "status"); cbn in Hst; repeat case_decide; try done; congruence.
    + destruct pq as [vk|]; [by apply dual_enforced|]. apply pq_key_None in Epq as [-> Hor]. split; [done|].
      destruct Hor as [Hp|[? ?]]; [left; by apply bool_decide_eq_true in Hp|by right].
    + exists index. split; [done|]. unfold verify_inline_receipts in Et. cbv zeta in Et.
      destruct (receipts_loop _ _ _ _ _ _ _ _) as [n|] eqn:El; [|done].
      apply receipts_loop_vouched in El as (_ & Hall & _). intros rf ff purpose r Hin Hr. by eapply Hall.
Qed.

(** C5: A statement that verifies is the server's, whole.  When [attestation verify]
    ends well, its last attempt (which began where the command began, or where a first
    attempt left off that failed because the epoch moved) anchored the epoch, unless a
    key was pinned, and then took the response: the one fetched for the given id, or the
    saved one.  Of that response: the attestation is active and signed by the key it was
    held to, the operator's or one the server published under the named id; it is signed
    a second time, post-quantum, unless the operator pinned only the first key or the
    server published no second; and every receipt in it is signed and names the attested
    key, under the index of the subject wherever the epoch has one. *)
Theorem verified_statement_signed attestation_id file pin pq_pin (t t' : T) :
  attestation_verify CLI_VERSION server_url anchor attestation_id file pin pq_pin t = (Ok tt, t') ->
  exists source t0 a t1 response t2 s pub t3 pq t4,
    match attestation_id, file with
    | Some id, None => source = inl id
    | None, Some read => source = inr read
    | _, _ => False
    end /\
    last_attempt (attestation_verify_once CLI_VERSION server_url anchor source pin pq_pin) t t0 /\
    anchored_for pin (set_read_only true t0.1, t0.2) a t1 /\
    verification_response CLI_VERSION server_url source t1 = (Ok response, t2) /\
    statement_accepted pin pq_pin a response s pub pq t2 t3 t4.
Proof.
  unfold attestation_verify. destruct attestation_id as [id|], file as [read|]; try done;
    intros (t0 & t1 & Hl & Ht & _)%last_attempt_ends; apply attestation_once_Ok in Ht
      as (a & t2 & response & t3 & s & pub & t4 & pq & t5 & Ha & Hr & Hs); eexists _, t0, a, t2, response, t3, s, pub, t4, pq, t5;
    (split; [reflexivity|]); by split_and!.
Qed.

End Commands.
