(* ===== verification/TransparencyToy.v ===== *)
(** * Concrete runs of the transparency commands

    A log of one entry, the owner's own; a server that serves it and proves it; and a
    dual-signed statement about a subject. *)

From S2P Require Import Prelude Prims CryptoCore Text VrfIndex Ecdsa Envelope Wrap SignedBytes Merkle MerkleLevels MerkleProofs MerkleTheorems CliError Keystore Token Anchors Watch AnchorsToy Receipts Hybrid GrantStatus RecipientVerify RecipientTheorems RecipientToy PublishedRoot Transfer Http HttpTheorems Transparency TransparencyTheorems.
Import TransLog Attest Prims.Toy TextToy TokenToy Vrf.VrfToy.

Module TransparencyToy.
Import AnchorsToy RecipientToy.
#[export] Instance vrf : Vrf.VrfR255 := vrf_toy.

(** The account's VRF proof under the key of the epoch, and its index. *)
Definition proof_hex : string := Eval vm_compute in hex_encode (fit Vrf.PROOF_LEN k32).
Definition index : bytes := Eval vm_compute in
  match account_index k32 "a1" (Some proof_hex) "your account" with Ok i => i | Err _ => [] end.

Definition key : bytes := WatchToy.my_key.
Definition entry : LogEntry := mk_LogEntry (Some index) SigningPq "ML-DSA-87" key 7 WatchToy.prev.
Definition leaf : bytes := Eval vm_compute in sha256 (le_preimage 1 entry).
Definition root1 : bytes := Eval vm_compute in Merkle.merkle_root [leaf].
Definition published : RootLine := mk_RootLine 2 1 root1 false.

Definition entry_members : list (string * value) := Eval vm_compute in
  [("account_index", VString (hex_encode index)); ("algorithm", VString "ML-DSA-87");
   ("created_at", VNumber 7); ("entry_hash", VString (hex_encode leaf)); ("entry_id", VNumber 1);
   ("entry_version", VNumber 3); ("key_purpose", VString "signing_pq");
   ("prev_entry_hash", VString (hex_encode WatchToy.prev)); ("public_key", VString (b64_encode key));
   ("public_key_fingerprint", VString WatchToy.my_fp)]%string.

Definition me_doc : value := Eval vm_compute in
  VObject [("account_id", VString "a1"); ("account_vrf_proof", VString proof_hex); ("epoch", VNumber 2)]%string.
Definition range_doc : value := Eval vm_compute in VObject [("entries", VArray [VObject entry_members])]%string.
Definition proof_doc : value := Eval vm_compute in
  VObject (entry_members ++ [("epoch", VNumber 2); ("inclusion_proof", VArray []); ("log_size_at_proof", VNumber 1);
                             ("merkle_root_at_proof", VString (hex_encode root1))]%string).

#[export] Instance docs : JsonText := json_table
  [("M", me_doc); ("R", range_doc); ("P", proof_doc); ("A", UnloggedToy.response); ("I", RecipientToy.info)]%string eq_refl.

Definition text_of (url : string) : string :=
  (if decide (url = "/v1/me") then "M"
   else if starts_with url "/v1/transparency/log/range" then "R"
   else if starts_with url "/v1/transparency/log/inclusion-proof" then "P"
   else if starts_with url "/v1/attestations" then "A" else "I")%string.

#[export] Instance server : HttpEnv unit := {
  he_call e q := (UreqOk 200 (Some (text_of (hr_url q))), e);
  he_now e := (Some 17, e);
  he_fill e := (replicate 16 Byte.x00, e);
  he_fill_length _ := eq_refl;
}.

(** The keystore has the signing keys; the log has the second. *)
#[export] Instance keys : Keystore unit := {
  ks_tier := Software;
  ks_generate st l a := (Err (key_exists "k"), st);
  ks_meta st l := (Ok (mk_KeyMeta "k" "p" "a" "software" "fp" key), st);
  ks_sign st l m := (Ok [], st);
  ks_ecdh st l p := (Err (key_not_found "k"), st);
  ks_ml_kem_decapsulate st l ek := (Err (key_not_found "k"), st);
  ks_ml_dsa_sign st l m c := (Ok (replicate ML_DSA_87_SIG_LEN Byte.x00), st);
  ks_list st := (Ok [], st);
  ks_delete st l := (Ok tt, st);
  ks_exists st l := (Ok (bool_decide (purpose l = Keystore.SigningPq)), st);
}.

Definition label : KeyLabel := mk_KeyLabel "mira-ai" Keystore.Signing.
Definition in_epoch2 (w : World unit unit) : cliresult Anchoring * World unit unit :=
  (Ok (mk_Anchoring served2 (Some (mk_Anchors [published] [])) (Anchored v3_mode) true), w).
Definition in_epoch1 (w : World unit unit) : cliresult Anchoring * World unit unit :=
  (Ok (mk_Anchoring (mk_ServedEpoch 1 None) None (Anchored Legacy) true), w).
Definition start : @Tw unit unit := (mk_World tt tt false [] [], []).

(** The server answers alike in every world. *)
Lemma me_served w : (get_json_signed "1" label "" "/v1/me" w).1 = Ok me_doc.
Proof. destruct w as [[] [] ro sent slept]. by vm_compute. Qed.

Lemma scan_served (t : @Tw unit unit) : (scan "1" "" 1 2 1 [] t).1 = Ok [VObject entry_members].
Proof. destruct t as [[[] [] ro sent slept] out]. by vm_compute. Qed.

Lemma proof_served (t : @Tw unit unit) :
  (proof_document "1" "" None (Some WatchToy.my_fp) (Some "signing_pq"%string)
    (Some (mk_Anchoring served2 (Some (mk_Anchors [published] [])) (Anchored v3_mode) true)) t).1 = Ok proof_doc.
Proof. destruct t as [[[] [] ro sent slept] out]. by vm_compute. Qed.

Lemma statement_served (t : @Tw unit unit) :
  (verification_response "1" "" (inl "t1"%string) t).1 = Ok UnloggedToy.response.
Proof. destruct t as [[[] [] ro sent slept] out]. by vm_compute. Qed.

Lemma entry_served : served_entry (VObject entry_members) = Some entry.
Proof. by vm_compute. Qed.

Lemma entry_small : served_small (VObject entry_members).
Proof. intros e. rewrite entry_served. intros [= <-]. by split; vm_compute. Qed.

Lemma entry_ok : le_ok entry.
Proof. split; [by split_and!; vm_compute|by intros x [= <-]]. Qed.

(** The watch over the one entry: its key is held. *)
Lemma self_watch_covers_witness :
  exists t' held, transparency_verify_self "1" "" in_epoch2 (Ok label) start = (Ok tt, t') /\
    (holds_key held SigningPq key \/
     exists leaves mine, watch_scan 2 index 1 [VObject entry_members] = Ok (leaves, mine) /\
       collision_in (watch_inputs [VObject entry_members] [entry] leaves)).
Proof.
  destruct (transparency_verify_self "1" "" in_epoch2 (Ok label) start) as [r t'] eqn:Er.
  assert (r = Ok tt) as ->.
  { assert (Hr : (transparency_verify_self "1" "" in_epoch2 (Ok label) start).1 = Ok tt) by (vm_compute; reflexivity).
    by rewrite Er in Hr. }
  destruct (self_watch_covers "1" "" in_epoch2 label start t' Er)
    as (me & acc & a & epoch & k & g & files & i & pub & scanned & held & w & w1 & w2 & t2 & t3 & st & st'
        & Hme & Hacc & Ha & Hv & Hi & Hf & Hl & Hsc & Hh & _ & Hall).
  exists t', held. split; [done|].
  pose proof (me_served w) as Hm. rewrite Hme in Hm. injection Hm as ->.
  injection Hacc as <-. injection Ha as <- _. injection Hv as <- <- <-. injection Hf as <-. injection Hl as <-.
  assert (i = index) as ->.
  { assert (Hx : account_index k32 "a1" (Some proof_hex) "your account" = Ok index) by (vm_compute; reflexivity).
    change (account_index k32 "a1" (Some proof_hex) "your account" = Ok i) in Hi. rewrite Hx in Hi. by injection Hi as <-. }
  assert (scanned = [VObject entry_members]) as ->.
  { pose proof (scan_served t2) as Hs. change (log_size published) with 1 in Hsc. change (Z.to_nat 1) with 1%nat in Hsc.
    rewrite Hsc in Hs. by injection Hs as ->. }
  destruct (Hall [entry]) as [Hk|Hc].
  - constructor; [apply entry_ok|constructor].
  - constructor; [apply entry_small|constructor].
  - by vm_compute.
  - done.
  - by vm_compute.
  - by vm_compute.
  - left. apply (Hk entry); [by left|done].
  - by right.
Defined.

(** The key is reported as valid; the document that was fetched states the entry, and
    its leaf is in the log of one. *)
Lemma verified_key_is_logged_witness :
  exists t' report, transparency_verify "1" "" in_epoch2 None (Some WatchToy.my_fp) (Some "signing_pq"%string) None None start
      = (Ok tt, t') /\ t'.2 = [report] /\ value_get report "valid" = Some (VBool true) /\
    exists p, read_proof proof_doc (Some WatchToy.my_fp) (Some "signing_pq"%string) = Ok p /\
      leaf_for proof_doc WatchToy.my_fp "signing_pq" p.
Proof.
  destruct (transparency_verify "1" "" in_epoch2 None (Some WatchToy.my_fp) (Some "signing_pq"%string) None None start)
    as [r t'] eqn:Er.
  assert (r = Ok tt) as ->.
  { assert (Hr : (transparency_verify "1" "" in_epoch2 None (Some WatchToy.my_fp) (Some "signing_pq"%string) None None start).1
      = Ok tt) by (vm_compute; reflexivity). by rewrite Er in Hr. }
  destruct (verified_key_is_logged "1" "" in_epoch2 WatchToy.my_fp "signing_pq" None None start t' Er)
    as (t0 & a & w1 & doc & t2 & report & Hl & Ha & Hd & Hp & Hm).
  assert (t0 = start) as ->.
  { destruct Hl as [->|(e & He & _)]; [done|exfalso].
    assert (Hx : match (attempt_reading (transparency_verify_once "1" "" in_epoch2 None (Some WatchToy.my_fp)
        (Some "signing_pq"%string) None None) start).1 with Ok _ => true | Err _ => false end = true) by (vm_compute; reflexivity).
    rewrite He in Hx. discriminate Hx. }
  injection Ha as <- <-.
  assert (doc = proof_doc) as ->.
  { match type of Hd with proof_document _ _ _ _ _ _ ?x = _ => pose proof (proof_served x) as Hs end.
    rewrite Hd in Hs. by injection Hs as ->. }
  change (ended (Some _) (proof_epoch_of proof_doc)) with (@None RootLine) in Hm. cbv iota in Hm.
  destruct Hm as (Hv & p & root & size & nodes & t3 & Hrp & Hleaf & _).
  exists t', report. split; [reflexivity|]. split; [exact Hp|]. split; [exact Hv|]. exists p. split; [exact Hrp|exact Hleaf].
Defined.

Lemma valid_only_when_verified_witness :
  let run := transparency_verify_once "1" "" in_epoch2 None (Some WatchToy.my_fp) (Some "kem"%string) None None start in
  run.1 <> Ok tt /\
  (run.2.2 = [] \/ exists report, run.2.2 = [report] /\ value_get report "valid" <> Some (VBool true)).
Proof.
  intros run. destruct run as [r t'] eqn:Er.
  assert (Hr : r <> Ok tt).
  { assert (Hx : match run.1 with Ok _ => false | Err _ => true end = true) by (vm_compute; reflexivity).
    rewrite Er in Hx. by destruct r. }
  split; [exact Hr|].
  destruct (valid_only_when_verified "1" "" in_epoch2 None (Some WatchToy.my_fp) (Some "kem"%string) None None start t' r Er)
    as [[Hp _]|(report & Hp & Hv)]; [by left|right]. exists report. split; [exact Hp|]. intros Hx. apply Hr, Hv. by left.
Defined.

(** The statement the server served is its own, with both signatures. *)
Lemma verified_statement_signed_witness :
  exists t' a s pub pq t2 t3 t4, attestation_verify "1" "" in_epoch1 (Some "t1"%string) None None None start = (Ok tt, t') /\
    statement_accepted (St := unit) (E := unit) "1" "" None None a UnloggedToy.response s pub pq t2 t3 t4.
Proof.
  destruct (attestation_verify "1" "" in_epoch1 (Some "t1"%string) None None None start) as [r t'] eqn:Er.
  assert (r = Ok tt) as ->.
  { assert (Hr : (attestation_verify "1" "" in_epoch1 (Some "t1"%string) None None None start).1 = Ok tt)
      by (vm_compute; reflexivity). by rewrite Er in Hr. }
  destruct (verified_statement_signed "1" "" in_epoch1 (Some "t1"%string) None None None start t' Er)
    as (source & t0 & a & t1 & response & t2 & s & pub & t3 & pq & t4 & Hsrc & _ & _ & Hresp & Hs).
  rewrite Hsrc in Hresp. pose proof (statement_served t1) as Hv. rewrite Hresp in Hv. injection Hv as ->.
  exists t', a, s, pub, pq, t2, t3, t4. split; [reflexivity|exact Hs].
Defined.

End TransparencyToy.
