(* ===== verification/Sharing.v ===== *)
(** * Commands that change the drive ([cli/src/commands.rs])

    Creating folders and share folders, inviting, renaming, moving, deleting and
    leaving: each resolves its targets, checks and wraps what it needs, and then
    sends one request that writes.  The labels are resolved, the draws of the
    generator are arguments ([Coins], keys, nonces, ids), and what is printed is left
    out.  [anchored_reads] is the anchoring of an attempt with the answers to the
    public reads that the verification of a recipient makes in it. *)

From S2P Require Import Prelude Prims CryptoCore Text Ecdsa Envelope Wrap CliError Keystore SoftKeystore Token VrfIndex Receipts RecipientVerify Hybrid Anchors Transfer Http Resolve.
Import Wrap.

Section Code.
Context `{HS : Sha256, HX : Hex, HB : Base64Url, HG : AesGcm, HHk : Hkdf, HKw : AesKw, HJ : JsonText}.
Context `{HP : P256, !Ecdsa256, HQ : PqSoftware, !MlKemEncaps, HU : UuidLib}.
Context `{HJc : Jcs, HM : MlDsa87, HV : Vrf.VrfR255}.
Context {St E : Type} `{HK : Keystore St, HE : HttpEnv E}.
Context (CLI_VERSION : string) (signing kem : KeyLabel) (server_url : string).
Context (debug_opt : option string -> string).
Context (anchored_reads : World St E ->
  cliresult (ServerTrust * (Site -> string -> cliresult value)) * World St E).

(** ** Commands as computations on the resolver

    [None] when the fuel of a listing runs out. *)

Definition RM (A : Type) : Type := @Resolver HU St E -> option (cliresult A * @Resolver HU St E).

Definition rbind {A B} (m : RM A) (k : A -> RM B) : RM B := fun rv =>
  match m rv with
  | None => None
  | Some (Err e, rv) => Some (Err e, rv)
  | Some (Ok a, rv) => k a rv
  end.

(** A computation that needs no fuel; a value. *)
Definition step {A} (f : @Resolver HU St E -> cliresult A * @Resolver HU St E) : RM A := fun rv => Some (f rv).
Definition pure {A} (r : cliresult A) : RM A := fun rv => Some (r, rv).

Notation "'run?' x ':=' m 'in' k" := (rbind m (fun x => k))
  (at level 10, x name, m at level 100, k at level 200).

(** ** Targets *)

Definition parse_uuid_arg (s flag : string) : cliresult uuid :=
  ok_or (invalid_args (flag +:+ " is not a valid UUID")) (uuid_parse_str s).

Definition resolve_folder_target (fuel : nat) (path folder_id root_folder_id : option string) : RM (uuid * uuid) :=
  match path, folder_id with
  | Some _, Some _ => pure (Err (invalid_args "give a <path> or --folder-id, not both"))
  | Some p, None =>
      run? r := resolve_folder CLI_VERSION signing kem server_url fuel p in
      pure (Ok (rd_folder_id r, rd_root_folder_id r))
  | None, Some id =>
      run? fid := pure (parse_uuid_arg id "--folder-id") in
      run? root := pure (match root_folder_id with
                         | Some r => parse_uuid_arg r "--root-folder-id"
                         | None => Ok fid
                         end) in
      pure (Ok (fid, root))
  | None, None => pure (Err (invalid_args "give a <path> or --folder-id"))
  end.

Definition resolve_file_target (fuel : nat) (path file_id root_folder_id : option string) : RM (uuid * uuid) :=
  match path, file_id with
  | Some _, Some _ => pure (Err (invalid_args "give a <path> or --file-id, not both"))
  | Some p, None =>
      run? r := resolve_file CLI_VERSION signing kem server_url fuel p in
      pure (Ok (rf_file_id r, rf_root_folder_id r))
  | None, Some id =>
      run? fid := pure (parse_uuid_arg id "--file-id") in
      run? root := pure (ok_or (invalid_args "give --root-folder-id with --file-id") root_folder_id) in
      run? root := pure (parse_uuid_arg root "--root-folder-id") in
      pure (Ok (fid, root))
  | None, None => pure (Err (invalid_args "give a <path> or --file-id"))
  end.

Definition resolve_file_id (fuel : nat) (path file_id : option string) : RM uuid :=
  match path, file_id with
  | Some _, Some _ => pure (Err (invalid_args "give a <path> or --file-id, not both"))
  | Some p, None =>
      run? r := resolve_file CLI_VERSION signing kem server_url fuel p in
      pure (Ok (rf_file_id r))
  | None, Some id => pure (parse_uuid_arg id "--file-id")
  | None, None => pure (Err (invalid_args "give a <path> or --file-id"))
  end.

Definition resolve_dest_folder (fuel : nat) (to to_id : option string) (id_flag : string) : RM uuid :=
  match to, to_id with
  | Some _, Some _ => pure (Err (invalid_args ("give --to <dest-path> or " +:+ id_flag +:+ ", not both")))
  | Some p, None =>
      run? r := resolve_folder CLI_VERSION signing kem server_url fuel p in
      pure (Ok (rd_folder_id r))
  | None, Some id => pure (parse_uuid_arg id id_flag)
  | None, None => pure (Err (invalid_args ("give --to <dest-path> or " +:+ id_flag)))
  end.

(** ** Requests that write *)

(** [serde_json::to_vec]. *)
Definition to_vec (v : value) : bytes := str_bytes (json_display v).

Definition post (path : string) (body : value) : RM value :=
  step (on_world (post_json_signed CLI_VERSION signing server_url path (to_vec body))).
Definition patch (path : string) (body : value) : RM value :=
  step (on_world (patch_json_signed CLI_VERSION signing server_url path (to_vec body))).

(** ** Recipients *)

Definition verified_keys (bundle : value) (expectation : HandleExpectation) (who : string) (w : World St E)
    : cliresult RecipientWrapKeys * World St E :=
  do? tr := anchored_reads w on w in
  (verified_wrap_keys debug_opt tr.2 server_url tr.1 bundle expectation who, w).

Definition resolve_recipient_pubkey (handle : string) (w : World St E)
    : cliresult (RecipientWrapKeys * value) * World St E :=
  once_more_on_epoch_change (read_only (fun w =>
    do? resp := get_json_signed CLI_VERSION signing server_url ("/v1/recipients/" +:+ handle) w on w in
    do? keys := verified_keys resp (UserNamed handle) ("recipient '" +:+ handle +:+ "'") w on w in
    (Ok (keys, resp), w))) w.

(** ** Creating *)

Definition encrypted (iv metadata_key : bytes) (root target : uuid) (name : string) : cliresult value :=
  let*? env := map_err (fun _ => encryption_failed "name encryption failed")
                 (Wrap.encrypt_name iv metadata_key (uuid_as_bytes root) (uuid_as_bytes target) name) in
  Ok (name_to_value env).

Definition name_fits (name : string) : cliresult unit :=
  guard bool_decide (length (str_bytes name) <= 255)%nat else name_too_long "name exceeds 255 bytes" ;;
  Ok tt.

Definition share_name (path name : option string) : cliresult string :=
  match path, name with
  | Some _, Some _ => Err (invalid_args "give a <name> or --name, not both")
  | Some p, None =>
      let trimmed := default p (strip_prefix "/" p) in
      guard negb (bool_decide (trimmed = EmptyString)) else invalid_args "the share folder needs a name" ;;
      guard negb (contains trimmed "/") else
        invalid_args "a share folder is top-level: give a single name (e.g. Projects), not a nested path" ;;
      Ok trimmed
  | None, Some n => Ok n
  | None, None => Err (invalid_args "give a <name> or --name")
  end.

Definition opt_member (k : string) (v : option value) : list (string * value) :=
  match v with Some v => [(k, v)] | None => [] end.

(** The attempt of [share_create]: my record, and the Guardian's keys for a PRSN. *)
Definition me_and_guardian (w : World St E) : cliresult (value * option RecipientWrapKeys) * World St E :=
  once_more_on_epoch_change (read_only (fun w =>
    do? me := get_json_signed CLI_VERSION signing server_url "/v1/me" w on w in
    if bool_decide (Text.get_str me "account_type" = Some "prsn") then
      match value_get me "guardian" with
      | None => (Err (invalid_data "a PRSN must have a Guardian to create a share folder"), w)
      | Some guardian =>
          do? keys := verified_keys guardian ServerListed "Guardian" w on w in
          (Ok (me, Some keys), w)
      end
    else (Ok (me, None), w))) w.

Definition share_folder_body (folder_id : uuid) (name owner_wrap : value) (guardian_wrap : option value) : value :=
  VObject ([("folder_id", VString (uuid_to_string folder_id)); ("encrypted_name", name);
            ("owner_metadata_key_wrap", owner_wrap)] ++ opt_member "guardian_metadata_key_wrap" guardian_wrap).

(** [folder_id], [metadata_key], [iv] and the coins of the two wraps are drawn. *)
Definition share_create (folder_id : uuid) (metadata_key iv : bytes) (c c' : Coins) (path name : option string)
    : RM value :=
  run? name := pure (share_name path name) in
  run? fits := pure (name_fits name) in
  run? mg := step (on_world me_and_guardian) in
  run? self_keys := step (on_world (on_ks (fun st => self_wrap_keys st mg.1 kem))) in
  run? owner_wrap := pure (wrap_metadata_key_for c self_keys metadata_key (uuid_as_bytes folder_id)) in
  run? guardian_wrap := pure (match mg.2 with
                              | Some keys => map_ok Some (wrap_metadata_key_for c' keys metadata_key (uuid_as_bytes folder_id))
                              | None => Ok None
                              end) in
  run? encrypted_name := pure (encrypted iv metadata_key folder_id folder_id name) in
  post "/v1/share-folders" (share_folder_body folder_id encrypted_name owner_wrap guardian_wrap).

(** The parent and the name of a new folder. *)
Definition create_target (fuel : nat) (path parent_id root_folder_id name : option string)
    : RM (option (uuid * uuid) * string) :=
  match path, name with
  | Some _, Some _ => pure (Err (invalid_args "give a <path> or --name, not both"))
  | Some p, None =>
      run? pn := resolve_create_parent CLI_VERSION signing kem server_url fuel p in
      pure (Ok ((fun r => (rd_folder_id r, rd_root_folder_id r)) <$> pn.1, pn.2))
  | None, Some n =>
      match parent_id with
      | Some id =>
          run? pid := pure (parse_uuid_arg id "--parent-id") in
          run? root := pure (match root_folder_id with
                             | Some r => parse_uuid_arg r "--root-folder-id"
                             | None => Ok pid
                             end) in
          pure (Ok (Some (pid, root), n))
      | None => pure (Ok (None, n))
      end
  | None, None => pure (Err (invalid_args "give a <path> or --name"))
  end.

(** A new [Resolver] on the same keystore and server: its cache is empty. *)
Definition fresh_resolver : RM unit := fun rv => Some (Ok tt, mk_Resolver (rv_world rv) ∅).

Definition folder_body (folder_id : uuid) (parent : option uuid) (name : value) (owner_wrap : option value) : value :=
  VObject ([("folder_id", VString (uuid_to_string folder_id))]
           ++ opt_member "parent_folder_id" ((fun p => VString (uuid_to_string p)) <$> parent)
           ++ [("encrypted_name", name)] ++ opt_member "owner_metadata_key_wrap" owner_wrap).

Definition folder_create (fuel : nat) (folder_id : uuid) (drawn_key iv : bytes) (c : Coins)
    (path parent_id root_folder_id name : option string) : RM value :=
  run? pn := create_target fuel path parent_id root_folder_id name in
  run? fits := pure (name_fits pn.2) in
  run? nw := match pn.1 with
             | None =>
                 run? me := step (get_signed CLI_VERSION signing server_url "/v1/me") in
                 run? self_keys := step (on_world (on_ks (fun st => self_wrap_keys st me kem))) in
                 run? wrap := pure (wrap_metadata_key_for c self_keys drawn_key (uuid_as_bytes folder_id)) in
                 run? name := pure (encrypted iv drawn_key folder_id folder_id pn.2) in
                 pure (Ok (name, Some wrap))
             | Some (_, root) =>
                 run? u := fresh_resolver in
                 run? key := step (metadata_key CLI_VERSION signing kem server_url root) in
                 run? name := pure (encrypted iv key root folder_id pn.2) in
                 pure (Ok (name, None))
             end in
  post "/v1/folders" (folder_body folder_id (fst <$> pn.1) nw.1 nw.2).

(** ** Inviting *)

(** The wraps of the files, each re-wrapped to the recipient; [coins i] is drawn
    for the file at position [i]. *)
Fixpoint rewrap_files (coins : nat -> Coins) (i : nat) (recipient : RecipientWrapKeys) (ids : list uuid)
    : RM (list (uuid * value)) :=
  match ids with
  | [] => pure (Ok [])
  | id :: ids =>
      run? resp := step (get_signed CLI_VERSION signing server_url
                           ("/v1/files/" +:+ uuid_to_string id +:+ "/wrapped-dek")) in
      run? my_wrap := pure (ok_or (invalid_data "wrapped-dek response missing wrapped_dek")
                              (value_get resp "wrapped_dek")) in
      run? wrap := step (on_world (on_ks (fun st => rewrap_dek_to st (coins i) kem my_wrap recipient))) in
      run? rest := rewrap_files coins (S i) recipient ids in
      pure (Ok ((id, wrap) :: rest))
  end.

Definition invitation_body (to permission : string) (metadata_key_wrap : value)
    (file_dek_wraps : list (uuid * value)) : value :=
  VObject [("recipient_handle", VString to); ("permission", VString permission);
           ("pre_computed_wraps",
            VObject [("metadata_key_wrap", metadata_key_wrap);
                     ("file_dek_wraps", VArray (map (fun fw =>
                        VObject [("file_id", VString (uuid_to_string fw.1)); ("wrap", fw.2)])
                        file_dek_wraps))])].

Definition invitation_path (folder : uuid) : string :=
  "/v1/share-folders/" +:+ uuid_to_string folder +:+ "/invitations".

Definition share_invite (fuel pages : nat) (c : Coins) (coins : nat -> Coins)
    (path folder_id root_folder_id : option string) (to permission : string) : RM value :=
  run? fr := resolve_folder_target pages path folder_id root_folder_id in
  run? recipient := step (on_world (resolve_recipient_pubkey to)) in
  run? metadata_key := step (metadata_key CLI_VERSION signing kem server_url fr.2) in
  run? metadata_key_wrap := pure (wrap_metadata_key_for c recipient.1 metadata_key (uuid_as_bytes fr.2)) in
  run? file_ids := files_under CLI_VERSION signing server_url fuel pages fr.1 in
  run? file_dek_wraps := rewrap_files coins 0 recipient.1 file_ids in
  post (invitation_path fr.1) (invitation_body to permission metadata_key_wrap file_dek_wraps).

(** ** Renaming, moving, leaving *)

Definition folder_rename (fuel : nat) (iv : bytes) (path folder_id root_folder_id : option string)
    (new_name : string) : RM value :=
  run? fits := pure (name_fits new_name) in
  run? fr := resolve_folder_target fuel path folder_id root_folder_id in
  run? key := step (metadata_key CLI_VERSION signing kem server_url fr.2) in
  run? name := pure (encrypted iv key fr.2 fr.1 new_name) in
  patch ("/v1/folders/" +:+ uuid_to_string fr.1) (VObject [("encrypted_name", name)]).

Definition file_rename (fuel : nat) (iv : bytes) (path file_id root_folder_id : option string)
    (new_name : string) : RM value :=
  run? fits := pure (name_fits new_name) in
  run? fr := resolve_file_target fuel path file_id root_folder_id in
  run? key := step (metadata_key CLI_VERSION signing kem server_url fr.2) in
  run? name := pure (encrypted iv key fr.2 fr.1 new_name) in
  patch ("/v1/files/" +:+ uuid_to_string fr.1) (VObject [("encrypted_name", name)]).

Definition folder_move (fuel : nat) (path folder_id to to_parent_id : option string) : RM value :=
  run? fr := resolve_folder_target fuel path folder_id None in
  run? dest := resolve_dest_folder fuel to to_parent_id "--to-parent-id" in
  patch ("/v1/folders/" +:+ uuid_to_string fr.1)
    (VObject [("parent_folder_id", VString (uuid_to_string dest))]).

Definition file_move (fuel : nat) (path file_id to to_folder_id : option string) : RM value :=
  run? fid := resolve_file_id fuel path file_id in
  run? dest := resolve_dest_folder fuel to to_folder_id "--to-folder-id" in
  patch ("/v1/files/" +:+ uuid_to_string fid) (VObject [("folder_id", VString (uuid_to_string dest))]).

Definition share_leave (fuel : nat) (path folder_id : option string) : RM string :=
  run? fr := resolve_folder_target fuel path folder_id None in
  step (on_world (post_signed CLI_VERSION signing server_url
    ("/v1/share-folders/" +:+ uuid_to_string fr.1 +:+ "/leave"))).

(** The answer is parsed as it is for [post_json_signed]. *)
Definition share_accept (token : string) : RM value :=
  run? text := step (on_world (post_signed CLI_VERSION signing server_url
                       ("/v1/invitations/" +:+ token +:+ "/accept"))) in
  pure (map_err (fun _ => invalid_data "server returned invalid JSON") (json_from_str text)).

Definition share_cancel_invite (fuel : nat) (path folder_id : option string) (invitation_id : string)
    : RM (uuid * uuid) :=
  run? fr := resolve_folder_target fuel path folder_id None in
  run? iid := pure (parse_uuid_arg invitation_id "--invitation-id") in
  run? u := step (on_world (delete_signed CLI_VERSION signing server_url
                    ("/v1/share-folders/" +:+ uuid_to_string fr.1 +:+ "/invitations/" +:+ uuid_to_string iid))) in
  pure (Ok (fr.1, iid)).

Definition share_remove (fuel : nat) (path folder_id : option string) (recipient_id : string)
    : RM (uuid * uuid) :=
  run? fr := resolve_folder_target fuel path folder_id None in
  run? rid := pure (parse_uuid_arg recipient_id "--recipient-id") in
  run? u := step (on_world (delete_signed CLI_VERSION signing server_url
                    ("/v1/share-folders/" +:+ uuid_to_string fr.1 +:+ "/recipients/" +:+ uuid_to_string rid))) in
  pure (Ok (fr.1, rid)).

(** ** Deleting *)

Definition batch_delete_body (field : string) (ids : list uuid) : bytes :=
  to_vec (VObject [(field, VArray (map (fun id => VString (uuid_to_string id)) ids))]).

(** The number of entries deleted, as it is printed. *)
Definition delete_targets (kind : string) (ids : list uuid) : RM (option value) :=
  match ids with
  | [] => pure (Err (invalid_args "nothing to delete"))
  | [id] =>
      run? u := step (on_world (delete_signed CLI_VERSION signing server_url
                        ("/v1/" +:+ kind +:+ "/" +:+ uuid_to_string id))) in
      pure (Ok (Some (VNumber 1)))
  | _ =>
      let field := if decide (kind = "folders") then "folder_ids" else "file_ids" in
      run? resp := step (on_world (delete_json_signed CLI_VERSION signing server_url ("/v1/" +:+ kind)
                           (batch_delete_body field ids))) in
      pure (Ok (value_get resp "deleted"))
  end.

(** [for p in paths { ids.push(f(p)?) }]. *)
Fixpoint each {A B} (f : A -> RM B) (l : list A) : RM (list B) :=
  match l with
  | [] => pure (Ok [])
  | a :: l =>
      run? b := f a in
      run? bs := each f l in
      pure (Ok (b :: bs))
  end.

Definition folder_delete (fuel : nat) (paths folder_ids : list string) : RM (option value) :=
  run? found := each (fun p => run? r := resolve_folder CLI_VERSION signing kem server_url fuel p in
                               pure (Ok (rd_folder_id r))) paths in
  run? given := each (fun id => pure (parse_uuid_arg id "--folder-id")) folder_ids in
  delete_targets "folders" (found ++ given).

Definition file_delete (fuel : nat) (paths file_ids : list string) : RM (option value) :=
  run? found := each (fun p => run? r := resolve_file CLI_VERSION signing kem server_url fuel p in
                               pure (Ok (rf_file_id r))) paths in
  run? given := each (fun id => pure (parse_uuid_arg id "--file-id")) file_ids in
  delete_targets "files" (found ++ given).

End Code.

Notation "'run?' x ':=' m 'in' k" := (rbind m (fun x => k))
  (at level 10, x name, m at level 100, k at level 200) : rust_scope.
