(* ===== verification/SharingTheorems.v ===== *)
(** * What the commands that change the drive guarantee

    [quiet]: a computation that only reads.  Every command is quiet up to its one
    write, which it sends last and sends unchanged when it has to send it again.
    What an invitation and a new folder carry, their readers can open. *)

From S2P Require Import Prelude Prims CryptoCore Text Ecdsa Envelope Wrap WrapTheorems CliError Keystore SoftKeystore Token VrfIndex Receipts RecipientVerify Hybrid HybridTheorems GrantStatus Anchors Transfer Http HttpTheorems Resolve Sharing.
Import Wrap.

(** ** The requests of one signed call *)

Section Calls.
Context `{HJ : JsonText, HS : Sha256, HX : Hex, HB : Base64Url}.
Context {St E : Type} `{HK : Keystore St, HE : HttpEnv E}.
Abbreviation W := (World St E).

(** [w'] goes on from [w] with the requests [l]. *)
Definition goes_on (w w' : W) (l : list HttpReq) : Prop :=
  w_read_only w' = w_read_only w /\ w_sent w' = w_sent w ++ l.

Lemma extends_goes_on P w w' : extends P w w' <-> exists l, goes_on w w' l /\ Forall P l.
Proof. unfold extends, goes_on. naive_solver. Qed.

Lemma goes_on_refl w : goes_on w w [].
Proof. unfold goes_on. by rewrite app_nil_r. Qed.

Lemma goes_on_trans w1 w2 w3 l l' : goes_on w1 w2 l -> goes_on w2 w3 l' -> goes_on w1 w3 (l ++ l').
Proof. unfold goes_on. intros [-> Hs] [-> ->]. by rewrite Hs, app_assoc. Qed.

(** An attempt sends one request if it comes to that, and none if not. *)
Definition sends_one (P : HttpReq -> Prop) (once : W -> cliresult UreqResult * W) : Prop :=
  forall w r w', once w = (r, w') -> exists l, goes_on w w' l /\ Forall P l /\
    length l = (if is_ok r then 1%nat else 0%nat).

Lemma loop_sends P once url more attempt w r w' :
  sends_one P once -> attempt_loop once url more attempt w = (r, w') ->
  exists l, goes_on w w' l /\ Forall P l /\ (length l <= S more)%nat /\ (is_ok r = true -> l <> []).
Proof.
  intros Ho. revert attempt w. induction more as [|more IH]; intros attempt w; cbn [attempt_loop];
    destruct (once w) as [[x|e] w1] eqn:E1; destruct (Ho _ _ _ E1) as (l & Hg & Hf & Hl); cbn in Hl.
  1,2,4: intros [= <- <-]; exists l; split_and!; try done; try lia; intros _ ->; done.
  destruct (transient x).
  2:{ intros [= <- <-]. exists l. split_and!; try done; [lia|]. by intros _ ->. }
  intros Hx. apply IH in Hx as (l' & Hg' & Hf' & Hl' & Hn).
  exists (l ++ l'). split_and!; [by eapply goes_on_trans; [exact Hg|]|by rewrite Forall_app|rewrite length_app; lia|].
  intros _. by destruct l.
Qed.

Lemma auth_headers_goes_on signing method path body (w w' : W) r :
  auth_headers signing method path body w = (r, w') -> goes_on w w' [].
Proof.
  intros Ha. pose proof (auth_headers_extends (fun _ => False) signing method path body w) as He.
  rewrite Ha in He. apply extends_goes_on in He as (l & Hg & Hf). by destruct Hf.
Qed.

Lemma signed_once_sends version signing method url path body :
  sends_one (fun q => hr_method q = method /\ hr_url q = url /\ hr_body q = body)
    (signed_once version signing method url path body).
Proof.
  intros w r w' Hx. unfold signed_once in Hx.
  destruct (auth_headers signing method path (default [] body) w) as [[hs|e] w1] eqn:Ea;
    apply auth_headers_goes_on in Ea; [|injection Hx as <- <-; by exists []].
  destruct (known_method method); cbn [negb] in Hx; [|injection Hx as <- <-; by exists []].
  unfold send_ok, send in Hx. destruct (he_call _ _) as [u e]. injection Hx as <- <-.
  exists [mk_HttpReq method url (version_header version :: hs ++ content_type body) body].
  split; [|by split; [repeat constructor|]].
  by apply (goes_on_trans w w1 _ []).
Qed.

(** A signed call sends one request, up to four times. *)
Lemma signed_call_sends version signing method base path body (w w' : W) r :
  signed_call version signing method base path body w = (r, w') ->
  exists l, goes_on w w' l /\
    Forall (fun q => hr_method q = method /\ hr_url q = base +:+ path /\ hr_body q = body) l /\
    (length l <= 4)%nat /\ (is_ok r = true -> l <> []).
Proof.
  unfold signed_call. destruct (if decide _ then _ else _) as [[]|e]; intros Hx.
  - by eapply loop_sends, Hx; apply signed_once_sends.
  - injection Hx as <- <-. exists []. split_and!; [apply goes_on_refl|constructor|cbn; lia|done].
Qed.

End Calls.

(** ** Computations that only read *)

Section Quiet.
Context `{HS : Sha256, HX : Hex, HB : Base64Url, HG : AesGcm, HHk : Hkdf, HKw : AesKw, HJ : JsonText}.
Context `{HP : P256, !Ecdsa256, HQ : PqSoftware, !MlKemEncaps, HU : UuidLib}.
Context {St E : Type} `{HK : Keystore St, HE : HttpEnv E}.
Context (CLI_VERSION : string) (signing kem : KeyLabel) (server_url : string).
Abbreviation R := (@Resolver HU St E).

Definition is_read (q : HttpReq) : Prop := hr_method q = "GET"%string.

(** The cached metadata keys are keys. *)
Definition keys32 (rv : R) : Prop := map_Forall (fun _ k => length k = 32%nat) (rv_keys rv).

Definition calm (rv rv' : R) : Prop :=
  extends is_read (rv_world rv) (rv_world rv') /\ (keys32 rv -> keys32 rv').

Lemma calm_refl rv : calm rv rv.
Proof. split; [apply extends_refl|done]. Qed.

Lemma calm_trans rv1 rv2 rv3 : calm rv1 rv2 -> calm rv2 rv3 -> calm rv1 rv3.
Proof. intros [H1 K1] [H2 K2]. split; [by eapply extends_trans|auto]. Qed.

Lemma on_world_calm {A} (f : World St E -> A * World St E) rv :
  (forall w, extends is_read w (f w).2) -> calm rv (on_world f rv).2.
Proof.
  intros Hf. unfold on_world. specialize (Hf (rv_world rv)). destruct (f (rv_world rv)) as [r w]. by split.
Qed.

Lemma get_json_signed_reads path (w : World St E) :
  extends is_read w (get_json_signed CLI_VERSION signing server_url path w).2.
Proof.
  unfold get_json_signed, parsed. cbn [snd].
  destruct (signed_call _ _ _ _ _ _ w) as [r w'] eqn:Es. apply signed_call_sends in Es as (l & Hg & Hf & _).
  apply extends_goes_on. exists l. split; [done|]. eapply Forall_impl; [exact Hf|]. by intros q [? _].
Qed.

Lemma get_signed_calm path rv : calm rv (get_signed CLI_VERSION signing server_url path rv).2.
Proof. apply on_world_calm. intros w. apply get_json_signed_reads. Qed.

Lemma on_ks_calm {A} (f : St -> cliresult A * St) (rv : R) : calm rv (on_world (on_ks f) rv).2.
Proof. apply on_world_calm. intros w. apply on_ks_extends. Qed.

(** What an unwrap gives is a 32-byte key. *)
Lemma fixed32_length k k' : fixed32 k = Ok k' -> length k' = 32%nat.
Proof. unfold fixed32. by intros [-> ?]%to_array_Ok. Qed.

Lemma unwrap_key_hybrid_length (st st' : St) l pq env pv k :
  unwrap_key_hybrid st l pq env pv = (Ok k, st') -> length k = 32%nat.
Proof.
  unfold unwrap_key_hybrid. intros Hx.
  destruct (map_err _ _) as [epk|]; [|done]. destruct (base64_decode_field _ _) as [ek|]; [|done].
  destruct (ks_ecdh _ _ _) as [[z|] s1]; [|done]. destruct (ks_ml_kem_decapsulate _ _ _) as [[z'|] s2]; [|done].
  destruct (ks_meta s2 _) as [[m|] s3]; [|done]. destruct (ks_meta s3 _) as [[m'|] s4]; [|done].
  injection Hx as Hx _. unfold lift_crypto in Hx.
  destruct (unwrap_with_shared_secrets _ _ _ _ _ _) as [k'|] eqn:Eu; [|done]. injection Hx as ->.
  unfold unwrap_with_shared_secrets in Eu. steps_in Eu. by eapply fixed32_length.
Qed.

Lemma unwrap_metadata_length (st st' : St) v root k :
  unwrap_metadata_key_envelope st v root kem = (Ok k, st') -> length k = 32%nat.
Proof.
  unfold unwrap_metadata_key_envelope. intros Hx. destruct (wrap_alg_of v) as [[]|]; [| |done].
  - destruct (wrap_from_value v) as [env|]; [|done]. destruct (map_err _ _) as [epk|]; [|done].
    destruct (ks_ecdh _ _ _) as [[z|] s1]; [|done]. injection Hx as Hx _. unfold lift_crypto in Hx.
    destruct (unwrap_metadata_key_with_shared_secret _ _ _) as [k'|] eqn:Eu; [|done]. injection Hx as ->.
    unfold unwrap_metadata_key_with_shared_secret in Eu. steps_in Eu. by eapply fixed32_length.
  - destruct (hybrid_from_value v) as [env|]; [|done]. destruct (kem_pq_sibling kem) as [pq|]; [|done].
    by eapply unwrap_key_hybrid_length.
Qed.

Lemma unwrap_dek_length (st st' : St) v k :
  unwrap_dek_value st v kem = (Ok k, st') -> length k = 32%nat.
Proof.
  unfold unwrap_dek_value. intros Hx. destruct (wrap_alg_of v) as [[]|]; [| |done].
  - destruct (wrap_from_value v) as [env|]; [|done]. destruct (map_err _ _) as [epk|]; [|done].
    destruct (ks_ecdh _ _ _) as [[z|] s1]; [|done]. injection Hx as Hx _. unfold lift_crypto in Hx.
    destruct (unwrap_dek_with_shared_secret _ _) as [k'|] eqn:Eu; [|done]. injection Hx as ->.
    unfold unwrap_dek_with_shared_secret in Eu. steps_in Eu. by eapply fixed32_length.
  - destruct (hybrid_from_value v) as [env|]; [|done]. destruct (kem_pq_sibling kem) as [pq|]; [|done].
    by eapply unwrap_key_hybrid_length.
Qed.

Lemma metadata_key_calm root rv : calm rv (metadata_key CLI_VERSION signing kem server_url root rv).2.
Proof.
  unfold metadata_key. destruct (rv_keys rv !! root); [apply calm_refl|].
  set (path := "/v1/folders/" +:+ uuid_to_string root +:+ "/metadata-key-wrap").
  pose proof (get_signed_calm path rv) as H1. destruct (get_signed _ _ _ path rv) as [[resp|e] rv1]; [|done].
  cbn [snd] in H1. destruct (value_get resp "wrapped_key") as [wrapped|]; [|done].
  set (f := fun st => unwrap_metadata_key_envelope st wrapped (uuid_as_bytes root) kem).
  pose proof (on_ks_calm f rv1) as H2. destruct (on_world (on_ks f) rv1) as [[key|e] rv2] eqn:Ef; cbn [snd] in H2 |- *.
  2:{ by eapply calm_trans. }
  eapply calm_trans; [exact H1|]. destruct H2 as [H2 H2']. split; [exact H2|]. intros Hk.
  unfold keys32. cbn [rv_keys]. apply map_Forall_insert_2; [|by apply H2'].
  unfold on_world, on_ks in Ef. destruct (f (w_ks (rv_world rv1))) as [r st] eqn:Er. injection Ef as -> _.
  by eapply unwrap_metadata_length.
Qed.

Lemma metadata_key_length root rv key rv' :
  keys32 rv -> metadata_key CLI_VERSION signing kem server_url root rv = (Ok key, rv') -> length key = 32%nat.
Proof.
  intros Hk. unfold metadata_key. destruct (rv_keys rv !! root) as [k|] eqn:El.
  { intros [= <- _]. by eapply Hk. }
  destruct (get_signed _ _ _ _ rv) as [[resp|e] rv1]; [|done].
  destruct (value_get resp "wrapped_key") as [wrapped|]; [|done].
  unfold on_world, on_ks. destruct (unwrap_metadata_key_envelope _ _ _ _) as [[k|e] st] eqn:Eu; [|done].
  intros [= <- _]. by eapply unwrap_metadata_length.
Qed.

Lemma fetch_paginated_calm fuel base field out cursor rv r rv' :
  fetch_paginated CLI_VERSION signing server_url fuel base field out cursor rv = Some (r, rv') -> calm rv rv'.
Proof.
  revert out cursor rv. induction fuel as [|fuel IH]; intros out cursor rv; [done|]. cbn [fetch_paginated].
  pose proof (get_signed_calm (page_path base cursor) rv) as H1.
  destruct (get_signed _ _ _ _ rv) as [[resp|e] rv1]; [|by intros [= _ <-]].
  destruct (Text.get_str resp "next_cursor"); [|by intros [= _ <-]].
  intros Hx. eapply calm_trans; [exact H1|by eapply IH].
Qed.

Lemma folder_entries_calm rows rv :
  calm rv (folder_entries CLI_VERSION signing kem server_url rows rv).2.
Proof.
  revert rv. induction rows as [|v rows IH]; intros rv; cbn [folder_entries]; [apply calm_refl|].
  destruct (uuid_field v "folder_id") as [id|]; [|apply calm_refl]. unfold resolve_entry_name.
  set (root := default id (opt_uuid_field v "root_folder_id")).
  pose proof (metadata_key_calm root rv) as H1. destruct (metadata_key _ _ _ _ root rv) as [[k|e] rv1]; cbn [snd] in H1.
  all: specialize (IH rv1); destruct (folder_entries _ _ _ _ rows rv1) as [[es|e'] rv2]; cbn [snd] in *;
    by eapply calm_trans.
Qed.

Lemma shared_entries_calm rows rv :
  calm rv (shared_entries CLI_VERSION signing kem server_url rows rv).2.
Proof.
  revert rv. induction rows as [|v rows IH]; intros rv; cbn [shared_entries]; [apply calm_refl|].
  destruct (uuid_field v "folder_id") as [id|]; [|apply calm_refl].
  destruct (value_get v "encrypted_name") as [en|]; [|apply IH]. unfold resolver_decrypt_name.
  set (root := default id (opt_uuid_field v "root_folder_id")).
  pose proof (metadata_key_calm root rv) as H1. destruct (metadata_key _ _ _ _ root rv) as [[k|e] rv1]; cbn [snd] in H1.
  - destruct (decrypt_entry_name _ _ _ _) as [nm|e].
    + specialize (IH rv1). destruct (shared_entries _ _ _ _ rows rv1) as [[es|e'] rv2]; cbn [snd] in *;
        by eapply calm_trans.
    + eapply calm_trans; [exact H1|apply IH].
  - eapply calm_trans; [exact H1|apply IH].
Qed.

(** *** Computations with fuel *)

Definition quiet {A} (m : R -> option (cliresult A * R)) : Prop :=
  forall rv r rv', m rv = Some (r, rv') -> calm rv rv'.

Lemma quiet_step {A} (f : R -> cliresult A * R) : (forall rv, calm rv (f rv).2) -> quiet (step f).
Proof. intros Hf rv r rv' Hx. unfold step in Hx. injection Hx as Hx. specialize (Hf rv). by rewrite Hx in Hf. Qed.

Lemma quiet_pure {A} (x : cliresult A) : quiet (pure (St := St) (E := E) x).
Proof. intros rv r rv' [= _ <-]. apply calm_refl. Qed.

Lemma quiet_bind {A B} (m : R -> option (cliresult A * R)) (k : A -> R -> option (cliresult B * R)) :
  quiet m -> (forall a, quiet (k a)) -> quiet (rbind m k).
Proof.
  intros Hm Hk rv r rv'. unfold rbind. destruct (m rv) as [[[a|e] rv1]|] eqn:Em; [| |done].
  - intros Hx. eapply calm_trans; [by eapply Hm|by eapply Hk].
  - intros [= _ <-]. by eapply Hm.
Qed.

Lemma list_folders_quiet fuel parent : quiet (list_folders CLI_VERSION signing kem server_url fuel parent).
Proof.
  intros rv r rv'. unfold list_folders, fetch_folders.
  destruct (fetch_paginated _ _ _ _ _ _ _ _ rv) as [[[raw|e] rv1]|] eqn:Ef; [| |done];
    apply fetch_paginated_calm in Ef; cbn [mbind option_bind]; intros Hx; apply (inj Some) in Hx.
  - pose proof (folder_entries_calm raw rv1) as H2. rewrite Hx in H2. by eapply calm_trans.
  - by injection Hx as _ <-.
Qed.

Lemma list_files_quiet fuel folder root : quiet (list_files CLI_VERSION signing kem server_url fuel folder root).
Proof.
  intros rv r rv'. unfold list_files, fetch_files.
  destruct (fetch_paginated _ _ _ _ _ _ _ _ rv) as [[[raw|e] rv1]|] eqn:Ef; [| |done];
    apply fetch_paginated_calm in Ef; cbn [mbind option_bind]; intros Hx; apply (inj Some) in Hx.
  - pose proof (metadata_key_calm root rv1) as H2. destruct (metadata_key _ _ _ _ root rv1) as [k rv2].
    injection Hx as _ <-. by eapply calm_trans.
  - by injection Hx as _ <-.
Qed.

Lemma list_shared_calm rv : calm rv (list_shared_folders CLI_VERSION signing kem server_url rv).2.
Proof.
  unfold list_shared_folders. pose proof (get_signed_calm "/v1/shared-with-me" rv) as H1.
  destruct (get_signed _ _ _ _ rv) as [[resp|e] rv1]; [|done]. eapply calm_trans; [exact H1|].
  apply shared_entries_calm.
Qed.

Lemma descend_quiet fuel current segments :
  quiet (descend CLI_VERSION signing kem server_url fuel current segments).
Proof.
  revert current. induction segments as [|s segments IH]; intros current rv r rv'; cbn [descend].
  { intros [= _ <-]. apply calm_refl. }
  destruct (list_folders _ _ _ _ _ _ rv) as [[[es|e] rv1]|] eqn:El; [| |done];
    apply list_folders_quiet in El; cbn [mbind option_bind]; [|by intros [= _ <-]].
  destruct (match_folder es s) as [f|]; [|by intros [= _ <-]].
  intros Hx. eapply calm_trans; [exact El|by eapply IH].
Qed.

Lemma resolve_segments_quiet fuel segments :
  quiet (resolve_folder_segments CLI_VERSION signing kem server_url fuel segments).
Proof.
  intros rv r rv'. destruct segments as [|s segments]; [done|]. cbn [resolve_folder_segments].
  destruct (list_folders _ _ _ _ _ _ rv) as [[[es|e] rv1]|] eqn:El; [| |done];
    apply list_folders_quiet in El; cbn [mbind option_bind]; [|by intros [= _ <-]].
  pose proof (list_shared_calm rv1) as H1. destruct (list_shared_folders _ _ _ _ rv1) as [[es'|e] rv2];
    cbn [snd] in H1; pose proof (calm_trans _ _ _ El H1) as H2; [|by intros [= _ <-]].
  destruct (match_folder _ s) as [f|]; [|by intros [= _ <-]].
  destruct (descend _ _ _ _ _ _ _ rv2) as [[x rv3]|] eqn:Ed; [|done]. apply descend_quiet in Ed.
  intros [= _ <-]. by eapply calm_trans.
Qed.

Lemma resolve_folder_quiet fuel path : quiet (resolve_folder CLI_VERSION signing kem server_url fuel path).
Proof.
  unfold resolve_folder. destruct (parse_path path) as [segments|e]; [apply resolve_segments_quiet|apply quiet_pure].
Qed.

Lemma resolve_create_parent_quiet fuel path :
  quiet (resolve_create_parent CLI_VERSION signing kem server_url fuel path).
Proof.
  intros rv r rv'. unfold resolve_create_parent. destruct (parse_path path) as [segments|e].
  2:{ intros [= _ <-]. apply calm_refl. }
  destruct (split_last segments) as [[[|s ps] nm]|]; cbn [mbind option_bind]; [| |done].
  { intros [= _ <-]. apply calm_refl. }
  destruct (resolve_folder_segments _ _ _ _ _ _ rv) as [[x rv1]|] eqn:Er; [|done].
  apply resolve_segments_quiet in Er. by intros [= _ <-].
Qed.

Lemma resolve_file_quiet fuel path : quiet (resolve_file CLI_VERSION signing kem server_url fuel path).
Proof.
  intros rv r rv'. unfold resolve_file. destruct (parse_path path) as [segments|e].
  2:{ intros [= _ <-]. apply calm_refl. }
  case_bool_decide. { intros [= _ <-]. apply calm_refl. }
  destruct (split_last segments) as [[ps nm]|]; cbn [mbind option_bind]; [|done].
  destruct (resolve_folder_segments _ _ _ _ _ _ rv) as [[[d|e] rv1]|] eqn:Er; [| |done];
    apply resolve_segments_quiet in Er; cbn [mbind option_bind]; [|by intros [= _ <-]].
  destruct (list_files _ _ _ _ _ _ _ rv1) as [[[fs|e] rv2]|] eqn:El; [| |done];
    apply list_files_quiet in El; pose proof (calm_trans _ _ _ Er El); cbn [mbind option_bind]; [|by intros [= _ <-]].
  destruct (match_file fs nm); by intros [= _ <-].
Qed.

Lemma walk_quiet fuel pages acc queue : quiet (walk CLI_VERSION signing server_url fuel pages acc queue).
Proof.
  revert acc queue. induction fuel as [|fuel IH]; intros acc queue rv r rv'; [done|]. cbn [walk].
  destruct (rev queue) as [|u rest]; [intros [= _ <-]; apply calm_refl|]. unfold fetch_files, fetch_folders.
  destruct (fetch_paginated _ _ _ _ _ _ _ _ rv) as [[[fs|e] rv1]|] eqn:E1; [| |done];
    apply fetch_paginated_calm in E1; cbn [mbind option_bind]; [|by intros [= _ <-]].
  destruct (ids_of _ fs) as [ids|]; [|by intros [= _ <-]].
  destruct (fetch_paginated _ _ _ _ _ _ _ _ rv1) as [[[ds|e] rv2]|] eqn:E2; [| |done];
    apply fetch_paginated_calm in E2; pose proof (calm_trans _ _ _ E1 E2) as E3; cbn [mbind option_bind]; [|by intros [= _ <-]].
  destruct (ids_of _ ds) as [subs|]; [|by intros [= _ <-]].
  intros Hx. eapply calm_trans; [exact E3|by eapply IH].
Qed.

End Quiet.

(** ** One write, last *)

Section Commands.
Context `{HS : Sha256, HX : Hex, HB : Base64Url, HG : AesGcm, HHk : Hkdf, HKw : AesKw, HJ : JsonText}.
Context `{HP : P256, !Ecdsa256, HQ : PqSoftware, !MlKemEncaps, HU : UuidLib}.
Context `{HJc : Jcs, HM : MlDsa87, HV : Vrf.VrfR255}.
Context {St E : Type} `{HK : Keystore St, HE : HttpEnv E}.
Context (CLI_VERSION : string) (signing kem : KeyLabel) (server_url : string).
Context (debug_opt : option string -> string).
Context (anchored_reads : World St E ->
  cliresult (ServerTrust * (Site -> string -> cliresult value)) * World St E).
(** Anchoring, which is run in read-only attempts, reaches the network through the
    requests of [Http] alone; that it writes nothing is then the guard's doing. *)
Hypothesis anchored_reads_http : via_http CLI_VERSION anchored_reads.
Abbreviation R := (@Resolver HU St E).

Definition one_write {A} (m : R -> option (cliresult A * R)) : Prop :=
  forall rv r rv', m rv = Some (r, rv') -> exists reads writes method url body,
    goes_on (rv_world rv) (rv_world rv') (reads ++ writes) /\ Forall is_read reads /\
    (length writes <= 4)%nat /\ method <> "GET"%string /\
    Forall (fun q => hr_method q = method /\ hr_url q = url /\ hr_body q = body) writes /\
    (is_ok r = true -> writes <> []).

Lemma one_write_quiet {A B} (m : R -> option (cliresult A * R)) (k : A -> R -> option (cliresult B * R)) :
  quiet m -> (forall a, one_write (k a)) -> one_write (rbind m k).
Proof.
  intros Hm Hk rv r rv'. unfold rbind. destruct (m rv) as [[[a|e] rv1]|] eqn:Em; [| |done];
    apply Hm in Em as [(l & Hg & Hf)%extends_goes_on _].
  - intros Hx. destruct (Hk a _ _ _ Hx) as (reads & writes & mt & u & b & Hg' & Hf' & Hrest).
    exists (l ++ reads), writes, mt, u, b. rewrite <- app_assoc.
    split; [by eapply goes_on_trans|]. split; [by rewrite Forall_app|done].
  - intros [= <- <-]. exists l, [], "POST"%string, EmptyString, None. rewrite app_nil_r.
    split_and!; try done; cbn; lia.
Qed.

(** What is made of the answer may still fail. *)
Lemma one_write_then {A B} (m : R -> option (cliresult A * R)) (f : A -> cliresult B) :
  one_write m -> one_write (rbind m (fun a => pure (f a))).
Proof.
  intros Hm rv r rv'. unfold rbind. destruct (m rv) as [[[a|e] rv1]|] eqn:Em; [| |done];
    destruct (Hm _ _ _ Em) as (reads & writes & mt & u & b & ? & ? & ? & ? & ? & Hn);
    intros [= <- <-]; exists reads, writes, mt, u, b; split_and!; try done.
  intros _. by apply Hn.
Qed.

Lemma one_write_pure {A B} (m : R -> option (cliresult A * R)) (f : A -> B) :
  one_write m -> one_write (rbind m (fun a => pure (Ok (f a)))).
Proof. apply (one_write_then m (fun a => Ok (f a))). Qed.

Lemma one_write_err {A} e : one_write (pure (A := A) (Err e)).
Proof.
  intros rv r rv' [= <- <-]. exists [], [], "POST"%string, EmptyString, None.
  split_and!; try done; [apply goes_on_refl|cbn; lia].
Qed.

(** The four requests that write. *)
Lemma one_write_call {A} (g : cliresult string * World St E -> cliresult A * World St E) method path body :
  method <> "GET"%string -> (forall x, (g x).2 = x.2 /\ (is_ok (g x).1 = true -> is_ok x.1 = true)) ->
  one_write (step (on_world (fun w => g (signed_call CLI_VERSION signing method server_url path body w)))).
Proof.
  intros Hm Hg rv r rv' Hx. unfold step, on_world in Hx.
  destruct (signed_call _ _ _ _ _ _ (rv_world rv)) as [s w'] eqn:Es.
  destruct (Hg (s, w')) as [Hg2 Hg1]. destruct (g (s, w')) as [r0 w0]. cbn in Hg1, Hg2. subst w0.
  injection Hx as <- <-. apply signed_call_sends in Es as (l & Hl & Hf & Hn & Hok).
  exists [], l, method, (server_url +:+ path), body. cbn. split_and!; try done. auto.
Qed.

Lemma parsed_ok (x : cliresult string * World St E) :
  (parsed x).2 = x.2 /\ (is_ok (parsed x).1 = true -> is_ok x.1 = true).
Proof. by destruct x as [[]]. Qed.

Lemma post_writes path body : one_write (post CLI_VERSION signing server_url path body).
Proof. apply one_write_call; [done|apply parsed_ok]. Qed.
Lemma patch_writes path body : one_write (patch CLI_VERSION signing server_url path body).
Proof. apply one_write_call; [done|apply parsed_ok]. Qed.

Lemma delete_one_writes path : one_write (step (on_world (HU := HU) (delete_signed CLI_VERSION signing server_url path))).
Proof. apply (one_write_call (fun x => on_res (fun _ => tt) x)); [done|]. by intros [[] ?]. Qed.

Lemma delete_writes kind ids : one_write (delete_targets CLI_VERSION signing server_url kind ids).
Proof.
  destruct ids as [|id [|id' ids]]; cbn [delete_targets]; [apply one_write_err|..].
  - apply (one_write_pure _ (fun _ => Some (VNumber 1))).
    apply delete_one_writes.
  - apply (one_write_pure _ (fun v => value_get v "deleted")). apply one_write_call; [done|apply parsed_ok].
Qed.

(** *** The reads of the commands *)

Lemma extends_bind {A B} (m : World St E -> cliresult A * World St E)
    (k : A -> World St E -> cliresult B * World St E) w :
  w_read_only w = true ->
  (forall w, w_read_only w = true -> extends is_read w (m w).2) ->
  (forall a w, w_read_only w = true -> extends is_read w (k a w).2) ->
  extends is_read w (do? x := m w on w in k x w).2.
Proof.
  intros Hw Hm Hk. specialize (Hm w Hw). destruct (m w) as [[a|e] w1]; [|done].
  eapply extends_trans; [exact Hm|]. apply Hk. destruct Hm as [Hm _]. cbn in Hm. congruence.
Qed.

Lemma read_only_reads {A} (f : World St E -> cliresult A * World St E) :
  (forall w, w_read_only w = true -> extends is_read w (f w).2) -> forall w, extends is_read w (read_only f w).2.
Proof.
  intros Hf w. unfold read_only. specialize (Hf (set_read_only true w) eq_refl).
  destruct (f _) as [r w']. destruct Hf as [_ (l & Hs & Hl)]. split; [done|]. by exists l.
Qed.

Lemma once_more_reads {A} (f : World St E -> cliresult A * World St E) :
  (forall w, extends is_read w (f w).2) -> forall w, extends is_read w (once_more_on_epoch_change f w).2.
Proof.
  intros Hf w. unfold once_more_on_epoch_change. pose proof (Hf w) as Hw1.
  destruct (f w) as [[a|e] w1]; [done|]. destruct (epoch_moved e); [|done].
  eapply extends_trans; [exact Hw1|apply Hf].
Qed.

Lemma verified_keys_reads bundle ex who w :
  w_read_only w = true -> extends is_read w (verified_keys server_url debug_opt anchored_reads bundle ex who w).2.
Proof.
  intros Hw. unfold verified_keys.
  apply (extends_bind _ (fun tr w => (verified_wrap_keys debug_opt tr.2 server_url tr.1 bundle ex who, w))); [done| |].
  - intros w0 Hw0. by eapply via_http_reads.
  - intros tr w0 _. apply extends_refl.
Qed.

Lemma recipient_reads to w :
  extends is_read w (resolve_recipient_pubkey CLI_VERSION signing server_url debug_opt anchored_reads to w).2.
Proof.
  apply once_more_reads, read_only_reads. intros w0 Hw0. apply extends_bind; [done|intros; apply get_json_signed_reads|].
  intros resp w1 Hw1. apply extends_bind; [done|intros; by apply verified_keys_reads|]. intros k w2 _. apply extends_refl.
Qed.

Lemma me_and_guardian_reads w :
  extends is_read w (me_and_guardian CLI_VERSION signing server_url debug_opt anchored_reads w).2.
Proof.
  apply once_more_reads, read_only_reads. intros w0 Hw0. apply extends_bind; [done|intros; apply get_json_signed_reads|].
  intros me w1 Hw1. case_bool_decide; [|apply extends_refl]. destruct (value_get me "guardian"); [|apply extends_refl].
  apply extends_bind; [done|intros; by apply verified_keys_reads|]. intros k w2 _. apply extends_refl.
Qed.

Lemma quiet_world {A} (f : World St E -> cliresult A * World St E) :
  (forall w, extends is_read w (f w).2) -> quiet (step (on_world (HU := HU) f)).
Proof. intros Hf. apply quiet_step. intros rv. by apply on_world_calm. Qed.

Lemma quiet_ks {A} (f : St -> cliresult A * St) : quiet (step (on_world (HU := HU) (E := E) (on_ks f))).
Proof. apply quiet_step. intros rv. apply on_ks_calm. Qed.

Lemma quiet_get path : quiet (step (get_signed CLI_VERSION signing server_url path)).
Proof. apply quiet_step. intros rv. apply get_signed_calm. Qed.

Lemma quiet_key root : quiet (step (metadata_key CLI_VERSION signing kem server_url root)).
Proof. apply quiet_step. intros rv. apply metadata_key_calm. Qed.

Lemma quiet_fresh : quiet (@fresh_resolver HU St E).
Proof. intros rv r rv' [= _ <-]. split; [apply extends_refl|]. intros _. apply map_Forall_empty. Qed.

(** Chain the reads of a command. *)
Ltac quietly :=
  repeat match goal with
  | |- quiet (match ?x with _ => _ end) => destruct x
  | |- _ => first
      [ apply quiet_pure | apply quiet_ks | apply quiet_get | apply quiet_key | apply quiet_fresh
      | apply resolve_folder_quiet | apply resolve_file_quiet | apply resolve_create_parent_quiet
      | apply walk_quiet | apply quiet_world, recipient_reads | apply quiet_world, me_and_guardian_reads
      | apply quiet_bind; [|intros ?] ]
  end.

Lemma folder_target_quiet fuel p i r : quiet (resolve_folder_target CLI_VERSION signing kem server_url fuel p i r).
Proof. unfold resolve_folder_target. quietly. Qed.
Lemma file_target_quiet fuel p i r : quiet (resolve_file_target CLI_VERSION signing kem server_url fuel p i r).
Proof. unfold resolve_file_target. quietly. Qed.
Lemma file_id_quiet fuel p i : quiet (resolve_file_id CLI_VERSION signing kem server_url fuel p i).
Proof. unfold resolve_file_id. quietly. Qed.
Lemma dest_quiet fuel p i f : quiet (resolve_dest_folder CLI_VERSION signing kem server_url fuel p i f).
Proof. unfold resolve_dest_folder. quietly. Qed.
Lemma create_target_quiet fuel p i r n : quiet (create_target CLI_VERSION signing kem server_url fuel p i r n).
Proof. unfold create_target. quietly. Qed.

Lemma rewrap_files_quiet coins i keys ids :
  quiet (rewrap_files CLI_VERSION signing kem server_url coins i keys ids).
Proof. revert i. induction ids as [|id ids IH]; intros i; cbn [rewrap_files]; quietly. apply IH. Qed.

Lemma each_quiet {A B} (f : A -> R -> option (cliresult B * R)) l :
  (forall a, quiet (f a)) -> quiet (each f l).
Proof. intros Hf. induction l as [|a l IH]; cbn [each]; quietly; [apply Hf|apply IH]. Qed.

(** *** The commands *)

Inductive Command :=
  | ShareCreate (folder_id : uuid) (metadata_key iv : bytes) (c c' : Coins) (path name : option string)
  | FolderCreate (folder_id : uuid) (drawn_key iv : bytes) (c : Coins) (path parent_id root_folder_id name : option string)
  | ShareInvite (c : Coins) (coins : nat -> Coins) (path folder_id root_folder_id : option string) (to permission : string)
  | FolderRename (iv : bytes) (path folder_id root_folder_id : option string) (new_name : string)
  | FileRename (iv : bytes) (path file_id root_folder_id : option string) (new_name : string)
  | FolderMove (path folder_id to to_parent_id : option string)
  | FileMove (path file_id to to_folder_id : option string)
  | ShareLeave (path folder_id : option string)
  | ShareAccept (token : string)
  | ShareCancelInvite (path folder_id : option string) (invitation_id : string)
  | ShareRemove (path folder_id : option string) (recipient_id : string)
  | FolderDelete (paths folder_ids : list string)
  | FileDelete (paths file_ids : list string).

(** What is run; what it prints is dropped. *)
Definition run_command (fuel pages : nat) (cmd : Command) : R -> option (cliresult unit * R) :=
  let quietly_done {A} (m : R -> option (cliresult A * R)) := rbind m (fun _ => pure (Ok tt)) in
  match cmd with
  | ShareCreate f k iv c c' p n =>
      quietly_done (share_create CLI_VERSION signing kem server_url debug_opt anchored_reads f k iv c c' p n)
  | FolderCreate f k iv c p i r n => quietly_done (folder_create CLI_VERSION signing kem server_url pages f k iv c p i r n)
  | ShareInvite c cs p i r to perm =>
      quietly_done (share_invite CLI_VERSION signing kem server_url debug_opt anchored_reads fuel pages c cs p i r to perm)
  | FolderRename iv p i r n => quietly_done (folder_rename CLI_VERSION signing kem server_url pages iv p i r n)
  | FileRename iv p i r n => quietly_done (file_rename CLI_VERSION signing kem server_url pages iv p i r n)
  | FolderMove p i t ti => quietly_done (folder_move CLI_VERSION signing kem server_url pages p i t ti)
  | FileMove p i t ti => quietly_done (file_move CLI_VERSION signing kem server_url pages p i t ti)
  | ShareLeave p i => quietly_done (share_leave CLI_VERSION signing kem server_url pages p i)
  | ShareAccept t => quietly_done (share_accept CLI_VERSION signing server_url t)
  | ShareCancelInvite p i iid => quietly_done (share_cancel_invite CLI_VERSION signing kem server_url pages p i iid)
  | ShareRemove p i rid => quietly_done (share_remove CLI_VERSION signing kem server_url pages p i rid)
  | FolderDelete ps ids => quietly_done (folder_delete CLI_VERSION signing kem server_url pages ps ids)
  | FileDelete ps ids => quietly_done (file_delete CLI_VERSION signing kem server_url pages ps ids)
  end.

Lemma leave_writes path : one_write (step (on_world (HU := HU) (post_signed CLI_VERSION signing server_url path))).
Proof. apply (one_write_call (fun x => x)); [done|]. by intros [[] ?]. Qed.

(** Chain a command up to its write. *)
Ltac writes :=
  repeat match goal with
  | |- one_write (rbind _ (fun _ => pure (Ok tt))) => apply (one_write_pure _ (fun _ => tt))
  | |- one_write (post _ _ _ _ _) => apply post_writes
  | |- one_write (patch _ _ _ _ _) => apply patch_writes
  | |- one_write (delete_targets _ _ _ _ _) => apply delete_writes
  | |- one_write (rbind (step (on_world (delete_signed _ _ _ _))) _) => eapply one_write_then, delete_one_writes
  | |- one_write (rbind (step (on_world (post_signed _ _ _ _))) _) => eapply one_write_then, leave_writes
  | |- one_write _ => apply one_write_quiet; [|intros ?]
  end.

Lemma command_writes fuel pages cmd : one_write (run_command fuel pages cmd).
Proof.
  destruct cmd; cbn [run_command]; apply (one_write_pure _ (fun _ => tt));
    unfold share_create, folder_create, share_invite, folder_rename, file_rename, folder_move, file_move,
      share_leave, share_accept, share_cancel_invite, share_remove, folder_delete, file_delete, files_under; writes;
    try apply leave_writes; try apply create_target_quiet; try apply folder_target_quiet;
    try apply file_target_quiet; try apply file_id_quiet; try apply dest_quiet;
    try apply rewrap_files_quiet; try (apply each_quiet; intros ?); quietly.
Qed.

(** C13: Every command that changes folders, files or shares (the thirteen of [Command];
    an upload, which is several writes, is not one of them) makes its one change last.
    The anchoring of an attempt is any computation over the requests of [Http].  Whatever
    the command is given and whatever the server answers, a command that ends has sent reads
    only, and after them at most one write, at most four times and each time with
    the same method, address and body; and it has sent that write if it succeeded.
    So a command that fails while it resolves, checks a recipient or wraps keys has
    changed nothing. *)
Theorem one_write_last fuel pages cmd (rv rv' : R) r :
  run_command fuel pages cmd rv = Some (r, rv') ->
  exists reads writes method url body,
    w_sent (rv_world rv') = w_sent (rv_world rv) ++ reads ++ writes /\
    Forall (fun q => hr_method q = "GET"%string) reads /\ (length writes <= 4)%nat /\ method <> "GET"%string /\
    Forall (fun q => hr_method q = method /\ hr_url q = url /\ hr_body q = body) writes /\
    (is_ok r = true -> writes <> []).
Proof.
  intros Hr. destruct (command_writes fuel pages cmd _ _ _ Hr) as (l & ws & m & u & b & [_ Hs] & Hrest).
  by exists l, ws, m, u, b.
Qed.

(** ** What an invitation carries *)

Lemma rbind_Ok {A B} (m : R -> option (cliresult A * R)) (k : A -> R -> option (cliresult B * R)) rv b rv' :
  rbind m k rv = Some (Ok b, rv') ->
  exists a rv1, m rv = Some (Ok a, rv1) /\ k a rv1 = Some (Ok b, rv').
Proof. unfold rbind. destruct (m rv) as [[[a|e] rv1]|]; [|done..]. eauto. Qed.

(** A successful post ends with its request. *)
Lemma post_last path body (rv rv' : R) v :
  post CLI_VERSION signing server_url path body rv = Some (Ok v, rv') ->
  exists q, last (w_sent (rv_world rv')) = Some q /\ hr_method q = "POST"%string /\
    hr_url q = server_url +:+ path /\ hr_body q = Some (to_vec body).
Proof.
  unfold post, step, on_world, post_json_signed. intros Hx.
  destruct (signed_call _ _ _ _ _ _ (rv_world rv)) as [s w'] eqn:Es.
  destruct (parsed_ok (s, w')) as [Hp2 Hp1]. destruct (parsed (s, w')) as [r0 w0]. cbn in Hp1, Hp2.
  injection Hx as -> <-. subst w0. apply signed_call_sends in Es as (l & [_ Hs] & Hf & _ & Hn).
  specialize (Hn (Hp1 eq_refl)). destruct (exists_last Hn) as (l' & q & ->).
  exists q. cbn. rewrite Hs, app_assoc, last_snoc. split; [done|].
  apply Forall_app in Hf as [_ Hf]. by inversion Hf.
Qed.

(** [w] is the wrap this identity was served for the file [id], opened and wrapped
    again to [keys]. *)
Definition rewrapped (keys : RecipientWrapKeys) (id : uuid) (w : value) (dek : bytes) : Prop :=
  exists (rv1 rv2 : R) resp mine st st' c,
    get_signed CLI_VERSION signing server_url ("/v1/files/" +:+ uuid_to_string id +:+ "/wrapped-dek") rv1
      = (Ok resp, rv2) /\
    value_get resp "wrapped_dek" = Some mine /\ unwrap_dek_value st mine kem = (Ok dek, st') /\
    is_Some (p256_scalar (c_eph c)) /\ wrap_dek_for c keys dek = Ok w.

Lemma rewrap_files_all coins keys ids : (forall i, is_Some (p256_scalar (c_eph (coins i)))) ->
  forall i (rv rv' : R) ws, rewrap_files CLI_VERSION signing kem server_url coins i keys ids rv = Some (Ok ws, rv') ->
  map fst ws = ids /\ Forall (fun idw => exists dek, rewrapped keys idw.1 idw.2 dek) ws.
Proof.
  intros Hg. induction ids as [|id ids IH]; intros i rv rv' ws; cbn [rewrap_files].
  { intros [= <- _]. by split. }
  intros (resp & rv1 & Hget & Hx)%rbind_Ok. apply rbind_Ok in Hx as (mine & rv2 & Hm & Hx).
  apply rbind_Ok in Hx as (w & rv3 & Hw & Hx). apply rbind_Ok in Hx as (rest & rv4 & Hr & Hx).
  injection Hx as <- _. apply IH in Hr as [<- Hr]. split; [done|]. constructor; [|done].
  unfold step in Hget, Hw. unfold pure in Hm. apply (inj Some) in Hget. injection Hm as Hm _.
  unfold on_world, on_ks, rewrap_dek_to in Hw.
  destruct (unwrap_dek_value (w_ks (rv_world rv2)) mine kem) as [[dek|e] st'] eqn:Eu; [|done].
  cbn in Hw. injection Hw as Hw _. exists dek. exists rv, rv1, resp, mine, (w_ks (rv_world rv2)), st', (coins i).
  split_and!; try done. destruct (value_get resp "wrapped_dek"); [by injection Hm as ->|done].
Qed.

Lemma rewrapped_opens {St'} `{HK' : Keystore St'} l sk d z (P : St' -> Prop) `{!KemHolder l sk d z P} st id w dek :
  P st -> secrets_ok sk d z -> rewrapped (bundle sk d z) id w dek -> (unwrap_dek_value st w l).1 = Ok dek.
Proof.
  intros Hst Hsec (? & ? & ? & ? & st0 & st0' & c0 & _ & _ & Hun & Hc0 & Hw).
  apply unwrap_dek_length in Hun.
  destruct (dek_wrap_opens l sk d z P st c0 dek Hst Hsec Hc0 Hun) as (v & st' & Hv & _ & Ho & _).
  assert (v = w) as <- by congruence. by rewrite Ho.
Qed.

(** C12: An invitation gives its recipient everything in the folder.  When
    [share_invite] succeeds, its last request is the invitation; it carries a wrap
    for every file that lies under the folder, each the re-wrap of the key this
    identity itself has for the file, and the folder's metadata key; and if the keys
    that were verified are those of the recipient, the recipient's keystore opens
    every one of them, to the same keys. *)
Theorem invitation_delivers {St'} `{HK' : Keystore St'} l sk d z (P : St' -> Prop) `{!KemHolder l sk d z P}
    fuel pages c coins path folder_id root_folder_id to permission (rv rv' : R) resp :
  keys32 rv -> secrets_ok sk d z -> is_Some (p256_scalar (c_eph c)) ->
  (forall i, is_Some (p256_scalar (c_eph (coins i)))) ->
  share_invite CLI_VERSION signing kem server_url debug_opt anchored_reads fuel pages c coins
    path folder_id root_folder_id to permission rv = Some (Ok resp, rv') ->
  exists folder root rv0 keys bundle_json w key rv1 ids rv2 metadata_wrap wraps q,
    resolve_folder_target CLI_VERSION signing kem server_url pages path folder_id root_folder_id rv
      = Some (Ok (folder, root), rv0) /\
    resolve_recipient_pubkey CLI_VERSION signing server_url debug_opt anchored_reads to (rv_world rv0)
      = (Ok (keys, bundle_json), w) /\
    metadata_key CLI_VERSION signing kem server_url root (mk_Resolver w (rv_keys rv0)) = (Ok key, rv1) /\
    files_under CLI_VERSION signing server_url fuel pages folder rv1 = Some (Ok ids, rv2) /\
    last (w_sent (rv_world rv')) = Some q /\ hr_method q = "POST"%string /\
    hr_url q = server_url +:+ invitation_path folder /\
    hr_body q = Some (to_vec (invitation_body to permission metadata_wrap wraps)) /\
    map fst wraps = ids /\
    (keys = bundle sk d z -> forall st, P st ->
       (unwrap_metadata_key_envelope st metadata_wrap (uuid_as_bytes root) l).1 = Ok key /\
       Forall (fun idw => exists dek, (unwrap_dek_value st idw.2 l).1 = Ok dek /\
          rewrapped keys idw.1 idw.2 dek) wraps).
Proof.
  intros Hk Hsec Hc Hcs Hx. unfold share_invite in Hx.
  apply rbind_Ok in Hx as ([folder root] & rva & Ht & Hx). pose proof Ht as [_ Hta]%folder_target_quiet.
  apply rbind_Ok in Hx as ([keys bj] & rvb & Hrec & Hx).
  pose proof (quiet_world _ (recipient_reads to) _ _ _ Hrec) as [_ Hq].
  apply rbind_Ok in Hx as (key & rvc & Hkey & Hx). apply (inj Some) in Hkey. cbn [fst snd] in *.
  pose proof (metadata_key_length _ _ _ _ _ _ _ _ (Hq (Hta Hk)) Hkey) as Hlen.
  apply rbind_Ok in Hx as (mw & rvd & Hmw & Hx). injection Hmw as Hmw <-.
  apply rbind_Ok in Hx as (ids & rve & Hids & Hx). apply rbind_Ok in Hx as (ws & rvf & Hws & Hx).
  apply rewrap_files_all in Hws as [Hi Hws]; [|done].
  apply post_last in Hx as (q & Hl & Hqm & Hu & Hb).
  unfold step, on_world in Hrec. destruct (resolve_recipient_pubkey _ _ _ _ _ to (rv_world rva)) as [rr w2] eqn:Er.
  injection Hrec as -> <-.
  exists folder, root, rva, keys, bj, w2, key, rvc, ids, rve, mw, ws, q. split_and!; try done.
  intros -> st Hst. split.
  - destruct (metadata_wrap_opens l sk d z P st c key (uuid_as_bytes root) Hst Hsec Hc Hlen
      (uuid_as_bytes_length _)) as (v & st' & Hv & _ & Ho & _).
    assert (v = mw) as -> by congruence. by rewrite Ho.
  - eapply Forall_impl; [exact Hws|]. intros idw (dek & Hd).
    exists dek. split; [by eapply rewrapped_opens|done].
Qed.

End Commands.
