(* ===== verification/Listing.v ===== *)
(** * Commands that only read ([cli/src/commands.rs])

    The listings of folders, files, shares, recipients and invitations, a recipient's
    keys, and the account's identity and quota.  What is printed is the result; the
    padding of the tables and the notes on standard error are left out. *)

From S2P Require Import Prelude Prims CryptoCore Text Ecdsa Envelope Wrap CliError Keystore SoftKeystore Token VrfIndex Receipts RecipientVerify Hybrid Anchors GrantStatus Transfer Http HttpTheorems Resolve Sharing SharingTheorems.
Import Wrap.

(** ** The account *)

(** A member that is copied when it is there. *)
Definition copied (v : value) (field : string) : list (string * value) :=
  match value_get v field with Some x => [(field, x)] | None => [] end.
Definition copied_as (field : string) (v : option value) : list (string * value) :=
  match v with Some x => if value_is_null x then [] else [(field, x)] | None => [] end.

Definition shape_whoami (me : value) : value :=
  VObject (copied me "account_id" ++ copied me "account_type" ++ copied me "handle"
           ++ copied_as "prsn_sharing_capability" (value_get me "prsn_sharing_capability")
           ++ copied_as "guardian" (value_get me "guardian" ≫= fun g => value_get g "handle")
           ++ copied_as "drive_access" (value_get me "drive_access")).

(** The difference of two [i64] wraps in a release build. *)
Definition shape_quota (q : value) : cliresult value :=
  let*! bytes_used := value_get q "bytes_used" ≫= value_as_i64 else
    invalid_data "quota response missing bytes_used" in
  let*! bytes_quota := value_get q "bytes_quota" ≫= value_as_i64 else
    invalid_data "quota response missing bytes_quota" in
  Ok (VObject [("bytes_used", VNumber bytes_used); ("bytes_quota", VNumber bytes_quota);
               ("bytes_available", VNumber (Z.max (i64_wrap (bytes_quota - bytes_used)) 0))]%string).

(** ** Versions *)

(** [Vec<u64>] compared as the standard library does. *)
Fixpoint vec_gt (a b : list Z) : bool :=
  match a, b with
  | [], _ => false
  | _ :: _, [] => true
  | x :: a, y :: b => if y <? x then true else if x <? y then false else vec_gt a b
  end.

Definition version_parts (v : string) : list Z :=
  map (fun p => default 0 (parse_uint u64_max (trim p)))
    (split_char (Ascii.ascii_of_nat 46) (trim_start_char (Ascii.ascii_of_nat 118) (trim v))).

Definition is_newer (latest current : string) : bool := vec_gt (version_parts latest) (version_parts current).

(** ** Rows of the tables *)

Record ShareEntry `{HU : UuidLib} := mk_ShareEntry {
  se_name : option string;
  se_folder_id : uuid;
  se_root_folder_id : uuid;
  se_permission : string;
}.
Arguments mk_ShareEntry {HU} _ _ _ _.

Definition json_uuid `{HU : UuidLib} (v : value) (field : string) : cliresult uuid :=
  ok_or (invalid_data ("response missing/invalid " +:+ field))
    (Text.get_str v field ≫= uuid_parse_str).
Definition json_opt_uuid `{HU : UuidLib} (v : value) (field : string) : option uuid :=
  Text.get_str v field ≫= uuid_parse_str.

(** Handle, permission, whether it is the mandatory Guardian, account. *)
Definition recipient_row (r : value) : string * string * string * string :=
  (default "(unknown)" (Text.get_str r "handle"), default EmptyString (Text.get_str r "permission"),
   if default false (get_bool r "is_mandatory_guardian") then "yes" else "no",
   default EmptyString (Text.get_str r "recipient_account_id"))%string.

(** Handle, permission, expiry, id. *)
Definition invitation_row (i : value) : string * string * Z * string :=
  (default "—" (Text.get_str i "recipient_handle"), default "—" (Text.get_str i "permission"),
   default 0 (value_get i "expires_at" ≫= value_as_i64), default "—" (Text.get_str i "invitation_id"))%string.

Section Code.
Context `{HS : Sha256, HX : Hex, HB : Base64Url, HG : AesGcm, HHk : Hkdf, HKw : AesKw, HJ : JsonText}.
Context `{HP : P256, !Ecdsa256, HQ : PqSoftware, !MlKemEncaps, HU : UuidLib}.
Context `{HJc : Jcs, HM : MlDsa87, HV : Vrf.VrfR255}.
Context {St E : Type} `{HK : Keystore St, HE : HttpEnv E}.
Context (CLI_VERSION : string) (signing kem : KeyLabel) (server_url : string).
Context (debug_opt : option string -> string).
Context (anchored_reads : World St E ->
  cliresult (ServerTrust * (Site -> string -> cliresult value)) * World St E).
Abbreviation R := (@Resolver HU St E).
Abbreviation RMR A := (R -> option (cliresult A * R)).

Definition whoami : RMR value :=
  run? me := step (get_signed CLI_VERSION signing server_url "/v1/me") in
  pure (Ok (shape_whoami me)).

Definition quota : RMR value :=
  run? q := step (get_signed CLI_VERSION signing server_url "/v1/me/quota") in
  pure (shape_quota q).

Definition audit (since : option string) (limit : Z) : RMR string :=
  step (on_world (get_text_signed CLI_VERSION signing server_url
    ("/v1/me/audit?limit=" +:+ pretty limit +:+ match since with Some s => "&since=" +:+ s | None => EmptyString end))).

(** The version check; a newer version is an exit code of its own. *)
Definition update : RMR unit :=
  run? latest := step (on_world (get_text CLI_VERSION (server_url +:+ "/cli/latest-version") [])) in
  pure (if is_newer (trim latest) CLI_VERSION then Err (cli_new 8 "update_available" "a newer version is available")
        else Ok tt).

(** ** Folders and files *)

Definition list_parent (fuel : nat) (path parent_id : option string) : RMR (option uuid) :=
  match path, parent_id with
  | Some _, Some _ => pure (Err (invalid_args "give a <path> or --parent-id, not both"))
  | Some p, None =>
      run? r := resolve_folder CLI_VERSION signing kem server_url fuel p in
      pure (Ok (Some (rd_folder_id r)))
  | None, Some id => run? u := pure (parse_uuid_arg id "--parent-id") in pure (Ok (Some u))
  | None, None => pure (Ok None)
  end.

Definition folder_list (fuel : nat) (path parent_id : option string) : RMR (list FolderEntry) :=
  run? parent := list_parent fuel path parent_id in
  list_folders CLI_VERSION signing kem server_url fuel parent.

(** As [resolve_folder_target], with the messages of this command. *)
Definition list_target (fuel : nat) (path folder_id root_folder_id : option string) : RMR (uuid * uuid) :=
  match path, folder_id with
  | Some _, Some _ => pure (Err (invalid_args "give a <folder-path> or --folder-id, not both"))
  | Some p, None =>
      run? r := resolve_folder CLI_VERSION signing kem server_url fuel p in
      pure (Ok (rd_folder_id r, rd_root_folder_id r))
  | None, Some id =>
      run? folder := pure (parse_uuid_arg id "--folder-id") in
      run? root := pure (match root_folder_id with
                         | Some r => parse_uuid_arg r "--root-folder-id"
                         | None => Ok folder
                         end) in
      pure (Ok (folder, root))
  | None, None => pure (Err (invalid_args "give a <folder-path> or --folder-id"))
  end.

Definition file_list (fuel : nat) (path folder_id root_folder_id : option string) : RMR (list FileEntry) :=
  run? fr := list_target fuel path folder_id root_folder_id in
  list_files CLI_VERSION signing kem server_url fuel fr.1 fr.2.

(** ** Shares *)

Definition entry_name (root folder_id : uuid) (f : value) (rv : R) : option string * R :=
  match value_get f "encrypted_name" with
  | Some enc =>
      let '(r, rv) := resolver_decrypt_name CLI_VERSION signing kem server_url root folder_id enc rv in
      (ok_opt r, rv)
  | None => (None, rv)
  end.

Fixpoint share_entries (folders : list value) (rv : R) : cliresult (list ShareEntry) * R :=
  match folders with
  | [] => (Ok [], rv)
  | f :: folders =>
      match json_uuid f "folder_id" with
      | Err e => (Err e, rv)
      | Ok folder_id =>
          let root := default folder_id (json_opt_uuid f "root_folder_id") in
          let permission := default EmptyString (Text.get_str f "permission") in
          let '(name, rv) := entry_name root folder_id f rv in
          do? entries := share_entries folders rv on rv in
          (Ok (mk_ShareEntry name folder_id root permission :: entries), rv)
      end
  end.

Definition share_list : RMR (list ShareEntry) :=
  run? resp := step (get_signed CLI_VERSION signing server_url "/v1/shared-with-me") in
  run? u := fresh_resolver in
  step (share_entries (default [] (get_array resp "folders"))).

(** The answer, and the rows of its table. *)
Definition share_recipients (fuel : nat) (path folder_id : option string) : RMR (value * list (string * string * string * string)) :=
  run? fr := resolve_folder_target CLI_VERSION signing kem server_url fuel path folder_id None in
  run? resp := step (get_signed CLI_VERSION signing server_url
                       ("/v1/share-folders/" +:+ uuid_to_string fr.1 +:+ "/recipients")) in
  pure (Ok (resp, map recipient_row (default [] (get_array resp "recipients")))).

Definition share_invitations (fuel : nat) (path folder_id : option string) : RMR (value * list (string * string * Z * string)) :=
  run? fr := resolve_folder_target CLI_VERSION signing kem server_url fuel path folder_id None in
  run? resp := step (get_signed CLI_VERSION signing server_url
                       ("/v1/share-folders/" +:+ uuid_to_string fr.1 +:+ "/invitations")) in
  pure (Ok (resp, map invitation_row (default [] (get_array resp "invitations")))).

Definition share_preview (token : string) : RMR value :=
  step (get_signed CLI_VERSION signing server_url ("/v1/invitations/" +:+ token)).

Definition recipient (handle : string) : RMR value :=
  run? kr := step (on_world (resolve_recipient_pubkey CLI_VERSION signing server_url debug_opt anchored_reads handle)) in
  pure (Ok kr.2).

(** ** What they guarantee *)

Hypothesis anchored_reads_http : via_http CLI_VERSION anchored_reads.

Inductive Query :=
  | Whoami | Quota | ShareList | Update
  | Audit (since : option string) (limit : Z)
  | FolderList (path parent_id : option string)
  | FileList (path folder_id root_folder_id : option string)
  | ShareRecipients (path folder_id : option string)
  | ShareInvitations (path folder_id : option string)
  | SharePreview (token : string)
  | Recipient (handle : string).

(** What is run; what it prints is dropped. *)
Definition run_query (fuel : nat) (q : Query) : RMR unit :=
  let quietly_done {A} (m : RMR A) := rbind m (fun _ => pure (Ok tt)) in
  match q with
  | Whoami => quietly_done whoami
  | Quota => quietly_done quota
  | ShareList => quietly_done share_list
  | Update => quietly_done update
  | Audit s n => quietly_done (audit s n)
  | FolderList p i => quietly_done (folder_list fuel p i)
  | FileList p i r => quietly_done (file_list fuel p i r)
  | ShareRecipients p i => quietly_done (share_recipients fuel p i)
  | ShareInvitations p i => quietly_done (share_invitations fuel p i)
  | SharePreview t => quietly_done (share_preview t)
  | Recipient h => quietly_done (recipient h)
  end.

Lemma entry_name_calm root id f rv : calm rv (entry_name root id f rv).2.
Proof.
  unfold entry_name, resolver_decrypt_name. destruct (value_get f "encrypted_name"); [|apply calm_refl].
  pose proof (metadata_key_calm CLI_VERSION signing kem server_url root rv) as Hk.
  by destruct (metadata_key _ _ _ _ root rv) as [[]].
Qed.

Lemma share_entries_quiet folders : quiet (step (share_entries folders)).
Proof.
  apply quiet_step. induction folders as [|f folders IH]; intros rv; cbn [share_entries]; [apply calm_refl|].
  destruct (json_uuid f "folder_id") as [id|]; [|apply calm_refl].
  match goal with |- context [entry_name ?r ?i ?f ?rv] => pose proof (entry_name_calm r i f rv) as Hn;
    destruct (entry_name r i f rv) as [n rv1] end.
  specialize (IH rv1). destruct (share_entries folders rv1) as [[es|e] rv2]; by eapply calm_trans.
Qed.

Lemma text_signed_reads path (w : World St E) : extends is_read w (get_text_signed CLI_VERSION signing server_url path w).2.
Proof.
  unfold get_text_signed. destruct (signed_call _ _ _ _ _ _ w) as [r w'] eqn:Es.
  apply signed_call_sends in Es as (l & Hg & Hf & _). apply extends_goes_on. exists l. split; [done|].
  eapply Forall_impl; [exact Hf|]. by intros q [? _].
Qed.

Lemma get_text_reads url hs (w : World St E) : extends is_read w (get_text CLI_VERSION url hs w).2.
Proof. unfold get_text. apply loop_extends. intros w0. by apply send_ok_extends. Qed.

(** Chain the reads of a query. *)
Ltac quiet_steps :=
  repeat match goal with
  | |- quiet (match ?x with _ => _ end) => destruct x
  | |- _ => first
      [ apply quiet_pure | apply quiet_get | apply quiet_fresh | apply resolve_folder_quiet
      | apply list_folders_quiet | apply list_files_quiet | apply folder_target_quiet | apply share_entries_quiet
      | apply quiet_world; intros ?; apply recipient_reads; assumption
      | apply quiet_world; intros ?; apply text_signed_reads
      | apply quiet_world; intros ?; apply get_text_reads
      | apply quiet_bind; [|intros ?] ]
  end.

Lemma query_quiet fuel q : quiet (run_query fuel q).
Proof.
  destruct q; cbn [run_query]; unfold whoami, quota, audit, update, share_list, folder_list, file_list, list_parent, list_target,
    share_recipients, share_invitations, share_preview, recipient; quiet_steps.
Qed.

(** A query never writes.  Listing folders, files, shares, recipients and
    invitations, previewing an invitation, looking up a recipient, the audit log, the
    version check and asking for the account or its quota send GETs only, whatever they are given and whatever the
    server answers, on every path through their errors. *)
Theorem queries_never_write fuel q (rv rv' : R) r :
  run_query fuel q rv = Some (r, rv') ->
  exists reads, w_sent (rv_world rv') = w_sent (rv_world rv) ++ reads /\
    Forall (fun req => hr_method req = "GET"%string) reads.
Proof.
  intros [Hx _]%query_quiet. apply extends_goes_on in Hx as (l & [_ Hs] & Hf). by exists l.
Qed.

(** *** One unreadable share does not hide the others *)

(** The row a share is listed as, its name apart. *)
Definition listed_as (f : value) (e : ShareEntry) : Prop :=
  json_opt_uuid f "folder_id" = Some (se_folder_id e) /\
  se_root_folder_id e = default (se_folder_id e) (json_opt_uuid f "root_folder_id") /\
  se_permission e = default EmptyString (Text.get_str f "permission").

(** [name] is what the row's name decrypts to under the key of its root, as far as
    the key can be had and the name read. *)
Definition name_shown (f : value) (e : ShareEntry) : Prop :=
  forall n, se_name e = Some n -> exists enc key (rv1 rv2 : R), value_get f "encrypted_name" = Some enc /\
    metadata_key CLI_VERSION signing kem server_url (se_root_folder_id e) rv1 = (Ok key, rv2) /\
    decrypt_entry_name key (se_root_folder_id e) (se_folder_id e) enc = Ok n.

Lemma entry_name_Some root id f rv n rv' :
  entry_name root id f rv = (Some n, rv') -> exists enc key rv1, value_get f "encrypted_name" = Some enc /\
    metadata_key CLI_VERSION signing kem server_url root rv = (Ok key, rv1) /\ decrypt_entry_name key root id enc = Ok n.
Proof.
  unfold entry_name, resolver_decrypt_name. destruct (value_get f "encrypted_name") as [enc|]; [|done].
  destruct (metadata_key _ _ _ _ root rv) as [[key|e] rv1]; [|done].
  destruct (decrypt_entry_name key root id enc) as [m|] eqn:Ed; [|done]. intros [= <- _]. eauto 6.
Qed.

(** One unreadable share never hides the others.  When every row of the answer
    has an id, the list has a row for each, in order, with its id, its root and its
    permission, however many of the keys and names cannot be read; and a name that is
    shown is the one that decrypts under the key of that row's own root. *)
Theorem share_rows_degrade folders (rv : R) :
  Forall (fun f => is_Some (json_opt_uuid f "folder_id")) folders ->
  exists entries, (share_entries folders rv).1 = Ok entries /\
    Forall2 listed_as folders entries /\ Forall2 name_shown folders entries.
Proof.
  intros Hf. revert rv. induction Hf as [|f folders [id Hid] _ IH]; intros rv; cbn [share_entries].
  { exists []. split; [done|]. split; constructor. }
  unfold json_uuid. unfold json_opt_uuid in Hid at 1. rewrite Hid. cbn [ok_or].
  destruct (entry_name _ id f rv) as [n rv1] eqn:En. destruct (IH rv1) as (es & He & Hl & Hn).
  destruct (share_entries folders rv1) as [r rv2]. cbn [fst] in He. subst r. eexists. split; [done|].
  split; constructor; try done. intros m Hm. cbn in Hm. subst n.
  apply entry_name_Some in En as (enc & key & rv3 & ? & ? & ?). by exists enc, key, rv, rv3.
Qed.

(** A row without a readable id hides them all. *)
Theorem share_row_without_id f folders (rv : R) :
  json_opt_uuid f "folder_id" = None -> exists e, (share_entries (f :: folders) rv).1 = Err e.
Proof. unfold json_opt_uuid. intros Hf. cbn [share_entries]. unfold json_uuid. rewrite Hf. by eexists. Qed.

End Code.

(** Being newer is an order: no version is newer than itself or than a newer one. *)
Theorem is_newer_order :
  (forall a, is_newer a a = false) /\
  (forall a b, is_newer a b = true -> is_newer b a = false) /\
  (forall a b c, is_newer a b = true -> is_newer b c = true -> is_newer a c = true).
Proof.
  unfold is_newer. split; [|split].
  - intros a. generalize (version_parts a). intros l. induction l as [|x l IH]; cbn [vec_gt]; [done|].
    by rewrite Z.ltb_irrefl.
  - intros a b. generalize (version_parts a) (version_parts b). intros l. induction l as [|x l IH]; intros [|y k];
      cbn [vec_gt]; try done. destruct (Z.ltb_spec y x), (Z.ltb_spec x y); try done; try lia. apply IH.
  - intros a b c. generalize (version_parts a) (version_parts b) (version_parts c). intros l.
    induction l as [|x l IH]; intros [|y k] [|z m]; cbn [vec_gt]; try done.
    destruct (Z.ltb_spec y x), (Z.ltb_spec x y), (Z.ltb_spec z y), (Z.ltb_spec y z), (Z.ltb_spec z x), (Z.ltb_spec x z);
      try done; try lia. apply IH.
Qed.

(** What is available is the rest of the quota, and never less than nothing: the
    subtraction does not wrap on any amounts a server can mean. *)
Theorem quota_available q used total :
  value_get q "bytes_used" ≫= value_as_i64 = Some used -> value_get q "bytes_quota" ≫= value_as_i64 = Some total ->
  0 <= used <= i64_max -> 0 <= total <= i64_max ->
  exists v, shape_quota q = Ok v /\ value_get v "bytes_available" = Some (VNumber (if used <=? total then total - used else 0)).
Proof.
  intros Hu Ht Hur Htr. unfold shape_quota. rewrite Hu, Ht. eexists. split; [done|].
  transitivity (Some (VNumber (Z.max (i64_wrap (total - used)) 0))); [done|]. do 2 f_equal.
  unfold i64_wrap, i64_max in *. rewrite Z.mod_small by lia. destruct (Z.leb_spec used total); lia.
Qed.
