(* ===== verification/SharingToy.v ===== *)
(** * A concrete invitation

    A drive of one folder with one file, shared with a human whose keys are in the
    log and whose keystore is at hand; and queries of that drive. *)

From S2P Require Import Prelude Prims CryptoCore Text Ecdsa Envelope Wrap WrapTheorems CliError Keystore SoftKeystore Token VrfIndex Receipts RecipientVerify RecipientToy Hybrid HybridTheorems Anchors GrantStatus Transfer Http HttpTheorems Resolve ResolveTheorems Sharing SharingTheorems Listing.
Import Wrap Prims.Toy TextToy Vrf.VrfToy.

Module SharingToy.
Import RecipientToy HybridToy.
#[export] Instance ids : UuidLib := ResolveToy.uuid_bool.
#[export] Instance my_vrf : Vrf.VrfR255 := Vrf.VrfToy.vrf_toy.

Definition ec_key : bytes := Eval vm_compute in p256_x963 (p256_public demo_sk).
Definition ek_key : bytes := Eval vm_compute in mlkem1024_ek seed_d seed_z.
Definition ec_fp : string := Eval vm_compute in
  match fingerprint ec_key with Ok f => f | Err _ => EmptyString end.
Definition ek_fp : string := Eval vm_compute in fingerprint_raw ek_key.

Definition gus : value := Eval vm_compute in
  VObject [("account_id", VString "a1"); ("handle", VString "gus");
           ("kem_pq_pubkey", VString (b64_encode ek_key)); ("kem_pq_pubkey_fingerprint", VString ek_fp);
           ("kem_pubkey", VString (b64_encode ec_key)); ("kem_pubkey_fingerprint", VString ec_fp)]%string.
Definition ec_receipt : value := Eval vm_compute in receipt "a1" ec_fp "kem".
Definition ek_receipt : value := Eval vm_compute in receipt "a1" ek_fp "kem_pq".

Definition receipts_of (s : Site) (url : string) : cliresult value :=
  match s with
  | SiteReceipt p => Ok (if decide (p = "kem"%string) then ec_receipt else ek_receipt)
  | _ => Err (generic "no such read")
  end.

(** The wrap this identity holds of the file's key. *)
Definition my_wrap : value := Eval vm_compute in
  match wrap_dek_for coins (HybridTheorems.bundle demo_sk seed_d seed_z) dek with Ok v => v | Err _ => VNull end.

Definition docs : JsonText := json_table
  [("G", gus); ("D", VObject [("wrapped_dek", my_wrap)]);
   ("X", VObject [("files", VArray [VObject [("file_id", VString "1")]])]); ("E", VObject [])]%string eq_refl.
#[export] Instance texts : JsonText := {|
  json_from_str := @json_from_str docs;
  json_to_pretty := @json_to_pretty docs;
  json_display v := "{}"%string;
  json_round_trip := @json_round_trip docs;
|}.

Definition text_of (url : string) : string :=
  (if decide (url = "/v1/recipients/gus") then "G"
   else if decide (url = "/v1/folders/0/files") then "X"
   else if decide (url = "/v1/files/1/wrapped-dek") then "D" else "E")%string.

#[export] Instance server : HttpEnv unit := {
  he_call e q := (UreqOk 200 (Some (text_of (hr_url q))), e);
  he_now e := (Some 17, e);
  he_fill e := (replicate 16 Byte.x00, e);
  he_fill_length _ := eq_refl;
}.

(** A keystore that signs and opens. *)
#[export] Instance my_keys : Keystore unit := {
  ks_tier := Software;
  ks_generate st l a := (Err (key_exists "k"), st);
  ks_meta st l := (Ok (mk_KeyMeta "k" "p" "a" "software" "fp"
    (match purpose l with KemPq => mlkem1024_ek seed_d seed_z | _ => p256_x963 (p256_public demo_sk) end)), st);
  ks_sign st l m := (Ok [], st);
  ks_ecdh st l p := (lift_crypto (ecdh_p256 demo_sk p), st);
  ks_ml_kem_decapsulate st l ek :=
    (ok_or (decrypt_failed "ml-kem decapsulation failed") (mlkem1024_decapsulate seed_d seed_z ek), st);
  ks_ml_dsa_sign st l m c := (Err (key_not_found "k"), st);
  ks_list st := (Ok [], st);
  ks_delete st l := (Ok tt, st);
  ks_exists st l := (Ok false, st);
}.

Definition anchored (w : World unit unit)
  : cliresult (ServerTrust * (Site -> string -> cliresult value)) * World unit unit := (Ok (trust, receipts_of), w).
Lemma anchored_via_http : via_http "1" anchored.
Proof. by exists (PRet _ (Ok (trust, receipts_of))). Qed.

Definition start : @Resolver ids unit unit :=
  mk_Resolver (mk_World tt tt false [] []) {[ false := ResolveToy.key ]}.

Definition invite : @Resolver ids unit unit -> option (cliresult value * @Resolver ids unit unit) :=
  share_invite "1" ResolveToy.me mira_kem "" show_opt anchored 2 1 coins (fun _ => coins)
    None (Some "0"%string) None "gus" "viewer".

Lemma invite_ok : match invite start with Some (Ok _, _) => true | _ => false end = true.
Proof. by vm_compute. Qed.

(** The directory's answer for [gus] verifies, to the keys of the holder. *)
Lemma gus_verified :
  match resolve_recipient_pubkey "1" ResolveToy.me "" show_opt anchored "gus" (rv_world start) with
  | (Ok (k, _), _) => bool_decide (rk_ec k = p256_x963 (p256_public demo_sk)) &&
                      bool_decide (rk_pq k = Some (mlkem1024_ek seed_d seed_z))
  | _ => false
  end = true.
Proof. by vm_compute. Qed.

(** The invitation for the folder is sent, and the recipient opens what is in it. *)
Lemma invitation_delivers_witness :
  exists rv' q key wraps metadata_wrap,
    (exists resp, invite start = Some (Ok resp, rv')) /\
    last (w_sent (rv_world rv')) = Some q /\
    hr_url q = "/v1/share-folders/0/invitations"%string /\
    hr_body q = Some (to_vec (invitation_body "gus" "viewer" metadata_wrap wraps)) /\
    (unwrap_metadata_key_envelope tt metadata_wrap (uuid_as_bytes false) mira_kem).1 = Ok key /\
    Forall (fun idw => exists dek, (unwrap_dek_value tt idw.2 mira_kem).1 = Ok dek) wraps.
Proof.
  pose proof invite_ok as Hok. destruct (invite start) as [[[resp|e] rv']|] eqn:Ei; [|done..]. clear Hok.
  destruct (invitation_delivers "1" ResolveToy.me mira_kem "" show_opt anchored anchored_via_http
    mira_kem demo_sk seed_d seed_z (fun _ : unit => True) 2 1 coins (fun _ => coins)
    None (Some "0"%string) None "gus" "viewer" start rv' resp)
    as (folder & root & rv0 & keys & bj & w & key & rv1 & fids & rv2 & mw & wraps & q & Ht & Hr & _ & _ & Hl & _ & Hu & Hb & _ & Ho);
    [by apply map_Forall_singleton|exact secrets_demo|exact demo_eph_scalar|intros _; exact demo_eph_scalar|exact Ei|].
  injection Ht as <- <- <-. pose proof gus_verified as Hg. rewrite Hr in Hg.
  apply andb_true_iff in Hg as [Hec%bool_decide_eq_true Hpq%bool_decide_eq_true].
  assert (Hk : keys = HybridTheorems.bundle demo_sk seed_d seed_z).
  { destruct keys as [ec pq]. cbn [rk_ec rk_pq] in Hec, Hpq. by subst. }
  destruct (Ho Hk tt I) as [Hm Hw]. exists rv', q, key, wraps, mw.
  split; [by eexists|]. split; [exact Hl|]. split; [exact Hu|]. split; [exact Hb|]. split; [exact Hm|].
  eapply Forall_impl; [exact Hw|]. intros idw (dek & Hd & _). by exists dek.
Defined.

(** The folder is moved by one request. *)
Lemma one_write_last_witness :
  exists rv' reads writes,
    run_command "1" ResolveToy.me mira_kem "" show_opt anchored 2 1
      (FolderMove None (Some "0"%string) None (Some "1"%string)) start = Some (Ok tt, rv') /\
    w_sent (rv_world rv') = reads ++ writes /\
    Forall (fun q => hr_method q = "GET"%string) reads /\ (length writes <= 4)%nat /\ writes <> [].
Proof.
  destruct (run_command "1" ResolveToy.me mira_kem "" show_opt anchored 2 1
    (FolderMove None (Some "0"%string) None (Some "1"%string)) start) as [[r rv']|] eqn:Er.
  - destruct (one_write_last "1" ResolveToy.me mira_kem "" show_opt anchored anchored_via_http 2 1 _ _ _ _ Er)
      as (reads & writes & m & u & b & Hs & Hf & Hn & _ & _ & Hok).
    assert (r = Ok tt) as -> by (vm_compute in Er; by injection Er as <- _).
    exists rv', reads, writes. split; [done|]. split; [exact Hs|]. split; [exact Hf|]. split; [exact Hn|].
    by apply Hok.
  - exfalso. vm_compute in Er. discriminate Er.
Defined.

Lemma queries_never_write_witness :
  exists rv' reads, run_query "1" ResolveToy.me mira_kem "" show_opt anchored 1 ShareList start = Some (Ok tt, rv') /\
    w_sent (rv_world rv') = reads /\ Forall (fun req => hr_method req = "GET"%string) reads.
Proof.
  destruct (run_query "1" ResolveToy.me mira_kem "" show_opt anchored 1 ShareList start) as [[r rv']|] eqn:Er.
  - destruct (queries_never_write "1" ResolveToy.me mira_kem "" show_opt anchored anchored_via_http 1 _ _ _ _ Er)
      as (reads & Hs & Hf).
    assert (r = Ok tt) as -> by (vm_compute in Er; by injection Er as <- _).
    exists rv', reads. split; [done|]. split; [exact Hs|exact Hf].
  - exfalso. vm_compute in Er. discriminate Er.
Defined.

(** A share that reads, and one whose key cannot be had. *)
Definition two_shares : list value :=
  [VObject [("folder_id", VString "0"); ("encrypted_name", ResolveToy.name_value false "Docs");
            ("permission", VString "read_only")];
   VObject [("folder_id", VString "1"); ("encrypted_name", VNull)]]%string.

Lemma share_rows_degrade_witness :
  exists entries, (share_entries "1" ResolveToy.me mira_kem "" two_shares start).1 = Ok entries /\
    map se_folder_id entries = [false; true] /\ map se_name entries = [Some "Docs"%string; None].
Proof.
  destruct (share_rows_degrade "1" ResolveToy.me mira_kem "" two_shares start) as (entries & He & _ & _).
  { repeat constructor; by eexists. }
  assert (Hc : match (share_entries "1" ResolveToy.me mira_kem "" two_shares start).1 with
               | Ok es => (map se_folder_id es, map se_name es) | Err _ => ([], []) end
               = ([false; true], [Some "Docs"%string; None])) by (vm_compute; reflexivity).
  rewrite He in Hc. injection Hc as H1 H2. by exists entries.
Defined.

End SharingToy.
