(* ===== verification/KeyCommands.v ===== *)
(** * Which key a command acts with, and the key commands
      ([cli/src/commands.rs], [cli/src/config.rs])

    The identity resolver, and the commands that make, show, delete and use a key.
    The environment, the configuration file, the input read and the lines typed at a
    prompt are arguments; what a command writes is its result. *)

From S2P Require Import Prelude Prims CryptoCore Text Ecdsa Envelope Wrap CliError Keystore Token SignedBytes Hybrid GrantStatus Transfer Http.
Import Wrap.

(** ** Configuration *)

Record Config := mk_Config {
  server_base_url : string;
  default_signing_key : option string;
  default_kem_key : option string;
}.

Definition DEFAULT_SERVER_URL : string := "https://drive.mysignet.ca".

(** [Config::default]; the three formats play no part here. *)
Definition config_default_values : Config := mk_Config DEFAULT_SERVER_URL None None.

(** A variable that is set and not empty. *)
Definition set_to (v : option string) : option string :=
  match v with Some EmptyString => None | _ => v end.

Definition apply_env_overrides (env : string -> option string) (c : Config) : Config :=
  mk_Config (default (server_base_url c) (set_to (env "SIGNET_SERVER_URL")))
    (match set_to (env "SIGNET_DEFAULT_SIGNING_KEY") with Some v => Some v | None => default_signing_key c end)
    (match set_to (env "SIGNET_DEFAULT_KEM_KEY") with Some v => Some v | None => default_kem_key c end).

(** [file] is the configuration file if there is one, with what reading and parsing
    it gave. *)
Definition config_load (env : string -> option string) (file : option (cliresult Config)) : cliresult Config :=
  let*? c := default (Ok config_default_values) file in Ok (apply_env_overrides env c).

(** [PathBuf::join] of a relative component. *)
Definition path_join (base component : string) : string :=
  if decide (base = EmptyString) then component
  else if ends_with base "/" then base +:+ component
  else base +:+ "/" +:+ component.

Definition config_dir (env : string -> option string) : string :=
  match set_to (env "XDG_CONFIG_HOME") with
  | Some xdg => path_join xdg "signet"
  | None => path_join (path_join (default "." (env "HOME")) ".config") "signet"
  end.

(** A variable names the place, or it is below [config_dir]. *)
Definition place (env : string -> option string) (var below : string) : string :=
  match set_to (env var) with Some path => path | None => path_join (config_dir env) below end.

Definition config_file_path (env : string -> option string) : string := place env "SIGNET_CONFIG" "config.toml".
Definition keys_dir (env : string -> option string) : string := place env "SIGNET_KEYS_DIR" "keys".
Definition host_signer_dir (env : string -> option string) : string := place env "SIGNET_HOST_SIGNER_DIR" "host-signer".
Definition host_signer_registry_path (env : string -> option string) : string :=
  path_join (host_signer_dir env) "registry.toml".
Definition broker_dir (env : string -> option string) : string := place env "SIGNET_BROKER_DIR" "broker".
Definition broker_credential_path (env : string -> option string) : string :=
  path_join (broker_dir env) "credential.json".

(** ** The identity resolver *)

Definition purpose_from_flags (signing kem signing_pq kem_pq : bool) : cliresult Purpose :=
  match signing, kem, signing_pq, kem_pq with
  | true, false, false, false => Ok Signing
  | false, true, false, false => Ok Kem
  | false, false, true, false => Ok SigningPq
  | false, false, false, true => Ok KemPq
  | false, false, false, false =>
      Err (invalid_args "specify one of --signing, --kem, --signing-pq, or --kem-pq")
  | _, _, _, _ =>
      Err (invalid_args "--signing, --kem, --signing-pq, and --kem-pq are mutually exclusive")
  end.

Definition validate_alg (p : Purpose) (alg : string) : cliresult unit :=
  guard bool_decide (alg = default_alg p) else
    invalid_args ("algorithm '" +:+ alg +:+ "' is not valid for a " +:+ purpose_str p
      +:+ " key in v1 (expected '" +:+ default_alg p +:+ "')") ;;
  Ok tt.

(** [SIGNET_HANDLE], trimmed; empty is unset. *)
Definition asserted_handle (env : string -> option string) : option string :=
  set_to (trim <$> env "SIGNET_HANDLE").

Definition config_default (p : Purpose) (c : Config) : option string :=
  match p with
  | Signing => default_signing_key c
  | Kem => default_kem_key c
  | SigningPq | KemPq => None
  end.

Definition chosen_label (asserted label_arg : option string) (p : Purpose) (c : Config) : cliresult KeyLabel :=
  match label_arg, asserted with
  | Some s, _ => parse s (Some p)
  | None, Some h => from_handle h p
  | None, None =>
      match config_default p c with
      | Some cfg_label => parse cfg_label (Some p)
      | None =>
          Err (invalid_args ("no identity to act as: set SIGNET_HANDLE (the handle your harness injects), pass --key <handle>-"
            +:+ purpose_str p +:+ ", or configure default_" +:+ purpose_str p
            +:+ "_key; `signet` never guesses which PRSN you are."))
      end
  end.

Definition resolve_label_for (asserted label_arg : option string) (p : Purpose) (c : Config) : cliresult KeyLabel :=
  let*? label := chosen_label asserted label_arg p c in
  guard match asserted with Some h => bool_decide (handle label = h) | None => true end else
    identity_mismatch ("launch-binding mismatch: the harness asserts SIGNET_HANDLE='" +:+ default EmptyString asserted
      +:+ "', but this key resolves to PRSN '" +:+ handle label
      +:+ "'. Refusing to act as a different identity than the one asserted at launch; reconcile --key / default_"
      +:+ purpose_str p +:+ "_key with SIGNET_HANDLE.") ;;
  Ok label.

Definition resolve_label (env : string -> option string) (label_arg : option string) (p : Purpose) (c : Config) :=
  resolve_label_for (asserted_handle env) label_arg p c.

(** ** Input and output *)

Definition SIGN_INPUT_MAX : Z := 1048576.

Section Code.
Context `{HX : Hex, HB : Base64Url, HP : P256, !Ecdsa256}.

Definition decode_sign_input (raw : bytes) (input_format : string) : cliresult bytes :=
  if decide (input_format = "bytes") then Ok raw
  else if decide (input_format = "hex") then
    ok_or (invalid_args "--input-format hex: invalid hex") (hex_decode (trim (from_utf8_lossy raw)))
  else if decide (input_format = "base64url") then
    ok_or (invalid_args "--input-format base64url: invalid base64url") (b64_decode (trim (from_utf8_lossy raw)))
  else Err (invalid_args ("unknown --input-format '" +:+ input_format +:+ "' (bytes|hex|base64url)")).

Definition to_der (sig : bytes) : cliresult bytes :=
  let*? raw := to_array 64 (invalid_data "signature is not a 64-byte raw r‖s") sig in
  lift_crypto (sig_raw_to_der raw).

Definition encode_signature (sig : bytes) (output_format : string) : cliresult bytes :=
  if decide (output_format = "raw") then Ok sig
  else if decide (output_format = "der") then to_der sig
  else if decide (output_format = "base64url-raw") then Ok (str_bytes (b64_encode sig))
  else if decide (output_format = "base64url-der") then
    let*? der := to_der sig in Ok (str_bytes (b64_encode der))
  else Err (invalid_args ("unknown --output-format '" +:+ output_format +:+ "' (raw|der|base64url-raw|base64url-der)")).

(** ** The commands *)

(** What is written to standard output. *)
Inductive Output := OutBytes (b : bytes) | OutText (s : string) | OutJson (v : value).

Definition emit_bytes (b : bytes) (base64url : bool) : Output :=
  if base64url then OutText (b64_encode b) else OutBytes b.

(** *** Utilities *)

(** [drawn] is what the generator gave. *)
Definition rand (format : string) (n : Z) (drawn : bytes) : cliresult Output :=
  guard bool_decide (n <= 1048576) else invalid_args "rand max is 1 MiB (1048576 bytes)" ;;
  if decide (format = "hex") then Ok (OutText (hex_encode drawn))
  else if decide (format = "base64url") then Ok (OutText (b64_encode drawn))
  else if decide (format = "bytes") then Ok (OutBytes drawn)
  else Err (invalid_args ("unknown rand format '" +:+ format +:+ "'")).

Definition base64url_encode (input : cliresult bytes) : cliresult Output :=
  let*? b := input in Ok (OutText (b64_encode b)).

Definition base64url_decode (input : cliresult bytes) : cliresult Output :=
  let*? raw := input in
  let*! decoded := b64_decode (trim (from_utf8_lossy raw)) else invalid_data "invalid base64url-no-pad input" in
  Ok (OutBytes decoded).

(** *** Keys *)

Context {St : Type} `{HK : Keystore St}.

Definition keygen (st : St) (label : string) (p : Purpose) (algorithm : option string) : cliresult KeyMeta * St :=
  match parse label (Some p) with
  | Err e => (Err e, st)
  | Ok label =>
      let alg := default (default_alg p) algorithm in
      match validate_alg p alg with
      | Err e => (Err e, st)
      | Ok _ => ks_generate st label alg
      end
  end.

(** The fingerprint command; [label] is the label that was resolved. *)
Definition fingerprint_command (st : St) (label : cliresult KeyLabel) (json : bool) : cliresult Output * St :=
  match label with
  | Err e => (Err e, st)
  | Ok label =>
      ks? m := ks_meta st label on st in
      (Ok (if json then OutJson (VObject [("label", VString (km_label m)); ("purpose", VString (km_purpose m));
                                          ("algorithm", VString (km_algorithm m));
                                          ("fingerprint", VString (km_fingerprint m))]%string)
           else OutText (km_fingerprint m)), st)
  end.

(** [spki_pem] is the PEM writer of the p256 crate. *)
Definition pubkey (spki_pem : bytes -> cresult string) (st : St) (label : cliresult KeyLabel) (p : Purpose)
    (format : string) (base64url : bool) : cliresult Output * St :=
  match label with
  | Err e => (Err e, st)
  | Ok label =>
      ks? m := ks_meta st label on st in
      let pk := km_public_key m in
      (match p with
       | SigningPq | KemPq =>
           if decide (format = "raw") then Ok (emit_bytes pk base64url)
           else if decide (format = "x963") then Ok (emit_bytes pk base64url)
           else Err (invalid_args ("--format '" +:+ format +:+ "' is not defined for a PQ key (use raw)"))
       | Signing | Kem =>
           if decide (format = "x963") then Ok (emit_bytes pk base64url)
           else if decide (format = "raw") then Ok (emit_bytes pk base64url)
           else if decide (format = "der") then
             let*? der := lift_crypto (spki_der pk) in Ok (emit_bytes der base64url)
           else if decide (format = "pem") then
             let*? pem := lift_crypto (spki_pem pk) in Ok (OutText pem)
           else if decide (format = "jwk") then
             let*? v := lift_crypto (jwk pk) in Ok (OutJson v)
           else Err (invalid_args ("unknown --format '" +:+ format +:+ "' (expected x963|der|pem|jwk)"))
       end, st)
  end.

(** *** Listing *)

(** The fingerprint in the table; [None] where slicing it would panic, off the
    boundary of a character. *)
Definition short_fingerprint (fp : string) : option string :=
  let b := str_bytes fp in
  if decide (16 < length b)%nat then
    if default false ((fun c => byte_in c 128 191) <$> b !! 16%nat) then None
    else Some (String.string_of_list_byte (take 16 b) +:+ "…")
  else Some fp.

(** Label, purpose, algorithm, storage, fingerprint. *)
Definition keys_row (k : KeyMeta) : option (string * string * string * string * string) :=
  fp ← short_fingerprint (km_fingerprint k);
  Some (km_label k, km_purpose k, km_algorithm k, km_storage k, fp).

(** The keys, and the rows of their table. *)
Definition keys_list (st : St) : cliresult (list KeyMeta * list (option (string * string * string * string * string))) * St :=
  ks? keys := ks_list st on st in (Ok (keys, map keys_row keys), st).

(** *** Deleting *)

(** The answer to a prompt; [line] is what was read. *)
Definition confirm_prompt (line : option string) : cliresult bool :=
  let*! line := line else input_read "reading confirmation" in
  let answer := to_ascii_lowercase (trim line) in
  Ok (bool_decide (answer = "y"%string) || bool_decide (answer = "yes"%string)).

Definition all_purposes : list Purpose := [Signing; Kem; SigningPq; KemPq].

(** The keys of a handle that exist. *)
Fixpoint existing (h : string) (ps : list Purpose) (st : St) : cliresult (list KeyLabel) * St :=
  match ps with
  | [] => (Ok [], st)
  | p :: ps =>
      match from_handle h p with
      | Err e => (Err e, st)
      | Ok label =>
          ks? here := ks_exists st label on st in
          ks? rest := existing h ps st on st in
          (Ok (if here then label :: rest else rest), st)
      end
  end.

Definition delete_labels (h : string) (p : option Purpose) (st : St) : cliresult (list KeyLabel) * St :=
  match p with
  | Some p => (map_ok (fun l => [l]) (from_handle h p), st)
  | None =>
      ks? found := existing h all_purposes st on st in
      match found with
      | [] => (Err (key_not_found ("no keys for handle '" +:+ h +:+ "'")), st)
      | _ => (Ok found, st)
      end
  end.

(** The loop over the targets; [lines l] is what is typed at the prompt for [l]. *)
Fixpoint delete_each (lines : KeyLabel -> option string) (named force : bool) (targets : list KeyLabel) (st : St)
    : cliresult unit * St :=
  match targets with
  | [] => (Ok tt, st)
  | label :: targets =>
      ks? here := ks_exists st label on st in
      if negb here then
        if named then
          (Err (key_not_found ("no key '" +:+ full label +:+ "'. 'signet keys list' shows what this keystore holds")), st)
        else delete_each lines named force targets st
      else
        match (if force then Ok true else confirm_prompt (lines label)) with
        | Err e => (Err e, st)
        | Ok false => (Err (cli_new 1 "declined" "deletion declined"), st)
        | Ok true =>
            ks? u := ks_delete st label on st in
            delete_each lines named force targets st
        end
  end.

Definition keys_delete (lines : KeyLabel -> option string) (h : string) (p : option Purpose)
    (force confirm_delete_both : bool) (st : St) : cliresult unit * St :=
  ks? targets := delete_labels h p st on st in
  let deleting_both := bool_decide (p = None) && bool_decide (1 < length targets)%nat in
  if deleting_both && force && negb confirm_delete_both then
    (Err (invalid_args "deleting multiple keys for a handle requires --confirm-delete-both with --force"), st)
  else delete_each lines (bool_decide (is_Some p)) force targets st.

(** *** Signing *)

(** [raw] is the input that was read. *)
Definition sign (st : St) (label : cliresult KeyLabel) (raw : cliresult bytes)
    (input_format output_format : string) (dual : bool) : cliresult bytes * St :=
  match (let*? label := label in
         let*? raw := raw in
         let*? message := decode_sign_input raw input_format in
         guard bool_decide (Z.of_nat (length message) <= SIGN_INPUT_MAX) else
           invalid_args "input exceeds the 1 MB sign limit" ;;
         Ok (label, message)) with
  | Err e => (Err e, st)
  | Ok (label, message) =>
      if negb dual then
        ks? sig := ks_sign st label message on st in (encode_signature sig output_format, st)
      else if bool_decide (output_format = "der"%string) || bool_decide (output_format = "base64url-der"%string) then
        (Err (invalid_args "--dual emits the fixed-width raw dual; DER is a classical-signature wire form (use raw or base64url-raw)"), st)
      else
        match from_handle (handle label) SigningPq with
        | Err e => (Err e, st)
        | Ok pq_label =>
            ks? here := ks_exists st pq_label on st in
            if negb here then
              (Err (key_not_found ("no signing-pq key for handle '" +:+ handle label
                 +:+ "': --dual needs the four-key hybrid identity (enroll through the four-key ceremony, or drop --dual to sign classically)")), st)
            else
              ks? sig_es := ks_sign st label message on st in
              ks? sig_pq := ks_ml_dsa_sign st pq_label message REQUEST_MLDSA_CTX on st in
              if negb (bool_decide (length sig_pq = ML_DSA_87_SIG_LEN)) then
                (Err (generic ("keystore returned a " +:+ pretty (length sig_pq)
                   +:+ "-byte ML-DSA-87 signature (expected 4627)")), st)
              else (encode_signature (sig_es ++ sig_pq) output_format, st)
        end
  end.

End Code.

(** ** Names *)

Section Names.
Context `{HS : Sha256, HX : Hex, HB : Base64Url, HG : AesGcm, HHk : Hkdf, HKw : AesKw, HJ : JsonText}.
Context `{HP : P256, !Ecdsa256, HQ : PqSoftware, !MlKemEncaps, HU : UuidLib}.
Context {St : Type} `{HK : Keystore St}.

(** [wrap] is the envelope that was read. *)
Definition unwrap_metadata_key_from (st : St) (wrap : cliresult value) (root : bytes) (label : cliresult KeyLabel)
    : cliresult bytes * St :=
  match (let*? label := label in let*? v := wrap in Ok (label, v)) with
  | Err e => (Err e, st)
  | Ok (label, v) => unwrap_metadata_key_envelope st v root label
  end.

Definition encrypt_name_command (st : St) (iv : bytes) (wrap : cliresult value) (root_folder_id target_id name : string)
    (label : cliresult KeyLabel) : cliresult value * St :=
  match (guard bool_decide (length (str_bytes name) <= 255)%nat else name_too_long "name exceeds 255 bytes" ;;
         let*? root := parse_uuid16 root_folder_id in
         let*? target := parse_uuid16 target_id in
         Ok (root, target)) with
  | Err e => (Err e, st)
  | Ok (root, target) =>
      ks? key := unwrap_metadata_key_from st wrap root label on st in
      (let*? env := map_err (fun _ => encryption_failed "name encryption failed")
                      (Wrap.encrypt_name iv key root target name) in
       Ok (name_to_value env), st)
  end.

(** [envelope] is the name envelope that was read. *)
Definition decrypt_name_command (st : St) (wrap : cliresult value) (root_folder_id target_id : string)
    (label : cliresult KeyLabel) (envelope : cliresult value) : cliresult string * St :=
  match (let*? root := parse_uuid16 root_folder_id in
         let*? target := parse_uuid16 target_id in
         Ok (root, target)) with
  | Err e => (Err e, st)
  | Ok (root, target) =>
      ks? key := unwrap_metadata_key_from st wrap root label on st in
      (let*? v := envelope in
       let*! env := name_from_value v else invalid_data "invalid name envelope" in
       lift_crypto (Wrap.decrypt_name key root target env), st)
  end.

End Names.
