(* ===== verification/KeyTheorems.v ===== *)
(** * What the key commands guarantee

    A command acts with the key it was told to and as no one but the asserted
    identity; deleting reaches no other handle's keys and asks first; the dual
    signature a script gets is the one the requests carry. *)

From S2P Require Import Prelude Prims CryptoCore Text Ecdsa Envelope Wrap WrapTheorems CliError Keystore SoftKeystore Token SignedBytes Hybrid HybridTheorems GrantStatus Transfer Http HttpTheorems Resolve ResolveTheorems KeyCommands.
Import Wrap.

(** A command acts with a key that was named, and never as someone else.  The
    resolver returns a label exactly when it is well formed, has the purpose the
    command needs, belongs to the asserted identity if one is asserted, and is the one
    on the command line, or without one the asserted identity's, or with neither the
    configured one; with none of the three nothing is returned, and with an asserted
    identity the configuration plays no part. *)
Theorem label_resolution_iff asserted label_arg p c l :
  resolve_label_for asserted label_arg p c = Ok l <->
  label_ok l /\ purpose l = p /\ (forall h, asserted = Some h -> handle l = h) /\
  match label_arg, asserted with
  | Some s, _ => s = full l
  | None, Some _ => True
  | None, None => config_default p c = Some (full l)
  end.
Proof.
  unfold resolve_label_for. split.
  - destruct (chosen_label asserted label_arg p c) as [l'|] eqn:Ec; [|done].
    destruct (match asserted with Some _ => _ | None => _ end) eqn:Ea; [|done]. intros [= ->].
    unfold chosen_label in Ec. destruct label_arg as [s|]; [|destruct asserted as [h|]; [|destruct (config_default p c) as [s|]; [|done]]].
    + apply parse_Ok in Ec as (-> & Hl & Hp). split_and!; [done|by apply Hp| |done].
      intros h ->. by apply bool_decide_eq_true in Ea.
    + apply from_handle_Ok in Ec as [-> Hl]. split_and!; [done..| |done]. by intros h' [= <-].
    + apply parse_Ok in Ec as (-> & Hl & Hp). split_and!; [done|by apply Hp|done|done].
  - intros (Hl & <- & Ha & Hs).
    assert (chosen_label asserted label_arg (purpose l) c = Ok l) as ->.
    { unfold chosen_label. destruct label_arg as [s|]; [|destruct asserted as [h|]].
      - apply parse_Ok. split_and!; [done..|]. by intros ? [= <-].
      - apply from_handle_Ok. split; [|done]. rewrite <- (Ha h) by done. by destruct l.
      - rewrite Hs. apply parse_Ok. split_and!; [done..|]. by intros ? [= <-]. }
    destruct asserted as [h|]; [|done]. by rewrite bool_decide_true by by apply Ha.
Qed.

#[export] Instance path_join_inj base : Inj (=) (=) (path_join base).
Proof.
  intros a b. unfold path_join. case_decide; [done|].
  destruct (ends_with base "/"); intros Hx; [|apply (inj (String.append base)) in Hx]; by apply (inj (String.append _)) in Hx.
Qed.

(** The places of the three kinds of secrets are apart when the environment names none
    of them. *)
Theorem default_places_apart env :
  set_to (env "SIGNET_KEYS_DIR") = None -> set_to (env "SIGNET_HOST_SIGNER_DIR") = None ->
  set_to (env "SIGNET_BROKER_DIR") = None ->
  NoDup [keys_dir env; host_signer_dir env; broker_dir env].
Proof.
  intros Hk Hh Hb. unfold keys_dir, host_signer_dir, broker_dir, place. rewrite Hk, Hh, Hb.
  apply (NoDup_fmap_2 (path_join (config_dir env)) ["keys"; "host-signer"; "broker"]%string).
  apply (bool_decide_unpack _). by vm_compute.
Qed.

(** ** Deleting *)

Definition confirmed (line : option string) : bool :=
  match confirm_prompt line with Ok b => b | Err _ => false end.

Section Delete.
Context {St : Type} `{HK : Keystore St, HL : !KeystoreLocal St}.

Lemma exists_keeps st l l' : key_at (ks_exists st l).2 l' = key_at st l'.
Proof. exact (key_at_readonly st l l' KExists eq_refl). Qed.

Lemma delete_keeps st l l' : l <> l' -> key_at (ks_delete st l).2 l' = key_at st l'.
Proof. exact (key_at_other st l l' KDelete). Qed.

Lemma existing_spec h ps st r st' :
  existing h ps st = (r, st') ->
  (forall l, key_at st' l = key_at st l) /\ forall ls, r = Ok ls -> Forall (fun l => handle l = h) ls.
Proof.
  revert st r st'. induction ps as [|p ps IH]; intros st r st'; cbn [existing].
  { intros [= <- <-]. split; [done|]. by intros ls [= <-]. }
  destruct (from_handle h p) as [l|e] eqn:Ef; [|by intros [= <- <-]].
  apply from_handle_Ok in Ef as [-> _]. pose proof (exists_keeps st (mk_KeyLabel h p)) as He.
  destruct (ks_exists st _) as [[here|e] st1]; [|by intros [= <- <-]].
  destruct (existing h ps st1) as [[rest|e] st2] eqn:Er; destruct (IH _ _ _ Er) as [Hk Hf]; intros [= <- <-];
    (split; [intros l; by rewrite Hk, He|]); [|done].
  intros ls [= <-]. specialize (Hf _ eq_refl). by destruct here; [constructor|].
Qed.

Lemma delete_labels_spec h p st r st' :
  delete_labels h p st = (r, st') ->
  (forall l, key_at st' l = key_at st l) /\
  forall ls, r = Ok ls -> Forall (fun l => handle l = h /\ forall p', p = Some p' -> purpose l = p') ls.
Proof.
  unfold delete_labels. destruct p as [p|].
  - intros [= <- <-]. split; [done|]. intros ls. destruct (from_handle h p) as [l|] eqn:Ef; [|done].
    apply from_handle_Ok in Ef as [-> _]. intros [= <-]. repeat constructor. by intros ? [= <-].
  - destruct (existing h all_purposes st) as [[found|e] st1] eqn:Ee; apply existing_spec in Ee as [Hk Hf];
      [|by intros [= <- <-]].
    specialize (Hf _ eq_refl). destruct found as [|l found]; intros [= <- <-]; (split; [done|]); [done|].
    intros ls [= <-]. eapply Forall_impl; [exact Hf|]. by intros l' ?.
Qed.

Lemma delete_each_spec lines named force targets st r st' l :
  delete_each lines named force targets st = (r, st') ->
  key_at st' l <> key_at st l -> l ∈ targets /\ (force = true \/ confirmed (lines l) = true).
Proof.
  revert st. induction targets as [|t targets IH]; intros st; cbn [delete_each].
  { by intros [= <- <-] ?. }
  pose proof (exists_keeps st t l) as He. destruct (ks_exists st t) as [[here|e] st1]; cbn in He.
  2:{ intros [= <- <-]. by rewrite He. }
  destruct here; cbn [negb].
  2:{ destruct named; [intros [= <- <-]; by rewrite He|]. rewrite <- He. intros Hx Hn.
      destruct (IH _ Hx Hn). split; [by right|done]. }
  destruct (if force then _ else _) as [b|e] eqn:Ea; [|intros [= <- <-]; by rewrite He].
  destruct b; [|intros [= <- <-]; by rewrite He].
  assert (Hok : force = true \/ confirmed (lines t) = true).
  { destruct force; [by left|right]. unfold confirmed. by rewrite Ea. }
  destruct (decide (l = t)) as [->|Hne]; [intros _ _; split; [by left|done]|].
  pose proof (delete_keeps st1 t l (not_eq_sym Hne)) as Hd.
  destruct (ks_delete st1 t) as [[u|e] st2]; cbn in Hd.
  - rewrite <- He, <- Hd. intros Hx Hn. destruct (IH _ Hx Hn). split; [by right|done].
  - intros [= <- <-]. by rewrite Hd, He.
Qed.

(** Deleting keys stays with one identity and asks first.  Against any keystore
    that keeps its labels apart: a key that [keys delete] removes or changes has the
    handle that was given, and the purpose if one was given; without [--force] its
    prompt was answered with yes; and with [--force] alone a sweep over all purposes
    never takes more than one key. *)
Theorem delete_confined lines h p force both st r st' :
  keys_delete lines h p force both st = (r, st') ->
  (forall l, key_at st' l <> key_at st l ->
     handle l = h /\ (forall p', p = Some p' -> purpose l = p') /\ (force = true \/ confirmed (lines l) = true)) /\
  (p = None -> force = true -> both = false ->
     forall l l', key_at st' l <> key_at st l -> key_at st' l' <> key_at st l' -> l = l').
Proof.
  unfold keys_delete. destruct (delete_labels h p st) as [[targets|e] st1] eqn:Ed;
    apply delete_labels_spec in Ed as [Hk Hf].
  2:{ intros [= <- <-]. split; [intros l Hn|intros _ _ _ l l' Hn]; by rewrite Hk in Hn. }
  specialize (Hf _ eq_refl). destruct (_ && force && negb both) eqn:Eb.
  { intros [= <- <-]. split; [intros l Hn|intros _ _ _ l l' Hn]; by rewrite Hk in Hn. }
  intros Hx. split.
  - intros l Hn. rewrite <- (Hk l) in Hn. destruct (delete_each_spec _ _ _ _ _ _ _ _ Hx Hn) as [Hin Ha].
    rewrite Forall_forall in Hf. by destruct (Hf _ Hin).
  - intros -> -> -> l l' Hn Hn'. rewrite <- (Hk l) in Hn. rewrite <- (Hk l') in Hn'.
    destruct (delete_each_spec _ _ _ _ _ _ _ _ Hx Hn) as [Hin _].
    destruct (delete_each_spec _ _ _ _ _ _ _ _ Hx Hn') as [Hin' _].
    destruct targets as [|t [|t' ts]]; [by apply not_elem_of_nil in Hin| |].
    + apply list_elem_of_singleton in Hin, Hin'. congruence.
    + rewrite !bool_decide_true in Eb by (done || cbn; lia). done.
Qed.

End Delete.

(** Every fingerprint in the alphabet of base64url or hex has its row. *)
Theorem short_fingerprint_total fp :
  forallb (fun b => byte_in b 0 127) (str_bytes fp) = true -> is_Some (short_fingerprint fp).
Proof.
  intros Hf. unfold short_fingerprint. cbv zeta. case_decide; [|by eexists].
  destruct (str_bytes fp !! 16%nat) as [c|] eqn:Ec; [|by eexists]. cbn.
  rewrite forallb_forall in Hf. specialize (Hf c). rewrite <- list_elem_of_In in Hf.
  specialize (Hf (list_elem_of_lookup_2 _ _ _ Ec)). unfold byte_in in *.
  destruct (128 <=? byte_to_Z c) eqn:E; [|by eexists].
  apply andb_true_iff in Hf as [_ Hf]. apply Z.leb_le in Hf, E. lia.
Qed.

(** ** Signing *)

Section Sign.
Context `{HX : Hex, HB : Base64Url, HP : P256, !Ecdsa256}.
Context {St E : Type} `{HK : Keystore St, HE : HttpEnv E}.

(** The dual signature a script gets is the one a request carries.  When the
    identity has its post-quantum key, [sign --dual] with raw output is the composition
    of the wire path on the same message: the same answer, errors included, and the
    same keystore after it. *)
Theorem dual_sign_is_wire label raw fmt message pq (w : World St E) :
  decode_sign_input raw fmt = Ok message -> Z.of_nat (length message) <= SIGN_INPUT_MAX ->
  from_handle (handle label) SigningPq = Ok pq -> (ks_exists (w_ks w) pq).1 = Ok true ->
  sign (w_ks w) (Ok label) (Ok raw) fmt "raw" true
  = ((request_signature label message w).1, w_ks (request_signature label message w).2).
Proof.
  intros Hd Hl Hf He. unfold sign, request_signature. rewrite Hd, bool_decide_true, Hf by done.
  cbn [negb]. rewrite !bool_decide_false by done. cbn [orb].
  unfold on_ks. destruct (ks_exists (w_ks w) pq) as [b st1]. cbn [fst] in He. subst b. cbn [negb w_ks].
  destruct (ks_sign st1 label message) as [[es|e] st2]; [|done]. cbn [w_ks].
  destruct (ks_ml_dsa_sign st2 pq message REQUEST_MLDSA_CTX) as [[s|e] st3]; [|done].
  by case_bool_decide.
Qed.

(** Without that key it refuses, and signs nothing. *)
Theorem dual_never_falls_back label raw fmt out pq st st1 :
  from_handle (handle label) SigningPq = Ok pq -> ks_exists st pq = (Ok false, st1) ->
  exists e, (sign st (Ok label) (Ok raw) fmt out true).1 = Err e /\
            ((sign st (Ok label) (Ok raw) fmt out true).2 = st \/ (sign st (Ok label) (Ok raw) fmt out true).2 = st1).
Proof.
  intros Hf He. unfold sign. destruct (decode_sign_input raw fmt) as [m|]; [|by eexists; split; [done|left]].
  case_bool_decide; [|by eexists; split; [done|left]]. cbn [negb].
  destruct (_ || _); [by eexists; split; [done|left]|]. rewrite Hf, He. by eexists; split; [done|right].
Qed.

(** Bytes below 128 are text as they are. *)
Lemma lossy_ascii l : forallb (fun b => byte_in b 0 127) l = true -> lossy l = l.
Proof.
  induction l as [|a l IH]; [done|]. cbn [forallb]. intros [Ha Hl]%andb_true_iff. cbn [lossy].
  by rewrite Ha, IH.
Qed.

End Sign.

(** ** Names *)

Lemma encrypted_version `{HB : Base64Url, HG : AesGcm} iv key root target name env :
  encrypt_name iv key root target name = Ok env -> is_u32 (s_v env).
Proof. intros He. unfold encrypt_name in He. by steps_in He. Qed.

Section Names.
Context `{HS : Sha256, HX : Hex, HB : Base64Url, HG : AesGcm, HHk : Hkdf, HKw : AesKw, HJ : JsonText}.
Context `{HP : P256, !Ecdsa256, HQ : PqSoftware, !MlKemEncaps, HU : UuidLib}.
Context {St : Type} `{HK : Keystore St}.

(** What [encrypt-name] prints, [decrypt-name] reads back with the same wrap and ids,
    once the keystore opens the wrap to the same key again. *)
Theorem name_commands_round_trip st st1 st2 iv wrap root target name label v key :
  encrypt_name_command st iv wrap root target name label = (Ok v, st1) ->
  (forall r, parse_uuid16 root = Ok r ->
     (unwrap_metadata_key_from st wrap r label).1 = Ok key /\
     (unwrap_metadata_key_from st2 wrap r label).1 = Ok key) ->
  length iv = 12%nat -> utf8_valid (str_bytes name) = true ->
  (decrypt_name_command st2 wrap root target label (Ok v)).1 = Ok name.
Proof.
  unfold encrypt_name_command, decrypt_name_command, parse_uuid16. case_bool_decide; [|done].
  destruct (uuid_parse_str root) as [r|]; [|done]. destruct (uuid_parse_str target) as [t|]; [|done].
  intros Hx Hk Hiv Hu. destruct (Hk _ eq_refl) as [Hk1 Hk2].
  destruct (unwrap_metadata_key_from st wrap _ label) as [k' st1']. cbn [fst] in Hk1. subst k'.
  destruct (unwrap_metadata_key_from st2 wrap _ label) as [k' st2']. cbn [fst] in Hk2. subst k'.
  destruct (Wrap.encrypt_name iv key (uuid_as_bytes r) (uuid_as_bytes t) name) as [env|] eqn:Ee; [|done].
  injection Hx as <- _. cbn [fst]. rewrite name_from_to by by eapply encrypted_version.
  destruct (name_round_trip_and_binding iv key (uuid_as_bytes r) (uuid_as_bytes t) name env
    (uuid_as_bytes r) (uuid_as_bytes t) name Hiv Hu (uuid_as_bytes_length _) (uuid_as_bytes_length _) Ee) as [Hd _].
  unfold lift_crypto. by rewrite Hd.
Qed.

End Names.

(** ** A concrete keystore *)

Module KeyToy.
Import Toy.

(** The labels that have a key. *)
#[export] Instance labels_only : Keystore (list KeyLabel) := {
  ks_tier := Software;
  ks_generate st l a :=
    if bool_decide (l ∈ st) then (Err (key_exists "k"), st)
    else (Ok (mk_KeyMeta (full l) "p" a "software" "fp" []), l :: st);
  ks_meta st l :=
    (if bool_decide (l ∈ st) then Ok (mk_KeyMeta (full l) "p" "a" "software" "fp" []) else Err (key_not_found "k"), st);
  ks_sign st l m := (if bool_decide (l ∈ st) then Ok m else Err (key_not_found "k"), st);
  ks_ecdh st l p := (Err (key_not_found "k"), st);
  ks_ml_kem_decapsulate st l ek := (Err (key_not_found "k"), st);
  ks_ml_dsa_sign st l m c :=
    (if bool_decide (l ∈ st) then Ok (replicate ML_DSA_87_SIG_LEN Byte.x00) else Err (key_not_found "k"), st);
  ks_list st := (Ok [], st);
  ks_delete st l := (Ok tt, List.filter (fun l' => bool_decide (l' <> l)) st);
  ks_exists st l := (Ok (bool_decide (l ∈ st)), st);
}.

Lemma bool_decide_filter (st : list KeyLabel) l l' :
  bool_decide (l' ∈ List.filter (fun x => bool_decide (x <> l)) st) = bool_decide (l' ∈ st) && bool_decide (l' <> l).
Proof.
  rewrite <- bool_decide_and. apply bool_decide_ext.
  rewrite !list_elem_of_In, filter_In, bool_decide_eq_true. done.
Qed.

#[export, refine] Instance labels_local : KeystoreLocal (list KeyLabel) := {|
  key_at st l := if bool_decide (l ∈ st) then Some [] else None;
  env_eq st st' := True;
|}.
Proof.
  - intros st l l' o Hne. destruct o; try done; cbn.
    + destruct (bool_decide (l ∈ st)); [done|]. cbn.
      erewrite bool_decide_ext; [done|]. rewrite elem_of_cons. naive_solver.
    + rewrite bool_decide_filter, (bool_decide_true (l' <> l)) by done. by rewrite andb_true_r.
  - intros st l l' o. by destruct o.
  - done.
  - intros st l a Hk. cbn. destruct (bool_decide (l ∈ st)); [|by destruct Hk]. by eexists.
  - intros st st' l o _ Hk.
    assert (Hb : bool_decide (l ∈ st) = bool_decide (l ∈ st')) by (by destruct (bool_decide (l ∈ st)), (bool_decide (l ∈ st'))).
    destruct o; cbn; rewrite ?Hb; try done.
    + destruct (bool_decide (l ∈ st')) eqn:Eb; cbn; [by rewrite ?Hb, ?Eb|].
      by rewrite !bool_decide_true by by left.
    + by rewrite !bool_decide_filter, Hb.
Defined.

Definition mira (p : Purpose) : KeyLabel := mk_KeyLabel "mira-ai" p.
Definition held : list KeyLabel := [mira Signing; mira SigningPq; mk_KeyLabel "ab-ai" Signing].

(** One of three keys is deleted, after a yes. *)
Lemma delete_confined_witness :
  let run := keys_delete (fun _ => Some "y"%string) "mira-ai" (Some Signing) false false held in
  run.1 = Ok tt /\ key_at run.2 (mira Signing) = None /\
  forall l, key_at run.2 l <> key_at held l -> handle l = "mira-ai"%string /\ purpose l = Signing.
Proof.
  intros run. destruct run as [r st'] eqn:Er. destruct (delete_confined _ _ _ _ _ _ _ _ Er) as [H1 _].
  vm_compute in Er. injection Er as <- <-. split; [done|]. split; [by vm_compute|].
  intros l Hl. destruct (H1 l Hl) as (Hh & Hp & _). split; [exact Hh|by apply Hp].
Defined.

#[export] Instance no_server : HttpEnv unit := {
  he_call e q := (UreqOk 200 None, e);
  he_now e := (None, e);
  he_fill e := (replicate 16 Byte.x00, e);
  he_fill_length _ := eq_refl;
}.
Definition world : World (list KeyLabel) unit := mk_World held tt false [] [].

Lemma dual_sign_is_wire_witness :
  sign held (Ok (mira Signing)) (Ok [Byte.x01]) "bytes" "raw" true
  = ((request_signature (mira Signing) [Byte.x01] world).1,
     w_ks (request_signature (mira Signing) [Byte.x01] world).2).
Proof.
  apply (dual_sign_is_wire (mira Signing) [Byte.x01] "bytes" [Byte.x01] (mira SigningPq) world);
    [done|done|by vm_compute|by vm_compute].
Defined.

End KeyToy.
