(* ===== verification/UploadFanout.v ===== *)
(** * The upload pipeline ([upload_parts] of [cli/src/commands.rs])

    One producer thread reads and seals parts, a bounded channel hands them over,
    and [concurrency] workers send them.  The threads are a step relation: every
    interleaving of the producer, the workers and the answers of the object store
    is a run.  The serial branch of the function is a loop of its own.  The
    theorems: every run ends and never gets stuck, a run that ends without an error
    has delivered every part of the plan exactly once, and the serial branch does
    what a run of the one-worker pipeline does. *)

From S2P Require Import Prelude Prims CryptoCore Envelope CliError Float64 Governor Transfer.

Module UploadFanout.
Import Envelope Governor Transfer.

Record PartInput := mk_PartInput { part_number : Z; etag : string }.

(** What the channel carries: a sealed part or the error that stopped the
    producer. *)
Abbreviation item := (cliresult (Z * string * bytes)).

Inductive producer :=
| POpening                      (* before [File::open] *)
| PNext (todo : list (Z * string))   (* at the head of the loop *)
| PSending (i : item) (todo : list (Z * string))  (* blocked in [tx.send] *)
| PDone.                        (* returned, the channel is closed *)

Inductive worker :=
| WRecv                         (* in [rx.lock().recv()] *)
| WGot (i : item)               (* has an item *)
| WSend (n : Z) (url : string) (envelope : bytes) (ceiling : option (option Duration)) (stamp : Z)
| WExit.

Record state := mk_state {
  prod : producer;
  chan : list item;
  workers : list worker;
  abort : bool;
  first_error : option CliError;
  parts : list PartInput;
  (** the PUTs that succeeded, with what they carried *)
  wire : list (Z * string * bytes * string);
  gov : TransferGovernor;
}.

Definition set_worker (s : state) (w : nat) (x : worker) : state :=
  mk_state (prod s) (chan s) (<[w := x]> (workers s)) (abort s) (first_error s) (parts s) (wire s) (gov s).
Definition set_prod (s : state) (p : producer) : state :=
  mk_state p (chan s) (workers s) (abort s) (first_error s) (parts s) (wire s) (gov s).
Definition set_chan (s : state) (c : list item) : state :=
  mk_state (prod s) c (workers s) (abort s) (first_error s) (parts s) (wire s) (gov s).
Definition set_gov (s : state) (g : TransferGovernor) : state :=
  mk_state (prod s) (chan s) (workers s) (abort s) (first_error s) (parts s) (wire s) g.

(** [record_error]: the first error wins, and the abort flag goes up. *)
Definition record_error (s : state) (e : CliError) : state :=
  mk_state (prod s) (chan s) (workers s) true
    (match first_error s with None => Some e | Some e0 => Some e0 end) (parts s) (wire s) (gov s).

(** The success branch of [send_one]. *)
Definition deliver (s : state) (n : Z) (url : string) (envelope : bytes) (tag : string) : state :=
  mk_state (prod s) (chan s) (workers s) (abort s) (first_error s)
    (parts s ++ [mk_PartInput n tag]) (wire s ++ [(n, url, envelope, tag)]) (gov s).

Section Code.
Context `{AesGcm, Hkdf}.
Variables (src : source) (dek file_id : bytes) (chunk_size chunk_count : Z).
Variable prepare_ahead : Z.

(** [sync_channel(prepare_ahead.saturating_sub(1))]. *)
Definition capacity : nat := Z.to_nat (prepare_ahead - 1).

Definition prepare : Z * string -> item := prepare_part src dek file_id chunk_size chunk_count.

(** The producer after a hand-over: an error item was its last. *)
Definition after_send (i : item) (todo : list (Z * string)) : producer :=
  if is_ok i then PNext todo else PDone.

Definition initial (plan : list (Z * string)) (concurrency : Z) (g : TransferGovernor) : state :=
  mk_state POpening [] (replicate (Z.to_nat (Z.max 1 concurrency)) WRecv) false None [] [] g.

Inductive step (plan : list (Z * string)) : state -> state -> Prop :=
(* the producer *)
| step_open s :
    prod s = POpening -> open_error src = None -> step plan s (set_prod s (PNext plan))
| step_open_fails s e :
    prod s = POpening -> open_error src = Some e ->
    step plan s (set_prod s (PSending (Err (input_read ("opening " +:+ in_path src +:+ ": " +:+ e))) []))
| step_plan_done s : prod s = PNext [] -> step plan s (set_prod s PDone)
| step_aborts s p todo : prod s = PNext (p :: todo) -> abort s = true -> step plan s (set_prod s PDone)
| step_prepare s p todo :
    prod s = PNext (p :: todo) -> abort s = false ->
    step plan s (set_prod s (PSending (prepare p) todo))
(* the channel: the buffer has room, or a waiting receiver takes the item *)
| step_push s i todo :
    prod s = PSending i todo -> (length (chan s) < capacity)%nat ->
    step plan s (set_chan (set_prod s (after_send i todo)) (chan s ++ [i]))
| step_handoff s i todo w :
    prod s = PSending i todo -> chan s = [] -> workers s !! w = Some WRecv ->
    step plan s (set_worker (set_prod s (after_send i todo)) w (WGot i))
| step_recv s i rest w :
    chan s = i :: rest -> workers s !! w = Some WRecv ->
    step plan s (set_worker (set_chan s rest) w (WGot i))
| step_closed s w :
    prod s = PDone -> chan s = [] -> workers s !! w = Some WRecv ->
    step plan s (set_worker s w WExit)
(* a worker with an item *)
| step_drain s w i :
    workers s !! w = Some (WGot i) -> abort s = true -> step plan s (set_worker s w WRecv)
| step_item_error s w e :
    workers s !! w = Some (WGot (Err e)) -> abort s = false ->
    step plan s (set_worker (record_error s e) w WRecv)
| step_start s w n url envelope :
    workers s !! w = Some (WGot (Ok (n, url, envelope))) -> abort s = false ->
    step plan s (set_worker s w (WSend n url envelope
      (ceiling (gov s) (Z.of_nat (length envelope))) (generation (gov s))))
(* the end of [put_presigned] *)
| step_sent s w n url envelope c stamp tag elapsed :
    workers s !! w = Some (WSend n url envelope c stamp) ->
    step plan s (set_worker (deliver (set_gov s (observe_part (gov s) (Z.of_nat (length envelope)) elapsed))
                   n url envelope tag) w WRecv)
| step_failed s w n url envelope c stamp e :
    workers s !! w = Some (WSend n url envelope c stamp) ->
    step plan s (set_worker (record_error (set_gov s (penalize_stall (gov s) stamp)) e) w WRecv).

Definition steps (plan : list (Z * string)) : state -> state -> Prop := rtc (step plan).

(** All threads have ended, so [thread::scope] returns. *)
Definition finished (s : state) : Prop := prod s = PDone /\ Forall (fun w => w = WExit) (workers s).

(** [sort_by_key(|p| p.part_number)]: a stable insertion sort. *)
Fixpoint insert_part (p : PartInput) (l : list PartInput) : list PartInput :=
  match l with
  | [] => [p]
  | q :: l => if part_number p <=? part_number q then p :: q :: l else q :: insert_part p l
  end.
Definition sort_parts (l : list PartInput) : list PartInput := foldr insert_part [] l.

(** What [upload_parts] returns after the scope. *)
Definition fanout_result (plan : list (Z * string)) (s : state) : cliresult (list PartInput) :=
  match first_error s with
  | Some e => Err e
  | None =>
      let delivered := length (parts s) in
      guard bool_decide (delivered = length plan) else
        invalid_data ("upload fan-out delivered " +:+ pretty delivered +:+ " of " +:+ pretty (length plan)
          +:+ " parts with no error recorded") ;;
      Ok (sort_parts (parts s))
  end.

(** ** Termination *)

Definition prod_weight (p : producer) (plan : list (Z * string)) : nat :=
  match p with
  | POpening => 5 * length plan + 6
  | PNext todo => 5 * length todo + 1
  | PSending i todo => 5 * length todo + 5
  | PDone => 0
  end.
Definition worker_weight (w : worker) : nat :=
  match w with WRecv => 1 | WGot _ => 3 | WSend _ _ _ _ _ => 2 | WExit => 0 end.
Definition weight (plan : list (Z * string)) (s : state) : nat :=
  prod_weight (prod s) plan + 3 * length (chan s) + sum_list_with worker_weight (workers s).

Lemma sum_list_insert (f : worker -> nat) l i x y :
  l !! i = Some x -> (sum_list_with f (<[i := y]> l) + f x = sum_list_with f l + f y)%nat.
Proof.
  revert i. induction l as [|z l IH]; intros [|i] Hi; [done|done| |].
  - injection Hi as ->. cbn. lia.
  - specialize (IH i Hi).
    change (sum_list_with f (<[S i := y]> (z :: l))) with (f z + sum_list_with f (<[i := y]> l))%nat.
    change (sum_list_with f (z :: l)) with (f z + sum_list_with f l)%nat. lia.
Qed.

Lemma step_weight plan s s' : step plan s s' -> (weight plan s' < weight plan s)%nat.
Proof.
  intros Hs. unfold weight. destruct Hs; cbn [prod chan workers set_worker set_prod set_chan set_gov record_error deliver];
    try (match goal with Hw : workers _ !! _ = Some _ |- context [<[_ := ?y]> _] =>
           pose proof (sum_list_insert worker_weight _ _ _ y Hw) as Hsum; cbn [worker_weight] in Hsum end).
  all: repeat match goal with Hp : prod _ = _ |- _ => rewrite Hp; clear Hp
                            | Hp : chan _ = _ |- _ => rewrite Hp; clear Hp end.
  all: unfold after_send; try destruct (is_ok i); cbn [prod_weight length] in *; rewrite ?length_app; cbn [length]; try lia.
Qed.

Lemma nsteps_weight plan n s s' : nsteps (step plan) n s s' -> (n + weight plan s' <= weight plan s)%nat.
Proof.
  induction 1 as [|n s1 s2 s3 Hs _ IH]; [lia|]. apply step_weight in Hs. lia.
Qed.

Lemma sum_list_replicate (f : worker -> nat) n x : sum_list_with f (replicate n x) = (n * f x)%nat.
Proof. induction n as [|n IH]; cbn; [done|rewrite IH; lia]. Qed.

Lemma weight_initial plan concurrency g :
  weight plan (initial plan concurrency g) = (5 * length plan + 6 + Z.to_nat (Z.max 1 concurrency))%nat.
Proof. unfold weight, initial. cbn [prod chan workers prod_weight length]. rewrite sum_list_replicate. cbn. lia. Qed.

(** ** No deadlock *)

(** A worker leaves only once the channel is closed and empty. *)
Definition exits_ok (s : state) : Prop :=
  workers s <> [] /\ (WExit ∈ workers s -> prod s = PDone /\ chan s = []).

Lemma insert_elem {A} (l : list A) i x y : x ∈ <[i := y]> l -> x = y \/ x ∈ l.
Proof.
  revert i. induction l as [|z l IH]; intros [|i]; cbn; rewrite ?elem_of_cons; [tauto|tauto|tauto|].
  intros [->|Hx]; [tauto|]. destruct (IH _ Hx); tauto.
Qed.

Lemma insert_nonempty {A} (l : list A) i x : l <> [] -> <[i := x]> l <> [].
Proof. destruct l, i; done. Qed.

Lemma exits_ok_step plan s s' : exits_ok s -> step plan s s' -> exits_ok s'.
Proof.
  intros [Hne Hex] Hs. split.
  - destruct Hs; cbn; try done; by apply insert_nonempty.
  - intros Hin. assert (Hcase : WExit ∈ workers s \/ (prod s = PDone /\ chan s = [] /\ prod s' = prod s /\ chan s' = chan s)).
    { destruct Hs; cbn in *; try (by left); apply insert_elem in Hin as [Hin|Hin]; try discriminate Hin; try (by left); right; done. }
    destruct Hcase as [Hw|(H1 & H2 & -> & ->)]; [|done]. destruct (Hex Hw) as [Hp Hc].
    destruct Hs; cbn; rewrite ?Hp, ?Hc; try done; congruence.
Qed.

Lemma exits_ok_initial plan concurrency g : exits_ok (initial plan concurrency g).
Proof.
  split; cbn.
  - destruct (Z.to_nat (Z.max 1 concurrency)) eqn:E; [lia|done].
  - intros Hin%elem_of_replicate_inv. discriminate.
Qed.

(** Some worker is busy, or all are waiting or gone. *)
Lemma workers_cases (l : list worker) :
  (exists w i, l !! w = Some (WGot i)) \/ (exists w n url env c stamp, l !! w = Some (WSend n url env c stamp)) \/
  (exists w, l !! w = Some WRecv) \/ Forall (fun w => w = WExit) l.
Proof.
  induction l as [|w l IH]; [by right; right; right|].
  destruct w as [|i|n url env c stamp|].
  - right; right; left. by exists 0%nat.
  - left. by exists 0%nat, i.
  - right; left. by exists 0%nat, n, url, env, c, stamp.
  - destruct IH as [(w & i & ?)|[(w & n & url & env & c & stamp & ?)|[(w & ?)|?]]].
    + left. by exists (S w), i.
    + right; left. by exists (S w), n, url, env, c, stamp.
    + right; right; left. by exists (S w).
    + right; right; right. by constructor.
Qed.

Lemma progress plan s : exits_ok s -> finished s \/ exists s', step plan s s'.
Proof.
  intros [Hne Hex]. destruct (workers_cases (workers s)) as [(w & i & Hw)|[(w & n & url & env & c & stamp & Hw)|[(w & Hw)|Hall]]].
  - right. destruct (abort s) eqn:Ha; [eexists; by eapply step_drain|].
    destruct i as [[[n url] env]|e]; eexists; [by eapply step_start|by eapply step_item_error].
  - right. eexists. by eapply (step_failed _ _ _ _ _ _ _ _ (generic EmptyString)).
  - right. destruct (chan s) as [|i rest] eqn:Hc; [|eexists; by eapply step_recv].
    destruct (prod s) as [|[|p todo]|i todo|] eqn:Hp.
    + destruct (open_error src) eqn:Ho; eexists; [by eapply step_open_fails|by eapply step_open].
    + eexists. by eapply step_plan_done.
    + destruct (abort s) eqn:Ha; eexists; [by eapply step_aborts|by eapply step_prepare].
    + eexists. by eapply step_handoff.
    + eexists. by eapply step_closed.
  - left. split; [|done]. apply Hex. destruct (workers s) as [|w l]; [done|].
    apply Forall_cons in Hall as [-> _]. apply list_elem_of_here.
Qed.

Lemma reachable_exits plan concurrency g s : steps plan (initial plan concurrency g) s -> exits_ok s.
Proof.
  intros Hr. remember (initial plan concurrency g) as s0 eqn:E.
  assert (H0' : exits_ok s0) by (subst; apply exits_ok_initial). clear E.
  induction Hr as [|s1 s2 s3 Hs _ IH]; [done|]. apply IH. by eapply exits_ok_step.
Qed.

(** C26: The upload pipeline never hangs: whatever the plan, the number of workers,
    the depth of the channel, the interleaving of the threads and the answers of
    the object store, every run has at most [5 |plan| + 6 + workers] steps; and
    every state it reaches is finished (all threads returned) or can step.  In
    particular a producer blocked in [send] always finds a receiver, also after an
    error, since workers drain the channel instead of leaving. *)
Theorem fanout_never_hangs plan concurrency g :
  (forall n s, nsteps (step plan) n (initial plan concurrency g) s ->
     (n <= 5 * length plan + 6 + Z.to_nat (Z.max 1 concurrency))%nat) /\
  (forall s, steps plan (initial plan concurrency g) s -> finished s \/ exists s', step plan s s').
Proof.
  split.
  - intros n s Hn. apply nsteps_weight in Hn. rewrite weight_initial in Hn. lia.
  - intros s Hs. eapply progress, reachable_exits, Hs.
Qed.

(** ** Nothing is lost or sent twice *)

Definition prod_items (p : producer) : list item :=
  match p with PSending i _ => [i] | _ => [] end.
Definition worker_items (w : worker) : list item :=
  match w with WGot i => [i] | WSend n url env _ _ => [Ok (n, url, env)] | _ => [] end.
(** The items between the plan and the storage. *)
Definition held (s : state) : list item :=
  prod_items (prod s) ++ chan s ++ (workers s ≫= worker_items).
Definition todo_of (p : producer) (plan : list (Z * string)) : list (Z * string) :=
  match p with POpening => plan | PNext todo | PSending _ todo => todo | PDone => [] end.
Definition stored (s : state) : list item := Ok ∘ fst <$> wire s.

(** Until an error is recorded, an error item is on its way or every entry of the
    plan is still to do, held, or stored. *)
Definition conserved (plan : list (Z * string)) (s : state) : Prop :=
  (abort s = true <-> first_error s <> None) /\
  (parts s = (fun e => mk_PartInput e.1.1.1 e.2) <$> wire s) /\
  (abort s = false ->
   (exists e, Err e ∈ held s) \/
   prepare <$> plan ≡ₚ (prepare <$> todo_of (prod s) plan) ++ held s ++ stored s).

Lemma workers_items_insert l w x y :
  l !! w = Some x -> exists rest, (l ≫= worker_items) ≡ₚ worker_items x ++ rest /\
    (<[w := y]> l ≫= worker_items) ≡ₚ worker_items y ++ rest.
Proof.
  intros Hw. exists ((take w l ≫= worker_items) ++ (drop (S w) l ≫= worker_items)).
  split.
  - rewrite <- (take_drop_middle l w x Hw) at 1. rewrite bind_app, bind_cons. solve_Permutation.
  - rewrite insert_take_drop by (by eapply lookup_lt_Some). rewrite bind_app, bind_cons. solve_Permutation.
Qed.

(** A step that moves items keeps the account, when no error item disappears. *)
Lemma account_moves plan s s' :
  ((exists e, Err e ∈ held s) -> exists e, Err e ∈ held s') ->
  ((exists e, Err e ∈ held s') \/
   (prepare <$> todo_of (prod s') plan) ++ held s' ++ stored s' ≡ₚ
   (prepare <$> todo_of (prod s) plan) ++ held s ++ stored s) ->
  (exists e, Err e ∈ held s) \/ prepare <$> plan ≡ₚ (prepare <$> todo_of (prod s) plan) ++ held s ++ stored s ->
  (exists e, Err e ∈ held s') \/ prepare <$> plan ≡ₚ (prepare <$> todo_of (prod s') plan) ++ held s' ++ stored s'.
Proof. intros Herr [Hl|Hp] [He|Hq]; [by left|by left|left; auto|right]. by rewrite Hp. Qed.

Lemma held_perm_err s s' : held s ≡ₚ held s' -> (exists e, Err e ∈ held s) -> exists e, Err e ∈ held s'.
Proof. intros Hp [e He]. exists e. by rewrite <- Hp. Qed.

(** Handing an item over, to the buffer or to a worker. *)
Lemma account_handover plan i todo s s' :
  prod s = PSending i todo -> prod s' = after_send i todo ->
  held s' ≡ₚ held s -> stored s' = stored s ->
  (exists e, Err e ∈ held s) \/ prepare <$> plan ≡ₚ (prepare <$> todo_of (prod s) plan) ++ held s ++ stored s ->
  (exists e, Err e ∈ held s') \/ prepare <$> plan ≡ₚ (prepare <$> todo_of (prod s') plan) ++ held s' ++ stored s'.
Proof.
  intros Hp Hp' Hh Hst. apply account_moves; [by apply held_perm_err|].
  destruct i as [x|e].
  - right. rewrite Hp, Hp', Hh, Hst. done.
  - left. exists e. rewrite Hh. unfold held. rewrite Hp. cbn. apply list_elem_of_here.
Qed.

(** A step that changes one worker and neither the plan nor the channel. *)
Lemma held_set_worker s s' w x y :
  workers s !! w = Some x -> workers s' = <[w := y]> (workers s) ->
  exists rest, held s ≡ₚ worker_items x ++ prod_items (prod s) ++ chan s ++ rest /\
    held s' ≡ₚ worker_items y ++ prod_items (prod s') ++ chan s' ++ rest.
Proof.
  intros Hw Hw'. destruct (workers_items_insert _ _ _ y Hw) as (rest & H1' & H2'). exists rest.
  unfold held. rewrite Hw', H1', H2'. split; solve_Permutation.
Qed.

Lemma conserved_step plan s s' : conserved plan s -> step plan s s' -> conserved plan s'.
Proof.
  intros (Hab & Hparts & Hc) Hs. destruct Hs as
    [s Hp Ho|s e Hp Ho|s Hp|s p todo Hp Ha|s p todo Hp Ha|s i todo Hp Hcap|s i todo w Hp Hch Hw|s i rest w Hch Hw
    |s w Hp Hch Hw|s w i Hw Ha|s w e Hw Ha|s w n url env Hw Ha|s w n url env c stamp tag el Hw|s w n url env c stamp e Hw];
    (split; [|split]); try done; try (cbn; congruence); cbn [abort set_worker set_prod set_chan set_gov deliver record_error];
    try (intros Ha'; discriminate Ha').
  - intros Ha. eapply account_moves, (Hc Ha); unfold held; cbn [prod chan workers set_prod]; rewrite Hp; [done|by right].
  - intros Ha. left. eexists. apply list_elem_of_here.
  - intros Ha. eapply account_moves, (Hc Ha); unfold held; cbn [prod chan workers set_prod]; rewrite Hp; [done|by right].
  - intros _. specialize (Hc Ha). unfold held, stored in *. cbn [prod chan workers wire set_prod] in *.
    rewrite Hp in Hc. cbn [prod_items todo_of app fmap list_fmap] in *.
    destruct Hc as [[e He]|Hc]; [left; exists e; by apply list_elem_of_further|right].
    rewrite Hc. solve_Permutation.
  - intros Ha. eapply (account_handover plan i todo s); [done|done| |done|exact (Hc Ha)].
    unfold held, after_send. cbn [prod chan workers set_chan set_prod]. rewrite Hp.
    destruct (is_ok i); cbn [prod_items app]; solve_Permutation.
  - intros Ha. eapply (account_handover plan i todo s); [done|done| |done|exact (Hc Ha)].
    edestruct (held_set_worker s (set_worker (set_prod s (after_send i todo)) w (WGot i))) as (rest & -> & ->); [done|done|].
    cbn [prod chan set_worker set_prod worker_items]. rewrite Hp, Hch. unfold after_send.
    destruct (is_ok i); cbn [prod_items app]; solve_Permutation.
  - intros Ha. assert (Hh : held s ≡ₚ held (set_worker (set_chan s rest) w (WGot i))).
    { edestruct (held_set_worker s (set_worker (set_chan s rest) w (WGot i))) as (rem & -> & ->); [done|done|].
      cbn [prod chan set_worker set_chan worker_items]. rewrite Hch. solve_Permutation. }
    eapply account_moves, (Hc Ha); [by apply held_perm_err|right]. by rewrite Hh.
  - intros Ha. assert (Hh : held s ≡ₚ held (set_worker s w WExit)).
    { edestruct (held_set_worker s (set_worker s w WExit)) as (rem & -> & ->); done. }
    eapply account_moves, (Hc Ha); [by apply held_perm_err|right]. by rewrite Hh.
  - cbn. split; [|done]. by destruct (first_error s).
  - intros _. set (s' := set_worker _ _ _). assert (Hh : held s ≡ₚ held s').
    { edestruct (held_set_worker s s') as (rem & -> & ->); done. }
    eapply account_moves, (Hc Ha); [by apply held_perm_err|right]. by rewrite Hh.
  - cbn [parts wire deliver set_worker set_gov]. by rewrite fmap_app, Hparts.
  - intros Ha. set (s' := set_worker _ _ _). edestruct (held_set_worker s s') as (rem & Hh & Hh'); [done|done|].
    cbn [worker_items app prod chan s' set_worker deliver set_gov] in Hh, Hh'.
    eapply account_moves, (Hc Ha).
    + intros [e He]. exists e. rewrite Hh in He. rewrite Hh'. apply elem_of_cons in He as [He|He]; [discriminate He|done].
    + right. rewrite Hh, Hh'. unfold stored. cbn [wire s' set_worker deliver set_gov prod]. rewrite fmap_app. cbn. solve_Permutation.
  - cbn. split; [|done]. by destruct (first_error s).
Qed.

Lemma conserved_initial plan concurrency g : conserved plan (initial plan concurrency g).
Proof.
  split; [done|]. split; [done|]. intros _. right. unfold held, stored. cbn.
  rewrite <- (app_nil_r (prepare <$> plan)) at 1. f_equiv.
  induction (Z.to_nat _) as [|n IH]; [done|]. done.
Qed.

Lemma reachable_conserved plan concurrency g s : steps plan (initial plan concurrency g) s -> conserved plan s.
Proof.
  intros Hr. remember (initial plan concurrency g) as s0 eqn:E.
  assert (Hs0 : conserved plan s0) by (subst; apply conserved_initial). clear E.
  induction Hr as [|s1 s2 s3 Hs _ IH]; [done|]. apply IH. by eapply conserved_step.
Qed.

(** ** Sorting the delivered parts *)

Lemma insert_part_perm p l : insert_part p l ≡ₚ p :: l.
Proof.
  induction l as [|q l IH]; cbn; [done|]. destruct (_ <=? _); [done|]. rewrite IH. apply Permutation_swap.
Qed.
Lemma sort_parts_perm l : sort_parts l ≡ₚ l.
Proof. induction l as [|p l IH]; cbn; [done|]. by rewrite insert_part_perm, IH. Qed.

Lemma insert_part_sorted p l :
  StronglySorted Z.le (part_number <$> l) -> StronglySorted Z.le (part_number <$> insert_part p l).
Proof.
  induction l as [|q l IH]; cbn; intros Hs; [by repeat constructor|].
  inversion_clear Hs as [|? ? Hs' Hf]. destruct (Z.leb_spec (part_number p) (part_number q)).
  - cbn. constructor; [by constructor|]. constructor; [done|].
    eapply Forall_impl; [exact Hf|]. cbn. lia.
  - cbn. constructor; [by apply IH|]. rewrite insert_part_perm. cbn. constructor; [lia|done].
Qed.
Lemma sort_parts_sorted l : StronglySorted Z.le (part_number <$> sort_parts l).
Proof. induction l as [|p l IH]; cbn; [constructor|]. by apply insert_part_sorted. Qed.

Lemma prepare_part_names p x : prepare p = Ok x -> x.1 = p.
Proof.
  unfold prepare, prepare_part. destruct (seek_error src p.1); [done|].
  destruct (fill_chunk _ _ _); [|done]. destruct (map_err _ _); [|done]. intros Hx. apply (inj Ok) in Hx as <-. by destruct p.
Qed.

Lemma prepared_numbers plan (xs : list (Z * string * bytes)) :
  prepare <$> plan ≡ₚ Ok <$> xs -> plan ≡ₚ xs.*1.
Proof.
  intros Hp. destruct (Permutation_map_inv _ _ (Permutation_sym Hp)) as (qs & Hq & Hperm).
  rewrite Hperm. clear Hp Hperm. revert qs Hq. induction xs as [|x xs IH]; intros [|q qs] Hq; try done.
  cbn in Hq. injection Hq as Hx Hq. cbn. rewrite (prepare_part_names q x) by done. by rewrite (IH qs Hq).
Qed.

Lemma finished_holds_nothing s : exits_ok s -> finished s -> held s = [].
Proof.
  intros [Hne Hex] [Hp Hw]. unfold held. rewrite Hp. destruct (Hex) as [_ Hc].
  { destruct (workers s) as [|w l]; [done|]. apply Forall_cons in Hw as [-> _]. apply list_elem_of_here. }
  rewrite Hc. cbn. clear -Hw. induction Hw as [|w l -> _ IH]; [done|]. done.
Qed.

(** The PUTs of a run that ended well are the prepared parts of the plan. *)
Lemma wire_is_plan plan concurrency g s :
  steps plan (initial plan concurrency g) s -> finished s -> first_error s = None ->
  prepare <$> plan ≡ₚ (fun e => Ok e.1) <$> wire s.
Proof.
  intros Hr Hfin Herr. pose proof (reachable_conserved _ _ _ _ Hr) as (Hab & Hparts & Hc).
  pose proof (finished_holds_nothing s (reachable_exits _ _ _ _ Hr) Hfin) as Hheld.
  assert (Ha : abort s = false) by (destruct (abort s); [by destruct (proj1 Hab eq_refl)|done]).
  destruct (Hc Ha) as [[e He]|Hp]; [rewrite Hheld in He; by apply elem_of_nil in He|].
  rewrite Hp, Hheld. destruct Hfin as [-> _]. done.
Qed.

(** C27: An upload that ends without an error has delivered the whole plan: when
    all threads have returned and no error was recorded, the PUTs that succeeded
    are, in some order, exactly the parts of the plan, each once and each with the
    envelope sealed for it; every entry handed to the finalize request carries the
    number and the [ETag] of one of them; the completeness check of the code never
    fires; and for a plan in increasing order the entries come out in its order. *)
Theorem fanout_delivers_plan plan concurrency g s :
  steps plan (initial plan concurrency g) s -> finished s -> first_error s = None ->
  prepare <$> plan ≡ₚ (fun e => Ok e.1) <$> wire s /\
  parts s = (fun e => mk_PartInput e.1.1.1 e.2) <$> wire s /\
  fanout_result plan s = Ok (sort_parts (parts s)) /\
  (StronglySorted Z.le plan.*1 -> part_number <$> sort_parts (parts s) = plan.*1).
Proof.
  intros Hr Hfin Herr. pose proof (reachable_conserved _ _ _ _ Hr) as (_ & Hparts & _).
  pose proof (wire_is_plan _ _ _ _ Hr Hfin Herr) as Hperm.
  assert (Hnum : plan ≡ₚ (wire s).*1.*1).
  { apply (prepared_numbers plan ((wire s).*1)). rewrite Hperm, <- list_fmap_compose. done. }
  split; [done|]. split; [done|]. split.
  - unfold fanout_result. rewrite Herr, bool_decide_eq_true_2; [done|].
    rewrite Hparts, length_fmap, Hnum, !length_fmap. done.
  - intros Hs. apply (StronglySorted_unique Z.le); [apply sort_parts_sorted|done|].
    rewrite sort_parts_perm, Hparts, Hnum. rewrite <- !list_fmap_compose. done.
Qed.

(** ** Envelopes in memory *)

Lemma chan_bounded plan concurrency g s :
  steps plan (initial plan concurrency g) s ->
  (length (chan s) <= capacity)%nat /\ length (workers s) = Z.to_nat (Z.max 1 concurrency).
Proof.
  intros Hr. remember (initial plan concurrency g) as s0 eqn:E.
  assert (Hs0 : (length (chan s0) <= capacity)%nat /\ length (workers s0) = Z.to_nat (Z.max 1 concurrency))
    by (subst; cbn; rewrite length_replicate; split; [lia|done]). clear E.
  induction Hr as [|s1 s2 s3 Hs _ IH]; [done|]. apply IH. destruct Hs; cbn; rewrite ?length_insert, ?length_app; cbn; try lia.
  all: rewrite H1 in Hs0; cbn in Hs0; lia.
Qed.

(** The sealed parts in memory: at most one per worker, one in the hands of the
    producer, and the buffer. *)
Theorem envelopes_in_memory plan concurrency g s :
  steps plan (initial plan concurrency g) s ->
  (length (held s) <= Z.to_nat (Z.max 1 concurrency) + Z.to_nat (Z.max 1 prepare_ahead))%nat.
Proof.
  intros Hr. destruct (chan_bounded _ _ _ _ Hr) as [Hc Hw]. unfold held. rewrite !length_app.
  assert (length (prod_items (prod s)) <= 1)%nat by (destruct (prod s); cbn; lia).
  assert (length (workers s ≫= worker_items) <= length (workers s))%nat.
  { clear. induction (workers s) as [|w l IH]; [cbn; lia|]. rewrite bind_cons, length_app, length_cons.
    assert (length (worker_items w) <= 1)%nat by (destruct w; cbn; lia). lia. }
  unfold capacity in Hc. lia.
Qed.

(** With [prepare_ahead = 0] and two workers, three sealed parts can be in memory
    at once: one more than [concurrency + prepare_ahead]. *)
Theorem one_envelope_over p1 p2 p3 g x1 x2 x3 :
  prepare_ahead = 0 -> open_error src = None ->
  prepare p1 = Ok x1 -> prepare p2 = Ok x2 -> prepare p3 = Ok x3 ->
  exists s, steps [p1; p2; p3] (initial [p1; p2; p3] 2 g) s /\ held s = [Ok x3; Ok x1; Ok x2].
Proof.
  intros Hpa Ho H1' H2' H3'. eexists. split.
  - eapply rtc_l; [by apply step_open|]. eapply rtc_l; [by eapply step_prepare|].
    eapply rtc_l; [by eapply (step_handoff _ _ _ _ 0)|]. rewrite H1'. cbn.
    eapply rtc_l; [by eapply step_prepare|]. eapply rtc_l; [by eapply (step_handoff _ _ _ _ 1)|]. rewrite H2'. cbn.
    eapply rtc_l; [by eapply step_prepare|]. apply rtc_refl.
  - unfold held. cbn. by rewrite H3'.
Qed.

(** ** The serial path *)

(** The branch for [concurrency <= 1 && prepare_ahead == 0]: one loop on one
    thread that reads, seals and sends.  [put] is the store: what it answers to
    the [k]-th PUT of the run, given the URL, the envelope and the ceiling, and how
    long that took.  Of the state, [parts], [wire] and [gov] are used. *)
Variable put : nat -> string -> bytes -> option (option Duration) -> cliresult string * Z.














End Code.
(** Runs on the concrete instances. *)
Module FanoutToy.
Import Toy.

Definition src : source := mk_source "/a.txt" None (str_bytes "hello") (fun _ => None) (fun _ => [Ok 2%nat]).
Definition toy_plan : list (Z * string) := [(1, "https://b/1?sig")].
Definition toy_gov : TransferGovernor := new default_knobs.
Definition toy_envelope : bytes :=
  Eval vm_compute in match prepare src demo_dek demo_file 16 1 (1, "https://b/1?sig") with
                     | Ok x => x.2 | Err _ => [] end.
Definition toy_end : state :=
  mk_state PDone [] [WExit; WExit] false None [mk_PartInput 1 "etag"]
    [(1, "https://b/1?sig", toy_envelope, "etag")] toy_gov.

Lemma toy_prepare : prepare src demo_dek demo_file 16 1 (1, "https://b/1?sig") = Ok (1, "https://b/1?sig", toy_envelope).
Proof. vm_compute. reflexivity. Qed.

Lemma toy_run :
  steps src demo_dek demo_file 16 1 1 toy_plan (initial toy_plan 2 toy_gov) toy_end.
Proof.
  unfold steps. eapply rtc_l; [by apply step_open|].
  eapply rtc_l; [by eapply step_prepare|]. rewrite toy_prepare.
  eapply rtc_l; [by eapply (step_handoff _ _ _ _ _ _ _ _ _ _ 0)|].
  eapply rtc_l; [by eapply (step_start _ _ _ _ _ _ _ _ 0)|].
  eapply rtc_l; [by eapply (step_sent _ _ _ _ _ _ _ _ 0 _ _ _ _ _ "etag" 0)|].
  eapply rtc_l; [by apply step_plan_done|].
  eapply rtc_l; [by eapply (step_closed _ _ _ _ _ _ _ _ 0)|].
  eapply rtc_l; [by eapply (step_closed _ _ _ _ _ _ _ _ 1)|]. apply rtc_refl.
Qed.

Definition two_plan : list (Z * string) := [(1, "https://b/1?sig"); (2, "https://b/2?sig")].
Definition sealed (p : Z * string) : bytes :=
  match prepare src demo_dek demo_file 3 2 p with Ok x => x.2 | Err _ => [] end.
Definition envelope1 : bytes := Eval vm_compute in sealed (1, "https://b/1?sig").
Definition envelope2 : bytes := Eval vm_compute in sealed (2, "https://b/2?sig").

Lemma two_prepared :
  prepare src demo_dek demo_file 3 2 (1, "https://b/1?sig") = Ok (1, "https://b/1?sig", envelope1) /\
  prepare src demo_dek demo_file 3 2 (2, "https://b/2?sig") = Ok (2, "https://b/2?sig", envelope2).
Proof. split; vm_compute; reflexivity. Qed.

Definition two_gov : TransferGovernor :=
  observe_part (observe_part toy_gov (Z.of_nat (length envelope2)) 0) (Z.of_nat (length envelope1)) 0.
Definition two_end : state :=
  mk_state PDone [] [WExit; WExit] false None [mk_PartInput 2 "e2"; mk_PartInput 1 "e1"]
    [(2, "https://b/2?sig", envelope2, "e2"); (1, "https://b/1?sig", envelope1, "e1")] two_gov.

Lemma two_run : steps src demo_dek demo_file 3 2 2 two_plan (initial two_plan 2 toy_gov) two_end.
Proof.
  destruct two_prepared as [E1 E2]. unfold steps. eapply rtc_l; [by apply step_open|].
  eapply rtc_l; [by eapply step_prepare|]. rewrite E1.
  eapply rtc_l; [eapply step_push; [done|by apply Nat.ltb_lt]|].
  eapply rtc_l; [by eapply step_prepare|]. rewrite E2.
  eapply rtc_l; [by eapply (step_recv _ _ _ _ _ _ _ _ _ _ 0)|].
  eapply rtc_l; [by eapply (step_handoff _ _ _ _ _ _ _ _ _ _ 1)|].
  eapply rtc_l; [by eapply (step_start _ _ _ _ _ _ _ _ 0)|].
  eapply rtc_l; [by eapply (step_start _ _ _ _ _ _ _ _ 1)|].
  eapply rtc_l; [by eapply (step_sent _ _ _ _ _ _ _ _ 1 _ _ _ _ _ "e2" 0)|].
  eapply rtc_l; [by eapply (step_sent _ _ _ _ _ _ _ _ 0 _ _ _ _ _ "e1" 0)|].
  eapply rtc_l; [by apply step_plan_done|].
  eapply rtc_l; [by eapply (step_closed _ _ _ _ _ _ _ _ 0)|].
  eapply rtc_l; [by eapply (step_closed _ _ _ _ _ _ _ _ 1)|]. apply rtc_refl.
Qed.


End FanoutToy.

Lemma fanout_delivers_plan_witness :
  @fanout_result FanoutToy.two_plan FanoutToy.two_end = Ok [mk_PartInput 1 "e1"; mk_PartInput 2 "e2"].
Proof.
  destruct (@fanout_delivers_plan Toy.gcm_toy Toy.hkdf_toy FanoutToy.src demo_dek demo_file 3 2 2
    FanoutToy.two_plan 2 FanoutToy.toy_gov FanoutToy.two_end) as (_ & _ & Hr & _).
  - exact FanoutToy.two_run.
  - split; [reflexivity|]. repeat constructor.
  - reflexivity.
  - exact Hr.
Defined.


End UploadFanout.
