(* ===== verification/DownloadLoop.v ===== *)
(** * The download loop ([download] of [cli/src/commands.rs])

    Workers take chunks off a shared cursor, fetch and open each, and write the
    plaintext at its offset of a temporary file; a rejected URL ends a generation
    and the next one goes on with the chunks that are missing.  A generation is a
    step relation over all interleavings; the loop around it is a relation on the
    state between generations.  The object store is not trusted: it may answer a
    range with any chunk the uploader sealed for the file. *)

From S2P Require Import Prelude Prims CryptoCore Envelope CliError Float64 Transfer.

Module DownloadLoop.
Import Envelope Transfer.

(** [write_all_at]: a hole before the offset reads as zeros. *)
Definition write_at (f : bytes) (off : nat) (b : bytes) : bytes :=
  if decide (b = []) then f
  else take off (f ++ replicate (off - length f) Byte.x00) ++ b ++ drop (off + length b) f.

Inductive worker :=
| DLoop                                  (* at the head of the loop *)
| DTake                                  (* about to take a slot *)
| DBusy (index : nat) (range : Z * Z)    (* fetching, opening, writing *)
| DExit.

Record gstate := mk_gstate {
  cursor : nat;
  abort : bool;
  first_err : option CliError;
  workers : list worker;
  (** kept across generations *)
  completed : gset nat;
  done_count : nat;
  written : Z;
  file : bytes;
}.

Definition set_w (s : gstate) (w : nat) (x : worker) : gstate :=
  mk_gstate (cursor s) (abort s) (first_err s) (<[w := x]> (workers s))
    (completed s) (done_count s) (written s) (file s).
Definition bump_cursor (s : gstate) : gstate :=
  mk_gstate (S (cursor s)) (abort s) (first_err s) (workers s)
    (completed s) (done_count s) (written s) (file s).
Definition fail_with (s : gstate) (e : CliError) : gstate :=
  mk_gstate (cursor s) true (match first_err s with None => Some e | Some e0 => Some e0 end) (workers s)
    (completed s) (done_count s) (written s) (file s).
Definition set_file (s : gstate) (f : bytes) : gstate :=
  mk_gstate (cursor s) (abort s) (first_err s) (workers s)
    (completed s) (done_count s) (written s) f.
(** [completed_chunks[index].store(true)], [written.fetch_add], [done.fetch_add]. *)
Definition complete (s : gstate) (index : nat) (len : Z) : gstate :=
  mk_gstate (cursor s) (abort s) (first_err s) (workers s)
    ({[index]} ∪ completed s) (S (done_count s)) (u64_wrap (written s + len)) (file s).

Section Code.
Context `{AesGcm, Hkdf}.
Variables (dek file_id : bytes).
(** What the server says of the file: the number of chunks and the chunk size. *)
Variables (chunks csize size_bytes : Z).

(** [chunks.max(0) as u32] and [csize.max(0) as u64]. *)
Definition chunk_count_u32 : Z := u32_wrap (Z.max 0 chunks).
Definition plain_stride : Z := Z.max 0 csize.
Definition indexed : list (nat * (Z * Z)) :=
  imap pair (chunk_ranges chunk_count_u32 plain_stride size_bytes).
Definition pending_of (c : gset nat) : list (nat * (Z * Z)) :=
  filter (fun x => x.1 ∉ c) indexed.
Definition offset (index : nat) : nat := Z.to_nat (u64_wrap (Z.of_nat index * plain_stride)).

(** The answers the object store may give for a chunk. *)
Variable serves : nat -> Z * Z -> cliresult bytes -> Prop.

Inductive gstep (pending : list (nat * (Z * Z))) : gstate -> gstate -> Prop :=
| g_abort s w : workers s !! w = Some DLoop -> abort s = true -> gstep pending s (set_w s w DExit)
| g_go s w : workers s !! w = Some DLoop -> abort s = false -> gstep pending s (set_w s w DTake)
| g_take s w i r :
    workers s !! w = Some DTake -> pending !! cursor s = Some (i, r) ->
    gstep pending s (set_w (bump_cursor s) w (DBusy i r))
| g_out s w :
    workers s !! w = Some DTake -> pending !! cursor s = None ->
    gstep pending s (set_w (bump_cursor s) w DExit)
| g_done s w i r envelope plaintext :
    workers s !! w = Some (DBusy i r) -> serves i r (Ok envelope) ->
    open_chunk dek file_id (u32_wrap (Z.of_nat i)) chunk_count_u32 envelope = Ok plaintext ->
    gstep pending s
      (set_w (complete (set_file s (write_at (file s) (offset i) plaintext)) i (Z.of_nat (length plaintext))) w DLoop)
| g_fetch_fails s w i r e :
    workers s !! w = Some (DBusy i r) -> serves i r (Err e) ->
    gstep pending s (set_w (fail_with s e) w DExit)
| g_open_fails s w i r envelope e :
    workers s !! w = Some (DBusy i r) -> serves i r (Ok envelope) ->
    open_chunk dek file_id (u32_wrap (Z.of_nat i)) chunk_count_u32 envelope = Err e ->
    gstep pending s (set_w (fail_with s (from_crypto e)) w DExit)
(* a write fails after some of its bytes *)
| g_write_fails s w i r envelope plaintext k msg :
    workers s !! w = Some (DBusy i r) -> serves i r (Ok envelope) ->
    open_chunk dek file_id (u32_wrap (Z.of_nat i)) chunk_count_u32 envelope = Ok plaintext ->
    gstep pending s
      (set_w (fail_with (set_file s (write_at (file s) (offset i) (take k plaintext)))
        (output_write ("writing output: " +:+ msg))) w DExit)
| g_panics s w i r :
    workers s !! w = Some (DBusy i r) ->
    gstep pending s (set_w (fail_with s (invalid_data "a download worker thread panicked; output incomplete")) w DExit).

(** ** Generations *)

(** What one generation hands to the next. *)
Record dstate := mk_dstate {
  d_completed : gset nat;
  d_done : nat;
  d_written : Z;
  d_file : bytes;
  d_stale : Z;
}.
Definition d_initial : dstate := mk_dstate ∅ 0 0 [] 0.

(** [n.min(pending.len()).max(1)] workers. *)
Definition gen_start (n : Z) (d : dstate) : gstate :=
  let pending := pending_of (d_completed d) in
  mk_gstate 0 false None
    (replicate (Z.to_nat (Z.max 1 (Z.min n (Z.of_nat (length pending))))) DLoop)
    (d_completed d) (d_done d) (d_written d) (d_file d).
Definition gen_finished (s : gstate) : Prop := Forall (fun w => w = DExit) (workers s).
Definition after_gen (s : gstate) (stale : Z) : dstate :=
  mk_dstate (completed s) (done_count s) (written s) (file s) stale.

Definition access_gone (e : CliError) : CliError :=
  cli_new 31 "network_error" ("storage rejected the pre-signed URL " +:+ pretty PRESIGNED_STALE_REFRESH_BUDGET
    +:+ " consecutive times with no chunk completing, retries on freshly-requested URLs included. This is not expiry; giving up (last: "
    +:+ message e +:+ ")").

(** A generation after which the loop goes on: no error, or a rejected URL that
    earns a fresh one (the server's answer to the request for it is [refresh]). *)
Inductive generation (n : Z) : dstate -> dstate -> Prop :=
| gen_clean d s :
    pending_of (d_completed d) <> [] ->
    rtc (gstep (pending_of (d_completed d))) (gen_start n d) s -> gen_finished s -> first_err s = None ->
    generation n d (after_gen s (d_stale d))
| gen_refresh d s e stale :
    pending_of (d_completed d) <> [] ->
    rtc (gstep (pending_of (d_completed d))) (gen_start n d) s -> gen_finished s -> first_err s = Some e ->
    code e = "presigned_rejected" ->
    presigned_refresh_decision (bool_decide (d_done d < done_count s)%nat) (d_stale d) = (true, stale) ->
    generation n d (after_gen s stale).

(** How the loop ends. *)
Inductive ends (n : Z) : dstate -> cliresult Z -> Prop :=
| end_complete d :
    pending_of (d_completed d) = [] -> d_done d = length indexed -> ends n d (Ok (d_written d))
| end_incomplete d :
    pending_of (d_completed d) = [] -> d_done d <> length indexed ->
    ends n d (Err (invalid_data ("download completeness assertion failed: " +:+ pretty (d_done d) +:+ " of "
      +:+ pretty (length indexed) +:+ " chunks written with no error recorded")))
| end_gives_up d s e stale :
    pending_of (d_completed d) <> [] ->
    rtc (gstep (pending_of (d_completed d))) (gen_start n d) s -> gen_finished s -> first_err s = Some e ->
    code e = "presigned_rejected" ->
    presigned_refresh_decision (bool_decide (d_done d < done_count s)%nat) (d_stale d) = (false, stale) ->
    ends n d (Err (access_gone e))
| end_refresh_fails d s e stale e' :
    pending_of (d_completed d) <> [] ->
    rtc (gstep (pending_of (d_completed d))) (gen_start n d) s -> gen_finished s -> first_err s = Some e ->
    code e = "presigned_rejected" ->
    presigned_refresh_decision (bool_decide (d_done d < done_count s)%nat) (d_stale d) = (true, stale) ->
    ends n d (Err e')
| end_fails d s e :
    pending_of (d_completed d) <> [] ->
    rtc (gstep (pending_of (d_completed d))) (gen_start n d) s -> gen_finished s -> first_err s = Some e ->
    code e <> "presigned_rejected" -> ends n d (Err e).

(** The whole loop: generations, then an end; the file as it is left. *)
Definition download_loop (n : Z) (f : bytes) (r : cliresult Z) : Prop :=
  exists d, rtc (generation n) d_initial d /\ ends n d r /\ d_file d = f.

End Code.

(** ** Positioned writes *)

Lemma write_at_inside f off b j :
  (off <= j < off + length b)%nat -> write_at f off b !! j = b !! (j - off)%nat.
Proof.
  intros Hj. unfold write_at. case_decide as Hb; [subst; cbn in Hj; lia|].
  assert (Ht : length (take off (f ++ replicate (off - length f) Byte.x00)) = off)
    by (rewrite length_take, length_app, length_replicate; lia).
  rewrite lookup_app_r, Ht by lia. rewrite lookup_app_l by lia. done.
Qed.

Lemma write_at_outside f off b j :
  (j < length f)%nat -> (j < off \/ off + length b <= j)%nat -> write_at f off b !! j = f !! j.
Proof.
  intros Hf Hj. unfold write_at. case_decide as Hb; [done|].
  assert (Ht : length (take off (f ++ replicate (off - length f) Byte.x00)) = off)
    by (rewrite length_take, length_app, length_replicate; lia).
  destruct Hj as [Hj|Hj].
  - rewrite lookup_app_l by lia. rewrite lookup_take_lt by lia. by rewrite lookup_app_l.
  - rewrite lookup_app_r, Ht by lia. rewrite lookup_app_r by lia. rewrite lookup_drop. f_equal. lia.
Qed.

Lemma write_at_length f off b n :
  (length f <= n)%nat -> (off + length b <= n)%nat -> (length (write_at f off b) <= n)%nat.
Proof.
  intros Hf Hb. unfold write_at. case_decide; [done|].
  rewrite !length_app, length_take, length_app, length_replicate, length_drop. lia.
Qed.

(** ** Every chunk is taken once *)

Section Structure.
Context `{AesGcm, Hkdf}.
Variables (dek file_id : bytes) (chunks csize size_bytes : Z).
Variable serves : nat -> Z * Z -> cliresult bytes -> Prop.

Abbreviation m := (chunk_count_u32 chunks).
Abbreviation indexed := (DownloadLoop.indexed chunks csize size_bytes).
Abbreviation pending_of := (DownloadLoop.pending_of chunks csize size_bytes).
Abbreviation gstep := (DownloadLoop.gstep dek file_id chunks csize serves).
Abbreviation gen_start := (DownloadLoop.gen_start chunks csize size_bytes).
Abbreviation generation := (DownloadLoop.generation dek file_id chunks csize size_bytes serves).

Lemma indexed_numbers : indexed.*1 = seq 0 (Z.to_nat m).
Proof.
  unfold DownloadLoop.indexed. assert (Hl : length (chunk_ranges m (plain_stride csize) size_bytes) = Z.to_nat m)
    by (unfold chunk_ranges; by rewrite length_fmap, length_seq).
  rewrite <- Hl. generalize (chunk_ranges m (plain_stride csize) size_bytes). clear.
  intros l. apply list_eq. intros i. rewrite list_lookup_fmap, list_lookup_imap.
  destruct (l !! i) as [x|] eqn:E; cbn.
  - rewrite lookup_seq_lt by (by eapply lookup_lt_Some). done.
  - rewrite lookup_seq_ge; [done|]. by apply lookup_ge_None.
Qed.

Lemma length_indexed : length indexed = Z.to_nat m.
Proof. rewrite <- (length_fmap fst), indexed_numbers. apply length_seq. Qed.

Lemma pending_sound (c : gset nat) i : i ∈ (pending_of c).*1 <-> i ∉ c /\ (i < Z.to_nat m)%nat.
Proof.
  unfold DownloadLoop.pending_of. rewrite list_elem_of_fmap. split.
  - intros ([j r] & -> & [Hj Hin]%list_elem_of_filter). cbn in *. split; [done|].
    assert (Hs : j ∈ indexed.*1) by (apply list_elem_of_fmap; by exists (j, r)).
    rewrite indexed_numbers in Hs. apply elem_of_seq in Hs. lia.
  - intros [Hi Hlt]. assert (Hs : i ∈ indexed.*1) by (rewrite indexed_numbers; apply elem_of_seq; lia).
    apply list_elem_of_fmap in Hs as ([j r] & -> & Hin). exists (j, r). split; [done|]. by apply list_elem_of_filter.
Qed.

Lemma pending_NoDup (c : gset nat) : NoDup (pending_of c).*1.
Proof.
  assert (Hnd : NoDup indexed.*1) by (rewrite indexed_numbers; apply NoDup_seq).
  unfold DownloadLoop.pending_of. revert Hnd. generalize indexed as l. clear.
  induction l as [|[i r] l IH]; cbn; intros Hnd; [constructor|]. apply NoDup_cons in Hnd as [Hi Hnd].
  case_decide; [|by apply IH]. apply NoDup_cons. split; [|by apply IH].
  intros Hin. apply Hi. apply list_elem_of_fmap in Hin as (x & Hx & [_ Hin]%list_elem_of_filter).
  apply list_elem_of_fmap. by exists x.
Qed.

Definition busy_items (w : worker) : list nat := match w with DBusy i _ => [i] | _ => [] end.
(** The chunks in hand or not yet taken. *)
Definition open_items (pending : list (nat * (Z * Z))) (s : gstate) : list nat :=
  (workers s ≫= busy_items) ++ (drop (cursor s) pending).*1.

Definition sinv (pending : list (nat * (Z * Z))) (s : gstate) : Prop :=
  NoDup (open_items pending s) /\
  (forall i, i ∈ open_items pending s -> i ∉ completed s /\ (i < Z.to_nat m)%nat) /\
  (forall i, i ∈ completed s -> (i < Z.to_nat m)%nat) /\
  done_count s = size (completed s) /\
  (abort s = true <-> first_err s <> None) /\
  (first_err s = None -> forall i, i ∈ pending.*1 -> i ∈ completed s \/ i ∈ open_items pending s).

Lemma busy_insert l w x y :
  l !! w = Some x -> exists rest, (l ≫= busy_items) ≡ₚ busy_items x ++ rest /\
    (<[w := y]> l ≫= busy_items) ≡ₚ busy_items y ++ rest.
Proof.
  intros Hw. exists ((take w l ≫= busy_items) ++ (drop (S w) l ≫= busy_items)).
  split.
  - rewrite <- (take_drop_middle l w x Hw) at 1. rewrite bind_app, bind_cons. solve_Permutation.
  - rewrite insert_take_drop by (by eapply lookup_lt_Some). rewrite bind_app, bind_cons. solve_Permutation.
Qed.

(** What changing one worker does to the open chunks. *)
Lemma open_items_set pending s s' w x y :
  workers s !! w = Some x -> workers s' = <[w := y]> (workers s) ->
  exists rest, open_items pending s ≡ₚ busy_items x ++ rest ++ (drop (cursor s) pending).*1 /\
    open_items pending s' ≡ₚ busy_items y ++ rest ++ (drop (cursor s') pending).*1.
Proof.
  intros Hw Hw'. destruct (busy_insert _ _ _ y Hw) as (rest & H1' & H2'). exists rest.
  unfold open_items. rewrite Hw', H1', H2'. split; solve_Permutation.
Qed.

(** Steps that leave the completed chunks alone and do not lose an open chunk
    without recording an error. *)
Lemma sinv_moves pending s s' :
  sinv pending s -> completed s' = completed s -> done_count s' = done_count s ->
  (exists gone, open_items pending s ≡ₚ gone ++ open_items pending s' /\ (first_err s' = None -> gone = [])) ->
  (abort s' = true <-> first_err s' <> None) -> (first_err s' = None -> first_err s = None) ->
  sinv pending s'.
Proof.
  intros (Hnd & Ho & Hcm & Hd & Hab & Hall) Hc' Hd' (gone & Hg & Hgone) Hab' Herr.
  rewrite Hg in Hnd. split; [by apply NoDup_app in Hnd as (_ & _ & ?)|].
  rewrite Hc', Hd'. split; [|split; [done|]; split; [done|]; split; [done|]].
  - intros i Hi. apply Ho. rewrite Hg. apply elem_of_app. by right.
  - intros He i Hi. destruct (Hall (Herr He) i Hi) as [|Hin]; [by left|right].
    rewrite Hg, (Hgone He) in Hin. done.
Qed.

Lemma sinv_step pending s s' : sinv pending s -> gstep pending s s' -> sinv pending s'.
Proof.
  intros Hinv Hs. pose proof Hinv as (Hnd & Ho & Hcm & Hd & Hab & Hall).
  assert (Herr : forall e, (true = true <-> match first_err s with None => Some e | Some e0 => Some e0 end <> None))
    by (intros e; by destruct (first_err s)).
  assert (Hnone : forall e, match first_err s with None => Some e | Some e0 => Some e0 end <> None)
    by (intros e; by destruct (first_err s)).
  destruct Hs as [s w Hw Ha|s w Hw Ha|s w i r Hw Hp|s w Hw Hp|s w i r env p Hw Hv Hop|s w i r e Hw Hv
    |s w i r env e Hw Hv Hop|s w i r env p k msg Hw Hv Hop|s w i r Hw].
  1,2,4,6,7,8,9: match goal with |- sinv _ ?s' =>
      destruct (open_items_set pending s s' w _ _ Hw eq_refl) as (rest & H1' & H2');
      cbn [busy_items app cursor set_w bump_cursor fail_with set_file] in H1', H2' end.
  - apply (sinv_moves _ s); try done. exists []. split; [by rewrite H1', H2'|done].
  - apply (sinv_moves _ s); try done. exists []. split; [by rewrite H1', H2'|done].
  - apply (sinv_moves _ s); try done. exists []. split; [|done].
    apply lookup_ge_None in Hp. rewrite H1', H2', !drop_ge by lia. done.
  - apply (sinv_moves _ s); try done; [|apply Herr|by intros ?%Hnone]. exists [i]. split; [by rewrite H1', H2'|by intros ?%Hnone].
  - apply (sinv_moves _ s); try done; [|apply Herr|by intros ?%Hnone]. exists [i]. split; [by rewrite H1', H2'|by intros ?%Hnone].
  - apply (sinv_moves _ s); try done; [|apply Herr|by intros ?%Hnone]. exists [i]. split; [by rewrite H1', H2'|by intros ?%Hnone].
  - apply (sinv_moves _ s); try done; [|apply Herr|by intros ?%Hnone]. exists [i]. split; [by rewrite H1', H2'|by intros ?%Hnone].
  - destruct (open_items_set pending s (set_w (bump_cursor s) w (DBusy i r)) w _ _ Hw eq_refl) as (rest & H1' & H2').
    cbn [busy_items app cursor set_w bump_cursor] in H1', H2'.
    apply (sinv_moves _ s); try done. exists []. split; [|done].
    rewrite H1', H2', (drop_S _ _ _ Hp). cbn. solve_Permutation.
  - set (s' := set_w _ _ _). destruct (open_items_set pending s s' w _ _ Hw eq_refl) as (rest & H1' & H2').
    cbn [busy_items app cursor s' set_w complete set_file] in H1', H2'.
    assert (Hi : i ∈ open_items pending s) by (rewrite H1'; apply list_elem_of_here).
    destruct (Ho i Hi) as [Hic Him]. rewrite H1' in Hnd. apply NoDup_cons in Hnd as [Hir Hnd].
    split; [by rewrite H2'|]. cbn [completed done_count abort first_err s' set_w complete set_file].
    split; [|split; [|split; [|split; [done|]]]].
    + intros j Hj. rewrite H2' in Hj. destruct (Ho j) as [Hjc Hjm]; [rewrite H1'; by apply list_elem_of_further|].
      split; [|done]. rewrite elem_of_union, elem_of_singleton. intros [->|?]; done.
    + intros j. rewrite elem_of_union, elem_of_singleton. intros [->|Hj]; [done|by apply Hcm].
    + rewrite size_union, size_singleton by set_solver. lia.
    + intros He j Hj. destruct (Hall He j Hj) as [Hc|Hin]; [left; set_solver|].
      rewrite H1' in Hin. apply elem_of_cons in Hin as [->|Hin]; [left; set_solver|right; by rewrite H2'].
Qed.

Lemma loops_not_busy k : (replicate k DLoop ≫= busy_items) = [].
Proof. induction k as [|k IH]; [done|]. cbn [replicate]. by rewrite bind_cons, IH. Qed.

Lemma sinv_start n d :
  (forall i, i ∈ d_completed d -> (i < Z.to_nat m)%nat) -> d_done d = size (d_completed d) ->
  sinv (pending_of (d_completed d)) (gen_start n d).
Proof.
  intros Hc Hd. assert (Ho : open_items (pending_of (d_completed d)) (gen_start n d) = (pending_of (d_completed d)).*1).
  { unfold open_items, DownloadLoop.gen_start. cbn [workers cursor]. by rewrite drop_0, loops_not_busy. }
  split; [rewrite Ho; apply pending_NoDup|]. rewrite Ho. cbn [completed done_count abort first_err DownloadLoop.gen_start].
  split; [intros i; apply pending_sound|]. split; [done|]. split; [done|]. split; [done|]. intros _ i Hi. by right.
Qed.

Lemma sinv_run pending s s' : sinv pending s -> rtc (gstep pending) s s' -> sinv pending s'.
Proof. intros Hi Hr. induction Hr as [|s1 s2 s3 Hs _ IH]; [done|]. apply IH. by eapply sinv_step. Qed.

(** Without an error a worker leaves only past the end of the pending chunks. *)
Definition exit_ok (pending : list (nat * (Z * Z))) (s : gstate) : Prop :=
  (abort s = true <-> first_err s <> None) /\
  (first_err s = None -> DExit ∈ workers s -> (length pending <= cursor s)%nat).

Lemma worker_insert_elem (l : list worker) i x y : x ∈ <[i := y]> l -> x = y \/ x ∈ l.
Proof.
  revert i. induction l as [|z l IH]; intros [|i]; cbn; rewrite ?elem_of_cons; [tauto|tauto|tauto|].
  intros [->|Hx]; [tauto|]. destruct (IH _ Hx); tauto.
Qed.

Lemma exit_ok_step pending s s' : exit_ok pending s -> gstep pending s s' -> exit_ok pending s'.
Proof.
  intros [Hab Hex] Hs. destruct Hs as [s w Hw Ha|s w Hw Ha|s w i r Hw Hp|s w Hw Hp|s w i r env p Hw Hv Hop|s w i r e Hw Hv
    |s w i r env e Hw Hv Hop|s w i r env p k msg Hw Hv Hop|s w i r Hw]; (split; [cbn; try done; by destruct (first_err s)|]);
    cbn [first_err workers cursor set_w bump_cursor fail_with set_file complete];
    intros He Hin; apply worker_insert_elem in Hin as [Hin|Hin]; try discriminate Hin; try (by apply Hex);
    try (by destruct (first_err s)).
  - rewrite He in Hab. by destruct (proj1 Hab Ha).
  - specialize (Hex He Hin). lia.
  - apply lookup_ge_None in Hp. lia.
  - specialize (Hex He Hin). lia.
Qed.

Lemma exit_ok_run pending s s' : exit_ok pending s -> rtc (gstep pending) s s' -> exit_ok pending s'.
Proof. intros Hi Hr. induction Hr as [|s1 s2 s3 Hs _ IH]; [done|]. apply IH. by eapply exit_ok_step. Qed.

Lemma exit_ok_start n d : exit_ok (pending_of (d_completed d)) (gen_start n d).
Proof. split; [done|]. cbn. intros _ Hin. by apply elem_of_replicate_inv in Hin. Qed.

Lemma length_insert_workers pending s s' : gstep pending s s' -> length (workers s') = length (workers s).
Proof. by destruct 1; cbn; rewrite length_insert. Qed.

Lemma gen_workers pending n d s : rtc (gstep pending) (gen_start n d) s -> workers s <> [].
Proof.
  intros Hr. assert (Hl : length (workers s) = length (workers (gen_start n d))).
  { induction Hr as [|s1 s2 s3 Hs _ IH]; [done|]. rewrite IH. by eapply length_insert_workers. }
  cbn in Hl. rewrite length_replicate in Hl. intros E. rewrite E in Hl. cbn in Hl. lia.
Qed.

(** A finished generation without an error has completed all its chunks. *)
Lemma clean_generation n d s :
  (forall i, i ∈ d_completed d -> (i < Z.to_nat m)%nat) -> d_done d = size (d_completed d) ->
  rtc (gstep (pending_of (d_completed d))) (gen_start n d) s -> gen_finished s -> first_err s = None ->
  forall i, i ∈ (pending_of (d_completed d)).*1 -> i ∈ completed s.
Proof.
  intros Hc Hd Hr Hf He i Hi.
  pose proof (sinv_run _ _ _ (sinv_start n d Hc Hd) Hr) as (_ & _ & _ & _ & _ & Hall).
  destruct (exit_ok_run _ _ _ (exit_ok_start n d) Hr) as [_ Hex].
  destruct (Hall He i Hi) as [|Hin]; [done|]. unfold open_items in Hin.
  assert (Hb : (workers s ≫= busy_items) = []).
  { clear -Hf. unfold gen_finished in Hf. induction Hf as [|w l -> _ IH]; [done|]. by rewrite bind_cons, IH. }
  rewrite Hb, drop_ge in Hin; [by apply elem_of_nil in Hin|]. apply Hex; [done|].
  pose proof (gen_workers _ _ _ _ Hr) as Hne. unfold gen_finished in Hf. destruct (workers s) as [|w l]; [done|].
  apply Forall_cons in Hf as [-> _]. apply list_elem_of_here.
Qed.

(** ** The generations end *)

(** The chunks completed and the count only grow. *)
Lemma completed_grows pending s s' : gstep pending s s' -> completed s ⊆ completed s' /\ (done_count s <= done_count s')%nat.
Proof. destruct 1; cbn; split; try set_solver; lia. Qed.

Lemma completed_grows_run pending s s' : rtc (gstep pending) s s' -> completed s ⊆ completed s' /\ (done_count s <= done_count s')%nat.
Proof.
  induction 1 as [|s1 s2 s3 Hs _ IH]; [by split|]. apply completed_grows in Hs. split; [set_solver|lia].
Qed.

(** Between generations: the count is that of the completed chunks, and fewer than
    three rejections in a row were without progress. *)
Definition dinv (d : dstate) : Prop :=
  (forall i, i ∈ d_completed d -> (i < Z.to_nat m)%nat) /\ d_done d = size (d_completed d) /\ 0 <= d_stale d <= 2.

Lemma size_le_count (X : gset nat) k : (forall i, i ∈ X -> (i < k)%nat) -> (size X <= k)%nat.
Proof.
  intros HX. rewrite <- (size_set_seq (C := gset nat) 0 k). apply subseteq_size. intros i Hi. apply elem_of_set_seq.
  specialize (HX i Hi). lia.
Qed.

Lemma dinv_done d : dinv d -> (d_done d <= Z.to_nat m)%nat.
Proof. intros (Hc & -> & _). by apply size_le_count. Qed.

Definition gen_measure (d : dstate) : Z := 3 * (Z.of_nat (Z.to_nat m) - Z.of_nat (d_done d)) + (2 - d_stale d).

Lemma generation_progress n d d' :
  dinv d -> generation n d d' -> dinv d' /\ gen_measure d' < gen_measure d.
Proof.
  intros (Hc & Hd & Hst) Hg. unfold gen_measure.
  destruct Hg as [d s Hne Hr Hf He|d s e stale Hne Hr Hf He Hcode Hdec];
    pose proof (sinv_run _ _ _ (sinv_start n d Hc Hd) Hr) as (_ & _ & Hcm & Hdn & _ & _);
    pose proof (completed_grows_run _ _ _ Hr) as [Hsub Hle]; cbn [done_count completed DownloadLoop.gen_start] in Hsub, Hle;
    unfold dinv; cbn [after_gen d_completed d_done d_stale].
  - split; [done|]. enough (d_done d < done_count s)%nat by lia.
    destruct (pending_of (d_completed d)) as [|[i r] l] eqn:E; [done|].
    assert (Hi : i ∈ (pending_of (d_completed d)).*1) by (rewrite E; apply list_elem_of_here).
    assert (Hin : i ∈ completed s) by (rewrite <- E in Hr; by eapply clean_generation).
    apply pending_sound in Hi as [Hnot _]. rewrite Hdn, Hd.
    apply subset_size. split; [done|]. intros Hback. apply Hnot, Hback, Hin.
  - unfold presigned_refresh_decision, PRESIGNED_STALE_REFRESH_BUDGET in Hdec.
    case_bool_decide as Hp; [injection Hdec as <-|].
    + repeat split; [done|done|lia|lia|lia].
    + injection Hdec as Hlt <-. apply Z.ltb_lt in Hlt. repeat split; [done|done|lia|lia|lia].
Qed.

Lemma dinv_initial : dinv d_initial.
Proof. split; [set_solver|]. split; [done|]. cbn. lia. Qed.

Lemma generations_bounded n k d d' :
  dinv d -> nsteps (generation n) k d d' -> dinv d' /\ Z.of_nat k + gen_measure d' <= gen_measure d.
Proof.
  intros Hd Hn. induction Hn as [d|k d d1 d' Hg _ IH]; [split; [done|lia]|].
  destruct (generation_progress _ _ _ Hd Hg) as [Hd1 Hm]. destruct (IH Hd1) as [Hd' Hk]. split; [done|lia].
Qed.

End Structure.
End DownloadLoop.
