(* ===== verification/DownloadTheorems.v ===== *)
(** * Theorems on the download loop

    The loop ends for every behaviour of the object store, and a download that
    ends well is the file that was uploaded; then the two ways the server's
    unauthenticated numbers can still change the output. *)

From S2P Require Import Prelude Prims CryptoCore Envelope CliError Float64 Governor Transfer UploadFanout DownloadLoop.

Module DownloadTheorems.
Import Envelope Transfer DownloadLoop.

(** ** The loop ends *)

Section Termination.
Context `{AesGcm, Hkdf}.
Variables (dek file_id : bytes) (chunks csize size_bytes : Z).
Variable serves : nat -> Z * Z -> cliresult bytes -> Prop.

Abbreviation m := (chunk_count_u32 chunks).
Abbreviation pending_of := (DownloadLoop.pending_of chunks csize size_bytes).
Abbreviation gstep := (DownloadLoop.gstep dek file_id chunks csize serves).
Abbreviation gen_start := (DownloadLoop.gen_start chunks csize size_bytes).
Abbreviation generation := (DownloadLoop.generation dek file_id chunks csize size_bytes serves).
Abbreviation ends := (DownloadLoop.ends dek file_id chunks csize size_bytes serves).

Definition worker_weight (w : worker) : nat :=
  match w with DLoop => 2 | DTake => 1 | DBusy _ _ => 3 | DExit => 0 end.
Definition weight (pending : list (nat * (Z * Z))) (s : gstate) : nat :=
  3 * (length pending - cursor s) + sum_list_with worker_weight (workers s).

Lemma sum_insert l i x y :
  l !! i = Some x ->
  (sum_list_with worker_weight (<[i := y]> l) + worker_weight x = sum_list_with worker_weight l + worker_weight y)%nat.
Proof.
  intros Hi. rewrite insert_take_drop by (by eapply lookup_lt_Some).
  rewrite <- (take_drop_middle l i x Hi) at 3. rewrite !sum_list_with_app. cbn. lia.
Qed.

Lemma gstep_weight pending s s' : gstep pending s s' -> (weight pending s' < weight pending s)%nat.
Proof.
  intros Hs. unfold weight. destruct Hs as [s w Hw Ha|s w Hw Ha|s w i r Hw Hp|s w Hw Hp|s w i r env p Hw Hv Hop|s w i r e Hw Hv
    |s w i r env e Hw Hv Hop|s w i r env p k msg Hw Hv Hop|s w i r Hw];
    cbn [cursor workers set_w bump_cursor fail_with set_file complete];
    match goal with |- context [<[_ := ?y]> _] => pose proof (sum_insert _ _ _ y Hw) as Hsum; cbn [worker_weight] in Hsum end;
    try lia.
  apply lookup_lt_Some in Hp. lia.
Qed.

Lemma gsteps_weight pending k s s' : nsteps (gstep pending) k s s' -> (k + weight pending s' <= weight pending s)%nat.
Proof. induction 1 as [|k s1 s2 s3 Hs _ IH]; [lia|]. apply gstep_weight in Hs. lia. Qed.

Lemma busy_or_finished (l : list worker) :
  (exists w x, l !! w = Some x /\ x <> DExit) \/ Forall (fun w => w = DExit) l.
Proof.
  induction l as [|w l IH]; [by right|]. destruct w; try (left; exists 0%nat; by eexists).
  destruct IH as [(w & x & Hw & Hx)|]; [left; by exists (S w), x|right; by constructor].
Qed.

Hypothesis answers : forall i r, exists a, serves i r a.

Lemma gprogress pending s : gen_finished s \/ exists s', gstep pending s s'.
Proof.
  destruct (busy_or_finished (workers s)) as [(w & x & Hw & Hx)|]; [right|by left].
  destruct x as [| |i r|]; [| | |done].
  - destruct (abort s) eqn:Ha; eexists; [by eapply g_abort|by eapply g_go].
  - destruct (pending !! cursor s) as [[i r]|] eqn:Hp; eexists; [by eapply g_take|by eapply g_out].
  - destruct (answers i r) as [[env|e] Ha]; [|eexists; by eapply g_fetch_fails].
    destruct (open_chunk dek file_id (u32_wrap (Z.of_nat i)) m env) as [p|e] eqn:Ho; eexists; [by eapply g_done|by eapply g_open_fails].
Qed.

(** Every generation can be run to its end. *)
Lemma generation_finishes pending s : exists s', rtc (gstep pending) s s' /\ gen_finished s'.
Proof.
  remember (weight pending s) as k eqn:Hk. revert s Hk. induction (lt_wf k) as [k _ IH]. intros s ->.
  destruct (gprogress pending s) as [Hf|[s1 Hs]]; [exists s; by split|].
  destruct (IH _ (gstep_weight _ _ _ Hs) s1 eq_refl) as (s' & Hr & Hf). exists s'. split; [by eapply rtc_l|done].
Qed.

Lemma generation_or_end n d : (exists d', generation n d d') \/ exists r, ends n d r.
Proof.
  destruct (decide (pending_of (d_completed d) = [])) as [Hp|Hp].
  { right. destruct (decide (d_done d = length (indexed chunks csize size_bytes))); eexists; [by eapply end_complete|by eapply end_incomplete]. }
  destruct (generation_finishes (pending_of (d_completed d)) (gen_start n d)) as (s & Hr & Hf).
  destruct (first_err s) as [e|] eqn:He; [|left; eexists; by eapply gen_clean].
  destruct (decide (code e = "presigned_rejected")); [|right; eexists; by eapply end_fails].
  destruct (presigned_refresh_decision (bool_decide (d_done d < done_count s)%nat) (d_stale d)) as [[] stale] eqn:Hdec.
  - left. eexists. by eapply gen_refresh.
  - right. eexists. by eapply end_gives_up.
Qed.

(** C28: The download loop ends, without a bound on time: whatever the object store
    answers, there are at most [3 * chunks + 2] generations (a fresh URL is earned by progress, and
    at most two rejections in a row without progress earn one); within a generation every
    interleaving of the workers takes at most [3 * pending + 2 * workers] steps
    and is never stuck; and from every state between generations the loop goes on
    or ends with a result. *)
Theorem download_loop_ends n :
  (forall k d, nsteps (generation n) k d_initial d -> Z.of_nat k <= 3 * m + 2) /\
  (forall d, rtc (generation n) d_initial d ->
    (forall k s, nsteps (gstep (pending_of (d_completed d))) k (gen_start n d) s ->
       (k <= 3 * length (pending_of (d_completed d)) + 2 * length (workers (gen_start n d)))%nat) /\
    (forall s, rtc (gstep (pending_of (d_completed d))) (gen_start n d) s ->
       gen_finished s \/ exists s', gstep (pending_of (d_completed d)) s s') /\
    ((exists d', generation n d d') \/ exists r, ends n d r)).
Proof.
  split.
  - intros k d Hk. destruct (generations_bounded _ _ _ _ _ _ _ _ _ _ (dinv_initial chunks) Hk) as [Hd Hm].
    pose proof (dinv_done chunks serves d Hd). destruct Hd as (_ & _ & Hst). unfold gen_measure in Hm. cbn [d_initial d_done d_stale] in Hm.
    assert (0 <= m) by (unfold chunk_count_u32, u32_wrap; apply Z.mod_pos_bound; lia). lia.
  - intros d _. split; [|split; [intros s _; apply gprogress|apply generation_or_end]].
    intros k s Hk. apply gsteps_weight in Hk. unfold weight in Hk at 2. cbn [cursor workers DownloadLoop.gen_start] in *.
    assert (Hsum : forall j, sum_list_with worker_weight (replicate j DLoop) = (2 * j)%nat).
    { induction j as [|j IH]; cbn; [done|rewrite IH; cbn; lia]. }
    rewrite Hsum in Hk. rewrite length_replicate. lia.
Qed.

End Termination.

(** ** The file that arrives *)

Section Correct.
Context `{AesGcm, Hkdf}.
Variables (dek file_id c : bytes) (k n chunks size_bytes : Z).
Variable serves : nat -> Z * Z -> cliresult bytes -> Prop.

Abbreviation m := (chunk_count_u32 chunks).
Abbreviation K := (Z.to_nat k).
Abbreviation gstep := (DownloadLoop.gstep dek file_id chunks k serves).
Abbreviation generation := (DownloadLoop.generation dek file_id chunks k size_bytes serves).
Abbreviation pending_of := (DownloadLoop.pending_of chunks k size_bytes).
Abbreviation gen_start := (DownloadLoop.gen_start chunks k size_bytes).

(** The [j]-th chunk of the uploaded file. *)
Definition chunk_of (j : nat) : bytes := take K (drop (j * K) c).

(** One ciphertext that opens under two associated data of this file. *)
Definition forged : Prop :=
  exists i j iv ct, aad_forgery dek iv ct
    (multipart_aad file_id j (j =? n - 1)) (multipart_aad file_id i (i =? m - 1)).

Hypothesis Hk : 0 < k < 2 ^ 31.
Hypothesis Hn : 1 <= n <= MAX_PARTS.
Hypothesis Hlen : (n - 1) * k <= Z.of_nat (length c) <= n * k.
Hypothesis Hm : 1 <= m.
(** The store answers with errors and with chunks the uploader sealed for the file,
    whichever it likes. *)
Hypothesis Hserves : forall i r env, serves i r (Ok env) ->
  exists j : nat, Z.of_nat j < n /\ seal_chunk dek file_id (Z.of_nat j) n (chunk_of j) = Ok env.

Lemma m_small : 0 <= m < 2 ^ 32.
Proof. unfold chunk_count_u32, u32_wrap. apply Z.mod_pos_bound. lia. Qed.

Lemma accepted i r env p :
  (i < Z.to_nat m)%nat -> serves i r (Ok env) ->
  open_chunk dek file_id (u32_wrap (Z.of_nat i)) m env = Ok p ->
  forged \/ (Z.of_nat i < n /\ (Z.of_nat i = n - 1 <-> Z.of_nat i = m - 1) /\ p = chunk_of i).
Proof.
  intros Hi Hs Ho. pose proof m_small. unfold u32_wrap in Ho. rewrite Z.mod_small in Ho by lia.
  destruct (Hserves _ _ _ Hs) as (j & Hj & Hseal). unfold MAX_PARTS in Hn.
  assert (Hu : is_u32 (Z.of_nat j) /\ is_u32 (Z.of_nat i)) by (unfold is_u32, u32_max; lia). destruct Hu as [Hu1 Hu2].
  destruct (chunk_open_binding dek file_id (Z.of_nat j) n (chunk_of j) env file_id (Z.of_nat i) m p Hu1 Hu2 eq_refl Hseal Ho)
    as [(_ & Hij & Hlast & Hp)|(iv & ct & Hf)].
  - right. apply Nat2Z.inj in Hij as ->. split; [lia|]. split; [done|]. done.
  - left. by exists (Z.of_nat i), (Z.of_nat j), iv, ct.
Qed.

Lemma offset_eq i : Z.of_nat i < n -> offset k i = (i * K)%nat.
Proof.
  intros Hi. unfold offset, plain_stride, u64_wrap. unfold MAX_PARTS in Hn. rewrite Z.max_r, Z.mod_small by nia. nia.
Qed.

Definition total (X : gset nat) : nat := sum_list_with (fun i => length (chunk_of i)) (elements X).

(** What the file holds, given the completed chunks; or a forgery. *)
Definition cinv (X : gset nat) (w : Z) (f : bytes) : Prop :=
  forged \/
  ((forall i, i ∈ X -> Z.of_nat i < n /\ (Z.of_nat i = n - 1 <-> Z.of_nat i = m - 1) /\
      forall j, (i * K <= j < (i + 1) * K)%nat -> (j < length c)%nat -> f !! j = c !! j) /\
   (length f <= length c)%nat /\ w = Z.of_nat (total X) mod 2 ^ 64).

Lemma chunk_of_length i : length (chunk_of i) = Nat.min K (length c - i * K).
Proof. unfold chunk_of. by rewrite length_take, length_drop. Qed.

Lemma chunk_of_lookup i j : (i * K <= j < i * K + length (chunk_of i))%nat -> chunk_of i !! (j - i * K)%nat = c !! j.
Proof.
  intros Hj. rewrite chunk_of_length in Hj. unfold chunk_of. rewrite lookup_take_lt by lia.
  rewrite lookup_drop. f_equal. lia.
Qed.

(** Writing the start of a chunk at its place changes no other chunk. *)
Lemma write_keeps f i q j :
  (j < length c)%nat -> f !! j = c !! j -> write_at f (i * K) (take q (chunk_of i)) !! j = c !! j.
Proof.
  intros Hj Hf. pose proof (length_take (chunk_of i) q) as Hl.
  destruct (decide (i * K <= j < i * K + Nat.min q (length (chunk_of i)))%nat) as [Hin|Hout].
  - rewrite write_at_inside by (rewrite Hl; lia). rewrite lookup_take_lt by lia. apply chunk_of_lookup. lia.
  - rewrite write_at_outside; [done| |rewrite Hl; lia].
    apply lookup_lt_is_Some. rewrite Hf. apply lookup_lt_is_Some. lia.
Qed.

Lemma write_fills f i j :
  (i * K <= j < (i + 1) * K)%nat -> (j < length c)%nat -> write_at f (i * K) (chunk_of i) !! j = c !! j.
Proof.
  intros Hj Hc. rewrite write_at_inside by (rewrite chunk_of_length; nia). apply chunk_of_lookup. rewrite chunk_of_length. nia.
Qed.

Lemma write_fits f i q : (length f <= length c)%nat -> (length (write_at f (i * K) (take q (chunk_of i))) <= length c)%nat.
Proof.
  intros Hf. destruct (decide (take q (chunk_of i) = [])) as [E|Hne]; [unfold write_at; rewrite E; by case_decide|].
  apply write_at_length; [done|]. assert (length (take q (chunk_of i)) <> 0)%nat by (by intros ?%nil_length_inv).
  rewrite length_take, chunk_of_length in *. lia.
Qed.

Lemma cinv_step pending s s' :
  sinv chunks pending s -> cinv (completed s) (written s) (file s) -> gstep pending s s' ->
  cinv (completed s') (written s') (file s').
Proof.
  intros (_ & Ho & _) [|(Hreg & Hfl & Hw)] Hs; [by left|].
  assert (Hbusy : forall w i r, workers s !! w = Some (DBusy i r) -> i ∉ completed s /\ (i < Z.to_nat m)%nat).
  { intros w i r Hwi. apply Ho. unfold open_items. apply elem_of_app. left. apply list_elem_of_bind.
    exists (DBusy i r). split; [apply list_elem_of_here|]. by eapply list_elem_of_lookup_2. }
  destruct Hs as [s w Hwk Ha|s w Hwk Ha|s w i r Hwk Hp|s w Hwk Hp|s w i r env p Hwk Hv Hop|s w i r e Hwk Hv
    |s w i r env e Hwk Hv Hop|s w i r env p q msg Hwk Hv Hop|s w i r Hwk]; try (by right).
  - destruct (Hbusy _ _ _ Hwk) as [Hi Him]. destruct (accepted _ _ _ _ Him Hv Hop) as [|(Hin & Hlast & ->)]; [by left|right].
    cbn [completed written file set_w complete set_file]. rewrite offset_eq by done. split; [|split].
    + intros j Hj. rewrite elem_of_union, elem_of_singleton in Hj. destruct Hj as [->|Hj].
      * split; [done|]. split; [done|]. intros q Hq Hqc. by apply write_fills.
      * destruct (Hreg j Hj) as (? & ? & Hr). split; [done|]. split; [done|]. intros q Hq Hqc.
        rewrite <- (firstn_all (chunk_of i)). apply write_keeps; [done|by apply Hr].
    + rewrite <- (firstn_all (chunk_of i)). by apply write_fits.
    + rewrite Hw. unfold u64_wrap, total. rewrite elements_union_singleton by done. cbn [sum_list_with].
      rewrite Zplus_mod_idemp_l. f_equal. lia.
  - destruct (Hbusy _ _ _ Hwk) as [Hi Him]. destruct (accepted _ _ _ _ Him Hv Hop) as [|(Hin & Hlast & ->)]; [by left|right].
    cbn [completed written file set_w fail_with set_file]. rewrite offset_eq by done. split; [|split; [by apply write_fits|done]].
    intros j Hj. destruct (Hreg j Hj) as (? & ? & Hr). split; [done|]. split; [done|]. intros x Hx Hxc.
    apply write_keeps; [done|by apply Hr].
Qed.

Lemma cinv_run pending s s' :
  sinv chunks pending s -> cinv (completed s) (written s) (file s) -> rtc (gstep pending) s s' ->
  cinv (completed s') (written s') (file s').
Proof.
  intros Hs Hc Hr. induction Hr as [|s1 s2 s3 Hst _ IH]; [done|].
  apply IH; [by eapply sinv_step|by eapply cinv_step].
Qed.

Abbreviation dcinv d := (cinv (d_completed d) (d_written d) (d_file d)).

Lemma cinv_generation w d d' : dinv chunks d -> dcinv d -> generation w d d' -> dcinv d'.
Proof.
  intros (Hc & Hd & _) Hi Hg.
  destruct Hg as [d s Hne Hr Hf He|d s e stale Hne Hr Hf He Hcode Hdec]; cbn;
    (eapply cinv_run; [by apply (sinv_start chunks k size_bytes serves w d)|exact Hi|exact Hr]).
Qed.

Lemma cinv_generations w d : rtc (generation w) d_initial d -> dinv chunks d /\ dcinv d.
Proof.
  intros Hr. assert (H0' : dinv chunks d_initial /\ dcinv d_initial).
  { split; [apply dinv_initial|]. right. split; [set_solver|]. split; [cbn; lia|]. done. }
  induction Hr as [|d1 d2 d3 Hg _ IH]; [done|]. apply IH. destruct H0' as [Hd Hi].
  split; [|by eapply cinv_generation]. by destruct (generation_progress _ _ _ _ _ _ _ _ _ Hd Hg).
Qed.

Lemma chunks_sum N : sum_list_with (fun i => length (chunk_of i)) (seq 0 N) = Nat.min (N * K) (length c).
Proof.
  induction N as [|N IH]; [done|]. rewrite seq_S, sum_list_with_app, IH. cbn.
  rewrite chunk_of_length. lia.
Qed.

Lemma total_all X : (forall i, i ∈ X <-> (i < Z.to_nat n)%nat) -> total X = length c.
Proof.
  intros HX. unfold total. assert (Hp : elements X ≡ₚ seq 0 (Z.to_nat n)).
  { apply NoDup_Permutation; [apply NoDup_elements|apply NoDup_seq|]. intros i. rewrite elem_of_elements, HX, elem_of_seq. lia. }
  rewrite Hp, chunks_sum. nia.
Qed.

(** A download that ends well is the file that was uploaded.  The object store
    and the server are not trusted with the content: any range may be answered with
    an error or with any chunk that was sealed for this file, and the server may
    state any number of chunks.  If the loop ends with success, at the true chunk
    size and with at least one chunk, then for every interleaving of the workers
    and every sequence of expired URLs the number of chunks was the true one, the
    file left for the rename is byte for byte the uploaded file, and the reported
    length is its length; or one AES-GCM ciphertext opens under two different
    associated data. *)
Theorem download_sound w f len :
  download_loop dek file_id chunks k size_bytes serves w f (Ok len) ->
  (m = n /\ f = c /\ len = Z.of_nat (length c)) \/ forged.
Proof.
  intros (d & Hr & He & <-). destruct (cinv_generations _ _ Hr) as [(Hcm & _ & _) [|(Hreg & Hfl & Hw)]]; [by right|left].
  inversion He as [d0 Hp Hd| | | |]; subst. pose proof m_small.
  assert (Hall : forall i, (i < Z.to_nat m)%nat -> i ∈ d_completed d).
  { intros i Hi. destruct (decide (i ∈ d_completed d)); [done|].
    assert (Hpi : i ∈ (pending_of (d_completed d)).*1) by (by apply pending_sound). rewrite Hp in Hpi. by apply elem_of_nil in Hpi. }
  assert (Hmn : m = n).
  { destruct (Hreg (Z.to_nat (m - 1))) as (? & Hl & _); [apply Hall; lia|]. lia. }
  split; [done|]. assert (HX : forall i, i ∈ d_completed d <-> (i < Z.to_nat n)%nat).
  { intros i. split; [intros Hi; specialize (Hcm i Hi); lia|intros Hi; apply Hall; lia]. }
  assert (Hlook : forall j, (j < length c)%nat -> d_file d !! j = c !! j).
  { intros j Hj. pose proof (Nat.div_mod j K ltac:(lia)). pose proof (Nat.mod_upper_bound j K ltac:(lia)).
    destruct (Hreg (j / K)%nat) as (_ & _ & Hrj); [apply HX; nia|]. apply Hrj; [nia|done]. }
  split.
  - apply list_eq. intros j. destruct (decide (j < length c)%nat); [by apply Hlook|].
    rewrite !lookup_ge_None_2 by lia. done.
  - rewrite Hw, (total_all _ HX). apply Z.mod_small. unfold MAX_PARTS in Hn. nia.
Qed.

End Correct.

(** ** What the server's numbers still decide *)

(** The store that answers each range with the envelope at its index. *)
Definition in_order (envs : list bytes) (i : nat) (r : Z * Z) (a : cliresult bytes) : Prop :=
  exists e, envs !! i = Some e /\ a = Ok e.

Section Numbers.
Context `{AesGcm, Hkdf}.

(** A server that states no chunks at all gets an empty file accepted: the loop
    ends well without having opened anything. *)
Theorem zero_chunks_accepted dek file_id chunks csize size_bytes serves w :
  chunks <= 0 -> download_loop dek file_id chunks csize size_bytes serves w [] (Ok 0).
Proof.
  intros Hc. exists d_initial. split; [apply rtc_refl|]. split; [|done].
  assert (Hi : indexed chunks csize size_bytes = []).
  { apply length_zero_iff_nil. rewrite length_indexed. unfold chunk_count_u32. by rewrite Z.max_l. }
  apply (end_complete _ _ _ _ _ _ w d_initial); [by unfold pending_of; rewrite Hi|by rewrite Hi].
Qed.

(** The chunk size the server states places the chunks, and nothing checks it
    against what was opened: two chunks served in order, each authentic, are
    written at the offsets the stated size gives, whatever it is, and the download
    ends well. *)
Theorem stride_places_chunks dek file_id csize size_bytes p0 p1 e0 e1 :
  seal_chunk dek file_id 0 2 p0 = Ok e0 -> seal_chunk dek file_id 1 2 p1 = Ok e1 ->
  download_loop dek file_id 2 csize size_bytes (in_order [e0; e1]) 1
    (write_at (write_at [] 0 p0) (offset csize 1) p1)
    (Ok (u64_wrap (u64_wrap (Z.of_nat (length p0)) + Z.of_nat (length p1)))).
Proof.
  intros H0' H1'.
  assert (Ho0 : open_chunk dek file_id 0 2 e0 = Ok p0) by (apply chunk_round_trip in H0'; [apply H0'|done]).
  assert (Ho1 : open_chunk dek file_id 1 2 e1 = Ok p1) by (apply chunk_round_trip in H1'; [apply H1'|done]).
  assert (Hp : exists r0 r1, pending_of 2 csize size_bytes ∅ = [(0%nat, r0); (1%nat, r1)]).
  { do 2 eexists. unfold pending_of, indexed, chunk_count_u32. cbn. reflexivity. }
  destruct Hp as (r0 & r1 & Hp).
  eexists (mk_dstate _ _ _ _ _). split; [|split].
  - eapply rtc_once, gen_clean; cbn [d_initial d_completed]; rewrite ?Hp.
    + done.
    + unfold gen_start. cbn [d_initial d_completed]. rewrite Hp. cbn [length Z.of_nat replicate].
      eapply rtc_l; [by eapply (g_go _ _ _ _ _ _ _ 0)|]. eapply rtc_l; [by eapply (g_take _ _ _ _ _ _ _ 0)|].
      eapply rtc_l; [eapply (g_done _ _ _ _ _ _ _ 0); [done|by exists e0|exact Ho0]|].
      eapply rtc_l; [by eapply (g_go _ _ _ _ _ _ _ 0)|]. eapply rtc_l; [by eapply (g_take _ _ _ _ _ _ _ 0)|].
      eapply rtc_l; [eapply (g_done _ _ _ _ _ _ _ 0); [done|by exists e1|exact Ho1]|].
      eapply rtc_l; [by eapply (g_go _ _ _ _ _ _ _ 0)|]. eapply rtc_l; [by eapply (g_out _ _ _ _ _ _ _ 0)|]. apply rtc_refl.
    + by repeat constructor.
    + done.
  - apply (end_complete _ _ _ _ _ _ 1 (mk_dstate _ _ _ _ _)); [|done]. cbn. unfold pending_of, indexed, chunk_count_u32. reflexivity.
  - done.
Qed.

End Numbers.

(** A store that rejects every URL. *)
Definition rejects (i : nat) (r : Z * Z) (a : cliresult bytes) : Prop := a = Err (presigned_rejected EmptyString).

Import Toy.
Lemma download_loop_ends_witness :
  (forall k d, nsteps (DownloadLoop.generation [] [] 2 16 66 rejects 1) k d_initial d -> Z.of_nat k <= 3 * 2 + 2) /\
  ((exists d', DownloadLoop.generation [] [] 2 16 66 rejects 1 d_initial d') \/
   exists r, DownloadLoop.ends [] [] 2 16 66 rejects 1 d_initial r).
Proof.
  destruct (download_loop_ends [] [] 2 16 66 rejects (fun i r => ex_intro _ _ eq_refl) 1) as [Hb He].
  split; [exact Hb|]. apply (He d_initial). apply rtc_refl.
Defined.

(** The text in two chunks of seven bytes, sealed and served in order. *)
Definition env0 : bytes := Eval vm_compute in default [] (ok_opt (seal_chunk demo_dek demo_file 0 2 (chunk_of demo_text 7 0))).
Definition env1 : bytes := Eval vm_compute in default [] (ok_opt (seal_chunk demo_dek demo_file 1 2 (chunk_of demo_text 7 1))).

Lemma env0_ok : seal_chunk demo_dek demo_file 0 2 (chunk_of demo_text 7 0) = Ok env0.
Proof. vm_compute. reflexivity. Qed.
Lemma env1_ok : seal_chunk demo_dek demo_file 1 2 (chunk_of demo_text 7 1) = Ok env1.
Proof. vm_compute. reflexivity. Qed.

Lemma toy_download : download_loop demo_dek demo_file 2 7 80 (in_order [env0; env1]) 1 demo_text (Ok 12).
Proof. exact (stride_places_chunks demo_dek demo_file 7 80 _ _ env0 env1 env0_ok env1_ok). Qed.

(** The same envelopes under a stated chunk size of three: a shorter file, and the
    download still ends well. *)
Example stated_size_garbles :
  download_loop demo_dek demo_file 2 3 80 (in_order [env0; env1]) 1 (str_bytes "heldrive") (Ok 12).
Proof. exact (stride_places_chunks demo_dek demo_file 3 80 _ _ env0 env1 env0_ok env1_ok). Qed.

End DownloadTheorems.

(** * Upload, then download

    The two pipelines put together: what the fan-out stored, served back in any
    way, is downloaded as the file it was read from. *)

Module EndToEnd.
Import Envelope Governor Transfer UploadFanout DownloadLoop DownloadTheorems.

(** The plan a server issues for [n] parts: numbers from one on. *)
Definition numbered (urls : list string) : list (Z * string) :=
  imap (fun i url => (Z.of_nat i + 1, url)) urls.

Section Composition.
Context `{AesGcm, Hkdf}.

(** One prepared part of such a plan holds its chunk. *)
Lemma prepared_chunk src dek file_id k n (i : nat) url x :
  0 < k < 2 ^ 31 -> n <= MAX_PARTS -> Z.of_nat i < n ->
  prepare src dek file_id k n (Z.of_nat i + 1, url) = Ok x ->
  seal_chunk dek file_id (Z.of_nat i) n (chunk_of (contents src) k i) = Ok x.2.
Proof.
  unfold MAX_PARTS. intros Hk Hn Hi. unfold prepare, prepare_part. cbn [fst snd].
  destruct (seek_error src _); [done|].
  assert (Hidx : part_index (Z.of_nat i + 1) = Z.of_nat i).
  { unfold part_index, u32_wrap. rewrite i32_wrap_id by lia. rewrite Z.mod_small by lia. lia. }
  rewrite Hidx. unfold u64_wrap. rewrite (Z.mod_small (Z.of_nat i * k)) by nia.
  destruct (fill_chunk _ _ _) as [b|] eqn:Hf; [|done]. apply fill_chunk_ok in Hf.
  replace (Z.to_nat (Z.of_nat i * k)) with (i * Z.to_nat k)%nat in Hf by nia.
  destruct (seal_chunk _ _ _ _ b) as [env|] eqn:Hs; [|done]. cbn. intros Hx. apply (inj Ok) in Hx as <-.
  cbn. rewrite <- Hs. by rewrite Hf.
Qed.

(** C9: What was uploaded is what is downloaded.  For every file, chunk size and
    plan the code accepts: if the upload pipeline ended without an error (any
    number of workers, any depth of the channel, any interleaving, any retries and
    short reads), and the store later answers each range with an error or with any
    envelope that was stored, and the download loop ends well for the stated chunk
    size, then the downloaded file is the source file; or one AES-GCM ciphertext
    opens under two different associated data. *)
Theorem upload_then_download src dek file_id k n declared urls prepare_ahead concurrency g s
    chunks size_bytes serves w f len :
  check_chunk_size k = Ok tt -> 0 < k -> Z.of_nat (length (contents src)) < 2 ^ 62 ->
  chunk_plan (Z.of_nat (length (contents src))) k = Ok (n, declared) ->
  Z.of_nat (length urls) = n ->
  steps src dek file_id k n prepare_ahead (numbered urls) (initial (numbered urls) concurrency g) s ->
  finished s -> first_error s = None ->
  (forall i r env, serves i r (Ok env) -> env ∈ (fun e => e.1.2) <$> wire s) ->
  1 <= chunk_count_u32 chunks ->
  download_loop dek file_id chunks k size_bytes serves w f (Ok len) ->
  (f = contents src /\ len = Z.of_nat (length (contents src))) \/ forged dek file_id n chunks.
Proof.
  intros Hk Hk0 Hlen Hplan Hurls Hr Hfin Herr Hserves Hm Hd.
  assert (Hk31 : 0 < k < 2 ^ 31).
  { unfold check_chunk_size in Hk. destruct ((k =? 0) || (2 ^ 31 - 1 <? k)) eqn:E; [done|]. bool_prop. lia. }
  destruct (chunk_plan_ok (Z.of_nat (length (contents src))) k n declared) as (Hn & Hcov & _ & _); [lia|lia|done|].
  pose proof (wire_is_plan _ _ _ _ _ _ _ _ _ _ Hr Hfin Herr) as Hperm.
  destruct (download_sound dek file_id (contents src) k n chunks size_bytes serves Hk31 Hn Hcov Hm) with (w := w) (f := f) (len := len)
    as [(_ & Hf & Hl)|]; [|done|left; done|by right].
  intros i r env Hs. apply Hserves in Hs. apply list_elem_of_fmap in Hs as ([[[num url] e] tag] & -> & Hin). cbn [fst snd].
  assert (Hok : Ok (num, url, e) ∈ prepare src dek file_id k n <$> numbered urls).
  { rewrite Hperm. apply list_elem_of_fmap. by exists (num, url, e, tag). }
  apply list_elem_of_fmap in Hok as (p & Hprep & Hp). apply list_elem_of_lookup in Hp as [j Hj].
  unfold numbered in Hj. rewrite list_lookup_imap in Hj. destruct (urls !! j) as [u|] eqn:Hu; [|done].
  cbn in Hj. injection Hj as <-. apply lookup_lt_Some in Hu. exists j. split; [lia|].
  symmetry in Hprep. apply (prepared_chunk src dek file_id k n j u (num, url, e)); [done|lia|lia|exact Hprep].
Qed.

(** A file of one chunk, served as it is. *)
Lemma single_chunk_download dek file_id csize size_bytes p e :
  seal_chunk dek file_id 0 1 p = Ok e ->
  download_loop dek file_id 1 csize size_bytes (in_order [e]) 1 (write_at [] 0 p) (Ok (u64_wrap (Z.of_nat (length p)))).
Proof.
  intros Hs. assert (Ho : open_chunk dek file_id 0 1 e = Ok p) by (apply chunk_round_trip in Hs; [apply Hs|done]).
  assert (Hp : exists r, pending_of 1 csize size_bytes ∅ = [(0%nat, r)]) by (by eexists).
  destruct Hp as (r & Hp). eexists (mk_dstate _ _ _ _ _). split; [|split].
  - eapply rtc_once, gen_clean; cbn [d_initial d_completed]; rewrite ?Hp.
    + done.
    + unfold gen_start. cbn [d_initial d_completed]. rewrite Hp. cbn [length Z.of_nat replicate].
      eapply rtc_l; [by eapply (g_go _ _ _ _ _ _ _ 0)|]. eapply rtc_l; [by eapply (g_take _ _ _ _ _ _ _ 0)|].
      eapply rtc_l; [eapply (g_done _ _ _ _ _ _ _ 0); [done|by exists e|exact Ho]|].
      eapply rtc_l; [by eapply (g_go _ _ _ _ _ _ _ 0)|]. eapply rtc_l; [by eapply (g_out _ _ _ _ _ _ _ 0)|]. apply rtc_refl.
    + by repeat constructor.
    + done.
  - by apply (end_complete _ _ _ _ _ _ 1 (mk_dstate _ _ _ _ _)).
  - done.
Qed.

End Composition.

Import Toy FanoutToy.

Lemma toy_sealed : seal_chunk demo_dek demo_file 0 1 (str_bytes "hello") = Ok toy_envelope.
Proof. vm_compute. reflexivity. Qed.

Lemma upload_then_download_witness :
  (str_bytes "hello" = contents FanoutToy.src /\ 5 = Z.of_nat (length (contents FanoutToy.src))) \/
  forged demo_dek demo_file 1 1.
Proof.
  apply (upload_then_download FanoutToy.src demo_dek demo_file 16 1 39 ["https://b/1?sig"] 1 2 toy_gov toy_end
           1 39 (in_order [toy_envelope]) 1 (str_bytes "hello") 5).
  - reflexivity.
  - lia.
  - vm_compute. reflexivity.
  - vm_compute. reflexivity.
  - reflexivity.
  - exact toy_run.
  - split; [reflexivity|]. repeat constructor.
  - reflexivity.
  - intros [|i] r env (e & He & Henv); cbn in He; [|discriminate He].
    injection Henv as ->. injection He as <-. apply list_elem_of_here.
  - vm_compute. discriminate.
  - exact (single_chunk_download demo_dek demo_file 16 39 _ toy_envelope toy_sealed).
Defined.

End EndToEnd.
