(* ===== verification/UploadCommand.v ===== *)
(** * What happens to the resume state ([upload], [try_resume],
      [abort_then_forget] and [persist_rate_estimate] of [cli/src/commands.rs])

    The part of the upload command that decides whether the local state file of
    an upload lives: after the initiate request of a fresh upload, and in a
    resume.  Answers of the server, the outcome of the transfer and the clock are
    inputs; the directory of state files is threaded.  The server is a state of
    its own in the theorem: as long as it holds the upload, the state file that
    alone can resume it is kept. *)

From S2P Require Import Prelude Prims CryptoCore Text CliError Wrap Float64 Governor UploadState Transfer UploadFanout.
From Stdlib Require Import Floats.SpecFloat.

Module UploadCommand.
Import Governor UploadState.

(** [UploadState { rate_estimate_bps, rate_measured_at_unix, ..s }]. *)
Definition with_rate (s : UploadState) (rate : option f64) (measured : option Z) : UploadState :=
  mk_UploadState (file_id s) (upload_id s) (server_url s) (folder_id s) (root_folder_id s) (name s)
    (source_path s) (file_size s) (file_mtime_unix s) (chunk_size s) (chunk_count s) (anchor s) rate measured.

Section Code.
Context `{StateText}.
(** The path of the state directory and the faults of its file system. *)
Variables (faults : fs_faults) (at_ : string).

Definition save_state (d : dir) (s : UploadState) : dir := (save_in faults at_ d s).2.
Definition forget (d : dir) (file_id : string) : dir := remove_in faults d file_id.

(** [now] is the clock in Unix seconds. *)
Definition persist_rate_estimate (d : dir) (s : UploadState) (g : TransferGovernor) (now : Z) : dir :=
  match rate_estimate g with
  | None => d
  | Some rate => save_state d (with_rate s (Some rate) (Some now))
  end.

(** The abort request is sent to the server; its answer is an input. *)
Definition abort_then_forget (d : dir) (s : UploadState) (abort_answer : cliresult unit) : dir :=
  match abort_answer with
  | Ok _ => forget d (file_id s)
  | Err _ => d
  end.

(** The fields of a fresh upload's state. *)
Definition fresh_state (fid uid url folder root nm src : string) (size mtime : Z) (source_anchor : option string)
    (csize ccount : Z) : UploadState :=
  mk_UploadState fid uid url folder root nm src size mtime csize ccount source_anchor None None.

(** The finalize request, of both the fresh upload and the resume. *)
Definition finish (d : dir) (s : UploadState) (complete_answer : cliresult value) : cliresult value * dir :=
  match complete_answer with
  | Ok view => (Ok view, forget d (file_id s))
  | Err error =>
      if bool_decide (code error = "not_found") then (Err error, forget d (file_id s)) else (Err error, d)
  end.

(** From the initiate response on: save, transfer, finalize.  [transferred] is the
    outcome of [upload_parts] and the governor it leaves; the answer to the
    finalize request depends on the parts sent with it. *)
Definition upload_fresh (d : dir) (s : UploadState)
    (transferred : cliresult (list UploadFanout.PartInput) * TransferGovernor) (now : Z)
    (complete_answer : list UploadFanout.PartInput -> cliresult value) (abort_answer : cliresult unit)
    : cliresult value * dir :=
  let d := save_state d s in
  match transferred with
  | (Ok parts, _) => finish d s (complete_answer parts)
  | (Err error, g) =>
      if bool_decide (code error = "transfer_stalled")
      then (Err error, persist_rate_estimate d s g now)
      else (Err error, abort_then_forget d s abort_answer)
  end.

(** [v.get(k).and_then(as_i64).unwrap_or(0)] cast to [usize] and to [i32]. *)
Definition geometry (resume : value) : Z * Z :=
  (default 0 (get_i64 resume "chunk_size") mod 2 ^ 64,
   Transfer.i32_wrap (default 0 (get_i64 resume "chunk_count"))).

Definition geometry_agrees (s : UploadState) (resume : value) : bool :=
  let '(csize, ccount) := geometry resume in
  bool_decide (csize = chunk_size s) && bool_decide (ccount = chunk_count s) && negb (ccount <? 1).

Definition parts_of (uploaded : list value) : list UploadFanout.PartInput :=
  (fun part => UploadFanout.mk_PartInput
     (Transfer.i32_wrap (default 0 (get_i64 part "part_number")))
     (default EmptyString (get_str part "etag"))) <$> uploaded.

(** The governor of a resume: warm when the state carries a rate. *)
Definition resume_governor (s : UploadState) (resume : value) (now : Z) : TransferGovernor :=
  match rate_estimate_bps s with
  | Some rate => with_warm_start (from_response resume) rate (rate_measured_age s now)
  | None => new (from_response resume)
  end.

(** [resume_answer] is the answer to the resume request, parsed; an inner [Err] is
    a text that is no JSON.  [unwrap_dek] is the caller's own wrap opened with the
    keystore; [file_uuid_ok] whether the id of the state is a uuid.  [transfer]
    is [upload_parts] from a governor over the missing parts. *)
Definition try_resume (d : dir) (s : UploadState) (resume_answer : cliresult (result string value))
    (unwrap_dek : value -> cliresult bytes) (file_uuid_ok : bool)
    (transfer : bytes -> list value -> TransferGovernor -> cliresult (list UploadFanout.PartInput) * TransferGovernor)
    (now now' : Z) (complete_answer : list UploadFanout.PartInput -> cliresult value)
    : cliresult (option value) * dir :=
  match resume_answer with
  | Err error =>
      if bool_decide (code error = "not_found") then (Ok None, forget d (file_id s)) else (Err error, d)
  | Ok (Err e) => (Err (invalid_data ("resume response: " +:+ e)), d)
  | Ok (Ok resume) =>
      if geometry_agrees s resume then
        match value_get resume "wrapped_dek" with
        | None => (Err (invalid_data "resume response missing wrapped_dek"), d)
        | Some wrapped =>
            match unwrap_dek wrapped with
            | Err e => (Err e, d)
            | Ok dek =>
                if negb file_uuid_ok then (Err (invalid_data "upload state carries an invalid file id"), d)
                else
                  let uploaded := default [] (get_array resume "uploaded_parts") in
                  let part_urls := default [] (get_array resume "part_urls") in
                  match transfer dek part_urls (resume_governor s resume now) with
                  | (Err error, g) =>
                      (Err error,
                       if bool_decide (code error = "transfer_stalled")
                       then persist_rate_estimate d s g now' else d)
                  | (Ok new_parts, _) =>
                      let '(r, d) := finish d s (complete_answer (parts_of uploaded ++ new_parts)) in
                      (match r with Ok view => Ok (Some view) | Err e => Err e end, d)
                  end
            end
        end
      else (Ok None, forget d (file_id s))
  end.

(** ** The server's side *)

(** An answer that says the server no longer holds the upload. *)
Definition answer_ends (r : cliresult value) : bool :=
  match r with Ok _ => true | Err e => bool_decide (code e = "not_found") end.

(** The same upload: all fields but the rate and its time. *)
Definition same_upload (s t : UploadState) : Prop :=
  exists rate measured, t = with_rate s rate measured.

(** The state file of the upload is there and reads back. *)
Definition resumable (d : dir) (s : UploadState) : Prop :=
  exists b t, (path_for (file_id s), Some b) ∈ d /\ from_slice b = Some t /\ same_upload s t.

Lemma same_upload_file_id s t : same_upload s t -> file_id t = file_id s.
Proof. by intros (r & m & ->). Qed.

Lemma same_upload_refl s : same_upload s s.
Proof. exists (rate_estimate_bps s), (rate_measured_at_unix s). by destruct s. Qed.

Lemma same_upload_trans s t u : same_upload s t -> same_upload t u -> same_upload s u.
Proof. intros (r & m & ->) (r' & m' & ->). by exists r', m'. Qed.

Lemma dir_write_elem d p c : (p, c) ∈ dir_write d p c.
Proof.
  induction d as [|[q x] d IH]; cbn; [apply list_elem_of_here|].
  case_decide as E; [rewrite E; apply list_elem_of_here|by apply list_elem_of_further].
Qed.

(** A save that works makes the state resumable. *)
Lemma save_resumable d s d' : save_in faults at_ d s = (Ok tt, d') -> resumable d' s.
Proof.
  unfold save_in. destruct (mkdir_error faults); [done|]. destruct (to_vec_pretty s) as [b|] eqn:Hb; [|done].
  destruct (write_error faults) as [[e l]|]; [done|]. intros [= <-].
  destruct (from_slice_written s b Hb) as (t & Ht & Hsame). exists b, t. split; [apply dir_write_elem|]. split; [done|].
  eexists _, _. exact Hsame.
Qed.

(** What one resume is given. *)
Record attempt := mk_attempt {
  a_resume : cliresult (result string value);
  a_unwrap : value -> cliresult bytes;
  a_uuid_ok : bool;
  a_transfer : bytes -> list value -> TransferGovernor -> cliresult (list UploadFanout.PartInput) * TransferGovernor;
  a_now : Z;
  a_now' : Z;
  a_complete : list UploadFanout.PartInput -> cliresult value;
}.

Definition run_attempt (d : dir) (t : UploadState) (a : attempt) : cliresult (option value) * dir :=
  try_resume d t (a_resume a) (a_unwrap a) (a_uuid_ok a) (a_transfer a) (a_now a) (a_now' a) (a_complete a).

(** The answers a server gives while it holds the upload: it knows it, in its own
    geometry, and has not finalized it. *)
Definition held_answers (s : UploadState) (a : attempt) : Prop :=
  (forall e, a_resume a = Err e -> code e <> "not_found") /\
  (forall v, a_resume a = Ok (Ok v) -> geometry_agrees s v = true) /\
  (forall ps, answer_ends (a_complete a ps) = false).

(** What later runs do to the directory, in any number and order: they resume the
    upload, with the state that was read from its file; they resume other uploads,
    whatever becomes of them; and each begins with a search, which removes the states
    of its own destination that are of another source. *)
Inductive resumes (s : UploadState) : dir -> dir -> Prop :=
| no_more d : resumes s d d
| one_more d t a d' :
    same_upload s t -> held_answers s a -> resumes s (run_attempt d t a).2 d' -> resumes s d d'
| another d t a d' :
    file_id t <> file_id s -> resumes s (run_attempt d t a).2 d' -> resumes s d d'
| searched d k found d1 d' :
    find_match_in faults (Some d) k = (found, Some d1) ->
    (same_dest s k = true -> same_source s k = true) -> resumes s d1 d' -> resumes s d d'.

(** *** What happens to the other files *)

Lemma dir_write_names d p c : (dir_write d p c).*1 = if decide (p ∈ d.*1) then d.*1 else d.*1 ++ [p].
Proof.
  induction d as [|[q x] d IH]; cbn; [by rewrite decide_False by set_solver|].
  destruct (decide (q = p)) as [->|Hne]; cbn; [by rewrite decide_True by set_solver|]. rewrite IH.
  destruct (decide (p ∈ d.*1)); [rewrite decide_True by set_solver|rewrite decide_False by set_solver]; done.
Qed.

Lemma dir_write_nodup d p c : NoDup d.*1 -> NoDup (dir_write d p c).*1.
Proof.
  intros Hd. rewrite dir_write_names. destruct (decide (p ∈ d.*1)); [done|]. apply NoDup_app. split_and!; [done| |apply NoDup_singleton].
  intros x Hx ->%list_elem_of_singleton. done.
Qed.

Lemma dir_write_other d p c q x : q <> p -> (q, x) ∈ d -> (q, x) ∈ dir_write d p c.
Proof.
  intros Hq. induction d as [|[r y] d IH]; cbn; [by intros ?%elem_of_nil|].
  intros [[= <- <-]|Hin]%elem_of_cons; case_decide; [done|left|right; done|right; by apply IH].
Qed.

Lemma dir_remove_nodup d p : NoDup d.*1 -> NoDup (dir_remove d p).*1.
Proof.
  induction d as [|[q x] d IH]; [constructor|]. intros [Hq Hd]%NoDup_cons. specialize (IH Hd).
  unfold dir_remove in *. rewrite filter_cons. case_decide; [|done]. cbn. apply NoDup_cons. split; [|done].
  intros ([r y] & Hr & [_ Hin]%list_elem_of_filter)%list_elem_of_fmap. apply Hq, list_elem_of_fmap. by exists (r, y).
Qed.

Lemma try_remove_nodup d p : NoDup d.*1 -> NoDup (try_remove faults d p).*1.
Proof. intros Hd. unfold try_remove. destruct (unremovable faults p); [done|by apply dir_remove_nodup]. Qed.

(** The directory [d'] comes from [d] by changes to the file [p] alone, and a name is in
    it once. *)
Definition only_touches (p : string) (d d' : dir) : Prop :=
  (NoDup d.*1 -> NoDup d'.*1) /\ forall q x, q <> p -> (q, x) ∈ d -> (q, x) ∈ d'.

Lemma only_touches_refl p d : only_touches p d d.
Proof. by split. Qed.

Lemma forget_touches d fid : only_touches (path_for fid) d (forget d fid).
Proof.
  unfold forget, remove_in. split; [apply try_remove_nodup|]. intros q x Hq Hin. apply try_remove_elem. by split; [|left].
Qed.

Lemma save_touches d u : only_touches (path_for (file_id u)) d (save_state d u).
Proof.
  unfold save_state, save_in. destruct (mkdir_error faults); [apply only_touches_refl|].
  destruct (to_vec_pretty u); [|apply only_touches_refl].
  destruct (write_error faults) as [[e l]|]; (split; [apply dir_write_nodup|intros q x; apply dir_write_other]).
Qed.

Lemma persist_touches d t g now : only_touches (path_for (file_id t)) d (persist_rate_estimate d t g now).
Proof.
  unfold persist_rate_estimate. destruct (rate_estimate g) as [rate|]; [|apply only_touches_refl].
  exact (save_touches d (with_rate t (Some rate) (Some now))).
Qed.

Lemma finish_touches d t answer : only_touches (path_for (file_id t)) d (finish d t answer).2.
Proof.
  unfold finish. destruct answer as [v|e]; [apply forget_touches|]. case_bool_decide; [apply forget_touches|apply only_touches_refl].
Qed.

Lemma attempt_touches d t a : only_touches (path_for (file_id t)) d (run_attempt d t a).2.
Proof.
  unfold run_attempt, try_resume. destruct (a_resume a) as [[v|e]|e]; [|apply only_touches_refl|].
  - destruct (geometry_agrees t v); [|apply forget_touches].
    destruct (value_get v "wrapped_dek"); [|apply only_touches_refl]. destruct (a_unwrap a _); [|apply only_touches_refl].
    destruct (negb _); [apply only_touches_refl|]. destruct (a_transfer a _ _ _) as [[ps|e] g].
    + pose proof (finish_touches d t (a_complete a (parts_of (default [] (get_array v "uploaded_parts")) ++ ps))) as Hf.
      destruct (finish _ _ _). exact Hf.
    + cbn. case_bool_decide; [apply persist_touches|apply only_touches_refl].
  - case_bool_decide; [apply forget_touches|apply only_touches_refl].
Qed.

Lemma search_nodup entries d k found d' :
  NoDup d.*1 -> find_match_loop faults entries d k = (found, d') -> NoDup d'.*1.
Proof.
  revert d. induction entries as [|[p c] entries IH]; intros d Hd; cbn [find_match_loop]; [by intros [= _ <-]|].
  destruct (c ≫= from_slice) as [t|]; [|by apply IH]. destruct (same_dest t k); [|by apply IH].
  destruct (same_source t k); [by intros [= _ <-]|]. apply IH. by apply try_remove_nodup.
Qed.

Lemma path_for_inj a b : path_for a = path_for b -> a = b.
Proof. apply string_append_inj_r. Qed.

(** The states of the upload [s] can be written: the directory can be made, the state
    is serialized and the write succeeds. *)
Variable s : UploadState.
Hypothesis saves_work : forall d u, same_upload s u -> (save_in faults at_ d u).1 = Ok tt.

Lemma save_state_resumable d u : same_upload s u -> resumable (save_state d u) u.
Proof.
  intros Hu. unfold save_state. pose proof (saves_work d u Hu) as Hok. destruct (save_in faults at_ d u) as [r d'] eqn:E.
  cbn in *. subst r. by eapply save_resumable.
Qed.

Lemma persist_resumable d t g now : resumable d s -> same_upload s t -> resumable (persist_rate_estimate d t g now) s.
Proof.
  intros Hr Hst. unfold persist_rate_estimate. destruct (rate_estimate g) as [rate|]; [|done].
  destruct (save_state_resumable d (with_rate t (Some rate) (Some now))) as (b & v & Hin & Hv & Hsame).
  { eapply same_upload_trans; [exact Hst|]. by eexists _, _. }
  exists b, v. cbn [file_id with_rate] in Hin. rewrite (same_upload_file_id _ _ Hst) in Hin. split; [done|]. split; [done|].
  eapply same_upload_trans; [|exact Hsame]. eapply same_upload_trans; [exact Hst|]. by eexists _, _.
Qed.

Lemma attempt_keeps d t a :
  resumable d s -> same_upload s t -> held_answers s a -> resumable (run_attempt d t a).2 s.
Proof.
  intros Hr Hst (Hnf & Hgeo & Hcomp). unfold run_attempt, try_resume.
  destruct (a_resume a) as [[v|e]|e] eqn:Ha; [|done|].
  - assert (Hg : geometry_agrees t v = true) by (destruct Hst as (r & m & ->); exact (Hgeo v eq_refl)). rewrite Hg.
    destruct (value_get v "wrapped_dek") as [w|]; [|done]. destruct (a_unwrap a w) as [dek|]; [|done].
    destruct (a_uuid_ok a); [|done]. cbn [negb].
    destruct (a_transfer a dek _ _) as [[ps|e] g].
    + unfold finish. specialize (Hcomp (parts_of (default [] (get_array v "uploaded_parts")) ++ ps)).
      destruct (a_complete a _) as [view|e]; [done|]. cbn in Hcomp. by rewrite Hcomp.
    + cbn. case_bool_decide; [by apply persist_resumable|done].
  - rewrite bool_decide_eq_false_2 by (by apply Hnf). done.
Qed.

Lemma another_keeps d t a : file_id t <> file_id s -> resumable d s -> resumable (run_attempt d t a).2 s.
Proof.
  intros Hne (b & u & Hin & Hu & Hsame). exists b, u. split; [|done]. apply (proj2 (attempt_touches d t a)); [|done].
  intros Hp%path_for_inj. congruence.
Qed.

Lemma search_keeps d k found d1 :
  NoDup d.*1 -> find_match_in faults (Some d) k = (found, Some d1) ->
  (same_dest s k = true -> same_source s k = true) -> resumable d s -> resumable d1 s.
Proof.
  intros Hnd Hf Hk (b & u & Hin & Hu & Hsame). exists b, u. split; [|done].
  apply (find_match_cleans _ _ _ _ _ Hnd Hf); [done|]. intros (v & Hv & Hdest & Hsrc). cbn in Hv.
  assert (v = u) as -> by congruence. destruct Hsame as (r & m & ->).
  change (same_dest s k = true) in Hdest. change (same_source s k = false) in Hsrc.
  rewrite (Hk Hdest) in Hsrc. discriminate.
Qed.

Lemma resumes_keep d d' : resumes s d d' -> NoDup d.*1 -> resumable d s -> resumable d' s.
Proof.
  induction 1 as [d|d t a d' Hst Ha _ IH|d t a d' Hne _ IH|d k found d1 d' Hf Hk _ IH]; [done|..]; intros Hnd Hr; apply IH.
  - by apply (attempt_touches d t a).
  - by eapply attempt_keeps.
  - by apply (attempt_touches d t a).
  - by apply another_keeps.
  - unfold find_match_in in Hf. destruct (find_match_loop _ _ _ _) as [fd dd] eqn:El. injection Hf as _ <-. by eapply search_nodup.
  - by eapply search_keeps.
Qed.

Lemma fresh_nodup d transferred now complete_answer abort_answer :
  NoDup d.*1 -> NoDup (upload_fresh d s transferred now complete_answer abort_answer).2.*1.
Proof.
  intros Hd. unfold upload_fresh. apply (proj1 (save_touches d s)) in Hd. destruct transferred as [[ps|e] g].
  - by apply finish_touches.
  - case_bool_decide; cbn; [by apply (persist_touches _ s)|]. unfold abort_then_forget.
    destruct abort_answer; [by apply (forget_touches _ (file_id s))|done].
Qed.

(** C33: An upload is never orphaned, as long as its state files can be written.  After
    the initiate request, whatever becomes of the transfer (success, a stall, any other
    error) and of the finalize and abort requests, and through any number of later runs
    that search the directory, resume this upload with their own outcomes, or resume
    others: as long as the server holds the upload (it has not confirmed an abort or a
    finalize, nor answered that it does not know it, and keeps its geometry), and no run
    uploads another source to the same place, the local state file is there, readable,
    and names the same upload of the same source. *)
Theorem upload_never_orphaned d transferred now complete_answer abort_answer d' :
  NoDup d.*1 -> is_ok abort_answer = false -> (forall ps, answer_ends (complete_answer ps) = false) ->
  resumes s (upload_fresh d s transferred now complete_answer abort_answer).2 d' ->
  is_ok (upload_fresh d s transferred now complete_answer abort_answer).1 = false /\ resumable d' s.
Proof.
  intros Hnd Hab Hcomp Hres. enough (Hmid : is_ok (upload_fresh d s transferred now complete_answer abort_answer).1 = false /\
    resumable (upload_fresh d s transferred now complete_answer abort_answer).2 s).
  { destruct Hmid as [He Hr]. split; [done|]. eapply resumes_keep; [exact Hres|by apply fresh_nodup|done]. }
  clear Hres. pose proof (save_state_resumable d s (same_upload_refl s)) as Hs. unfold upload_fresh.
  destruct transferred as [[ps|e] g].
  - unfold finish. specialize (Hcomp ps). destruct (complete_answer ps) as [v|e]; [done|]. cbn in Hcomp. by rewrite Hcomp.
  - case_bool_decide; cbn; split; try done; [apply persist_resumable; [done|apply same_upload_refl]|].
    unfold abort_then_forget. by destruct abort_answer.
Qed.

End Code.

(** Recording the measured rate rewrites the only state file in place: when that
    write fails and leaves a cut file, the upload is no longer resumable. *)
Theorem rate_save_can_lose_state `{StateText} at_ s g now rate e :
  rate_estimate g = Some rate -> (forall u, is_ok (to_vec_pretty u) = true) -> from_slice [] = None ->
  let faults := mk_fs_faults None (Some (e, Some [])) (fun _ => false) in
  forall b, ~ resumable (persist_rate_estimate faults at_ [(path_for (file_id s), Some b)] s g now) s.
Proof.
  intros Hr Hser Hempty faults b (c & t & Hin & Ht & _). unfold persist_rate_estimate in Hin. rewrite Hr in Hin.
  unfold save_state, save_in in Hin. cbn [mkdir_error faults write_error] in Hin.
  destruct (to_vec_pretty _) as [j|] eqn:Hj; [|by pose proof (Hser (with_rate s (Some rate) (Some now))) as Hx; rewrite Hj in Hx].
  cbn in Hin. rewrite decide_True in Hin by done. apply elem_of_cons in Hin as [Hin|Hin]; [|by apply elem_of_nil in Hin].
  injection Hin as ->. congruence.
Qed.

(** ** A concrete upload *)

Import Toy UploadToy TextToy.

(** A text form of the states of one upload: only the time of the rate is written. *)
#[local] Program Instance one_upload_text : StateText := {
  to_vec_pretty s := if decide (with_rate s None None = st)
                     then Ok (str_bytes (pos_text (countable.encode (rate_measured_at_unix s)))) else Err "unknown";
  from_slice b := with_rate st None <$> countable.decode (text_pos (String.string_of_list_byte b));
}.
Next Obligation.
  cbn. intros s b. destruct (decide (with_rate s None None = st)) as [E|]; [|done]. intros [= <-].
  unfold str_bytes. rewrite String.string_of_list_byte_of_string, text_pos_text, decode_encode. cbn.
  eexists. split; [done|]. unfold same_but_rate. rewrite <- E. done.
Qed.

Definition stalls (dek : bytes) (urls : list value) (g : TransferGovernor)
    : cliresult (list UploadFanout.PartInput) * TransferGovernor := (Err (transfer_stalled "bad window"), g).
Definition lost (ps : list UploadFanout.PartInput) : cliresult value := Err (Transfer.network "no route").
Definition later : attempt :=
  mk_attempt (Err (Transfer.network "no route")) (fun _ => Ok []) true stalls 0 0 lost.

(** The key of a later run for the same source, and the directory that run searches. *)
Definition again : ResumeKey := key_of st.
Definition stalled_dir : dir :=
  (upload_fresh no_faults "/u" [] st (Err (transfer_stalled "bad window"), new default_knobs) 0 lost
    (Err (Transfer.network "no route"))).2.

(** A stalled upload; the next run finds its state and has no route to the server. *)
Lemma upload_never_orphaned_witness :
  find_match_in no_faults (Some stalled_dir) again = (Some (with_rate st None None), Some stalled_dir) /\
  resumable (run_attempt no_faults "/u" stalled_dir st later).2 st.
Proof.
  split; [vm_compute; reflexivity|].
  apply (upload_never_orphaned no_faults "/u" st) with (d := []) (transferred := (Err (transfer_stalled "bad window"), new default_knobs))
    (now := 0) (complete_answer := lost) (abort_answer := Err (Transfer.network "no route")).
  - intros d u (r & m & ->). unfold save_in. cbn [mkdir_error no_faults to_vec_pretty one_upload_text write_error].
    rewrite decide_True by reflexivity. reflexivity.
  - constructor.
  - reflexivity.
  - intros ps. reflexivity.
  - apply (searched _ _ _ _ again (Some (with_rate st None None)) stalled_dir); [vm_compute; reflexivity|intros _; vm_compute; reflexivity|].
    apply (one_more _ _ _ _ st later); [apply same_upload_refl| |apply no_more].
    split; [|split].
    + intros e [= <-]. discriminate.
    + intros v Hv. discriminate Hv.
    + intros ps. reflexivity.
Defined.

End UploadCommand.
