(* ===== verification/BucketUrl.v ===== *)
(** * Bucket addresses: the pre-signed URL and the endpoint it names
      ([cli/src/bucket_transport.rs])

    A pre-signed URL is taken apart without being normalised: the [Host] header must
    reproduce the authority that was signed, and the path with its query is sent as it
    is.  The resolved addresses are ordered IPv4 first. *)

From S2P Require Import Prelude Prims CryptoCore Text CliError Transfer.

Module BucketUrl.
Import Transfer.

Definition COLON : Ascii.ascii := Ascii.ascii_of_byte Byte.x3a.
Definition AT_SIGN : Ascii.ascii := Ascii.ascii_of_byte Byte.x40.
Definition OPEN_BRACKET : Ascii.ascii := Ascii.ascii_of_byte Byte.x5b.
Definition CLOSE_BRACKET : Ascii.ascii := Ascii.ascii_of_byte Byte.x5d.

(** [str::contains] of a character. *)
Definition has_char (c : Ascii.ascii) (s : string) : bool := bool_decide (is_Some (split_once c s)).

Record Target := mk_Target {
  host : string;
  port : Z;
  authority : string;
  request_target : string;
  tls : bool;
}.

Definition default_port (tls : bool) : Z := if tls then 443 else 80.

(** The authority of the [Host] header. *)
Definition wire_authority (host : string) (port : Z) (tls : bool) : string :=
  match has_char COLON host, (port =? default_port tls)%Z with
  | true, true => "[" +:+ host +:+ "]"
  | true, false => "[" +:+ host +:+ "]:" +:+ pretty port
  | false, true => host
  | false, false => host +:+ ":" +:+ pretty port
  end.

Definition parse_port (p : string) : cliresult Z :=
  let*! p := parse_uint u16_max p else network "bucket URL has an invalid port" in Ok p.

(** Host and port of an authority. *)
Definition host_port (a : string) (tls : bool) : cliresult (string * Z) :=
  match strip_prefix "[" a with
  | Some rest =>
      let*! inside_after := split_once CLOSE_BRACKET rest else network "bucket URL has an unterminated IPv6 literal" in
      let*? p := (match inside_after.2 with
                  | EmptyString => Ok (default_port tls)
                  | p => let*! p := strip_prefix ":" p else network "bucket URL has a malformed IPv6 authority" in
                         parse_port p
                  end) in
      Ok (inside_after.1, p)
  | None =>
      match rsplit_once COLON a with
      | Some (h, p) => let*? p := parse_port p in Ok (h, p)
      | None => Ok (a, default_port tls)
      end
  end.

Definition parse_rest (tls : bool) (rest : string) : cliresult Target :=
  let '(a, path) := match split_once SLASH rest with
                    | Some (a, p) => (a, "/" +:+ p)
                    | None => (rest, "/"%string)
                    end in
  guard negb (has_char AT_SIGN a) else network "bucket URL must not carry userinfo" ;;
  let*? hp := host_port a tls in
  guard negb (bool_decide (hp.1 = EmptyString)) else network "bucket URL has an empty host" ;;
  Ok (mk_Target hp.1 hp.2 (wire_authority hp.1 hp.2 tls) path tls).

Definition parse_url (url : string) : cliresult Target :=
  match strip_prefix "https://" url with
  | Some rest => parse_rest true rest
  | None =>
      match strip_prefix "http://" url with
      | Some rest => parse_rest false rest
      | None => Err (network ("bucket URL must be http or https: " +:+ redact url))
      end
  end.

(** ** Addresses *)

Inductive SocketAddr :=
| V4 (ip port : Z)
| V6 (ip port : Z).

#[export] Instance SocketAddr_eq_dec : EqDecision SocketAddr.
Proof. solve_decision. Defined.

Definition is_ipv4 (a : SocketAddr) : bool := match a with V4 _ _ => true | V6 _ _ => false end.
Definition is_ipv6 (a : SocketAddr) : bool := negb (is_ipv4 a).

Definition prefer_ipv4 (addrs : list SocketAddr) : list SocketAddr :=
  filter (fun a => is_ipv4 a = true) addrs ++ filter (fun a => is_ipv4 a = false) addrs.

Definition is_ipv6_fallback (connected : SocketAddr) (resolved : list SocketAddr) : bool :=
  is_ipv6 connected && existsb is_ipv4 resolved.

Example parses_bracketed :
  parse_url "http://[::1]:9000/b/k?X-Amz-Signature=s" =
  Ok (mk_Target "::1" 9000 "[::1]:9000" "/b/k?X-Amz-Signature=s" false).
Proof. reflexivity. Qed.
Example default_port_dropped :
  authority <$> ok_opt (parse_url "https://s3.example.com:443/b") = Some "s3.example.com"%string.
Proof. reflexivity. Qed.
Example no_userinfo : is_ok (parse_url "https://s3.example.com@evil.example/b") = false.
Proof. reflexivity. Qed.
Example trailing_colon : is_ok (parse_url "https://h:/b") = false.
Proof. reflexivity. Qed.

(** ** Lemmas on splitting *)

Lemma string_cons_app c s : String.String c s = String.String c EmptyString +:+ s.
Proof. done. Qed.

Lemma split_once_Some c s a b : split_once c s = Some (a, b) -> s = a +:+ String.String c b /\ char_free c a.
Proof.
  revert a b. induction s as [|x s IH]; intros a b; cbn [split_once]; [done|].
  case_decide as Hx; [intros [= <- <-]; by subst|].
  destruct (split_once c s) as [[a' b']|]; [|done]. intros [= <- <-].
  destruct (IH _ _ eq_refl) as [-> Hf]. by split.
Qed.

Lemma split_once_free c s : split_once c s = None <-> char_free c s.
Proof.
  induction s as [|x s IH]; cbn [split_once char_free]; [done|]. case_decide as Hx.
  - split; [done|]. by intros [].
  - rewrite fmap_None. tauto.
Qed.

Lemma split_once_app c a b : char_free c a -> split_once c (a +:+ String.String c b) = Some (a, b).
Proof.
  induction a as [|x a IH]; cbn [char_free].
  - intros _. change (EmptyString +:+ ?s) with s. cbn [split_once]. by rewrite decide_True.
  - intros [Hx Ha]. change (String.String x a +:+ ?s) with (String.String x (a +:+ s)). cbn [split_once].
    by rewrite decide_False, IH.
Qed.

Lemma rsplit_once_free c s : char_free c s -> rsplit_once c s = None.
Proof.
  induction s as [|x s IH]; cbn [rsplit_once char_free]; [done|]. intros [Hx Hs].
  by rewrite IH, decide_False.
Qed.

Lemma rsplit_once_app c a b : char_free c b -> rsplit_once c (a +:+ String.String c b) = Some (a, b).
Proof.
  intros Hb. induction a as [|x a IH].
  - change (EmptyString +:+ ?s) with s. cbn [rsplit_once]. by rewrite rsplit_once_free, decide_True.
  - change (String.String x a +:+ ?s) with (String.String x (a +:+ s)). cbn [rsplit_once]. by rewrite IH.
Qed.

Lemma has_char_false c s : has_char c s = false <-> char_free c s.
Proof.
  unfold has_char. rewrite bool_decide_eq_false, <- split_once_free, <- eq_None_not_Some. done.
Qed.

Lemma has_char_app c a b : has_char c (a +:+ b) = has_char c a || has_char c b.
Proof.
  destruct (has_char c (a +:+ b)) eqn:H; symmetry.
  - destruct (has_char c a) eqn:Ha, (has_char c b) eqn:Hb; try done.
    apply has_char_false in Ha, Hb. assert (Hab : char_free c (a +:+ b)) by by apply char_free_app.
    apply has_char_false in Hab. congruence.
  - apply has_char_false, char_free_app in H as [Ha Hb]. apply has_char_false in Ha, Hb. by rewrite Ha, Hb.
Qed.

Lemma digits_val_free c acc s n : digit_val c = None -> digits_val acc s = Some n -> char_free c s.
Proof.
  intros Hc. revert acc. induction s as [|x s IH]; intros acc; cbn [digits_val char_free]; [done|].
  destruct (digit_val x) as [d|] eqn:Hd; [|done]. intros Hs. split; [congruence|by eapply IH].
Qed.

(** A printed number is digits. *)
Lemma pretty_free c n : 0 <= n -> digit_val c = None -> c <> PLUS_char -> char_free c (pretty n).
Proof.
  intros Hn Hc Hp. pose proof (parse_uint_pretty n n ltac:(lia)) as H. unfold parse_uint in H.
  destruct (pretty n) as [|x s]; [done|]. case_decide as Hx.
  - destruct s as [|y s]; [done|]. destruct (digits_val 0 _) eqn:Hd; [|done].
    split; [congruence|by eapply digits_val_free].
  - destruct (digits_val 0 _) eqn:Hd; [|done]. by eapply digits_val_free.
Qed.

Lemma pretty_inj_nonneg a b : 0 <= a -> 0 <= b -> pretty a = pretty b -> a = b.
Proof.
  intros Ha Hb H. pose proof (parse_uint_pretty (Z.max a b) a ltac:(lia)) as H1.
  rewrite H, parse_uint_pretty in H1 by lia. congruence.
Qed.

(** ** The authority *)

Lemma port_free p : 0 <= p -> char_free COLON (pretty p) /\ char_free CLOSE_BRACKET (pretty p).
Proof. intros. split; by apply pretty_free. Qed.

(** What the last colon of an authority says of its form. *)
Lemma authority_shape h p s :
  0 <= p ->
  match rsplit_once COLON (wire_authority h p s) with
  | None => wire_authority h p s = h /\ p = default_port s
  | Some (x, y) =>
      if has_char CLOSE_BRACKET y then wire_authority h p s = "[" +:+ h +:+ "]" /\ p = default_port s
      else y = pretty p /\ x = if has_char COLON x then "[" +:+ h +:+ "]" else h
  end.
Proof.
  intros Hp. destruct (port_free p Hp) as [Hc Hb]. apply has_char_false in Hb. unfold wire_authority.
  destruct (has_char COLON h) eqn:Hh, (Z.eqb_spec p (default_port s)) as [Hd|Hd].
  - assert (Hx : exists x y, rsplit_once COLON h = Some (x, y) /\ h = x +:+ String.String COLON y /\ char_free COLON y).
    { unfold has_char in Hh. apply bool_decide_eq_true in Hh. clear -Hh. induction h as [|a h IH]; [by destruct Hh|].
      cbn [rsplit_once]. destruct (split_once COLON h) as [ab|] eqn:E.
      - destruct (IH ltac:(done)) as (x & y & -> & -> & Hf). by exists (String.String a x), y.
      - apply split_once_free in E. rewrite rsplit_once_free by done. destruct Hh as [ab Hh].
        cbn [split_once] in Hh. case_decide; [subst; by exists EmptyString, h|].
        apply split_once_free in E. by rewrite E in Hh. }
    destruct Hx as (x & y & _ & -> & Hf).
    replace ("[" +:+ (x +:+ String.String COLON y) +:+ "]") with (("[" +:+ x) +:+ String.String COLON (y +:+ "]"))
      by (rewrite !string_append_assoc; done).
    rewrite rsplit_once_app by (apply char_free_app; done).
    rewrite has_char_app, orb_true_r. split; [|done]. by rewrite !string_append_assoc.
  - replace ("[" +:+ h +:+ "]:" +:+ pretty p) with (("[" +:+ h +:+ "]") +:+ String.String COLON (pretty p))
      by (rewrite !string_append_assoc; done).
    rewrite rsplit_once_app, Hb by done. split; [done|]. by rewrite !has_char_app, Hh.
  - rewrite rsplit_once_free by by apply has_char_false. done.
  - change (h +:+ ":" +:+ pretty p) with (h +:+ String.String COLON (pretty p)).
    rewrite rsplit_once_app, Hb, Hh by done. done.
Qed.

(** The authority names the endpoint: the host, and the port where it is not the
    default one of the scheme. *)
Lemma wire_authority_inj h1 p1 s1 h2 p2 s2 :
  0 <= p1 -> 0 <= p2 -> wire_authority h1 p1 s1 = wire_authority h2 p2 s2 ->
  h1 = h2 /\ (p1 = p2 \/ p1 = default_port s1 /\ p2 = default_port s2).
Proof.
  intros H1 H2 Ha. pose proof (authority_shape h1 p1 s1 H1) as Hs1.
  pose proof (authority_shape h2 p2 s2 H2) as Hs2. rewrite <- Ha in Hs2.
  assert (Hbr : forall a b : string, "[" +:+ a +:+ "]" = "[" +:+ b +:+ "]" -> a = b).
  { intros a b Hab%(inj (String.append "[")). by apply string_append_inj_r in Hab. }
  destruct (rsplit_once COLON _) as [[x y]|].
  - destruct (has_char CLOSE_BRACKET y).
    + destruct Hs1 as [Hs1 ->], Hs2 as [Hs2 ->]. split; [|by right]. apply Hbr. congruence.
    + destruct Hs1 as [-> Hx1], Hs2 as [Hy Hx2]. apply pretty_inj_nonneg in Hy; [|done|done].
      split; [|by left]. destruct (has_char COLON x); [apply Hbr|]; congruence.
  - destruct Hs1 as [Hs1 ->], Hs2 as [Hs2 ->]. split; [congruence|by right].
Qed.

Lemma parse_port_range s p : parse_port s = Ok p -> 0 <= p <= u16_max.
Proof.
  unfold parse_port. destruct (parse_uint _ _) eqn:E; [|done]. intros [= <-]. by eapply parse_uint_range.
Qed.

Lemma host_port_range a s hp : host_port a s = Ok hp -> 0 <= hp.2 <= u16_max.
Proof.
  assert (Hd : 0 <= default_port s <= u16_max) by by destruct s.
  unfold host_port. destruct (strip_prefix _ a) as [rest|].
  - destruct (split_once _ _) as [[i [|c r]]|]; cbn [snd]; [by intros [= <-]| |done].
    destruct (strip_prefix ":" _); [|done]. destruct (parse_port _) eqn:E; [|done]. intros [= <-].
    by eapply parse_port_range.
  - destruct (rsplit_once _ _) as [[h p]|]; [|by intros [= <-]].
    destruct (parse_port _) eqn:E; [|done]. intros [= <-]. by eapply parse_port_range.
Qed.

Lemma parse_rest_Ok s rest t :
  parse_rest s rest = Ok t ->
  tls t = s /\ authority t = wire_authority (host t) (port t) s /\ 0 <= port t <= u16_max.
Proof.
  unfold parse_rest. destruct (match split_once _ _ with Some _ => _ | None => _ end) as [a path].
  destruct (negb _); [|done]. destruct (host_port a s) as [hp|] eqn:E; [|done].
  destruct (negb _); [|done]. intros [= <-]. apply host_port_range in E. done.
Qed.

Lemma parse_url_Ok u t :
  parse_url u = Ok t -> authority t = wire_authority (host t) (port t) (tls t) /\ 0 <= port t <= u16_max.
Proof.
  unfold parse_url. destruct (strip_prefix _ u); [|destruct (strip_prefix _ u); [|done]].
  all: by intros (-> & ? & ?)%parse_rest_Ok.
Qed.

(** Two URLs with one authority and one scheme have one endpoint. *)
Lemma same_endpoint u1 t1 u2 t2 :
  parse_url u1 = Ok t1 -> parse_url u2 = Ok t2 -> authority t1 = authority t2 ->
  host t1 = host t2 /\ (tls t1 = tls t2 -> port t1 = port t2).
Proof.
  intros [H1 Hp1]%parse_url_Ok [H2 Hp2]%parse_url_Ok Ha. rewrite H1, H2 in Ha.
  apply wire_authority_inj in Ha as [Hh Hp]; [|lia|lia]. split; [done|]. intros Hs.
  destruct Hp as [|[-> ->]]; [done|by rewrite Hs].
Qed.

(** ** Round trip *)

Definition scheme (tls : bool) : string := if tls then "https://" else "http://".

(** A host without the characters that delimit an authority. *)
Definition plain_host (h : string) : Prop :=
  h <> EmptyString /\ char_free SLASH h /\ char_free AT_SIGN h /\ char_free OPEN_BRACKET h /\ char_free CLOSE_BRACKET h.

Lemma strip_prefix_self p s : strip_prefix p (p +:+ s) = Some s.
Proof.
  induction p as [|a p IH]; [done|]. change (String.String a p +:+ s) with (String.String a (p +:+ s)).
  cbn [strip_prefix]. by rewrite decide_True.
Qed.

Lemma parse_url_scheme s rest : parse_url (scheme s +:+ rest) = parse_rest s rest.
Proof.
  destruct s; unfold parse_url, scheme; [by rewrite strip_prefix_self|].
  change (strip_prefix "https://" ("http://" +:+ rest)) with (@None string). by rewrite strip_prefix_self.
Qed.

Lemma strip_bracket h s : char_free OPEN_BRACKET h -> h <> EmptyString -> strip_prefix "[" (h +:+ s) = None.
Proof.
  destruct h as [|a h]; [done|]. intros [Ha _] _. change (String.String a h +:+ s) with (String.String a (h +:+ s)).
  cbn [strip_prefix]. by rewrite decide_False by done.
Qed.

Lemma parse_port_pretty p : 0 <= p <= u16_max -> parse_port (pretty p) = Ok p.
Proof. intros. unfold parse_port. by rewrite parse_uint_pretty. Qed.

(** The authority is taken apart to the host and the port it was made of. *)
Lemma host_port_authority h p s : plain_host h -> 0 <= p <= u16_max -> host_port (wire_authority h p s) s = Ok (h, p).
Proof.
  intros (Hne & _ & _ & Ho & Hcl) Hp. destruct (port_free p) as [Hc _]; [lia|]. unfold host_port, wire_authority.
  destruct (has_char COLON h) eqn:Hh, (Z.eqb_spec p (default_port s)) as [->|Hd].
  - rewrite strip_prefix_self, (split_once_app CLOSE_BRACKET) by done. done.
  - rewrite strip_prefix_self. change (h +:+ "]:" +:+ pretty p) with (h +:+ String.String CLOSE_BRACKET (":" +:+ pretty p)).
    rewrite split_once_app by done. cbn [fst snd]. change (":" +:+ pretty p) with (String.String COLON (pretty p)).
    cbv iota. change (String.String COLON (pretty p)) with (":" +:+ pretty p).
    rewrite strip_prefix_self, parse_port_pretty by done. done.
  - pose proof (strip_bracket h EmptyString Ho Hne) as Hs.
    assert (He : h +:+ EmptyString = h) by (apply (inj str_bytes); rewrite str_bytes_app; apply app_nil_r).
    rewrite He in Hs. rewrite Hs. rewrite rsplit_once_free by by apply has_char_false. done.
  - rewrite strip_bracket by done. change (h +:+ ":" +:+ pretty p) with (h +:+ String.String COLON (pretty p)).
    rewrite rsplit_once_app by done. cbv iota beta. by rewrite parse_port_pretty.
Qed.

Lemma authority_free c h p s :
  char_free c h -> c <> COLON -> c <> OPEN_BRACKET -> c <> CLOSE_BRACKET -> digit_val c = None -> c <> PLUS_char ->
  0 <= p -> char_free c (wire_authority h p s).
Proof.
  intros Hh Hc Ho Hcl Hd Hpl Hp. pose proof (pretty_free c p Hp Hd Hpl). unfold wire_authority.
  destruct (has_char COLON h), (p =? _)%Z; rewrite ?char_free_app; cbn [char_free]; unfold OPEN_BRACKET, CLOSE_BRACKET, COLON in *;
    split_and?; done || (intros [=]; congruence) || auto.
Qed.

(** An address is taken apart without loss: the URL of an endpoint and a path is
    parsed to that endpoint, its authority as it stands in the URL, and the path. *)
Theorem url_round_trip h p s path :
  plain_host h -> 0 <= p <= u16_max ->
  parse_url (scheme s +:+ wire_authority h p s +:+ "/" +:+ path) =
  Ok (mk_Target h p (wire_authority h p s) ("/" +:+ path) s).
Proof.
  intros Hh Hp. pose proof Hh as (Hne & Hsl & Hat & _ & _). rewrite parse_url_scheme. unfold parse_rest.
  change (?a +:+ "/" +:+ path) with (a +:+ String.String SLASH path).
  rewrite split_once_app by (apply authority_free; done || lia).
  rewrite (proj2 (has_char_false AT_SIGN _)) by (apply authority_free; done || lia). cbn [negb].
  rewrite host_port_authority by done. cbn [fst snd]. by rewrite bool_decide_false.
Qed.

(** Nothing but the request line depends on what follows the authority: not the host
    that is resolved and connected to, not the [Host] header, not the key of the pool,
    and not the error when the address is refused. *)
Theorem path_only_in_target s a p p' :
  char_free SLASH a ->
  match parse_url (scheme s +:+ a +:+ "/" +:+ p), parse_url (scheme s +:+ a +:+ "/" +:+ p') with
  | Ok t, Ok t' => t' = mk_Target (host t) (port t) (authority t) ("/" +:+ p') (tls t) /\ request_target t = "/" +:+ p
  | Err e, Err e' => e = e'
  | _, _ => False
  end.
Proof.
  intros Ha. rewrite !parse_url_scheme. unfold parse_rest.
  change (a +:+ "/" +:+ ?q) with (a +:+ String.String SLASH q). rewrite !split_once_app by done.
  destruct (negb _); [|done]. destruct (host_port a s) as [hp|]; [|done]. by destruct (negb _).
Qed.

(** Without a path the query is taken for part of the host, and then appears in the
    message of a failed resolution. *)
Example slashless_query_is_host :
  host <$> ok_opt (parse_url "https://h?X-Amz-Signature=s") = Some "h?X-Amz-Signature=s"%string.
Proof. reflexivity. Qed.

(** ** Address order *)

Lemma prefer_ipv4_elem a l : a ∈ prefer_ipv4 l <-> a ∈ l.
Proof.
  unfold prefer_ipv4. rewrite elem_of_app, !list_elem_of_filter. destruct (is_ipv4 a); naive_solver.
Qed.

(** The addresses are those resolved, the IPv4 ones before the others. *)
Lemma prefer_ipv4_order l i j a b :
  prefer_ipv4 l !! i = Some a -> prefer_ipv4 l !! j = Some b -> is_ipv4 a = true -> is_ipv4 b = false -> (i < j)%nat.
Proof.
  unfold prefer_ipv4. intros Hi Hj Ha Hb. rewrite lookup_app_Some in Hi, Hj.
  destruct Hi as [Hi|[Hl Hi]], Hj as [Hj|[Hl' Hj]].
  - apply list_elem_of_lookup_2, list_elem_of_filter in Hj as [Hj _]. congruence.
  - apply lookup_lt_Some in Hi. lia.
  - apply list_elem_of_lookup_2, list_elem_of_filter in Hj as [Hj _]. congruence.
  - apply list_elem_of_lookup_2, list_elem_of_filter in Hi as [Hi _]. congruence.
Qed.

End BucketUrl.
