(* ===== verification/BucketTransport.v ===== *)
(** * The bucket transport: one HTTP/1.1 exchange on one socket
      ([cli/src/bucket_transport.rs], [cli/src/http.rs])

    Sockets, the clock, name resolution and TLS are a class of operations whose
    answers are arbitrary; every one of them that is called is an event of the trace, in
    order.  A computation takes the network to a result and the network after it, and
    has no result when it panics or runs out of fuel: only a write that is interrupted
    again and again and a handshake that goes on for ever do the latter.  The pool of
    idle connections is part of the state; a computation is the work of one thread, and
    what the threads that share the pool do between its calls is not part of it.  The
    operating system's text of an error is left out of the messages. *)

From Stdlib Require Import Floats.SpecFloat.
From S2P Require Import Prelude Prims CryptoCore Text CliError Float64 Governor Transfer BucketUrl.

Module BucketTransport.
Import Transfer BucketUrl.

(** ** Bounds *)

Definition CONNECT_TIMEOUT : Duration := from_secs 10.
Definition HANDSHAKE_TIMEOUT : Duration := from_secs 15.
Definition READ_DISARMED : Duration := from_secs 86400.
Definition RESPONSE_ALLOWANCE : Duration := from_secs 60.
Definition MAX_ERROR_BODY_BYTES : Z := 64 * 1024.
Definition RESPONSE_BACKSTOP_FLOOR : Duration := from_secs 300.
(** [500_000.0 / 8.0] *)
Definition MIN_CREDIBLE_RATE_BPS : f64 := f64_of_Z 62500.
Definition RESPONSE_BACKSTOP_K : f64 := f64_of_Z 4.
Definition DRAIN_USABILITY_CAP : f64 := f64_of_Z 600.
(** The cap on the header and the size of the read buffer. *)
Definition HEADER_CAP : Z := 64 * 1024.
Definition READ_CHUNK : Z := 8 * 1024.

Record TransportBounds := mk_TransportBounds {
  write_gap : Duration;
  tb_sndbuf_bytes : Z;
  response_backstop_floor : Duration;
}.
Definition default_bounds : TransportBounds := mk_TransportBounds (from_secs 12) (1024 * 1024) RESPONSE_BACKSTOP_FLOOR.
Definition transport_bounds (k : TransferKnobs) : TransportBounds :=
  mk_TransportBounds (stall_timeout k) (sndbuf_bytes k) (response_backstop_floor default_bounds).

(** [None] is a panic of [from_secs_f64]. *)
Definition response_backstop (expected_body_bytes : option Z) (floor : Duration) : option Duration :=
  match expected_body_bytes with
  | None => Some floor
  | Some n =>
      derived ← from_secs_f64 (f64_min (f64_mul (f64_div (f64_of_Z n) MIN_CREDIBLE_RATE_BPS) RESPONSE_BACKSTOP_K)
                                       (f64_of_Z 86400));
      Some (Z.max derived floor)
  end.

(** [Instant + Duration], which panics when the sum is past the last instant: 2^63 - 1
    seconds and all the nanoseconds of one, on Unix. *)
Definition INSTANT_MAX : Z := 2 ^ 63 * NANOS_PER_SEC - 1.
Definition instant_add (t d : Z) : option Z := if t + d <=? INSTANT_MAX then Some (t + d) else None.

Definition write_phase_deadline (ceiling : option Duration) : option Duration := ceiling.

Definition response_ceiling (b : TransportBounds) (observed_rate_bps : f64) : option Duration :=
  drain ← (if SFltb (f64_of_Z 1) observed_rate_bps then
             from_secs_f64 (f64_min (f64_div (f64_of_Z (tb_sndbuf_bytes b)) observed_rate_bps) DRAIN_USABILITY_CAP)
           else Some (from_secs 60));
  Some (drain + RESPONSE_ALLOWANCE).

(** [Duration]'s [Debug]: the fraction is printed without its trailing zeros. *)
Definition ZERO_char : Ascii.ascii := Ascii.ascii_of_byte Byte.x30.
Fixpoint zero_pad (width : nat) (s : string) : string :=
  match width with
  | O => s
  | S w => if decide (String.length s < width)%nat then String.String ZERO_char (zero_pad w s) else s
  end.
Definition fmt_decimal (int frac : Z) (width : nat) : string :=
  if frac =? 0 then pretty int
  else pretty int +:+ "." +:+ trim_end_char ZERO_char (zero_pad width (pretty frac)).
Definition duration_debug (d : Duration) : string :=
  let secs := d / NANOS_PER_SEC in
  let nanos := d mod NANOS_PER_SEC in
  if 0 <? secs then fmt_decimal secs nanos 9 +:+ "s"
  else if 1000000 <=? nanos then fmt_decimal (nanos / 1000000) (nanos mod 1000000) 6 +:+ "ms"
  else if 1000 <=? nanos then fmt_decimal (nanos / 1000) (nanos mod 1000) 3 +:+ "µs"
  else pretty nanos +:+ "ns".

Example debug_durations :
  map duration_debug [15000000000; 1050000000; 1500000; 2000; 0] = ["15s"; "1.05s"; "1.5ms"; "2µs"; "0ns"]%string.
Proof. reflexivity. Qed.

(** ** Sockets *)

Inductive ErrorKind := WouldBlock | TimedOut | Interrupted | OtherKind.
Abbreviation io A := (result ErrorKind A).
Definition timed_out (k : ErrorKind) : bool := match k with WouldBlock | TimedOut => true | _ => false end.

(** What the standard library and rustls answer.  A socket is named by a number; the
    flag says whether its bytes go through TLS. *)
Class Sockets (E : Type) := {
  s_now : E -> Z * E;
  s_resolve : string -> Z -> E -> io (list SocketAddr) * E;
  s_connect : SocketAddr -> Duration -> nat -> E -> io unit * E;
  s_set_read_timeout : nat -> Duration -> E -> io unit * E;
  s_set_write_timeout : nat -> Duration -> E -> io unit * E;
  s_write_timeout : nat -> E -> option Duration;
  s_server_name : string -> bool;
  s_client_connection : string -> bool;
  s_is_handshaking : nat -> E -> bool;
  s_complete_io : nat -> E -> io (nat * nat) * E;
  s_read : bool -> nat -> Z -> E -> io bytes * E;
  s_write : bool -> nat -> bytes -> E -> io nat * E;
  s_flush : bool -> nat -> E -> io unit * E;
  s_shutdown : nat -> E -> E;
}.

(** The calls, as they happen.  [EWrite] has the bytes that were accepted. *)
Inductive Event :=
| ENow (t : Z)
| EResolve (host : string) (port : Z) (r : io (list SocketAddr))
| EConnect (a : SocketAddr) (s : nat) (ok : bool)
| EArmRead (s : nat) (d : Duration) (ok : bool)
| EArmWrite (s : nat) (d : Duration) (ok : bool)
| EHandshake (s : nat) (r : io (nat * nat))
| EWrite (s : nat) (b : bytes)
| ERead (s : nat) (r : io bytes)
| EFlush (s : nat)
| EShutdown (s : nat).

Record Connection := mk_Connection {
  c_tls : bool;
  c_sock : nat;
  c_deadline : option Z;
}.
Definition with_deadline (d : option Z) (c : Connection) : Connection := mk_Connection (c_tls c) (c_sock c) d.

Record Response := mk_Response {
  r_status : Z;
  r_etag : option string;
  r_body : bytes;
  r_reusable : bool;
}.

Record Transfer := mk_Transfer {
  t_status : Z;
  t_etag : option string;
  t_body : bytes;
  t_observed_rate_bps : f64;
}.

(** ** Parsing a response head *)

Definition CRLF : string := String.String CR_char (String.String LF_char EmptyString).

Fixpoint find_headers_end (buf : bytes) : option nat :=
  match buf with
  | [] => None
  | _ :: rest =>
      if decide (take 4 buf = str_bytes (CRLF +:+ CRLF)) then Some 4%nat
      else S <$> find_headers_end rest
  end.

Record HeadFields := mk_HeadFields {
  hf_etag : option string;
  hf_content_length : option Z;
  hf_chunked : bool;
  hf_server_close : bool;
}.

Definition head_line (f : HeadFields) (line : string) : HeadFields :=
  match split_once COLON line with
  | None => f
  | Some (name, value) =>
      let value := trim value in
      if eq_ignore_ascii_case name "etag" then
        mk_HeadFields (Some value) (hf_content_length f) (hf_chunked f) (hf_server_close f)
      else if eq_ignore_ascii_case name "content-length" then
        mk_HeadFields (hf_etag f) (parse_uint u64_max value) (hf_chunked f) (hf_server_close f)
      else if eq_ignore_ascii_case name "transfer-encoding" && contains (to_ascii_lowercase value) "chunked" then
        mk_HeadFields (hf_etag f) (hf_content_length f) true (hf_server_close f)
      else if eq_ignore_ascii_case name "connection" && contains (to_ascii_lowercase value) "close" then
        mk_HeadFields (hf_etag f) (hf_content_length f) (hf_chunked f) true
      else f
  end.

Definition parse_head (head : bytes) : cliresult (Z * HeadFields) :=
  let lines := split_crlf (from_utf8_lossy head) in
  let status_line := default EmptyString (list.head lines) in
  let*! status := split_whitespace status_line !! 1%nat ≫= parse_uint u16_max
    else network ("malformed status line from storage: " +:+ status_line) in
  Ok (status, foldl head_line (mk_HeadFields None None false false) (tail lines)).

Definition request_head (method : string) (t : Target) (extra_headers : list (string * string))
    (body : bytes) (keep_alive : bool) : string :=
  method +:+ " " +:+ request_target t +:+ " HTTP/1.1" +:+ CRLF
  +:+ "Host: " +:+ authority t +:+ CRLF
  +:+ "Connection: " +:+ (if keep_alive then "keep-alive" else "close") +:+ CRLF
  +:+ (if negb (bool_decide (body = [])) || bool_decide (method = "PUT"%string)
       then "Content-Length: " +:+ pretty (Z.of_nat (length body)) +:+ CRLF else EmptyString)
  +:+ foldr (fun h acc => h.1 +:+ ": " +:+ h.2 +:+ CRLF +:+ acc) EmptyString extra_headers
  +:+ CRLF.

(** ** The network *)

Section Transport.
Context {E : Type} `{SK : Sockets E}.

Record Net := mk_Net {
  n_env : E;
  n_next : nat;
  n_trace : list Event;
  n_idle : list (string * Connection);
}.

Definition M (A : Type) : Type := Net -> option (cliresult A * Net).

#[export] Instance M_ret : MRet M := fun A a n => Some (Ok a, n).
#[export] Instance M_bind : MBind M := fun A B k m n =>
  match m n with
  | Some (Ok a, n') => k a n'
  | Some (Err e, n') => Some (Err e, n')
  | None => None
  end.
Definition fail {A} (e : CliError) : M A := fun n => Some (Err e, n).
Definition lift {A} (r : cliresult A) : M A := fun n => Some (r, n).
Definition stuck {A} : M A := fun _ => None.
(** What a computation returned, as a value. *)
Definition try {A} (m : M A) : M (cliresult A) := fun n =>
  match m n with Some (r, n') => Some (Ok r, n') | None => None end.
Definition panics {A} (o : option A) : M A := match o with Some a => mret a | None => stuck end.

(** A call of the environment and its events. *)
Definition call {A} (f : E -> A * E) (ev : A -> list Event) : M A := fun n =>
  let '(a, e) := f (n_env n) in
  Some (Ok a, mk_Net e (n_next n) (n_trace n ++ ev a) (n_idle n)).
Definition peek {A} (f : E -> A) : M A := fun n => Some (Ok (f (n_env n)), n).

Definition now : M Z := call s_now (fun t => [ENow t]).
Definition set_read_timeout (s : nat) (d : Duration) : M (io unit) :=
  call (s_set_read_timeout s d) (fun r => [EArmRead s d (is_ok r)]).
Definition set_write_timeout (s : nat) (d : Duration) : M (io unit) :=
  call (s_set_write_timeout s d) (fun r => [EArmWrite s d (is_ok r)]).
Definition wire_read (c : Connection) : M (io bytes) :=
  call (s_read (c_tls c) (c_sock c) READ_CHUNK) (fun r => [ERead (c_sock c) r]).
Definition wire_write (c : Connection) (buf : bytes) : M (io nat) :=
  call (s_write (c_tls c) (c_sock c) buf)
       (fun r => [EWrite (c_sock c) (match r with Ok n => take n buf | Err _ => [] end)]).
Definition wire_flush (c : Connection) : M (io unit) :=
  call (s_flush (c_tls c) (c_sock c)) (fun _ => [EFlush (c_sock c)]).
Definition shutdown (c : Connection) : M unit :=
  call (fun e => (tt, s_shutdown (c_sock c) e)) (fun _ => [EShutdown (c_sock c)]).

Definition arm_read_timeout (s : nat) (d : Duration) : M unit :=
  r ← set_read_timeout s d;
  match r with
  | Ok _ => mret tt
  | Err _ => fail (network ("cannot arm the transfer read bound (" +:+ pretty (d / NANOS_PER_SEC) +:+ "s) on this socket"))
  end.
Definition arm_read_timeout_best_effort (s : nat) (d : Duration) : M unit :=
  r ← set_read_timeout s d; mret tt.
Definition arm_write_timeout (s : nat) (d : Duration) : M unit :=
  r ← set_write_timeout s d;
  match r with
  | Ok _ => mret tt
  | Err _ => fail (network ("cannot arm the transfer write-gap bound (" +:+ pretty (d / NANOS_PER_SEC) +:+ "s) on this socket"))
  end.

(** ** Opening *)

(** The addresses in turn; the new socket has the next number. *)
Fixpoint connect_first (addrs : list SocketAddr) : M (option (SocketAddr * nat)) :=
  match addrs with
  | [] => mret None
  | a :: addrs => fun n =>
      let s := n_next n in
      let '(r, e) := s_connect a CONNECT_TIMEOUT s (n_env n) in
      let n' := mk_Net e (S s) (n_trace n ++ [EConnect a s (is_ok r)]) (n_idle n) in
      match r with
      | Ok _ => Some (Ok (Some (a, s)), n')
      | Err _ => connect_first addrs n'
      end
  end.

Fixpoint handshake (fuel : nat) (s : nat) : M unit :=
  match fuel with
  | O => stuck
  | S fuel =>
      hs ← peek (s_is_handshaking s);
      if hs : bool then
        r ← call (s_complete_io s) (fun r => [EHandshake s r]);
        match r with
        | Err k =>
            if timed_out k then
              fail (network ("storage accepted the connection but did not complete the TLS handshake within "
                +:+ pretty (HANDSHAKE_TIMEOUT / NANOS_PER_SEC)
                +:+ "s; treating the flow as dead and retrying on a fresh connection"))
            else fail (network "TLS handshake failed")
        | Ok (rd, wr) =>
            hs ← peek (s_is_handshaking s);
            if bool_decide (rd = 0%nat) && bool_decide (wr = 0%nat) && hs then
              fail (network "storage closed the connection during the TLS handshake")
            else handshake fuel s
        end
      else mret tt
  end.

Definition open (fuel : nat) (t : Target) (b : TransportBounds) : M Connection :=
  r ← call (s_resolve (host t) (port t)) (fun r => [EResolve (host t) (port t) r]);
  match r with
  | Err _ => fail (network ("cannot resolve " +:+ host t))
  | Ok resolved =>
      let addrs := prefer_ipv4 resolved in
      tcp ← connect_first addrs;
      match tcp with
      | None => fail (network ("cannot connect to " +:+ host t))
      | Some (a, s) =>
          arm_read_timeout s HANDSHAKE_TIMEOUT;;
          arm_write_timeout s (write_gap b);;
          if tls t then
            if negb (s_server_name (host t)) then fail (network "bucket URL host is not a valid TLS server name")
            else if negb (s_client_connection (host t)) then fail (network "TLS setup failed")
            else handshake fuel s;; mret (mk_Connection true s None)
          else mret (mk_Connection false s None)
      end
  end.

(** ** Writing *)

Definition check_deadline (c : Connection) : M unit :=
  match c_deadline c with
  | None => mret tt
  | Some d =>
      t ← now;
      if d <=? t then
        fail (transfer_stalled ("the part exceeded the time its measured transfer rate predicts (a trickling or "
          +:+ "wedged connection); retrying on a fresh connection"))
      else mret tt
  end.

Fixpoint write_loop (fuel : nat) (c : Connection) (buf : bytes) : M unit :=
  match fuel with
  | O => stuck
  | S fuel =>
      if decide (buf = []) then mret tt
      else
        check_deadline c;;
        r ← wire_write c buf;
        match r with
        | Ok O => fail (transfer_stalled "storage connection accepted no further bytes (stalled flow)")
        | Ok n => write_loop fuel c (drop n buf)
        | Err Interrupted => write_loop fuel c buf
        | Err k =>
            if timed_out k then
              d ← peek (s_write_timeout (c_sock c));
              fail (transfer_stalled ("no upload progress for " +:+ duration_debug (default 0 d)
                      +:+ ": stalled connection aborted"))
            else fail (network "writing to storage")
        end
  end.

Definition write_all_gap_bounded (fuel : nat) (c : Connection) (buf : bytes) : M unit :=
  write_loop fuel c buf;;
  r ← wire_flush c;
  match r with Ok _ => mret tt | Err _ => fail (network "flushing to storage") end.

(** ** Reading *)

(** The header phase: the buffer and where the header ends. *)
Fixpoint read_head (fuel : nat) (c : Connection) (buf : bytes) : M (bytes * nat) :=
  match fuel with
  | O => stuck
  | S fuel =>
      match find_headers_end buf with
      | Some i => mret (buf, i)
      | None =>
          check_deadline c;;
          r ← wire_read c;
          match r with
          | Err k =>
              if timed_out k then
                fail (transfer_stalled "storage did not answer within the expected window after the body was sent")
              else fail (network "reading storage response")
          | Ok [] => fail (network "storage closed the connection before responding")
          | Ok b =>
              let buf := buf ++ b in
              if HEADER_CAP <? Z.of_nat (length buf) then fail (network "storage response headers are implausibly large")
              else read_head fuel c buf
          end
      end
  end.

(** An error body: what can be had of it. *)
Fixpoint read_diagnostic (fuel : nat) (c : Connection) (cap : Z) (body : bytes) : M bytes :=
  match fuel with
  | O => stuck
  | S fuel =>
      if Z.of_nat (length body) <? cap then
        ok ← try (check_deadline c);
        match ok with
        | Err _ => mret body
        | Ok _ =>
            r ← wire_read c;
            match r with
            | Ok [] | Err _ => mret body
            | Ok b => read_diagnostic fuel c cap (body ++ b)
            end
        end
      else mret body
  end.

(** A data body: all of it. *)
Fixpoint read_data (fuel : nat) (c : Connection) (target : Z) (body : bytes) : M bytes :=
  match fuel with
  | O => stuck
  | S fuel =>
      if Z.of_nat (length body) <? target then
        check_deadline c;;
        r ← wire_read c;
        match r with
        | Err k =>
            if timed_out k then fail (transfer_stalled "storage stopped sending the response body")
            else fail (network "reading storage response body")
        | Ok [] =>
            fail (network ("storage closed the connection mid-body: received " +:+ pretty (Z.of_nat (length body))
              +:+ " of " +:+ pretty target +:+ " declared bytes"))
        | Ok b => read_data fuel c target (body ++ b)
        end
      else mret body
  end.

Definition is_diagnostic (status : Z) : bool := (400 <=? status) || ((300 <=? status) && (status <? 400)).

(** The body, and whether more came than was declared. *)
Definition read_body (c : Connection) (want_body : bool) (body_gap : Duration) (status : Z) (f : HeadFields)
    (body : bytes) : M (bytes * bool) :=
  if want_body || (400 <=? status) then
    if hf_chunked f then
      fail (network "storage used chunked transfer-encoding, which this transport does not accept")
    else
      arm_read_timeout_best_effort (c_sock c) body_gap;;
      if is_diagnostic status then
        let cap := Z.min (default MAX_ERROR_BODY_BYTES (hf_content_length f)) MAX_ERROR_BODY_BYTES in
        body ← read_diagnostic (S (Z.to_nat cap)) c cap body;
        mret (match hf_content_length f with
              | Some target => take (Z.to_nat (Z.min target (Z.of_nat (length body)))) body
              | None => body
              end, false)
      else
        match hf_content_length f with
        | None =>
            fail (network ("storage returned a body response with no Content-Length, which this transport cannot "
              +:+ "bound; treating it as a failed transfer rather than guessing at the length"))
        | Some target =>
            body ← read_data (S (Z.to_nat target)) c target body;
            mret (take (Z.to_nat target) body, target <? Z.of_nat (length body))
        end
  else mret (body, false).

Definition read_response (c : Connection) (want_body : bool) (body_gap : Duration) : M Response :=
  bi ← read_head (S (S (Z.to_nat HEADER_CAP))) c [];
  sf ← lift (parse_head (take bi.2 bi.1));
  bo ← read_body c want_body body_gap sf.1 sf.2 (drop bi.2 bi.1);
  let reusable := negb (hf_server_close sf.2) && negb (hf_chunked sf.2) && negb bo.2 && (sf.1 <? 300) && want_body
                  && bool_decide (hf_content_length sf.2 = Some (Z.of_nat (length bo.1))) in
  mret (mk_Response sf.1 (hf_etag sf.2) bo.1 reusable).

(** ** One exchange *)

Definition observed_rate (len elapsed : Z) : f64 :=
  let elapsed := as_secs_f64 elapsed in
  if SFltb (f64_of_Z 0) elapsed then f64_div (f64_of_Z len) elapsed else f64_of_Z 0.

Definition request_on (fuel : nat) (c : Connection) (method : string) (t : Target)
    (extra_headers : list (string * string)) (body : bytes) (b : TransportBounds) (want_body : bool)
    (ceiling : option Duration) (expected_body_bytes : option Z) (keep_alive : bool)
    : M (Response * f64 * Connection) :=
  attempt_started ← now;
  deadline ← panics (match write_phase_deadline ceiling with
                     | Some d => Some <$> instant_add attempt_started d
                     | None => Some None
                     end);
  let c := with_deadline deadline c in
  arm_read_timeout (c_sock c) READ_DISARMED;;
  arm_write_timeout (c_sock c) (write_gap b);;
  started ← now;
  write_all_gap_bounded fuel c (str_bytes (request_head method t extra_headers body keep_alive));;
  write_all_gap_bounded fuel c body;;
  finished ← now;
  let rate := observed_rate (Z.of_nat (length body)) (Z.max 0 (finished - started)) in
  window ← panics (response_ceiling b rate);
  arm_read_timeout_best_effort (c_sock c) window;;
  backstop ← panics (response_backstop expected_body_bytes (response_backstop_floor b));
  at_ ← now;
  budget ← panics (match ceiling with
                   | Some d => (fun until => Z.min (Z.max 0 (until - at_)) backstop) <$> instant_add attempt_started d
                   | None => Some backstop
                   end);
  deadline ← panics (instant_add at_ budget);
  let c := with_deadline (Some deadline) c in
  response ← read_response c want_body (write_gap b);
  mret (response, rate, c).

(** ** The pool *)

(** [Vec::swap_remove]. *)
Definition swap_remove {A} (i : nat) (l : list A) : list A :=
  match last l with Some x => take (length l - 1) (<[i := x]> l) | None => [] end.

Definition take_idle (a : string) : M (option Connection) := fun n =>
  match list_find (fun ac => ac.1 = a) (n_idle n) with
  | Some (i, (_, c)) => Some (Ok (Some c), mk_Net (n_env n) (n_next n) (n_trace n) (swap_remove i (n_idle n)))
  | None => Some (Ok None, n)
  end.
Definition put_back (a : string) (c : Connection) : M unit := fun n =>
  Some (Ok tt, mk_Net (n_env n) (n_next n) (n_trace n) (n_idle n ++ [(a, c)])).

(** ** Requests *)

Record Call := mk_Call {
  q_method : string;
  q_url : string;
  q_headers : list (string * string);
  q_body : bytes;
  q_want_body : bool;
  q_ceiling : option Duration;
  q_expected : option Z;
}.

Definition exchange (fuel : nat) (q : Call) (b : TransportBounds) (pool : bool) (t : Target) (c : Connection)
    : M (Response * f64 * Connection) :=
  request_on fuel c (q_method q) t (q_headers q) (q_body q) b (q_want_body q) (q_ceiling q) (q_expected q) pool.

(** What is done with an answer. *)
Definition settle (q : Call) (pool : bool) (t : Target) (x : Response * f64 * Connection) : M Transfer :=
  let '(response, rate, c) := x in
  if (300 <=? r_status response) && (r_status response <? 400) then
    shutdown c;;
    fail (network ("storage answered HTTP " +:+ pretty (r_status response) +:+ " (redirect) for "
            +:+ redact (q_url q) +:+ ": pre-signed requests are never redirected"))
  else
    (if pool && r_reusable response then put_back (authority t) c else shutdown c);;
    mret (mk_Transfer (r_status response) (r_etag response) (r_body response) rate).

(** The round on a fresh connection, whose failure is the request's. *)
Definition fresh_round (fuel : nat) (q : Call) (b : TransportBounds) (pool : bool) (t : Target) : M Transfer :=
  c ← open fuel t b;
  r ← try (exchange fuel q b pool t c);
  match r with
  | Err e => shutdown c;; fail e
  | Ok x => settle q pool t x
  end.

(** A connection of the pool that fails is followed by one fresh round. *)
Definition request_with_pool (fuel : nat) (q : Call) (b : TransportBounds) (pool : bool) : M Transfer :=
  t ← lift (parse_url (q_url q));
  pooled ← (if pool then take_idle (authority t) else mret None);
  match pooled with
  | None => fresh_round fuel q b pool t
  | Some c =>
      r ← try (exchange fuel q b pool t c);
      match r with
      | Err _ => shutdown c;; fresh_round fuel q b pool t
      | Ok x => settle q pool t x
      end
  end.

Definition request (fuel : nat) (q : Call) (b : TransportBounds) : M Transfer := request_with_pool fuel q b false.

Definition put (fuel : nat) (url : string) (body : bytes) (b : TransportBounds) (ceiling : option Duration)
    : M Transfer :=
  request fuel (mk_Call "PUT" url [] body false ceiling None) b.

Definition range_call (url : string) (start end_ : Z) (ceiling : option Duration) : Call :=
  mk_Call "GET" url [("Range", "bytes=" +:+ pretty start +:+ "-" +:+ pretty end_)%string] [] true ceiling
    (Some (Z.min u64_max (Z.max 0 (end_ - start) + 1))).

Definition get_range (fuel : nat) (url : string) (start end_ : Z) (b : TransportBounds) (ceiling : option Duration)
    : M Transfer :=
  request fuel (range_call url start end_ ceiling) b.
Definition get_range_pooled (fuel : nat) (url : string) (start end_ : Z) (b : TransportBounds)
    (ceiling : option Duration) : M Transfer :=
  request_with_pool fuel (range_call url start end_ ceiling) b true.

End Transport.
End BucketTransport.
