(* ===== verification/BucketTheorems.v ===== *)
(** * The bucket transport: framing, reuse and liveness
      (properties of [BucketTransport])

    The trace of a computation is described by predicates over the events it adds;
    [emits] is the partial-correctness judgement and [ends] the termination one. *)

From Stdlib Require Import Floats.SpecFloat.
From S2P Require Import Prelude Prims CryptoCore Text CliError Float64 Governor Transfer BucketUrl BucketTransport.

Module BucketTheorems.
Import Governor Transfer BucketUrl BucketTransport.

(** ** Histories of a socket *)

(** The socket an event is about. *)
Definition sock_of (ev : Event) : option nat :=
  match ev with
  | ENow _ | EResolve _ _ _ => None
  | EConnect _ s _ | EArmRead s _ _ | EArmWrite s _ _ | EHandshake s _ | EWrite s _ | ERead s _
  | EFlush s | EShutdown s => Some s
  end.

(** The bytes one event sends, or receives, on a socket. *)
Definition sends (s : nat) (ev : Event) : bytes :=
  match ev with EWrite s' b => if decide (s' = s) then b else [] | _ => [] end.
Definition gets (s : nat) (ev : Event) : bytes :=
  match ev with ERead s' (Ok b) => if decide (s' = s) then b else [] | _ => [] end.
Definition written (s : nat) (tr : list Event) : bytes := concat (map (sends s) tr).
Definition received (s : nat) (tr : list Event) : bytes := concat (map (gets s) tr).

Lemma written_app s a b : written s (a ++ b) = written s a ++ written s b.
Proof. unfold written. by rewrite map_app, concat_app. Qed.
Lemma received_app s a b : received s (a ++ b) = received s a ++ received s b.
Proof. unfold received. by rewrite map_app, concat_app. Qed.

(** Nothing happens on the socket. *)
Definition apart (s : nat) (tr : list Event) : Prop := Forall (fun ev => sock_of ev <> Some s) tr.

Lemma apart_written s tr : apart s tr -> written s tr = [] /\ received s tr = [].
Proof.
  unfold written, received. induction 1 as [|ev tr Hev _ [IH1 IH2]]; [done|]. cbn. rewrite IH1, IH2, !app_nil_r.
  destruct ev as [| | | | | |s' b|s' [b|]| |]; cbn in *; try done; rewrite decide_False by congruence; done.
Qed.

(** Writing on [s]: the clock, writes and flushes. *)
Definition writing (s : nat) (ev : Event) : Prop :=
  match ev with ENow _ => True | EWrite s' _ | EFlush s' => s' = s | _ => False end.

(** Reading on [s] under the deadline [D]: every read comes right after a look at the
    clock that was before the deadline. *)
Inductive timely (D : Z) (s : nat) : list Event -> Prop :=
| timely_nil : timely D s []
| timely_read t r tr : t < D -> timely D s tr -> timely D s (ENow t :: ERead s r :: tr)
| timely_late t tr : D <= t -> timely D s tr -> timely D s (ENow t :: tr)
| timely_arm d ok tr : timely D s tr -> timely D s (EArmRead s d ok :: tr).

Lemma timely_app D s a b : timely D s a -> timely D s b -> timely D s (a ++ b).
Proof. induction 1; cbn; auto using timely. Qed.

Lemma writing_quiet s tr : Forall (writing s) tr -> received s tr = [] /\ (forall s', s' <> s -> apart s' tr).
Proof.
  unfold received. induction 1 as [|ev tr Hev _ [IH1 IH2]]; [split; [done|]; by constructor|]. cbn. rewrite IH1. split.
  - by destruct ev as [| | | | | | |s' [b|]| |].
  - intros s' Hs. constructor; [|by apply IH2]. destruct ev; cbn in *; try done; congruence.
Qed.

Lemma timely_quiet D s tr : timely D s tr -> written s tr = [] /\ (forall s', s' <> s -> apart s' tr).
Proof.
  unfold written. induction 1 as [|t r tr _ _ [IH1 IH2]|t tr _ _ [IH1 IH2]|d ok tr _ [IH1 IH2]];
    [split; [done|by constructor]|..]; cbn; rewrite IH1; (split; [done|]); intros s' Hs;
    repeat constructor; try (by apply IH2); cbn; congruence.
Qed.

(** ** The judgements *)

Section Logic.
Context {E : Type} `{SK : Sockets E}.
Abbreviation N := (@Net E).

(** What a computation that returns has added to the trace; the pool and the next
    socket are untouched. *)
Definition emits {A} (m : @M E A) (Q : cliresult A -> list Event -> Prop) : Prop :=
  forall n r n', m n = Some (r, n') ->
    n_next n' = n_next n /\ n_idle n' = n_idle n /\ exists tr, n_trace n' = n_trace n ++ tr /\ Q r tr.

(** From an environment in [P] a computation returns, to one in [P], and what it
    returns is in [Q]. *)
Definition ends (P : E -> Prop) {A} (Q : A -> Prop) (m : @M E A) : Prop :=
  forall n, P (n_env n) -> exists r n', m n = Some (r, n') /\ P (n_env n') /\ forall a, r = Ok a -> Q a.

Lemma emits_weaken {A} (m : @M E A) Q Q' :
  emits m Q -> (forall r tr, Q r tr -> Q' r tr) -> emits m Q'.
Proof.
  intros Hm HQ n r n' H. destruct (Hm _ _ _ H) as (? & ? & tr & ? & ?). split_and!; [done|done|]. exists tr. auto.
Qed.

Lemma emits_value {A} (r : cliresult A) (Q : cliresult A -> list Event -> Prop) :
  Q r [] -> emits (fun n => Some (r, n)) Q.
Proof. intros HQ n r' n' [= <- <-]. split_and!; [done|done|]. exists []. by rewrite app_nil_r. Qed.

Lemma emits_ret {A} (a : A) (Q : cliresult A -> list Event -> Prop) : Q (Ok a) [] -> emits (mret a) Q.
Proof. apply emits_value. Qed.
Lemma emits_fail {A} e (Q : cliresult A -> list Event -> Prop) : Q (Err e) [] -> emits (fail e) Q.
Proof. apply emits_value. Qed.
Lemma emits_stuck {A} (Q : cliresult A -> list Event -> Prop) : emits stuck Q.
Proof. by intros n r n'. Qed.

Lemma emits_bind {A B} (m : @M E A) (k : A -> @M E B) Q1 Q :
  emits m Q1 -> (forall e tr, Q1 (Err e) tr -> Q (Err e) tr) ->
  (forall a tr1, Q1 (Ok a) tr1 -> emits (k a) (fun r tr2 => Q r (tr1 ++ tr2))) ->
  emits (m ≫= k) Q.
Proof.
  intros Hm He Hk n r n'. unfold mbind, M_bind. destruct (m n) as [[[a|e] n1]|] eqn:E1; [| |done];
    destruct (Hm _ _ _ E1) as (Hn1 & Hi1 & tr1 & Ht1 & HQ1).
  - intros H. destruct (Hk a tr1 HQ1 _ _ _ H) as (Hn2 & Hi2 & tr2 & Ht2 & HQ2).
    split_and!; [congruence|congruence|]. exists (tr1 ++ tr2). split; [|done]. by rewrite Ht2, Ht1, app_assoc.
  - intros [= <- <-]. split_and!; [done|done|]. eauto.
Qed.

Lemma emits_assoc {A B C} (m : @M E A) (k : A -> @M E B) (h : B -> @M E C) Q :
  emits ((m ≫= k) ≫= h) Q -> emits (m ≫= fun a => k a ≫= h) Q.
Proof.
  intros Hm n r n' H. apply (Hm n r n'). revert H. unfold mbind, M_bind. by destruct (m n) as [[[a|e] n1]|].
Qed.

Lemma emits_try {A} (m : @M E A) Q : emits m Q -> emits (try m) (fun r tr => exists x, r = Ok x /\ Q x tr).
Proof.
  intros Hm n r n'. unfold try. destruct (m n) as [[x n1]|] eqn:E1; [|done]. intros [= <- <-].
  destruct (Hm _ _ _ E1) as (? & ? & tr & ? & ?). eauto 10.
Qed.

Lemma emits_call {A} (f : E -> A * E) ev (Q : cliresult A -> list Event -> Prop) :
  (forall a, Q (Ok a) (ev a)) -> emits (call f ev) Q.
Proof.
  intros HQ n r n'. unfold call. destruct (f (n_env n)) as [a e]. intros [= <- <-]. cbn. eauto 10.
Qed.

Lemma emits_peek {A} (f : E -> A) (Q : cliresult A -> list Event -> Prop) :
  (forall a, Q (Ok a) []) -> emits (peek f) Q.
Proof. intros HQ n r n' [= <- <-]. split_and!; [done|done|]. exists []. by rewrite app_nil_r. Qed.

Lemma emits_panics {A} (o : option A) (Q : cliresult A -> list Event -> Prop) :
  (forall a, o = Some a -> Q (Ok a) []) -> emits (panics o) Q.
Proof. intros HQ. destruct o; [apply emits_ret; auto|apply emits_stuck]. Qed.

Section Ending.
Context (P : E -> Prop).
Abbreviation any := (fun _ => True).

Lemma ends_ret {A} (a : A) Q : Q a -> ends P Q (mret a).
Proof. intros HQ n Hn. eexists _, _. split_and!; [done|done|]. by intros ? [= <-]. Qed.
Lemma ends_fail {A} e Q : ends P Q (@fail E A e).
Proof. intros n Hn. by eexists _, _. Qed.
Lemma ends_lift {A} (r : cliresult A) : ends P any (lift r).
Proof. intros n Hn. by eexists _, _. Qed.
Lemma ends_call {A} (f : E -> A * E) ev (Q : A -> Prop) :
  (forall e, P e -> P (f e).2 /\ Q (f e).1) -> ends P Q (call f ev).
Proof.
  intros HP n Hn. unfold call. specialize (HP _ Hn). destruct (f _) as [a e]. destruct HP as [HP HQ].
  eexists _, _. split_and!; [done|done|]. by intros ? [= <-].
Qed.
Lemma ends_peek {A} (f : E -> A) : ends P any (peek f).
Proof. intros n Hn. by eexists _, _. Qed.
Lemma ends_bind {A B} (m : @M E A) (k : A -> @M E B) Q1 Q :
  ends P Q1 m -> (forall a, Q1 a -> ends P Q (k a)) -> ends P Q (m ≫= k).
Proof.
  intros Hm Hk n Hn. unfold mbind, M_bind. destruct (Hm n Hn) as ([a|e] & n' & -> & Hn' & HQ).
  - apply Hk; [by apply HQ|done].
  - by eexists _, _.
Qed.
Lemma ends_try {A} (m : @M E A) Q : ends P Q m -> ends P any (try m).
Proof. intros Hm n Hn. unfold try. destruct (Hm n Hn) as (r & n' & -> & Hn' & _). by eexists _, _. Qed.
Lemma ends_weaken {A} (m : @M E A) (Q Q' : A -> Prop) : ends P Q m -> (forall a, Q a -> Q' a) -> ends P Q' m.
Proof. intros Hm HQ n Hn. destruct (Hm n Hn) as (r & n' & ? & ? & ?). exists r, n'. eauto. Qed.

End Ending.

End Logic.

(** A computation that fails adds nothing. *)
Ltac failed := apply emits_fail; rewrite app_nil_r.

Create HintDb bucket.
#[export] Hint Resolve ends_ret ends_fail ends_lift ends_peek : bucket.

(** ** The read phase *)

Section Reading.
Context {E : Type} `{SK : Sockets E}.

Lemma check_deadline_spec c D :
  c_deadline c = Some D ->
  emits (check_deadline c) (fun r tr => exists t, tr = [ENow t] /\ if D <=? t then r <> Ok tt else r = Ok tt).
Proof.
  intros HD. unfold check_deadline. rewrite HD. eapply emits_bind.
  - apply (emits_call _ _ (fun r tr => exists t, r = Ok t /\ tr = [ENow t])). eauto.
  - by intros e tr (? & ? & _).
  - intros t tr (? & [= <-] & ->). destruct (D <=? t) eqn:Et.
    + apply emits_fail. exists t. by rewrite Et.
    + apply emits_ret. exists t. by rewrite Et.
Qed.

(** One read under the deadline. *)
Lemma timed_read_spec c D :
  c_deadline c = Some D ->
  emits (check_deadline c;; wire_read c)
    (fun r tr => timely D (c_sock c) tr /\
       match r with
       | Ok (Ok b) => received (c_sock c) tr = b
       | _ => received (c_sock c) tr = []
       end).
Proof.
  intros HD. eapply emits_bind; [by apply check_deadline_spec| |].
  - intros e tr (t & -> & Ht). destruct (D <=? t) eqn:Et; [|done]. bool_prop. by repeat constructor.
  - intros [] tr (t & -> & Ht). destruct (D <=? t) eqn:Et; [done|]. bool_prop. unfold wire_read.
    apply emits_call. intros a. cbn. split; [by repeat constructor|].
    unfold received. destruct a as [b|]; cbn; [|done]. rewrite decide_True by done. by rewrite app_nil_r.
Qed.

(** A step of a reading loop: the deadline, a read, and what follows. *)
Lemma read_step_spec {A} c D (k : io bytes -> @M E A) (Q : cliresult A -> list Event -> Prop) :
  c_deadline c = Some D ->
  (forall e tr, timely D (c_sock c) tr -> received (c_sock c) tr = [] -> Q (Err e) tr) ->
  (forall r tr1, timely D (c_sock c) tr1 -> received (c_sock c) tr1 = default [] (ok_opt r) ->
     emits (k r) (fun x tr2 => Q x (tr1 ++ tr2))) ->
  emits (check_deadline c;; r ← wire_read c; k r) Q.
Proof.
  intros HD He Hk. apply emits_assoc. eapply emits_bind; [by apply timed_read_spec| |].
  - intros e tr [Ht Hr]. by apply He.
  - intros r tr [Ht Hr]. apply Hk; [done|]. by destruct r.
Qed.

Lemma read_head_spec c D fuel buf :
  c_deadline c = Some D ->
  emits (read_head fuel c buf) (fun r tr => timely D (c_sock c) tr /\
    forall b i, r = Ok (b, i) -> b = buf ++ received (c_sock c) tr /\ find_headers_end b = Some i).
Proof.
  intros HD. revert buf. induction fuel as [|fuel IH]; intros buf; [apply emits_stuck|]. cbn [read_head].
  destruct (find_headers_end buf) as [i|] eqn:Ei.
  { apply emits_ret. split; [constructor|]. intros b j [= <- <-]. by rewrite app_nil_r. }
  apply (read_step_spec c D); [done|by intros|]. intros r tr Ht Hr.
  destruct r as [[|x b]|k]; [by failed| |by destruct (timed_out k); failed].
  destruct (HEADER_CAP <? _); [by failed|].
  eapply emits_weaken; [apply IH|]. intros y tr2 [Ht2 Hy]. split; [by apply timely_app|].
  intros b' i Hb. destruct (Hy _ _ Hb) as [-> ?]. split; [|done]. by rewrite received_app, Hr, <- app_assoc.
Qed.

Lemma read_data_spec c D fuel target body :
  c_deadline c = Some D ->
  emits (read_data fuel c target body) (fun r tr => timely D (c_sock c) tr /\
    forall b, r = Ok b -> b = body ++ received (c_sock c) tr /\ target <= Z.of_nat (length b)).
Proof.
  intros HD. revert body. induction fuel as [|fuel IH]; intros body; [apply emits_stuck|]. cbn [read_data].
  destruct (Z.of_nat (length body) <? target) eqn:El; bool_prop.
  2:{ apply emits_ret. split; [constructor|]. intros b [= <-]. by rewrite app_nil_r. }
  apply (read_step_spec c D); [done|by intros|]. intros r tr Ht Hr.
  destruct r as [[|x b]|k]; [by failed| |by destruct (timed_out k); failed].
  eapply emits_weaken; [apply IH|]. intros y tr2 [Ht2 Hy]. split; [by apply timely_app|].
  intros b' Hb. destruct (Hy _ Hb) as [-> ?]. split; [|done]. by rewrite received_app, Hr, <- app_assoc.
Qed.

Lemma read_diagnostic_spec c D fuel cap body :
  c_deadline c = Some D ->
  emits (read_diagnostic fuel c cap body) (fun r tr => timely D (c_sock c) tr /\
    exists b, r = Ok b /\ b = body ++ received (c_sock c) tr).
Proof.
  intros HD. revert body. induction fuel as [|fuel IH]; intros body; [apply emits_stuck|]. cbn [read_diagnostic].
  assert (Hdone : forall tr, timely D (c_sock c) tr -> received (c_sock c) tr = [] ->
    emits (E := E) (mret body) (fun r tr2 => timely D (c_sock c) (tr ++ tr2) /\
      exists b, r = Ok b /\ b = body ++ received (c_sock c) (tr ++ tr2))).
  { intros tr Ht Hr. apply emits_ret. rewrite app_nil_r. split; [done|]. exists body. by rewrite Hr, app_nil_r. }
  destruct (_ <? cap); [|by apply (Hdone []); [constructor|]].
  eapply emits_bind; [by apply emits_try, check_deadline_spec|by intros e tr (? & ? & _)|].
  intros ok tr (x & [= <-] & t & -> & Ht). destruct (D <=? t) eqn:Et; bool_prop.
  - destruct ok as [[]|e]; [done|]. apply Hdone; [by repeat constructor|done].
  - subst ok. unfold wire_read. eapply emits_bind.
    { apply (emits_call _ _ (fun r tr => exists x, r = Ok x /\ tr = [ERead (c_sock c) x])). eauto. }
    { by intros e tr (? & ? & _). }
    intros r tr (y & [= <-] & ->). assert (Ht' : timely D (c_sock c) [ENow t; ERead (c_sock c) r]) by by repeat constructor.
    eapply emits_weaken with (Q := fun x tr2 => timely D (c_sock c) ([ENow t; ERead (c_sock c) r] ++ tr2) /\
      exists b, x = Ok b /\ b = body ++ received (c_sock c) ([ENow t; ERead (c_sock c) r] ++ tr2)); [|done].
    destruct r as [[|z b]|k]; [apply Hdone; [done|by cbn; case_decide]| |by apply Hdone].
    eapply emits_weaken; [apply IH|]. intros v tr2 (Ht2 & b' & -> & ->). split; [by apply timely_app|].
    eexists. split; [done|]. rewrite received_app. unfold received at 2. cbn. rewrite decide_True by done.
    by rewrite app_nil_r, <- app_assoc.
Qed.

(** The body of a response, given the bytes that came with the header. *)
Lemma read_body_spec c D want gap status f body :
  c_deadline c = Some D -> (forall t, hf_content_length f = Some t -> 0 <= t) ->
  emits (read_body c want gap status f body) (fun r tr => timely D (c_sock c) tr /\
    forall b over, r = Ok (b, over) ->
      b `prefix_of` body ++ received (c_sock c) tr /\
      (want = true -> status < 300 ->
         hf_chunked f = false /\ hf_content_length f = Some (Z.of_nat (length b)) /\
         (over = false -> b = body ++ received (c_sock c) tr))).
Proof.
  intros HD Hlen. unfold read_body. destruct (want || (400 <=? status)) eqn:Ew.
  2:{ apply emits_ret. split; [constructor|]. intros b over [= <- <-]. apply orb_false_iff in Ew as [-> _].
      split; [by rewrite app_nil_r|done]. }
  destruct (hf_chunked f); [apply emits_fail; split; [constructor|done]|].
  eapply emits_bind with (Q1 := fun r tr => timely D (c_sock c) tr /\ received (c_sock c) tr = [] /\ r = Ok tt).
  { eapply emits_bind with (Q1 := fun r tr => exists x ok, r = Ok x /\ tr = [EArmRead (c_sock c) gap ok]).
    - apply emits_call. eauto.
    - by intros e tr (? & ? & ? & _).
    - intros x tr (? & ok & _ & ->). apply emits_ret. by repeat constructor. }
  { by intros e tr (_ & _ & ?). }
  intros [] tr1 (Ht1 & Hr1 & _). destruct (is_diagnostic status) eqn:Ed.
  - eapply emits_bind; [by apply read_diagnostic_spec|by intros e tr (? & b & ? & _)|].
    intros x tr2 (Ht2 & b & [= <-] & ->). apply emits_ret. rewrite app_nil_r. split; [by apply timely_app|].
    rewrite received_app, Hr1. cbn [app]. intros b over [= <- <-]. split.
    + destruct (hf_content_length f); [|done]. apply prefix_take.
    + intros _ Hs. unfold is_diagnostic in Ed. lia.
  - destruct (hf_content_length f) as [target|] eqn:Ef.
    2:{ apply emits_fail. rewrite app_nil_r. done. }
    specialize (Hlen _ eq_refl).
    eapply emits_bind; [by apply read_data_spec| |].
    { intros e tr [? _]. split; [by apply timely_app|done]. }
    intros x tr2 [Ht2 Hx]. destruct (Hx _ eq_refl) as [-> Hle]. apply emits_ret. rewrite app_nil_r.
    split; [by apply timely_app|]. rewrite received_app, Hr1. cbn [app]. intros b over [= <- <-].
    split; [apply prefix_take|]. intros _ _. split; [done|]. split.
    + f_equal. rewrite length_take. lia.
    + intros Ho. bool_prop. rewrite take_ge; [done|lia].
Qed.

End Reading.

(** ** Response heads *)

Lemma find_headers_end_len a i : find_headers_end a = Some i -> (4 <= i <= length a)%nat.
Proof.
  revert i. induction a as [|x a IH]; intros i; [done|]. cbn [find_headers_end]. case_decide as H4.
  - intros [= <-]. apply (f_equal length) in H4. rewrite length_take in H4. change (length (str_bytes _)) with 4%nat in H4. lia.
  - destruct (find_headers_end a) as [k|]; [|done]. intros [= <-]. specialize (IH _ eq_refl). cbn. lia.
Qed.

Lemma find_headers_end_app a b i : find_headers_end a = Some i -> find_headers_end (a ++ b) = Some i.
Proof.
  revert i. induction a as [|x a IH]; intros i Hi; [done|].
  pose proof (find_headers_end_len _ _ Hi) as Hlen. revert Hi. cbn [find_headers_end app].
  replace (take 4 (x :: a ++ b)) with (take 4 (x :: a)) by (symmetry; apply (take_app_le (x :: a)); lia).
  case_decide; [done|]. destruct (find_headers_end a) as [k|]; [|done]. intros [= <-]. by rewrite (IH _ eq_refl).
Qed.

Lemma head_line_length f line t :
  (forall t, hf_content_length f = Some t -> 0 <= t) -> hf_content_length (head_line f line) = Some t -> 0 <= t.
Proof.
  intros Hf. unfold head_line. destruct (split_once _ _) as [[name value]|]; [|by apply Hf].
  destruct (eq_ignore_ascii_case name "etag"); [by apply Hf|].
  destruct (eq_ignore_ascii_case name "content-length"); [by intros [? _]%parse_uint_range|].
  destruct (_ && _); [by apply Hf|]. destruct (_ && _); by apply Hf.
Qed.

Lemma parse_head_length head status f t :
  parse_head head = Ok (status, f) -> hf_content_length f = Some t -> 0 <= t.
Proof.
  unfold parse_head. destruct (_ ≫= _); [|done]. intros [= _ <-]. generalize (tail (split_crlf (from_utf8_lossy head))).
  intros ls. assert (H0 : forall t, hf_content_length (mk_HeadFields None None false false) = Some t -> 0 <= t) by done.
  revert H0. generalize (mk_HeadFields None None false false). revert t.
  induction ls as [|l ls IH]; cbn [foldl]; intros t f0 H0; [by apply H0|].
  apply IH. intros t'. by apply head_line_length.
Qed.

(** [rx] is the header of the answer, its body, and what came after it. *)
Definition framed (want : bool) (rx : bytes) (resp : Response) : Prop :=
  exists i f, find_headers_end rx = Some i /\ parse_head (take i rx) = Ok (r_status resp, f) /\
    r_etag resp = hf_etag f /\ r_body resp `prefix_of` drop i rx /\
    (want = true -> r_status resp < 300 ->
       hf_chunked f = false /\ hf_content_length f = Some (Z.of_nat (length (r_body resp)))) /\
    (r_reusable resp = true ->
       want = true /\ r_status resp < 300 /\ hf_server_close f = false /\ drop i rx = r_body resp).

Section Responses.
Context {E : Type} `{SK : Sockets E}.

Lemma read_response_spec c D want gap :
  c_deadline c = Some D ->
  emits (read_response c want gap) (fun r tr => timely D (c_sock c) tr /\
    forall resp, r = Ok resp -> framed want (received (c_sock c) tr) resp).
Proof.
  intros HD. unfold read_response. eapply emits_bind; [by apply read_head_spec|by intros e tr [? _]|].
  intros [buf i] tr1 [Ht1 H1]. destruct (H1 _ _ eq_refl) as [Hbuf Hi]. cbn [app] in Hbuf. subst buf. cbn [fst snd].
  set (rx1 := received _ tr1) in *.
  destruct (parse_head (take i rx1)) as [[status f]|e] eqn:Ep.
  2:{ eapply emits_bind with (Q1 := fun r tr => r = Err e /\ tr = []); [by apply emits_value| |by intros ? ? [? _]].
      intros e' tr [_ ->]. by rewrite app_nil_r. }
  eapply emits_bind with (Q1 := fun r tr => r = Ok (status, f) /\ tr = []); [by apply emits_value|by intros ? ? [? _]|].
  intros [status' f'] tr [[= -> ->] ->]. cbn [fst snd].
  eapply emits_bind; [apply (read_body_spec c D); [done|intros t; by eapply parse_head_length]| |].
  { intros e tr [? _]. cbn [app]. split; [by apply timely_app|done]. }
  intros [b over] tr2 [Ht2 H2]. destruct (H2 _ _ eq_refl) as [Hpre Hdata]. apply emits_ret. rewrite app_nil_r. cbn [app].
  split; [by apply timely_app|]. intros resp [= <-]. rewrite received_app. change (received (c_sock c) tr1) with rx1.
  pose proof (find_headers_end_len _ _ Hi) as Hlen. exists i, f. cbn [r_status r_etag r_body r_reusable fst snd].
  rewrite take_app_le, drop_app_le by lia. split_and!; [by apply find_headers_end_app|done|done|done| |].
  - intros Hw Hs. by destruct (Hdata Hw Hs) as (? & ? & _).
  - intros Hr. bool_prop. subst want. destruct (Hdata eq_refl ltac:(done)) as (_ & _ & Hb).
    split_and!; [done|done|done|]. symmetry. by apply Hb.
Qed.

End Responses.

(** ** One exchange *)

(** An event of the exchange on [s]. *)
Definition on (s : nat) (ev : Event) : Prop :=
  match ev with
  | ENow _ => True
  | EArmRead s' _ _ | EArmWrite s' _ _ | EHandshake s' _ | EWrite s' _ | ERead s' _ | EFlush s' => s' = s
  | EResolve _ _ _ | EConnect _ _ _ | EShutdown _ => False
  end.

Lemma on_apart s tr s' : Forall (on s) tr -> s' <> s -> apart s' tr.
Proof.
  intros Ht Hs. eapply Forall_impl; [exact Ht|]. intros ev Hev. destruct ev; cbn in *; try done; congruence.
Qed.

Lemma timely_on D s tr : timely D s tr -> Forall (on s) tr.
Proof. induction 1; repeat constructor; done. Qed.
Lemma writing_on s tr : Forall (writing s) tr -> Forall (on s) tr.
Proof. intros Ht. eapply Forall_impl; [exact Ht|]. by intros []. Qed.

(** The request goes out whole, under the disarmed read timer and the gap; only then
    is anything read, and only until the deadline. *)
Definition exchanged (s : nat) (gap : Duration) (req : bytes) (limit : Duration) (D : Z) (tr trr : list Event) : Prop :=
  exists t0 t1 w t2 window ok at_,
    tr = [ENow t0; EArmRead s READ_DISARMED true; EArmWrite s gap true; ENow t1] ++ w
         ++ [ENow t2; EArmRead s window ok; ENow at_] ++ trr /\
    Forall (writing s) w /\ written s w = req /\ timely D s trr /\ D <= at_ + limit.

Lemma exchanged_bytes s gap req limit D tr trr :
  exchanged s gap req limit D tr trr -> written s tr = req /\ received s tr = received s trr.
Proof.
  intros (t0 & t1 & w & t2 & window & ok & at_ & -> & Hw & Hr & Ht & _).
  rewrite !written_app, !received_app. destruct (writing_quiet _ _ Hw) as [-> _].
  destruct (timely_quiet _ _ _ Ht) as [-> _]. rewrite Hr. cbn. by rewrite !app_nil_r.
Qed.

Section Exchange.
Context {E : Type} `{SK : Sockets E}.

(** The events of a computation are all of one kind. *)
Definition confined {A} (P : Event -> Prop) (m : @M E A) : Prop := emits m (fun _ tr => Forall P tr).
(** What holds of the result of a computation that succeeds. *)
Definition returns {A} (m : @M E A) (Q : A -> list Event -> Prop) : Prop :=
  emits m (fun r tr => forall a, r = Ok a -> Q a tr).

Lemma confined_ret {A} P (a : A) : confined P (mret a).
Proof. by apply emits_ret. Qed.
Lemma confined_fail {A} P e : confined (A := A) P (fail e).
Proof. by apply emits_fail. Qed.
Lemma confined_panics {A} P (o : option A) : confined P (panics o).
Proof. by apply emits_panics. Qed.
Lemma confined_peek {A} P (f : E -> A) : confined P (peek f).
Proof. by apply emits_peek. Qed.
Lemma confined_call {A} (P : Event -> Prop) (f : E -> A * E) ev : (forall a, Forall P (ev a)) -> confined P (call f ev).
Proof. intros. by apply emits_call. Qed.
Lemma confined_bind {A B} P (m : @M E A) (k : A -> @M E B) :
  confined P m -> (forall a, confined P (k a)) -> confined P (m ≫= k).
Proof.
  intros Hm Hk. eapply emits_bind; [exact Hm|done|]. intros a tr1 H1. eapply emits_weaken; [apply Hk|].
  intros r tr2 H2. by apply Forall_app.
Qed.
Lemma confined_weaken {A} (P P' : Event -> Prop) (m : @M E A) :
  confined P m -> (forall ev, P ev -> P' ev) -> confined P' m.
Proof. intros Hm HP. eapply emits_weaken; [exact Hm|]. intros r tr Ht. eapply Forall_impl; [exact Ht|exact HP]. Qed.

Lemma returns_bind {A B} (m : @M E A) (k : A -> @M E B) Q1 Q :
  returns m Q1 -> (forall a tr1, Q1 a tr1 -> returns (k a) (fun b tr2 => Q b (tr1 ++ tr2))) -> returns (m ≫= k) Q.
Proof.
  intros Hm Hk. eapply emits_bind; [exact Hm|done|]. intros a tr1 H1. apply Hk. by apply H1.
Qed.
Lemma returns_ret {A} (a : A) (Q : A -> list Event -> Prop) : Q a [] -> returns (mret a) Q.
Proof. intros HQ. apply emits_ret. by intros ? [= <-]. Qed.
Lemma returns_fail {A} e (Q : A -> list Event -> Prop) : returns (fail e) Q.
Proof. by apply emits_fail. Qed.
Lemma returns_call {A} (f : E -> A * E) ev : returns (call f ev) (fun a tr => tr = ev a).
Proof. apply emits_call. by intros a ? [= <-]. Qed.
Lemma returns_panics {A} (o : option A) : returns (panics o) (fun a tr => o = Some a /\ tr = []).
Proof. apply emits_panics. by intros a Ha ? [= <-]. Qed.
Lemma returns_weaken {A} (m : @M E A) (Q Q' : A -> list Event -> Prop) :
  returns m Q -> (forall a tr, Q a tr -> Q' a tr) -> returns m Q'.
Proof. intros Hm HQ. eapply emits_weaken; [exact Hm|]. intros r tr Hr a Ha. auto. Qed.

Lemma arm_read_returns s d : returns (arm_read_timeout s d) (fun _ tr => tr = [EArmRead s d true]).
Proof.
  eapply returns_bind; [apply returns_call|]. intros [[]|k] tr ->; [by apply returns_ret|apply returns_fail].
Qed.
Lemma arm_write_returns s d : returns (arm_write_timeout s d) (fun _ tr => tr = [EArmWrite s d true]).
Proof.
  eapply returns_bind; [apply returns_call|]. intros [[]|k] tr ->; [by apply returns_ret|apply returns_fail].
Qed.
Lemma arm_best_effort_returns s d :
  returns (arm_read_timeout_best_effort s d) (fun _ tr => exists ok, tr = [EArmRead s d ok]).
Proof. eapply returns_bind; [apply returns_call|]. intros r tr ->. apply returns_ret. by eexists. Qed.

Lemma check_deadline_clock (P : Event -> Prop) c : (forall t, P (ENow t)) -> confined P (check_deadline c).
Proof.
  intros HP. unfold check_deadline. destruct (c_deadline c); [|apply confined_ret].
  apply confined_bind; [apply confined_call; by repeat constructor|]. intros t. destruct (_ <=? t); [apply confined_fail|apply confined_ret].
Qed.

Lemma write_loop_writing fuel c buf : confined (writing (c_sock c)) (write_loop fuel c buf).
Proof.
  revert buf. induction fuel as [|fuel IH]; intros buf; [apply emits_stuck|]. cbn [write_loop].
  case_decide; [apply confined_ret|]. apply confined_bind; [by apply check_deadline_clock|]. intros [].
  apply confined_bind; [apply confined_call; by repeat constructor|].
  intros [[|k]|[]]; try apply confined_fail; try apply IH; (apply confined_bind; [apply confined_peek|]); intros; apply confined_fail.
Qed.

Lemma write_loop_returns fuel c buf :
  returns (write_loop fuel c buf) (fun _ tr => Forall (writing (c_sock c)) tr /\ written (c_sock c) tr = buf).
Proof.
  revert buf. induction fuel as [|fuel IH]; intros buf; [apply emits_stuck|]. cbn [write_loop].
  case_decide as Hb; [subst; apply returns_ret; by split|].
  eapply returns_bind with (Q1 := fun _ tr => Forall (writing (c_sock c)) tr /\ written (c_sock c) tr = []).
  { eapply emits_weaken; [apply (check_deadline_clock (fun ev => exists t, ev = ENow t)); by eexists|].
    intros r tr Hf _ _. clear -Hf. induction Hf as [|ev tr [t ->] _ [IH1 IH2]]; [by split|]. split; [by constructor|done]. }
  intros [] tr1 [Hw1 Hn1]. eapply returns_bind; [apply returns_call|]. intros r tr2 ->.
  assert (Hnext : forall rest, match r with Ok n => take n buf | Err _ => [] end ++ rest = buf ->
    returns (write_loop fuel c rest) (fun _ tr3 =>
      Forall (writing (c_sock c)) (tr1 ++ [EWrite (c_sock c) match r with Ok n => take n buf | Err _ => [] end] ++ tr3) /\
      written (c_sock c) (tr1 ++ [EWrite (c_sock c) match r with Ok n => take n buf | Err _ => [] end] ++ tr3) = buf)).
  { intros rest Hrest. eapply returns_weaken; [apply IH|]. intros _ tr3 [Hw3 Hn3]. split.
    - apply Forall_app. split; [done|]. by constructor.
    - rewrite !written_app, Hn1, Hn3. unfold written. cbn [map concat sends]. rewrite decide_True by done.
      by rewrite app_nil_r. }
  destruct r as [[|k]|[]]; try apply returns_fail.
  - apply (Hnext (drop (S k) buf)), take_drop.
  - eapply emits_bind; [by apply (emits_peek _ (fun _ _ => True))|by intros|]. intros d tr _. by apply emits_fail.
  - eapply emits_bind; [by apply (emits_peek _ (fun _ _ => True))|by intros|]. intros d tr _. by apply emits_fail.
  - by apply (Hnext buf).
Qed.

Lemma write_all_writing fuel c buf : confined (writing (c_sock c)) (write_all_gap_bounded fuel c buf).
Proof.
  apply confined_bind; [apply write_loop_writing|]. intros []. apply confined_bind; [apply confined_call; by repeat constructor|].
  intros [|]; [apply confined_ret|apply confined_fail].
Qed.

Lemma write_all_returns fuel c buf :
  returns (write_all_gap_bounded fuel c buf) (fun _ tr => Forall (writing (c_sock c)) tr /\ written (c_sock c) tr = buf).
Proof.
  eapply returns_bind; [apply write_loop_returns|]. intros [] tr1 [Hw Hn].
  eapply returns_bind; [apply returns_call|]. intros [[]|] tr ->; [|apply returns_fail]. apply returns_ret.
  split; [apply Forall_app; split; [done|by repeat constructor]|]. rewrite written_app, Hn. unfold written. cbn. by rewrite app_nil_r.
Qed.

Lemma read_response_confined c s D want gap :
  c_sock c = s -> c_deadline c = Some D -> confined (on s) (read_response c want gap).
Proof.
  intros <- HD. eapply emits_weaken; [by apply read_response_spec|]. intros r tr [Ht _]. by eapply timely_on.
Qed.

Lemma request_on_confined fuel c method t extra body b want ceiling expected keep :
  confined (on (c_sock c)) (request_on fuel c method t extra body b want ceiling expected keep).
Proof.
  assert (Hcall : forall A (f : E -> A * E) ev, (forall a, exists e, ev a = [e] /\ on (c_sock c) e) ->
    confined (on (c_sock c)) (call f ev)).
  { intros A f ev Hev. apply confined_call. intros a. destruct (Hev a) as (e & -> & He). by repeat constructor. }
  assert (Hw : forall c' buf, c_sock c' = c_sock c -> confined (on (c_sock c)) (write_all_gap_bounded fuel c' buf)).
  { intros c' buf <-. eapply confined_weaken; [apply write_all_writing|]. intros ev. by destruct ev. }
  assert (Hnow : confined (on (c_sock c)) now) by (apply Hcall; by eexists).
  unfold request_on. apply confined_bind; [exact Hnow|]. intros t0.
  apply confined_bind; [apply confined_panics|]. intros deadline. cbn [c_sock with_deadline].
  apply confined_bind; [apply confined_bind; [apply Hcall; by eexists|intros [|]; [apply confined_ret|apply confined_fail]]|]. intros [].
  apply confined_bind; [apply confined_bind; [apply Hcall; by eexists|intros [|]; [apply confined_ret|apply confined_fail]]|]. intros [].
  apply confined_bind; [exact Hnow|]. intros t1. apply confined_bind; [by apply Hw|]. intros [].
  apply confined_bind; [by apply Hw|]. intros []. apply confined_bind; [exact Hnow|]. intros t2.
  apply confined_bind; [apply confined_panics|]. intros window.
  apply confined_bind; [apply confined_bind; [apply Hcall; by eexists|intros; apply confined_ret]|]. intros [].
  apply confined_bind; [apply confined_panics|]. intros limit. apply confined_bind; [exact Hnow|]. intros at_.
  do 2 (apply confined_bind; [apply confined_panics|]; intros ?).
  apply confined_bind; [by eapply read_response_confined|]. intros. apply confined_ret.
Qed.

(** The answer of a successful exchange, and the events that led to it. *)
Lemma request_on_returns fuel c method t extra body b want ceiling expected keep :
  returns (request_on fuel c method t extra body b want ceiling expected keep) (fun x tr =>
    exists D limit trr,
      x.2 = with_deadline (Some D) c /\ response_backstop expected (response_backstop_floor b) = Some limit /\
      exchanged (c_sock c) (write_gap b) (str_bytes (request_head method t extra body keep) ++ body) limit D tr trr /\
      framed want (received (c_sock c) trr) x.1.1).
Proof.
  unfold request_on. eapply returns_bind; [apply returns_call|]. intros t0 tr ->.
  eapply returns_bind; [apply returns_panics|]. intros deadline tr [_ ->]. cbn [c_sock with_deadline].
  eapply returns_bind; [apply arm_read_returns|]. intros [] tr ->.
  eapply returns_bind; [apply arm_write_returns|]. intros [] tr ->.
  eapply returns_bind; [apply returns_call|]. intros t1 tr ->.
  eapply returns_bind; [apply write_all_returns|]. intros [] w1 [Hw1 Hn1].
  eapply returns_bind; [apply write_all_returns|]. intros [] w2 [Hw2 Hn2]. cbn [c_sock with_deadline] in *.
  eapply returns_bind; [apply returns_call|]. intros t2 tr ->.
  eapply returns_bind; [apply returns_panics|]. intros window tr [_ ->].
  eapply returns_bind; [apply arm_best_effort_returns|]. intros [] tr [ok ->].
  eapply returns_bind; [apply returns_panics|]. intros limit tr [Hl ->].
  eapply returns_bind; [apply returns_call|]. intros at_ tr ->.
  eapply returns_bind; [apply returns_panics|]. intros budget tr [Hbudget ->].
  eapply returns_bind; [apply returns_panics|]. intros D tr [HD ->]. eapply returns_bind.
  { eapply emits_weaken; [apply (read_response_spec _ D); done|]. cbn [c_sock]. intros r tr [Ht Hf] a Ha.
    exact (conj Ht (Hf a Ha)). }
  intros resp trr [Ht Hf]. apply returns_ret. exists D, limit, trr. cbn [fst snd]. split_and!; [done|done| |done].
  exists t0, t1, (w1 ++ w2), t2, window, ok, at_. split_and!.
  - cbn. rewrite <- !app_assoc. cbn. by rewrite app_nil_r.
  - by apply Forall_app.
  - by rewrite written_app, Hn1, Hn2.
  - done.
  - unfold instant_add in *. destruct (_ <=? INSTANT_MAX) in HD; [|done]. injection HD as <-.
    destruct ceiling as [d|]; [|injection Hbudget as <-; lia].
    destruct (_ <=? INSTANT_MAX) in Hbudget; [|done]. cbn in Hbudget. injection Hbudget as <-. lia.
Qed.

End Exchange.

(** ** Windows and limits *)

(** The limit on the wait for an answer: never below the floor, and never above the
    longer of the floor and a day. *)
Lemma response_backstop_total expected floor :
  0 <= floor -> (forall n, expected = Some n -> 0 < n <= u64_max) ->
  exists d, response_backstop expected floor = Some d /\ floor <= d <= Z.max floor (from_secs 86400).
Proof.
  intros Hf Hn. destruct expected as [n|]; [|exists floor; split; [done|lia]]. specialize (Hn _ eq_refl). cbn [response_backstop].
  destruct (capped_day (f64_mul (f64_div (f64_of_Z n) MIN_CREDIBLE_RATE_BPS) RESPONSE_BACKSTOP_K)) as (d & -> & Hd).
  - apply f64_mul_nonneg; [|by apply f64_of_u64]. apply f64_div_nonneg; [by apply f64_of_u64|by apply finite_pos_nonneg, f64_of_u64].
  - exists (Z.max d floor). split; [done|lia].
Qed.

Lemma observed_rate_nonneg len elapsed : 0 <= len <= u64_max -> 0 <= elapsed -> nonneg (observed_rate len elapsed).
Proof.
  intros Hl He. unfold observed_rate. pose proof (as_secs_f64_nonneg elapsed He) as Hn.
  destruct (SFltb _ _) eqn:Ez; [|done]. destruct (decide (len = 0)) as [->|Hne].
  - change (f64_of_Z 0) with (S754_zero false) in *.
    destruct (as_secs_f64 elapsed) as [s|s| |s m e]; [done|by cbn in Hn; subst s|done|by destruct Hn as [-> _]].
  - apply f64_div_nonneg; [apply f64_of_u64; lia|done].
Qed.

(** The window for the first byte of an answer is between one and eleven minutes. *)
Lemma response_ceiling_total b rate :
  0 < tb_sndbuf_bytes b <= u64_max -> nonneg rate ->
  exists d, response_ceiling b rate = Some d /\ from_secs 60 <= d <= from_secs 660.
Proof.
  intros Hb Hr. unfold response_ceiling, RESPONSE_ALLOWANCE. destruct (SFltb _ _).
  - destruct (capped_600 (f64_div (f64_of_Z (tb_sndbuf_bytes b)) rate)) as (d & Hd & Hle).
    { apply f64_div_nonneg; [by apply f64_of_u64|done]. }
    unfold DRAIN_USABILITY_CAP. rewrite Hd. cbn. exists (d + from_secs 60). split; [done|]. unfold from_secs in *. lia.
  - exists (from_secs 60 + from_secs 60). split; [done|]. unfold from_secs, NANOS_PER_SEC. lia.
Qed.

(** ** Termination *)

Section Ends.
Context {E : Type} `{SK : Sockets E}.

(** What the end of an exchange rests on: the clock is a day before the last instant,
    and [pending] counts signals, one of which every interrupted write uses up. *)
Record steady (pending : E -> nat) : Prop := mk_steady {
  steady_clock e : (s_now e).1 <= INSTANT_MAX - from_secs 86400;
  steady_now e : (pending (s_now e).2 <= pending e)%nat;
  steady_read_timeout s d e : (pending (s_set_read_timeout s d e).2 <= pending e)%nat;
  steady_write_timeout s d e : (pending (s_set_write_timeout s d e).2 <= pending e)%nat;
  steady_read tls s n e : (pending (s_read tls s n e).2 <= pending e)%nat;
  steady_flush tls s e : (pending (s_flush tls s e).2 <= pending e)%nat;
  steady_write tls s buf e : (pending (s_write tls s buf e).2 <= pending e)%nat;
  steady_interrupted tls s buf e :
    (s_write tls s buf e).1 = Err Interrupted -> (pending (s_write tls s buf e).2 < pending e)%nat;
}.

Context (pending : E -> nat) (Hst : steady pending).
Abbreviation few k := (fun e => (pending e <= k)%nat).
Abbreviation any := (fun _ => True).

Lemma now_ends k : ends (few k) (fun t => t <= INSTANT_MAX - from_secs 86400) (now (E := E)).
Proof. apply ends_call. intros e He. split; [|apply Hst]. pose proof (steady_now _ Hst e). lia. Qed.

Lemma wire_read_ends k c : ends (few k) any (wire_read (E := E) c).
Proof. apply ends_call. intros e He. split; [|done]. pose proof (steady_read _ Hst (c_tls c) (c_sock c) READ_CHUNK e). lia. Qed.

Lemma set_read_ends k s d : ends (few k) any (set_read_timeout (E := E) s d).
Proof. apply ends_call. intros e He. split; [|done]. pose proof (steady_read_timeout _ Hst s d e). lia. Qed.

Lemma arm_read_ends k s d : ends (few k) any (arm_read_timeout (E := E) s d).
Proof. eapply ends_bind; [apply set_read_ends|]. intros [|] _; auto with bucket. Qed.

Lemma arm_best_effort_ends k s d : ends (few k) any (arm_read_timeout_best_effort (E := E) s d).
Proof. eapply ends_bind; [apply set_read_ends|]. auto with bucket. Qed.

Lemma arm_write_ends k s d : ends (few k) any (arm_write_timeout (E := E) s d).
Proof.
  eapply ends_bind; [apply (ends_call _ _ _ any)|intros [|] _; auto with bucket].
  intros e He. split; [|done]. pose proof (steady_write_timeout _ Hst s d e). lia.
Qed.

Lemma check_deadline_ends k c : ends (few k) any (check_deadline (E := E) c).
Proof.
  unfold check_deadline. destruct (c_deadline c); [|by apply ends_ret]. eapply ends_bind; [apply now_ends|].
  intros t _. destruct (_ <=? t); auto with bucket.
Qed.

Lemma read_head_ends k fuel c buf :
  (length buf <= Z.to_nat HEADER_CAP < length buf + fuel)%nat -> ends (few k) any (read_head (E := E) fuel c buf).
Proof.
  revert buf. induction fuel as [|fuel IH]; intros buf Hf; [lia|]. cbn [read_head].
  destruct (find_headers_end buf); [by apply ends_ret|]. eapply ends_bind; [apply check_deadline_ends|]. intros [] _.
  eapply ends_bind; [apply wire_read_ends|]. intros [[|x b]|e] _; [apply ends_fail| |destruct (timed_out e); apply ends_fail].
  destruct (Z.ltb_spec HEADER_CAP (Z.of_nat (length (buf ++ x :: b)))); [apply ends_fail|].
  apply IH. rewrite length_app in *. cbn [length] in *. lia.
Qed.

Lemma read_data_ends k fuel c target body :
  (0 < fuel)%nat -> target - Z.of_nat (length body) < Z.of_nat fuel -> ends (few k) any (read_data (E := E) fuel c target body).
Proof.
  revert body. induction fuel as [|fuel IH]; intros body Hf Hl; [lia|]. cbn [read_data].
  destruct (Z.ltb_spec (Z.of_nat (length body)) target); [|by apply ends_ret].
  eapply ends_bind; [apply check_deadline_ends|]. intros [] _. eapply ends_bind; [apply wire_read_ends|].
  intros [[|x b]|e] _; [apply ends_fail| |destruct (timed_out e); apply ends_fail].
  apply IH; [lia|]. rewrite length_app. cbn [length]. lia.
Qed.

Lemma read_diagnostic_ends k fuel c cap body :
  (0 < fuel)%nat -> cap - Z.of_nat (length body) < Z.of_nat fuel -> ends (few k) any (read_diagnostic (E := E) fuel c cap body).
Proof.
  revert body. induction fuel as [|fuel IH]; intros body Hf Hl; [lia|]. cbn [read_diagnostic].
  destruct (Z.ltb_spec (Z.of_nat (length body)) cap); [|by apply ends_ret].
  eapply ends_bind; [eapply ends_try, check_deadline_ends|]. intros [[]|] _; [|by apply ends_ret].
  eapply ends_bind; [apply wire_read_ends|]. intros [[|x b]|e] _; try by apply ends_ret.
  apply IH; [lia|]. rewrite length_app. cbn [length]. lia.
Qed.

Lemma read_response_ends k c want gap : ends (few k) any (read_response (E := E) c want gap).
Proof.
  unfold read_response. eapply ends_bind; [apply read_head_ends; cbn [length]; lia|]. intros [buf i] _.
  eapply ends_bind; [apply ends_lift|]. intros [status f] _. eapply ends_bind; [|intros; by apply ends_ret]. unfold read_body.
  instantiate (1 := any). destruct (_ || _); [|by apply ends_ret]. destruct (hf_chunked _); [apply ends_fail|].
  eapply ends_bind; [apply arm_best_effort_ends|]. intros [] _.
  destruct (is_diagnostic _).
  - eapply ends_bind; [apply read_diagnostic_ends; lia|]. intros. by apply ends_ret.
  - destruct (hf_content_length _); [|apply ends_fail]. eapply ends_bind; [apply read_data_ends; lia|]. intros. by apply ends_ret.
Qed.

(** Every turn of the loop writes a byte or uses up a signal. *)
Lemma write_loop_ends k fuel c buf : (length buf + k < fuel)%nat -> ends (few k) any (write_loop (E := E) fuel c buf).
Proof.
  revert k buf. induction fuel as [|fuel IH]; intros k buf Hf; [lia|]. cbn [write_loop].
  case_decide as Hb; [by apply ends_ret|]. eapply ends_bind; [apply check_deadline_ends|]. intros [] _ n Hn.
  unfold mbind at 1, M_bind at 1, wire_write, call.
  pose proof (steady_write _ Hst (c_tls c) (c_sock c) buf (n_env n)) as Hw.
  pose proof (steady_interrupted _ Hst (c_tls c) (c_sock c) buf (n_env n)) as Hi.
  destruct (s_write _ _ _ _) as [r e]. cbn in *. assert (Hk : (pending e <= k)%nat) by lia.
  destruct r as [[|m]|[]]; [by eexists _, _| |by eexists _, _|by eexists _, _| |by eexists _, _].
  - apply IH; [|done]. rewrite length_drop. destruct buf; [done|]. cbn in *. lia.
  - specialize (Hi eq_refl). destruct k as [|k]; [lia|].
    match goal with |- context [write_loop fuel c buf ?n1] =>
      destruct (IH k buf ltac:(lia) n1) as (r & n' & Hr & Hn' & HQ); [cbn; lia|] end. exists r, n'. split_and!; [exact Hr|lia|done].
Qed.

Lemma write_all_ends k fuel c buf : (length buf + k < fuel)%nat -> ends (few k) any (write_all_gap_bounded (E := E) fuel c buf).
Proof.
  intros Hf. eapply ends_bind; [by apply write_loop_ends|]. intros [] _.
  eapply ends_bind; [apply (ends_call _ _ _ any)|intros [|] _; auto with bucket].
  intros e He. split; [|done]. pose proof (steady_flush _ Hst (c_tls c) (c_sock c) e). lia.
Qed.

Lemma instant_add_ends k t d :
  t <= INSTANT_MAX - from_secs 86400 -> d <= from_secs 86400 -> ends (few k) any (panics (E := E) (instant_add t d)).
Proof. intros Ht Hd. unfold instant_add. destruct (Z.leb_spec (t + d) INSTANT_MAX); [by apply ends_ret|lia]. Qed.

(** C32: An exchange ends.  The clock is at least a day before the last instant, as long
    as every ceiling the governor sets; writes are interrupted at most as often as
    signals are [pending].  Then, whatever the other side sends, and however slowly, the
    request is written in at most as many writes as it has bytes and there are signals,
    the answer is read in at most as many reads as the header cap, the declared length
    or the error cap allow, and no duration or instant the code computes makes it panic. *)
Theorem exchange_ends fuel c method t extra body b want ceiling expected keep n :
  (length (str_bytes (request_head method t extra body keep)) + pending (n_env n) < fuel)%nat ->
  (length body + pending (n_env n) < fuel)%nat ->
  Z.of_nat (length body) <= u64_max -> 0 < tb_sndbuf_bytes b <= u64_max ->
  0 <= response_backstop_floor b <= from_secs 86400 ->
  (forall d, ceiling = Some d -> d <= from_secs 86400) ->
  (forall m, expected = Some m -> 0 < m <= u64_max) ->
  exists r n', request_on (E := E) fuel c method t extra body b want ceiling expected keep n = Some (r, n').
Proof.
  intros Hh Hb Hlen Hsnd Hfl Hceil Hexp.
  cut (ends (few (pending (n_env n))) any (request_on (E := E) fuel c method t extra body b want ceiling expected keep)).
  { intros Hends. destruct (Hends n) as (r & n' & Hr & _); [done|]. by exists r, n'. }
  set (k := pending (n_env n)) in *. unfold request_on. eapply ends_bind; [apply now_ends|]. intros t0 Ht0. cbn beta in Ht0.
  assert (Hadd : forall d, ceiling = Some d -> instant_add t0 d = Some (t0 + d)).
  { intros d Hd. specialize (Hceil _ Hd). unfold instant_add. by destruct (Z.leb_spec (t0 + d) INSTANT_MAX); [|lia]. }
  eapply ends_bind with (Q1 := any).
  { destruct ceiling as [d|]; cbn [write_phase_deadline]; [rewrite (Hadd d) by done|]; by apply ends_ret. }
  intros deadline _. eapply ends_bind; [apply arm_read_ends|]. intros [] _. eapply ends_bind; [apply arm_write_ends|]. intros [] _.
  eapply ends_bind; [apply now_ends|]. intros t1 _. eapply ends_bind; [by apply write_all_ends|]. intros [] _.
  eapply ends_bind; [by apply write_all_ends|]. intros [] _. eapply ends_bind; [apply now_ends|]. intros t2 _.
  destruct (response_ceiling_total b (observed_rate (Z.of_nat (length body)) (Z.max 0 (t2 - t1)))) as (d & -> & _);
    [done|apply observed_rate_nonneg; lia|].
  destruct (response_backstop_total expected (response_backstop_floor b) (proj1 Hfl) Hexp) as (limit & -> & Hlimit).
  eapply ends_bind; [by apply (ends_ret _ _ any)|]. intros window _. eapply ends_bind; [apply arm_best_effort_ends|]. intros [] _.
  eapply ends_bind; [by apply (ends_ret _ _ (fun x => x = limit))|]. intros ? ->.
  eapply ends_bind; [apply now_ends|]. intros at_ Hat. cbn beta in Hat.
  eapply ends_bind with (Q1 := fun budget => budget <= limit).
  { destruct ceiling as [d'|]; [rewrite (Hadd d') by done|]; apply ends_ret; [cbn; lia|lia]. }
  intros budget Hbudget. cbn beta in Hbudget. eapply ends_bind; [apply instant_add_ends; lia|]. intros D _.
  eapply ends_bind; [apply read_response_ends|]. intros. by apply ends_ret.
Qed.

End Ends.

End BucketTheorems.
