(* ===== verification/BucketPool.v ===== *)
(** * The bucket transport: connections, the pool and whole requests
      (properties of [BucketTransport]) *)

From S2P Require Import Prelude Prims CryptoCore Text CliError Float64 Governor Transfer BucketUrl BucketTransport BucketTheorems.

Module BucketPool.
Import Transfer BucketUrl BucketTransport BucketTheorems.

(** ** Opening *)

Definition failed_connects (from : nat) (addrs : list SocketAddr) : list Event :=
  imap (fun i a => EConnect a (from + i) false) addrs.

Lemma failed_connects_cons k a addrs :
  failed_connects k (a :: addrs) = EConnect a k false :: failed_connects (S k) addrs.
Proof.
  unfold failed_connects. rewrite imap_cons, Nat.add_0_r. f_equal. apply imap_ext. intros i b _. cbn. f_equal. lia.
Qed.

(** The sockets of the trace are numbered below [k], or from it. *)
Definition below (k : nat) (ev : Event) : Prop := forall s, sock_of ev = Some s -> (s < k)%nat.
Definition from (k : nat) (ev : Event) : Prop := forall s, sock_of ev = Some s -> (k <= s)%nat.

Lemma on_from s k tr : (k <= s)%nat -> Forall (on s) tr -> Forall (from k) tr.
Proof.
  intros Hk Ht. eapply Forall_impl; [exact Ht|]. intros ev He s' Hs. destruct ev; cbn in *; try done; congruence.
Qed.
Lemma on_below s k tr : (s < k)%nat -> Forall (on s) tr -> Forall (below k) tr.
Proof.
  intros Hk Ht. eapply Forall_impl; [exact Ht|]. intros ev He s' Hs. destruct ev; cbn in *; try done; congruence.
Qed.
Lemma from_apart s k tr : (s < k)%nat -> Forall (from k) tr -> apart s tr.
Proof.
  intros Hk Ht. eapply Forall_impl; [exact Ht|]. intros ev He Hs. specialize (He _ Hs). lia.
Qed.
Lemma below_apart s k tr : (k <= s)%nat -> Forall (below k) tr -> apart s tr.
Proof.
  intros Hk Ht. eapply Forall_impl; [exact Ht|]. intros ev He Hs. specialize (He _ Hs). lia.
Qed.

(** Setting a socket up moves no byte of a request. *)
Definition arming (s : nat) (ev : Event) : Prop :=
  match ev with EArmRead s' _ _ | EArmWrite s' _ _ | EHandshake s' _ => s' = s | _ => False end.
Definition quiet (ev : Event) : Prop :=
  match ev with EWrite _ _ | ERead _ _ | EShutdown _ => False | _ => True end.

Lemma quiet_bytes s tr : Forall quiet tr -> written s tr = [] /\ received s tr = [] /\ EShutdown s ∉ tr.
Proof.
  unfold written, received. induction 1 as [|ev tr Hev _ (IH1 & IH2 & IH3)]; [split_and!; [done|done|apply not_elem_of_nil]|].
  cbn. rewrite IH1, IH2, not_elem_of_cons. destruct ev; done.
Qed.

Lemma failed_connects_ok k k' addrs :
  (k + length addrs <= k')%nat ->
  Forall (fun ev => from k ev /\ below k' ev /\ quiet ev) (failed_connects k addrs).
Proof.
  intros Hk. apply Forall_lookup. intros i ev. unfold failed_connects. rewrite list_lookup_imap.
  destruct (addrs !! i) as [a|] eqn:Ea; [|done]. apply lookup_lt_Some in Ea. intros [= <-].
  split_and!; [| |done]; intros s [= <-]; lia.
Qed.

Section Opening.
Context {E : Type} `{SK : Sockets E}.

Lemma connect_first_spec addrs (n : @Net E) r n' :
  connect_first addrs n = Some (r, n') ->
  n_idle n' = n_idle n /\
  match r with
  | Ok (Some (a, s)) =>
      exists pre post, addrs = pre ++ a :: post /\ s = (n_next n + length pre)%nat /\ n_next n' = S s /\
        n_trace n' = n_trace n ++ failed_connects (n_next n) pre ++ [EConnect a s true]
  | Ok None =>
      n_next n' = (n_next n + length addrs)%nat /\ n_trace n' = n_trace n ++ failed_connects (n_next n) addrs
  | Err _ => False
  end.
Proof.
  revert n. induction addrs as [|a addrs IH]; intros n; cbn [connect_first].
  { intros [= <- <-]. split; [done|]. cbn. rewrite app_nil_r. split; [lia|done]. }
  destruct (s_connect _ _ _ _) as [[[]|k] e]; cbn [is_ok].
  - intros [= <- <-]. split; [done|]. exists [], addrs. cbn. by rewrite Nat.add_0_r.
  - intros H. apply IH in H as [Hi H]. split; [done|]. destruct r as [[[a' s]|]|]; [| |done]; cbn [n_next n_trace] in H.
    + destruct H as (pre & post & -> & -> & -> & ->). exists (a :: pre), post. cbn [length]. split_and!; [done|lia|lia|].
      by rewrite <- !app_assoc, failed_connects_cons.
    + destruct H as [-> ->]. split; [cbn; lia|]. by rewrite <- app_assoc, failed_connects_cons.
Qed.

(** Setting a new socket up. *)
Lemma handshake_arming fuel s : confined (arming s) (handshake fuel s).
Proof.
  induction fuel as [|fuel IH]; [apply emits_stuck|]. cbn [handshake].
  apply confined_bind; [apply confined_peek|]. intros [|]; [|apply confined_ret].
  apply confined_bind; [apply confined_call; by repeat constructor|]. intros [[rd wr]|k].
  - apply confined_bind; [apply confined_peek|]. intros hs. destruct (_ && _); [apply confined_fail|apply IH].
  - destruct (timed_out k); apply confined_fail.
Qed.

Definition setup (fuel : nat) (t : Target) (b : TransportBounds) (s : nat) : @M E Connection :=
  arm_read_timeout s HANDSHAKE_TIMEOUT;;
  arm_write_timeout s (write_gap b);;
  if tls t then
    if negb (s_server_name (host t)) then fail (network "bucket URL host is not a valid TLS server name")
    else if negb (s_client_connection (host t)) then fail (network "TLS setup failed")
    else handshake fuel s;; mret (mk_Connection true s None)
  else mret (mk_Connection false s None).

Lemma setup_spec fuel t b s :
  emits (setup fuel t b s) (fun r tr => Forall (arming s) tr /\ forall c, r = Ok c -> c = mk_Connection (tls t) s None).
Proof.
  assert (Hc : confined (arming s) (setup fuel t b s)).
  { unfold setup. do 2 (apply confined_bind; [apply confined_bind; [apply confined_call; by repeat constructor|
      intros [|]; [apply confined_ret|apply confined_fail]]|]; intros []).
    destruct (tls t); [|apply confined_ret]. destruct (negb _); [apply confined_fail|].
    destruct (negb _); [apply confined_fail|]. apply confined_bind; [apply handshake_arming|]. intros. apply confined_ret. }
  assert (Hr : returns (setup fuel t b s) (fun c _ => c = mk_Connection (tls t) s None)).
  { unfold setup. eapply returns_bind; [apply arm_read_returns|]. intros [] tr1 _.
    eapply returns_bind; [apply arm_write_returns|]. intros [] tr2 _. destruct (tls t); [|by apply returns_ret].
    destruct (negb _); [apply returns_fail|]. destruct (negb _); [apply returns_fail|].
    eapply returns_bind with (Q1 := fun _ _ => True); [|by intros; apply returns_ret].
    eapply emits_weaken; [apply handshake_arming|done]. }
  intros n r n' H. destruct (Hc _ _ _ H) as (? & ? & tr & Ht & ?), (Hr _ _ _ H) as (_ & _ & tr' & Ht' & ?).
  rewrite Ht in Ht'. apply (inj (app _)) in Ht'. subst tr'. eauto 10.
Qed.

(** What an open leaves in the trace: the addresses resolved, IPv4 first, tried in
    turn until one answers on a new socket, and the setup of that one. *)
Lemma open_spec fuel t b (n : @Net E) r n' :
  BucketTransport.open fuel t b n = Some (r, n') ->
  n_idle n' = n_idle n /\ (n_next n <= n_next n')%nat /\
  exists tr, n_trace n' = n_trace n ++ tr /\ Forall (fun ev => from (n_next n) ev /\ below (n_next n') ev /\ quiet ev) tr /\
    forall c, r = Ok c -> exists addrs pre a post tr2,
      prefer_ipv4 addrs = pre ++ a :: post /\ c = mk_Connection (tls t) (n_next n + length pre)%nat None /\
      n_next n' = S (c_sock c) /\ Forall (arming (c_sock c)) tr2 /\
      tr = EResolve (host t) (port t) (Ok addrs) :: failed_connects (n_next n) pre ++ EConnect a (c_sock c) true :: tr2.
Proof.
  unfold BucketTransport.open. unfold mbind at 1, M_bind at 1, call at 1.
  destruct (s_resolve _ _ _) as [[addrs|k] e] eqn:Er.
  2:{ intros [= <- <-]. cbn. split_and!; [done|done|]. eexists. split_and!; [done| |done].
      apply Forall_singleton; split_and!; by try intros s. }
  unfold mbind at 1, M_bind at 1.
  destruct (connect_first _ _) as [[[[[a s]|]|e0] n1]|] eqn:Ec; [| | |done];
    apply connect_first_spec in Ec as [Hi1 Ec]; [| |done]; cbn [n_idle n_next n_trace] in *.
  - destruct Ec as (pre & post & Hp & -> & Hn1 & Ht1). intros H.
    change (setup fuel t b (n_next n + length pre) n1 = Some (r, n')) in H.
    destruct (setup_spec _ _ _ _ _ _ _ H) as (Hn2 & Hi2 & tr2 & Ht2 & Ha2 & Hc2).
    split_and!; [congruence|lia|]. eexists. split; [rewrite Ht2, Ht1, <- !app_assoc; done|]. split.
    + rewrite Hn2, Hn1. apply Forall_app. split; [apply Forall_singleton; split_and!; by try intros s|].
      apply Forall_app. split; [by apply failed_connects_ok; lia|]. constructor.
      * split_and!; [| |done]; intros s [= <-]; lia.
      * eapply Forall_impl; [exact Ha2|]. intros ev He. destruct ev; cbn in He; try done; subst;
          (split_and!; [| |done]; intros s [= <-]; lia).
    + intros c ->. rewrite (Hc2 _ eq_refl). exists addrs, pre, a, post, tr2. cbn. split_and!; done || lia.
  - destruct Ec as [Hn1 Ht1]. intros [= <- <-]. split_and!; [done|lia|]. eexists.
    split; [rewrite Ht1, <- app_assoc; done|]. split; [|done]. apply Forall_app. split; [apply Forall_singleton; split_and!; by try intros s|].
    rewrite Hn1. by apply failed_connects_ok; lia.
Qed.

End Opening.
(** The socket is IPv6 only if the name has no IPv4 address, or each of them was tried
    before and failed. *)
Theorem ipv6_last_resort {E} `{SK : Sockets E} fuel t b (n : @Net E) c n' :
  BucketTransport.open fuel t b n = Some (Ok c, n') ->
  exists addrs a tr, n_trace n' = n_trace n ++ tr /\ EResolve (host t) (port t) (Ok addrs) ∈ tr /\
    EConnect a (c_sock c) true ∈ tr /\ a ∈ addrs /\
    (is_ipv6 a = true -> forall a', a' ∈ addrs -> is_ipv4 a' = true -> exists s, EConnect a' s false ∈ tr).
Proof.
  intros H. apply open_spec in H as (_ & _ & tr & Ht & _ & Hc).
  destruct (Hc _ eq_refl) as (addrs & pre & a & post & tr2 & Hp & -> & _ & _ & ->). exists addrs, a. eexists.
  split; [exact Ht|]. split; [by left|]. split; [right; apply elem_of_app; right; by left|].
  assert (Ha : prefer_ipv4 addrs !! length pre = Some a) by (rewrite Hp; apply list_lookup_middle; done).
  split; [by apply prefer_ipv4_elem, (list_elem_of_lookup_2 _ _ _ Ha)|]. intros H6 a' Ha' H4.
  apply prefer_ipv4_elem, list_elem_of_lookup_1 in Ha' as [i Hi].
  unfold is_ipv6 in H6. apply negb_true_iff in H6. pose proof (prefer_ipv4_order _ _ _ _ _ Hi Ha H4 H6) as Hlt.
  rewrite Hp, lookup_app_l in Hi by done. exists (n_next n + i)%nat. right. apply elem_of_app. left.
  apply (list_elem_of_lookup_2 _ i). unfold failed_connects. by rewrite list_lookup_imap, Hi.
Qed.

(** ** The pool *)

(** All of [rx] is one answer. *)
Definition whole (rx : bytes) : Prop :=
  exists i status f, find_headers_end rx = Some i /\ parse_head (take i rx) = Ok (status, f) /\ status < 300 /\
    hf_content_length f = Some (Z.of_nat (length (drop i rx))).

(** The trace of a socket on which every request was answered and every answer read
    to its end: nothing of an earlier answer is left to be taken for a later one. *)
Inductive clean (s : nat) : list Event -> Prop :=
| clean_new tr : written s tr = [] -> received s tr = [] -> clean s tr
| clean_exchange tr gap req limit D ex trr :
    clean s tr -> exchanged s gap req limit D ex trr -> whole (received s trr) -> clean s (tr ++ ex)
| clean_other tr tr' : clean s tr -> apart s tr' -> clean s (tr ++ tr').

(** The connection was made to an address of the target. *)
Definition opened_for (c : Connection) (t : Target) (tr : list Event) : Prop :=
  c_tls c = tls t /\ exists addrs a,
    EResolve (host t) (port t) (Ok addrs) ∈ tr /\ a ∈ addrs /\ EConnect a (c_sock c) true ∈ tr.

Lemma opened_for_app c t tr tr' : opened_for c t tr -> opened_for c t (tr ++ tr').
Proof.
  intros (? & addrs & a & ? & ? & ?). split; [done|]. exists addrs, a. rewrite !elem_of_app. auto.
Qed.

(** A connection that may serve the authority [a]. *)
Definition fit (tr : list Event) (a : string) (c : Connection) : Prop :=
  (exists u t, parse_url u = Ok t /\ authority t = a /\ opened_for c t tr) /\
  clean (c_sock c) tr /\ EShutdown (c_sock c) ∉ tr.

Definition sock_ac (ac : string * Connection) : nat := c_sock ac.2.

Lemma fit_other tr a c tr' : fit tr a c -> apart (c_sock c) tr' -> fit (tr ++ tr') a c.
Proof.
  intros ((u & t & Hu & Ha & Ho) & Hc & Hs) Hap. split; [exists u, t; eauto using opened_for_app|].
  split; [by apply clean_other|]. rewrite elem_of_app. intros [?|Hin]; [done|].
  unfold apart in Hap. rewrite Forall_forall in Hap. by apply (Hap _ Hin).
Qed.

(** The pool: its sockets are distinct, and each connection is fit for its key. *)
Definition pool_ok {E} (n : @Net E) : Prop :=
  Forall (below (n_next n)) (n_trace n) /\
  Forall (fun ac => fit (n_trace n) ac.1 ac.2) (n_idle n) /\ NoDup (map sock_ac (n_idle n)).

Lemma fit_below tr a c k : Forall (below k) tr -> fit tr a c -> (c_sock c < k)%nat.
Proof.
  intros Hb ((u & t & _ & _ & _ & addrs & x & _ & _ & Hin) & _). rewrite Forall_forall in Hb. by apply (Hb _ Hin).
Qed.

Lemma swap_remove_perm {A} (l : list A) i x : l !! i = Some x -> x :: swap_remove i l ≡ₚ l.
Proof.
  intros Hi. unfold swap_remove. destruct (last l) as [y|] eqn:Ey.
  2:{ apply last_None in Ey. by subst. }
  apply last_Some in Ey as [l' ->]. rewrite length_app. cbn [length]. replace (length l' + 1 - 1)%nat with (length l') by lia.
  destruct (decide (i < length l')%nat) as [Hlt|Hge].
  - rewrite lookup_app_l in Hi by done. rewrite insert_app_l by done. rewrite take_app_length' by (by rewrite length_insert).
    rewrite (insert_take_drop l' i y Hlt). rewrite <- (take_drop_middle l' i x Hi) at 3.
    rewrite <- app_assoc. cbn. rewrite (Permutation_app_comm (drop (S i) l') [y]). cbn.
    rewrite <- !Permutation_middle. done.
  - rewrite lookup_app_r in Hi by lia. destruct (i - length l')%nat eqn:Ei; [|done]. injection Hi as ->.
    rewrite insert_app_r_alt, Ei by lia. cbn. rewrite take_app_length. by rewrite Permutation_app_comm.
Qed.

Section Pool.
Context {E : Type} `{SK : Sockets E}.

(** Taking from the pool gives a connection that is fit, and leaves a pool without it. *)
Lemma take_idle_spec a (n : @Net E) r n' :
  pool_ok n -> take_idle a n = Some (r, n') ->
  n_trace n' = n_trace n /\ n_next n' = n_next n /\ pool_ok n' /\
  exists o, r = Ok o /\ (o = None -> n_idle n' = n_idle n) /\
    forall c, o = Some c -> fit (n_trace n) a c /\ c_sock c ∉ map sock_ac (n_idle n').
Proof.
  intros (Hb & Hf & Hnd). unfold take_idle. destruct (list_find _ _) as [[i [a' c]]|] eqn:El.
  - apply list_find_Some in El as (Hi & Ha & _). cbn in Ha. subst a'. intros [= <- <-]. cbn.
    pose proof (swap_remove_perm _ _ _ Hi) as Hperm. rewrite <- Hperm in Hf. apply Forall_cons in Hf as [Hc Hf].
    assert (Hnd' : NoDup (map sock_ac ((a, c) :: swap_remove i (n_idle n)))) by by rewrite Hperm.
    cbn in Hnd'. apply NoDup_cons in Hnd' as [Hni Hnd'].
    split_and!; [done|done|by split_and!|]. exists (Some c). split_and!; [done|done|]. by intros ? [= <-].
  - intros [= <- <-]. split_and!; [done|done|by split_and!|]. by exists None.
Qed.

(** Events on one socket outside the pool keep the pool. *)
Lemma pool_ok_grow (n n' : @Net E) tr :
  pool_ok n -> n_idle n' = n_idle n -> (n_next n <= n_next n')%nat -> n_trace n' = n_trace n ++ tr ->
  Forall (below (n_next n')) tr -> (forall s, s ∈ map sock_ac (n_idle n) -> apart s tr) -> pool_ok n'.
Proof.
  intros (Hb & Hf & Hnd) Hi Hn Ht Hbt Hap. unfold pool_ok. rewrite Hi, Ht. split_and!; [| |done].
  - apply Forall_app. split; [|done]. eapply Forall_impl; [exact Hb|]. intros ev He s Hs. specialize (He _ Hs). lia.
  - rewrite Forall_forall in *. intros ac Hin. apply fit_other; [by apply Hf|]. apply Hap.
    apply list_elem_of_fmap. by exists ac.
Qed.

Lemma exchange_spec fuel q b pool t c (n : @Net E) r n' :
  exchange fuel q b pool t c n = Some (r, n') ->
  n_next n' = n_next n /\ n_idle n' = n_idle n /\ exists ex, n_trace n' = n_trace n ++ ex /\ Forall (on (c_sock c)) ex /\
    forall x, r = Ok x -> exists D limit trr,
      x.2 = with_deadline (Some D) c /\ response_backstop (q_expected q) (response_backstop_floor b) = Some limit /\
      exchanged (c_sock c) (write_gap b)
        (str_bytes (request_head (q_method q) t (q_headers q) (q_body q) pool) ++ q_body q) limit D ex trr /\
      framed (q_want_body q) (received (c_sock c) trr) x.1.1.
Proof.
  intros H. unfold exchange in H. destruct (request_on_confined _ _ _ _ _ _ _ _ _ _ _ _ _ _ H) as (Hn & Hi & ex & Ht & Hon).
  destruct (request_on_returns _ _ _ _ _ _ _ _ _ _ _ _ _ _ H) as (_ & _ & ex' & Ht' & Hx).
  rewrite Ht in Ht'. apply (inj (app _)) in Ht'. subst ex'. eauto 10.
Qed.

(** The answer that makes a connection reusable is whole. *)
Lemma framed_whole want rx resp : framed want rx resp -> r_reusable resp = true -> whole rx.
Proof.
  intros (i & f & Hi & Hp & _ & _ & Hd & Hr) Hre. destruct (Hr Hre) as (Hw & Hs & _ & Hb).
  destruct (Hd Hw Hs) as [_ Hl]. exists i, (r_status resp), f. by rewrite Hb.
Qed.

(** What a request that returned an answer did: on a connection that was fit for its
    authority it sent the request, and read the answer. *)
Definition answered (q : Call) (b : TransportBounds) (pool : bool) (before after : list Event) (out : BucketTransport.Transfer) : Prop :=
  exists t c tr1 ex tr2 D limit trr resp,
    parse_url (q_url q) = Ok t /\ after = before ++ tr1 ++ ex ++ tr2 /\ fit (before ++ tr1) (authority t) c /\
    response_backstop (q_expected q) (response_backstop_floor b) = Some limit /\
    exchanged (c_sock c) (write_gap b)
      (str_bytes (request_head (q_method q) t (q_headers q) (q_body q) pool) ++ q_body q) limit D ex trr /\
    framed (q_want_body q) (received (c_sock c) trr) resp /\
    t_status out = r_status resp /\ t_etag out = r_etag resp /\ t_body out = r_body resp /\
    ~ (300 <= r_status resp < 400).

Lemma settle_spec q pool t resp rate c (n : @Net E) r n' :
  settle q pool t (resp, rate, c) n = Some (r, n') ->
  pool_ok n -> c_sock c ∉ map sock_ac (n_idle n) -> (c_sock c < n_next n)%nat ->
  (r_reusable resp = true -> fit (n_trace n) (authority t) c) ->
  pool_ok n' /\ exists tr, n_trace n' = n_trace n ++ tr /\
    forall out, r = Ok out -> out = mk_Transfer (r_status resp) (r_etag resp) (r_body resp) rate /\ ~ (300 <= r_status resp < 400).
Proof.
  intros H Hok Hni Hlt Hfit.
  assert (Hshut : pool_ok (mk_Net (s_shutdown (c_sock c) (n_env n)) (n_next n) (n_trace n ++ [EShutdown (c_sock c)]) (n_idle n))).
  { eapply pool_ok_grow; [exact Hok|done|done|done| |].
    - apply Forall_singleton. intros s [= <-]. done.
    - intros s Hs. apply Forall_singleton. intros [= <-]. done. }
  revert H. unfold settle. destruct (_ && _) eqn:Ered.
  { intros [= <- <-]. split; [done|]. by eexists. }
  apply andb_false_iff in Ered. assert (Hnr : ~ (300 <= r_status resp < 400)) by (rewrite Z.leb_gt, Z.ltb_ge in Ered; lia).
  destruct (pool && r_reusable resp) eqn:Ep; intros [= <- <-].
  - apply andb_true_iff in Ep as [_ Hre]. split.
    + destruct Hok as (Hb & Hf & Hnd). split_and!; cbn; [done|apply Forall_app; split; [done|by apply Forall_singleton, Hfit]|].
      rewrite map_app. apply NoDup_app. split_and!; [done| |apply NoDup_singleton].
      intros s Hs ->%list_elem_of_singleton. done.
    + exists []. rewrite app_nil_r. split; [done|]. by intros ? [= <-].
  - split; [done|]. eexists. split; [done|]. by intros ? [= <-].
Qed.

(** The round on one connection that is fit and not in the pool. *)
Lemma round_spec fuel q b pool t c (n n1 : @Net E) x r n' :
  pool_ok n -> parse_url (q_url q) = Ok t -> fit (n_trace n) (authority t) c -> c_sock c ∉ map sock_ac (n_idle n) ->
  exchange fuel q b pool t c n = Some (Ok x, n1) -> settle q pool t x n1 = Some (r, n') ->
  pool_ok n' /\ (exists tr, n_trace n' = n_trace n ++ tr) /\
  forall out, r = Ok out -> answered q b pool (n_trace n) (n_trace n') out.
Proof.
  intros Hok Hu Hfit Hni He Hs. apply exchange_spec in He as (Hn & Hi & ex & Ht & Hon & Hx).
  destruct (Hx _ eq_refl) as (D & limit & trr & Hc & Hl & Hex & Hfr). destruct x as [[resp rate] c']. cbn [fst snd] in *.
  subst c'. pose proof Hok as (Hb & _ & _). pose proof (fit_below _ _ _ _ Hb Hfit) as Hlt.
  apply settle_spec in Hs; cycle 1.
  - eapply pool_ok_grow; [exact Hok|done|lia|exact Ht| |].
    + rewrite Hn. by apply (on_below (c_sock c)).
    + intros s Hin. eapply on_apart; [exact Hon|]. by intros ->.
  - by rewrite Hi.
  - by rewrite Hn.
  - intros Hre. destruct Hfit as ((u & t' & Hu' & Ha & Ho) & Hcl & Hsh). rewrite Ht. split_and!.
    + exists u, t'. split_and!; [done|done|]. by apply opened_for_app.
    + eapply clean_exchange; [exact Hcl|exact Hex|]. by eapply framed_whole.
    + rewrite elem_of_app. intros [?|Hin]; [done|]. rewrite Forall_forall in Hon. by apply (Hon _ Hin).
  - destruct Hs as [Hok' (tr & Ht' & Hout)]. split; [done|]. rewrite Ht', Ht, <- app_assoc. split; [by eexists|].
    intros out Hr. destruct (Hout _ Hr) as [-> Hst]. exists t, c, [], ex, tr, D, limit, trr, resp.
    cbn [app]. rewrite app_nil_r. by split_and!.
Qed.

Lemma shutdown_ok c (n : @Net E) :
  pool_ok n -> c_sock c ∉ map sock_ac (n_idle n) -> (c_sock c < n_next n)%nat ->
  exists n1, shutdown c n = Some (Ok tt, n1) /\ pool_ok n1 /\ n_trace n1 = n_trace n ++ [EShutdown (c_sock c)].
Proof.
  intros Hok Hni Hlt. eexists. split; [done|]. split; [|done]. eapply pool_ok_grow; [exact Hok|done|done|done| |].
  - apply Forall_singleton. by intros s [= <-].
  - intros s Hs. apply Forall_singleton. by intros [= <-].
Qed.

Lemma answered_later q b pool tr0 tr1 tr2 out :
  answered q b pool (tr0 ++ tr1) tr2 out -> answered q b pool tr0 tr2 out.
Proof.
  intros (t & c & a & ex & z & D & limit & trr & resp & Hu & -> & Hf & Hrest).
  exists t, c, (tr1 ++ a), ex, z, D, limit, trr, resp. rewrite <- !app_assoc in *. split_and!; done || apply Hrest.
Qed.

(** A new connection is fit for the authority it was opened for. *)
Lemma open_fit fuel q t b (n : @Net E) r n' :
  pool_ok n -> parse_url (q_url q) = Ok t -> BucketTransport.open fuel t b n = Some (r, n') ->
  pool_ok n' /\ (exists tr, n_trace n' = n_trace n ++ tr) /\
  forall c, r = Ok c -> fit (n_trace n') (authority t) c /\ c_sock c ∉ map sock_ac (n_idle n').
Proof.
  intros Hok Hu H. apply open_spec in H as (Hi & Hn & tr & Ht & Hall & Hc). pose proof Hok as (Hb & Hf & _).
  assert (Hidle : forall s, s ∈ map sock_ac (n_idle n) -> (s < n_next n)%nat).
  { intros s ([a c] & -> & Hin)%list_elem_of_fmap. rewrite Forall_forall in Hf. specialize (Hf _ Hin). by eapply fit_below. }
  split; [|split; [by eexists|]].
  - eapply pool_ok_grow; [exact Hok|done|done|exact Ht| |].
    + eapply Forall_impl; [exact Hall|]. by intros ev (_ & ? & _).
    + intros s Hs. apply (from_apart s (n_next n)); [by apply Hidle|]. eapply Forall_impl; [exact Hall|]. by intros ev (? & _).
  - intros c Hr. assert (Hq : Forall quiet tr) by (eapply Forall_impl; [exact Hall|]; by intros ev (_ & _ & ?)).
    destruct (Hc _ Hr) as (addrs & pre & a & post & tr2 & Hp & -> & Hn' & _ & Htr). cbn [c_sock] in *.
    assert (Hfr : (n_next n <= n_next n + length pre)%nat) by lia. rewrite Hi. split.
    + rewrite Ht. split_and!; cbn [c_sock].
      * exists (q_url q), t. split_and!; [done|done|]. split; [done|]. exists addrs, a. subst tr. split_and!.
        -- apply elem_of_app. right. by left.
        -- apply prefer_ipv4_elem. rewrite Hp. apply elem_of_app. right. by left.
        -- apply elem_of_app. right. right. apply elem_of_app. right. by left.
      * destruct (apart_written (n_next n + length pre)%nat (n_trace n)) as [Hw0 Hr0]; [by eapply below_apart|].
        destruct (quiet_bytes (n_next n + length pre)%nat tr Hq) as (Hw1 & Hr1 & _).
        apply clean_new; rewrite ?written_app, ?received_app, ?Hw0, ?Hr0, ?Hw1, ?Hr1; done.
      * rewrite elem_of_app. intros [Hin|Hin]; [|by eapply quiet_bytes].
        rewrite Forall_forall in Hb. specialize (Hb _ Hin (n_next n + length pre)%nat eq_refl). lia.
    + intros Hin. specialize (Hidle _ Hin). lia.
Qed.

(** A failed exchange ends with the connection shut, the pool as it was. *)
Lemma failed_exchange_ok fuel q b pool t c (n n1 : @Net E) e :
  pool_ok n -> fit (n_trace n) (authority t) c -> c_sock c ∉ map sock_ac (n_idle n) ->
  exchange fuel q b pool t c n = Some (Err e, n1) ->
  exists n2 tr, shutdown c n1 = Some (Ok tt, n2) /\ pool_ok n2 /\ n_trace n2 = n_trace n ++ tr.
Proof.
  intros Hok Hfit Hni He. apply exchange_spec in He as (Hn & Hi & ex & Ht & Hon & _). pose proof Hok as (Hb & _ & _).
  pose proof (fit_below _ _ _ _ Hb Hfit) as Hlt.
  assert (Hok1 : pool_ok n1).
  { eapply pool_ok_grow; [exact Hok|done|lia|exact Ht| |].
    - rewrite Hn. by apply (on_below (c_sock c)).
    - intros s Hin. eapply on_apart; [exact Hon|]. by intros ->. }
  destruct (shutdown_ok c n1 Hok1) as (n2 & Hs & Hok2 & Ht2); [by rewrite Hi|by rewrite Hn|].
  exists n2. eexists. split_and!; [done|done|]. by rewrite Ht2, Ht, <- app_assoc.
Qed.

Lemma fresh_round_spec fuel q b pool t (n : @Net E) r n' :
  pool_ok n -> parse_url (q_url q) = Ok t -> fresh_round fuel q b pool t n = Some (r, n') ->
  pool_ok n' /\ (exists tr, n_trace n' = n_trace n ++ tr) /\
  forall out, r = Ok out -> answered q b pool (n_trace n) (n_trace n') out.
Proof.
  intros Hok Hu. unfold fresh_round. unfold mbind at 1, M_bind at 1.
  destruct (BucketTransport.open fuel t b n) as [[[c|e] n1]|] eqn:Eo; [| |done];
    destruct (open_fit _ _ _ _ _ _ _ Hok Hu Eo) as (Hok1 & [tr1 Ht1] & Hc).
  2:{ intros [= <- <-]. split_and!; [done|by eexists|done]. }
  destruct (Hc _ eq_refl) as [Hfit Hni]. unfold mbind at 1, M_bind at 1, try at 1.
  destruct (exchange fuel q b pool t c n1) as [[[x|e] n2]|] eqn:Ee; [| |done].
  - intros Hs. destruct (round_spec _ _ _ _ _ _ _ _ _ _ _ Hok1 Hu Hfit Hni Ee Hs) as (Hok' & [tr2 Ht2] & Ha).
    split; [done|]. split; [rewrite Ht2, Ht1, <- app_assoc; by eexists|].
    intros out Hr. specialize (Ha _ Hr). rewrite Ht1 in Ha. by eapply answered_later.
  - destruct (failed_exchange_ok _ _ _ _ _ _ _ _ _ Hok1 Hfit Hni Ee) as (n3 & tr3 & Hs & Hok3 & Ht3).
    unfold mbind, M_bind. rewrite Hs. intros [= <- <-]. split_and!; [done| |done].
    rewrite Ht3, Ht1, <- app_assoc. by eexists.
Qed.

Lemma request_with_pool_spec fuel q b pool (n : @Net E) r n' :
  pool_ok n -> request_with_pool fuel q b pool n = Some (r, n') ->
  pool_ok n' /\ (exists tr, n_trace n' = n_trace n ++ tr) /\
  forall out, r = Ok out -> answered q b pool (n_trace n) (n_trace n') out.
Proof.
  intros Hok. unfold request_with_pool. unfold mbind at 1, M_bind at 1, lift at 1.
  destruct (parse_url (q_url q)) as [t|e] eqn:Hu.
  2:{ intros [= <- <-]. split_and!; [done|exists []; by rewrite app_nil_r|done]. }
  destruct pool; [|by apply fresh_round_spec]. unfold mbind at 1, M_bind at 1.
  destruct (take_idle (authority t) n) as [[o n1]|] eqn:Et; [|by unfold take_idle in Et; destruct (list_find _ _) as [[? []]|]].
  destruct (take_idle_spec _ _ _ _ Hok Et) as (Ht1 & Hn1 & Hok1 & o' & -> & _ & Hc). rewrite <- Ht1.
  destruct o' as [c|]; [|by apply fresh_round_spec].
  destruct (Hc _ eq_refl) as [Hfit Hni]. rewrite <- Ht1 in Hfit. unfold mbind at 1, M_bind at 1, try at 1.
  destruct (exchange fuel q b true t c n1) as [[[x|e] n2]|] eqn:Ee; [| |done].
  - intros Hs. by eapply round_spec.
  - destruct (failed_exchange_ok _ _ _ _ _ _ _ _ _ Hok1 Hfit Hni Ee) as (n3 & tr3 & Hs & Hok3 & Ht3).
    unfold mbind at 1, M_bind at 1. rewrite Hs. intros H.
    destruct (fresh_round_spec _ _ _ _ _ _ _ _ Hok3 Hu H) as (Hok' & [tr4 Ht4] & Ha).
    split; [done|]. split; [rewrite Ht4, Ht3, <- app_assoc; by eexists|].
    intros out Hr. specialize (Ha _ Hr). rewrite Ht3 in Ha. by eapply answered_later.
Qed.

(** C30: Connections are reused only when nothing of an earlier answer can be left on
    them.  Whatever the network does, a request keeps the pool sound: its connections
    are distinct and open, and on each of them every request that was sent has its
    whole answer, read to the last byte declared.  A request that is answered was sent,
    whole, on such a connection or on a new one, made for the same host (and the same
    port, if it is for the same scheme); the read timer was disarmed and the gap armed
    before its first byte, and nothing was read before its last; every read was begun
    before the limit on the wait; the answer is no redirect, and the body of a
    successful read has the length that was declared. *)
Theorem pool_sound fuel q b pool (n : @Net E) r n' :
  pool_ok n -> request_with_pool fuel q b pool n = Some (r, n') ->
  pool_ok n' /\
  forall out, r = Ok out ->
    exists t c t' tr1 ex tr2 D limit trr resp,
      parse_url (q_url q) = Ok t /\ n_trace n' = n_trace n ++ tr1 ++ ex ++ tr2 /\
      clean (c_sock c) (n_trace n ++ tr1) /\ EShutdown (c_sock c) ∉ n_trace n ++ tr1 /\
      opened_for c t' (n_trace n ++ tr1) /\ host t' = host t /\ (tls t' = tls t -> port t' = port t) /\
      response_backstop (q_expected q) (response_backstop_floor b) = Some limit /\
      exchanged (c_sock c) (write_gap b)
        (str_bytes (request_head (q_method q) t (q_headers q) (q_body q) pool) ++ q_body q) limit D ex trr /\
      framed (q_want_body q) (received (c_sock c) trr) resp /\
      t_status out = r_status resp /\ t_etag out = r_etag resp /\ t_body out = r_body resp /\
      ~ (300 <= t_status out < 400).
Proof.
  intros Hok H. destruct (request_with_pool_spec _ _ _ _ _ _ _ Hok H) as (Hok' & _ & Ha). split; [done|].
  intros out Hr. destruct (Ha _ Hr) as (t & c & tr1 & ex & tr2 & D & limit & trr & resp & Hu & Ht & Hfit & Hl & Hex & Hfr & Hs & He & Hb & Hnr).
  destruct Hfit as ((u & t' & Hu' & Hau & Hop) & Hcl & Hsh).
  destruct (same_endpoint _ _ _ _ Hu' Hu Hau) as [Hh Hp].
  exists t, c, t', tr1, ex, tr2, D, limit, trr, resp. rewrite Hs. by split_and!.
Qed.

(** ** Requests without the pool *)

(** An attempt without the pool is a flow of its own.  It leaves the pool alone,
    touches no socket that was there before, writes on one socket at most, and shuts
    down the one it wrote on, whether it succeeds or fails. *)
Theorem attempt_fresh fuel q b (n : @Net E) r n' :
  request fuel q b n = Some (r, n') ->
  n_idle n' = n_idle n /\
  exists tr s, n_trace n' = n_trace n ++ tr /\ Forall (from (n_next n)) tr /\
    (forall s' buf, EWrite s' buf ∈ tr -> s' = s /\ EShutdown s ∈ tr).
Proof.
  unfold request, request_with_pool. unfold mbind at 1, M_bind at 1, lift at 1.
  destruct (parse_url (q_url q)) as [t|e] eqn:Hu.
  2:{ intros [= <- <-]. split; [done|]. exists [], 0%nat. rewrite app_nil_r. split_and!; [done|done|]. by intros ? ? ?%not_elem_of_nil. }
  unfold mbind at 1, M_bind at 1, mret at 1, M_ret at 1. cbv beta iota. unfold fresh_round, mbind at 1, M_bind at 1.
  destruct (BucketTransport.open fuel t b n) as [[[c|e] n1]|] eqn:Eo; [| |done];
    apply open_spec in Eo as (Hi1 & Hn1 & tr1 & Ht1 & Hall & Hc);
    assert (Hfrom : Forall (from (n_next n)) tr1) by (eapply Forall_impl; [exact Hall|]; by intros ev (? & _));
    assert (Hq1 : forall s' buf, EWrite s' buf ∉ tr1)
      by (intros s' buf Hin; rewrite Forall_forall in Hall; by destruct (Hall _ Hin) as (_ & _ & [])).
  2:{ intros [= <- <-]. split; [done|]. exists tr1, 0%nat. split_and!; [done|done|]. intros s' buf Hin. by apply Hq1 in Hin. }
  assert (Hs : (n_next n <= c_sock c)%nat) by (destruct (Hc _ eq_refl) as (? & ? & ? & ? & ? & _ & -> & _); cbn; lia).
  unfold mbind at 1, M_bind at 1, try at 1.
  assert (Hend : forall ex tr3, Forall (on (c_sock c)) ex -> tr3 = n_trace n1 ++ ex ++ [EShutdown (c_sock c)] ->
    exists tr s, tr3 = n_trace n ++ tr /\ Forall (from (n_next n)) tr /\
      (forall s' buf, EWrite s' buf ∈ tr -> s' = s /\ EShutdown s ∈ tr)).
  { intros ex tr3 Hex Ht3. exists (tr1 ++ ex ++ [EShutdown (c_sock c)]), (c_sock c). split_and!.
    - by rewrite Ht3, Ht1, <- app_assoc.
    - rewrite !Forall_app. split_and!; [done|by apply (on_from (c_sock c))|]. apply Forall_singleton. by intros s [= <-].
    - intros s' buf. rewrite !elem_of_app, list_elem_of_singleton. intros [Hin|[Hin|[=]]]; [by apply Hq1 in Hin|].
      rewrite Forall_forall in Hex. split; [by apply (Hex _ Hin)|right; right; by left]. }
  destruct (exchange fuel q b false t c n1) as [[[[[resp rate] c']|e] n2]|] eqn:Ee; [| |done];
    apply exchange_spec in Ee as (_ & Hi2 & ex & Ht2 & Hon & Hx).
  - destruct (Hx _ eq_refl) as (D & limit & trr & Hc' & _). cbn [snd] in Hc'. subst c'.
    unfold settle. destruct (_ && _); intros [= <- <-]; cbn; (split; [congruence|]);
      (eapply Hend; [exact Hon|]); by rewrite Ht2, <- app_assoc.
  - intros [= <- <-]. cbn. split; [congruence|]. eapply Hend; [exact Hon|]. by rewrite Ht2, <- app_assoc.
Qed.

End Pool.

End BucketPool.
