(* ===== verification/Presigned.v ===== *)
(** * Pre-signed transfers over the bucket transport
      ([cli/src/http.rs])

    The attempt loops of a part and of a ranged read, run on sockets.  [Transfer] has
    the same loops over the answers of the store; the theorems here say that a run on
    sockets is one of those, and what a run that succeeds has read. *)

From S2P Require Import Prelude Prims CryptoCore Text CliError Float64 Governor Transfer BucketUrl BucketTransport BucketTheorems BucketPool.

Module Presigned.
Import Transfer BucketUrl BucketTransport BucketTheorems BucketPool.

(** What the loops see of an attempt: the first 400 characters of an error body are
    its text. *)
Definition to_answer (r : cliresult BucketTransport.Transfer) : answer :=
  match r with
  | Ok t => Answered (t_status t) (t_etag t) (t_body t) (take_chars 400 (from_utf8_lossy (t_body t)))
  | Err e => Broken e
  end.

Section Loops.
Context {E : Type} `{SK : Sockets E}.

(** The wait before an attempt and the line printed then change nothing here. *)
Fixpoint put_attempts_io (fuel : nat) (url : string) (body : bytes) (k : TransferKnobs) (more : nat)
    (ceiling : option Duration) (last_error : string) : @M E string :=
  match more with
  | O =>
      fail (transfer_stalled ("part transfer failed after " +:+ pretty (attempts k)
         +:+ " attempts on fresh connections (" +:+ last_error
         +:+ "): a bad network window between this host and object storage; the upload is preserved: re-run the same command to resume"))
  | S more =>
      r ← try (put fuel url body (transport_bounds k) ceiling);
      match r with
      | Ok t =>
          if (t_status t =? 200) || (t_status t =? 204) then
            lift (match t_etag t with
                  | Some etag => Ok etag
                  | None => Err (network "pre-signed PUT response is missing an ETag header")
                  end)
          else if is_5xx (t_status t) then
            put_attempts_io fuel url body k more ceiling ("storage answered HTTP " +:+ pretty (t_status t))
          else
            fail (network ("pre-signed PUT to " +:+ redact url +:+ " returned HTTP " +:+ pretty (t_status t)
               +:+ ": " +:+ take_chars 400 (from_utf8_lossy (t_body t))))
      | Err e =>
          put_attempts_io fuel url body k more
            (if bool_decide (code e = "transfer_stalled") then relax_ceiling <$> ceiling else ceiling) (message e)
      end
  end.

Definition put_presigned_io (fuel : nat) (read_only : bool) (url : string) (body : bytes) (k : TransferKnobs)
    (ceiling : option Duration) : @M E string :=
  lift (refuse_write_if_read_only read_only "PUT");;
  put_attempts_io fuel url body k (Z.to_nat (attempts k)) ceiling EmptyString.

Definition range_bounds : TransportBounds := transport_bounds default_transfer_knobs.

Definition range_attempt (fuel : nat) (url : string) (start end_ : Z) (pooled : bool) : @M E BucketTransport.Transfer :=
  if pooled then get_range_pooled fuel url start end_ range_bounds None
  else get_range fuel url start end_ range_bounds None.

(** The pool is offered on the first attempt only. *)
Fixpoint get_attempts_io (fuel : nat) (url : string) (start end_ : Z) (pool : bool) (more attempt : nat)
    (last_error : string) : @M E bytes :=
  match more with
  | O => fail (network ("pre-signed GET from storage failed after " +:+ pretty DOWNLOAD_ATTEMPTS
                +:+ " attempts (" +:+ last_error +:+ ")"))
  | S more =>
      r ← try (range_attempt fuel url start end_ (pool && bool_decide (attempt = 1)%nat));
      match r with
      | Ok t =>
          if (t_status t =? 200) || (t_status t =? 206) then mret (t_body t)
          else if is_5xx (t_status t) then
            get_attempts_io fuel url start end_ pool more (S attempt) ("storage answered HTTP " +:+ pretty (t_status t))
          else if t_status t =? 403 then
            fail (presigned_rejected ("storage rejected the pre-signed URL (HTTP 403; likely expired): "
                    +:+ take_chars 400 (from_utf8_lossy (t_body t))))
          else
            fail (network ("pre-signed GET from " +:+ redact url +:+ " returned HTTP " +:+ pretty (t_status t)
                   +:+ ": " +:+ take_chars 400 (from_utf8_lossy (t_body t))))
      | Err e => get_attempts_io fuel url start end_ pool more (S attempt) (message e)
      end
  end.

Definition get_presigned_range_impl (fuel : nat) (url : string) (start end_ : Z) (pool : bool) : @M E bytes :=
  get_attempts_io fuel url start end_ pool DOWNLOAD_ATTEMPTS 1 EmptyString.

(** ** The loops over answers *)

(** An attempt, then the store of the later ones. *)
Definition first_then {C} (k : nat) (a : answer) (store : nat -> C -> answer) : nat -> C -> answer :=
  fun n c => if decide (n = k) then a else store n c.

Lemma put_attempts_ext s1 s2 url total more n c e :
  (forall k c, (n <= k)%nat -> s1 k c = s2 k c) -> put_attempts s1 url total more n c e = put_attempts s2 url total more n c e.
Proof.
  revert n c e. induction more as [|more IH]; intros n c e Hs; cbn [put_attempts]; [done|]. rewrite (Hs n c) by lia.
  destruct (s2 n c) as [status etag body detail|er].
  - destruct (_ || _); [done|]. destruct (is_5xx _); [|done]. rewrite IH; [done|]. intros. apply Hs. lia.
  - rewrite IH; [done|]. intros. apply Hs. lia.
Qed.

Lemma get_attempts_ext s1 s2 url pool more n e :
  (forall k c, (n <= k)%nat -> s1 k c = s2 k c) -> get_attempts s1 url pool more n e = get_attempts s2 url pool more n e.
Proof.
  revert n e. induction more as [|more IH]; intros n e Hs; cbn [get_attempts]; [done|]. rewrite Hs by lia.
  destruct (s2 n _) as [status etag body detail|er].
  - destruct (_ || _); [done|]. destruct (is_5xx _); [|done]. apply IH. intros. apply Hs. lia.
  - apply IH. intros. apply Hs. lia.
Qed.

Lemma first_then_first {C} k a (store : nat -> C -> answer) c : first_then k a store k c = a.
Proof. unfold first_then. by rewrite decide_True. Qed.
Lemma first_then_later {C} k a (store : nat -> C -> answer) j c : (S k <= j)%nat -> first_then k a store j c = store j c.
Proof. intros. unfold first_then. rewrite decide_False by lia. done. Qed.

(** ** Uploads *)

Lemma put_attempts_io_refines fuel url body k more ceiling e (n : @Net E) r n' attempt :
  put_attempts_io fuel url body k more ceiling e n = Some (r, n') ->
  exists store, r = (put_attempts store url (attempts k) more attempt ceiling e).1.
Proof.
  revert ceiling e n attempt. induction more as [|more IH]; intros ceiling e n attempt; cbn [put_attempts_io].
  { intros [= <- _]. by exists (fun _ _ => Broken (generic EmptyString)). }
  unfold mbind at 1, M_bind at 1, try at 1. destruct (put _ _ _ _ _ n) as [[o n1]|]; [|done].
  assert (Hlater : forall c e', put_attempts_io fuel url body k more c e' n1 = Some (r, n') ->
    exists store, r = (put_attempts (first_then attempt (to_answer o) store) url (attempts k) more (S attempt) c e').1).
  { intros c e' H. destruct (IH _ _ _ (S attempt) H) as [store ->]. exists store. f_equal. apply put_attempts_ext.
    intros. by rewrite first_then_later. }
  assert (Hnow : forall x, Some (x, n1) = Some (r, n') -> x = (put_attempts (fun _ _ => to_answer o) url (attempts k) (S more) attempt ceiling e).1 ->
    exists store, r = (put_attempts store url (attempts k) (S more) attempt ceiling e).1).
  { intros x [= <- _] ->. by eexists. }
  destruct o as [t|er].
  - destruct (_ || _) eqn:Eok; [intros H; eapply Hnow; [exact H|]; cbn; by rewrite Eok|].
    destruct (is_5xx _) eqn:E5; [|intros H; eapply Hnow; [exact H|]; cbn; by rewrite Eok, E5].
    intros H. destruct (Hlater _ _ H) as [store ->]. exists (first_then attempt (to_answer (Ok t)) store).
    cbn [put_attempts]. rewrite first_then_first. cbn [to_answer]. rewrite Eok, E5. by destruct (put_attempts _ _ _ _ _ _ _).
  - intros H. destruct (Hlater _ _ H) as [store ->]. exists (first_then attempt (to_answer (Err er)) store).
    cbn [put_attempts]. rewrite first_then_first. cbn [to_answer]. by destruct (put_attempts _ _ _ _ _ _ _).
Qed.

(** A part that was sent over sockets was sent to some store: every run of the loop on
    the transport is a run of the loop on answers, of which the properties of attempts
    and ceilings are proved. *)
Theorem put_presigned_refines fuel ro url body k ceiling (n : @Net E) r n' :
  put_presigned_io fuel ro url body k ceiling n = Some (r, n') ->
  exists store, r = (put_presigned ro store url k ceiling).1.
Proof.
  unfold put_presigned_io, put_presigned. unfold mbind at 1, M_bind at 1, lift at 1.
  destruct (refuse_write_if_read_only ro "PUT") as [u|e]; [apply put_attempts_io_refines|].
  intros [= <- _]. by exists (fun _ _ => Broken (generic EmptyString)).
Qed.

(** ** Ranged reads *)

Lemma get_attempts_io_refines fuel url start end_ pool more attempt e (n : @Net E) r n' :
  get_attempts_io fuel url start end_ pool more attempt e n = Some (r, n') ->
  exists store, r = get_attempts store url pool more attempt e.
Proof.
  revert attempt e n. induction more as [|more IH]; intros attempt e n; cbn [get_attempts_io].
  { intros [= <- _]. by exists (fun _ _ => Broken (generic EmptyString)). }
  unfold mbind at 1, M_bind at 1, try at 1. destruct (range_attempt _ _ _ _ _ n) as [[o n1]|]; [|done].
  assert (Hlater : forall e', get_attempts_io fuel url start end_ pool more (S attempt) e' n1 = Some (r, n') ->
    exists store, r = get_attempts (first_then attempt (to_answer o) store) url pool more (S attempt) e').
  { intros e' H. destruct (IH _ _ _ H) as [store ->]. exists store. apply get_attempts_ext. intros. by rewrite first_then_later. }
  assert (Hnow : forall x, Some (x, n1) = Some (r, n') -> x = get_attempts (fun _ _ => to_answer o) url pool (S more) attempt e ->
    exists store, r = get_attempts store url pool (S more) attempt e).
  { intros x [= <- _] ->. by eexists. }
  destruct o as [t|er].
  - destruct (_ || _) eqn:Eok; [intros H; eapply Hnow; [exact H|]; cbn; by rewrite Eok|].
    destruct (is_5xx _) eqn:E5.
    + intros H. destruct (Hlater _ H) as [store ->]. exists (first_then attempt (to_answer (Ok t)) store).
      cbn [get_attempts]. rewrite first_then_first. cbn [to_answer]. by rewrite Eok, E5.
    + destruct (_ =? 403) eqn:E4; intros H; (eapply Hnow; [exact H|]); cbn; by rewrite Eok, E5, E4.
  - intros H. destruct (Hlater _ H) as [store ->]. exists (first_then attempt (to_answer (Err er)) store).
    cbn [get_attempts]. by rewrite first_then_first.
Qed.

Lemma get_attempts_io_answered fuel url start end_ pool more attempt e (n : @Net E) r n' :
  pool_ok n -> get_attempts_io fuel url start end_ pool more attempt e n = Some (r, n') ->
  pool_ok n' /\ forall body, r = Ok body -> exists pooled out,
    answered (range_call url start end_ None) range_bounds pooled (n_trace n) (n_trace n') out /\
    t_body out = body /\ (t_status out = 200 \/ t_status out = 206) /\ (pooled = true -> pool = true).
Proof.
  revert attempt e n. induction more as [|more IH]; intros attempt e n Hok; cbn [get_attempts_io].
  { by intros [= <- <-]. }
  set (pooled := pool && bool_decide (attempt = 1%nat)).
  assert (Hp : pooled = true -> pool = true) by (unfold pooled; intros ?; bool_prop; done).
  unfold mbind at 1, M_bind at 1, try at 1.
  replace (range_attempt fuel url start end_ pooled n) with (request_with_pool fuel (range_call url start end_ None) range_bounds pooled n)
    by by destruct pooled.
  destruct (request_with_pool _ _ _ _ n) as [[o n1]|] eqn:Er; [|done].
  destruct (request_with_pool_spec _ _ _ _ _ _ _ Hok Er) as (Hok1 & [tr1 Ht1] & Ha).
  assert (Hlater : forall e', get_attempts_io fuel url start end_ pool more (S attempt) e' n1 = Some (r, n') ->
    pool_ok n' /\ forall body, r = Ok body -> exists pooled out,
      answered (range_call url start end_ None) range_bounds pooled (n_trace n) (n_trace n') out /\
      t_body out = body /\ (t_status out = 200 \/ t_status out = 206) /\ (pooled = true -> pool = true)).
  { intros e' H. destruct (IH _ _ _ Hok1 H) as [Hok' Hb]. split; [done|]. intros body Hr.
    destruct (Hb _ Hr) as (pooled' & out & Hans & Hbody & Hst & Hp'). exists pooled', out. rewrite Ht1 in Hans.
    split_and!; [by eapply answered_later|done|done|done]. }
  destruct o as [t|er]; [|apply Hlater].
  destruct (_ || _) eqn:Eok.
  - intros [= <- <-]. split; [done|]. intros body [= <-]. exists pooled, t. split_and!; [by apply Ha|done| |done].
    apply orb_true_iff in Eok. rewrite !Z.eqb_eq in Eok. done.
  - destruct (is_5xx _); [apply Hlater|]. destruct (_ =? 403); by intros [= <- <-].
Qed.

(** C29: A ranged read over sockets delivers what the store sent for it.  The run is one
    of the loop on answers; it keeps the pool sound; and when it returns bytes, they
    are the body of an answer with status 200 or 206 to this very range, complete by
    its declared length, read on a connection with nothing left on it from before. *)
Theorem ranged_read_delivers fuel url start end_ pool (n : @Net E) r n' :
  pool_ok n -> get_presigned_range_impl fuel url start end_ pool n = Some (r, n') ->
  pool_ok n' /\ (exists store, r = Transfer.get_presigned_range store url pool) /\
  forall body, r = Ok body -> exists pooled out,
    answered (range_call url start end_ None) range_bounds pooled (n_trace n) (n_trace n') out /\
    t_body out = body /\ (t_status out = 200 \/ t_status out = 206) /\ (pooled = true -> pool = true).
Proof.
  intros Hok H. destruct (get_attempts_io_answered _ _ _ _ _ _ _ _ _ _ _ Hok H) as [Hok' Hb]. split; [done|].
  split; [by eapply get_attempts_io_refines|]. intros body Hr.
  by apply Hb.
Qed.

End Loops.
End Presigned.

(** * The bucket transport on a scripted network

    A network whose reads are listed in advance, with runs of the transport on it:
    the properties with hypotheses are applied here, and the pool is shown to be
    keyed by an authority that leaves the scheme out. *)

Module BucketToy.
Import Transfer BucketUrl BucketTransport BucketTheorems BucketPool Presigned.

(** The clock, and the reads to come. *)
Record Script := mk_Script { sc_clock : Z; sc_reads : list (io bytes) }.

#[export] Instance toy_sockets : Sockets Script := {|
  s_now e := (sc_clock e, mk_Script (sc_clock e + 1000) (sc_reads e));
  s_resolve _ p e := (Ok [V6 1 p; V4 2 p], e);
  s_connect _ _ _ e := (Ok tt, e);
  s_set_read_timeout _ _ e := (Ok tt, e);
  s_set_write_timeout _ _ e := (Ok tt, e);
  s_write_timeout _ _ := None;
  s_server_name _ := true;
  s_client_connection _ := true;
  s_is_handshaking _ _ := false;
  s_complete_io _ e := (Ok (0%nat, 0%nat), e);
  s_read _ _ _ e := match sc_reads e with
                    | [] => (Ok [], e)
                    | r :: rs => (r, mk_Script (sc_clock e) rs)
                    end;
  s_write _ _ buf e := (Ok (length buf), e);
  s_flush _ _ e := (Ok tt, e);
  s_shutdown _ e := e;
|}.

Definition toy_net (reads : list (io bytes)) : @Net Script := mk_Net (mk_Script 0 reads) 0 [] [].

Lemma toy_net_ok reads : pool_ok (toy_net reads).
Proof. split_and!; constructor. Qed.

Definition answer_text (status body : string) : bytes :=
  str_bytes ("HTTP/1.1 " +:+ status +:+ CRLF +:+ "Content-Length: " +:+ pretty (Z.of_nat (String.length body)) +:+ CRLF
             +:+ "ETag: x" +:+ CRLF +:+ CRLF +:+ body).

Definition toy_reads : list (io bytes) := [Ok (take 9 (answer_text "206 P" "hello")); Ok (drop 9 (answer_text "206 P" "hello"))].
Definition toy_call (url : string) : Call := range_call url 0 4 None.

(** ** Witnesses *)

Lemma url_round_trip_witness :
  parse_url "http://[::1]:9000/b/k?s" = Ok (mk_Target "::1" 9000 "[::1]:9000" "/b/k?s" false).
Proof.
  apply (url_round_trip "::1" 9000 false "b/k?s"); [|done]. repeat split; discriminate.
Defined.

Lemma pool_sound_witness :
  exists r n', request_with_pool 500 (toy_call "http://h/a?s") range_bounds true (toy_net toy_reads) = Some (r, n') /\
    t_body <$> ok_opt r = Some (str_bytes "hello") /\ length (n_idle n') = 1%nat /\ pool_ok n'.
Proof.
  destruct (request_with_pool 500 (toy_call "http://h/a?s") range_bounds true (toy_net toy_reads)) as [[r n']|] eqn:H.
  2:{ exfalso. revert H. vm_compute. discriminate. }
  exists r, n'. split; [done|]. split_and!.
  - revert H. vm_compute. intros [= <- <-]. done.
  - revert H. vm_compute. intros [= <- <-]. done.
  - exact (proj1 (pool_sound 500 _ _ true _ _ _ (toy_net_ok toy_reads) H)).
Defined.

Lemma attempt_fresh_witness :
  exists r n', request 500 (toy_call "http://h/a?s") range_bounds (toy_net toy_reads) = Some (r, n') /\
    t_body <$> ok_opt r = Some (str_bytes "hello") /\ n_idle n' = [].
Proof.
  destruct (request 500 (toy_call "http://h/a?s") range_bounds (toy_net toy_reads)) as [[r n']|] eqn:H.
  2:{ exfalso. revert H. vm_compute. discriminate. }
  exists r, n'. split; [done|]. split.
  - revert H. vm_compute. intros [= <- <-]. done.
  - exact (proj1 (attempt_fresh 500 _ _ _ _ _ H)).
Defined.

(** A socket that takes three bytes at a time, and the signals that will interrupt it. *)
Record Flaky := mk_Flaky { fl_signals : nat; fl_reads : list (io bytes) }.

#[export] Instance flaky_sockets : Sockets Flaky := {|
  s_now e := (0, e);
  s_resolve _ p e := (Ok [V4 2 p], e);
  s_connect _ _ _ e := (Ok tt, e);
  s_set_read_timeout _ _ e := (Ok tt, e);
  s_set_write_timeout _ _ e := (Ok tt, e);
  s_write_timeout _ _ := None;
  s_server_name _ := true;
  s_client_connection _ := true;
  s_is_handshaking _ _ := false;
  s_complete_io _ e := (Ok (0%nat, 0%nat), e);
  s_read _ _ _ e := match fl_reads e with
                    | [] => (Ok [], e)
                    | r :: rs => (r, mk_Flaky (fl_signals e) rs)
                    end;
  s_write _ _ buf e := match fl_signals e with
                       | O => (Ok (min 3 (length buf)), e)
                       | S k => (Err Interrupted, mk_Flaky k (fl_reads e))
                       end;
  s_flush _ _ e := (Ok tt, e);
  s_shutdown _ e := e;
|}.

Lemma flaky_steady : steady fl_signals.
Proof.
  split; try done; intros tls s.
  - intros n e. cbn. by destruct (fl_reads e).
  - intros buf e. cbn. destruct (fl_signals e) eqn:Ek; cbn; lia.
  - intros buf e. cbn. by destruct (fl_signals e) eqn:Ek; cbn; [|lia].
Qed.

(** Two signals, and a ceiling of a minute. *)
Lemma exchange_ends_witness :
  let n := mk_Net (mk_Flaky 2 toy_reads) 0 [] [] in
  exists r n', request_on 500 (mk_Connection false 0 None) "PUT" (mk_Target "h" 80 "h" "/" false) [] (str_bytes "part")
    default_bounds false (Some (from_secs 60)) None false n = Some (r, n') /\
    EWrite 0 [] ∈ n_trace n'.
Proof.
  intros n.
  assert (Hb : 0 < tb_sndbuf_bytes default_bounds <= u64_max) by done.
  assert (Hc : forall d, Some (from_secs 60) = Some d -> d <= from_secs 86400) by (intros d [= <-]; done).
  assert (Hx : forall m, None = Some m -> 0 < m <= u64_max) by discriminate.
  destruct (exchange_ends fl_signals flaky_steady 500 (mk_Connection false 0 None) "PUT" (mk_Target "h" 80 "h" "/" false) []
    (str_bytes "part") default_bounds false (Some (from_secs 60)) None false n
    ltac:(apply Nat.ltb_lt; reflexivity) ltac:(apply Nat.ltb_lt; reflexivity) ltac:(done) Hb ltac:(done) Hc Hx) as (r & n' & H).
  exists r, n'. split; [exact H|]. revert H. vm_compute. intros [= <- <-]. do 5 right. left.
Defined.

Lemma ranged_read_delivers_witness :
  exists r n', get_presigned_range_impl 500 "http://h/a?s" 0 4 true (toy_net toy_reads) = Some (r, n') /\
    r = Ok (str_bytes "hello") /\ pool_ok n'.
Proof.
  destruct (get_presigned_range_impl 500 "http://h/a?s" 0 4 true (toy_net toy_reads)) as [[r n']|] eqn:H.
  2:{ exfalso. revert H. vm_compute. discriminate. }
  exists r, n'. split; [done|]. split.
  - revert H. vm_compute. intros [= <- <-]. done.
  - exact (proj1 (ranged_read_delivers 500 _ _ _ true _ _ _ (toy_net_ok toy_reads) H)).
Defined.

(** ** The key of the pool *)

Definition two_reads : list (io bytes) := [Ok (answer_text "206 P" "hello"); Ok (answer_text "206 P" "world")].

(** The same host by [http], then by [https]. *)
Definition http_then_https : option (cliresult BucketTransport.Transfer * @Net Script) :=
  match request_with_pool 500 (toy_call "http://h/a?s") range_bounds true (toy_net two_reads) with
  | Some (_, n1) => request_with_pool 500 (toy_call "https://h/b?secret") range_bounds true n1
  | None => None
  end.

(** The second request goes out, signature and all, on the plaintext connection of the
    first: no socket is opened for it, and the one kept has no TLS. *)
Theorem pool_key_ignores_scheme :
  exists out n', http_then_https = Some (Ok out, n') /\ t_body out = str_bytes "world" /\
    map (fun ac => (ac.1, c_tls ac.2, c_sock ac.2)) (n_idle n') = [("h"%string, false, 0%nat)] /\ n_next n' = 1%nat.
Proof. vm_compute. by eexists _, _. Qed.

End BucketToy.
