(* ===== verification/Enroll.v ===== *)
(** * Enrolment ([cli/src/enroll.rs])

    The agent's side of the rendezvous its guardian opens: joining with the one-time
    code, waiting for the confirmation that names it, generating the four keys,
    submitting them with the proof of possession, waiting for the attestation, and
    writing the default configuration; and the cleaning up when that fails.  The
    keystore is open; the clock and the pause between polls are the environment; what
    [Config::load] finds, and whether the configuration can be written, are arguments.
    The progress lines are left out. *)

From S2P Require Import Prelude Prims CryptoCore Text Ecdsa Envelope Wrap SignedBytes CliError Float64 Keystore Hybrid Transfer Http KeyCommands.
Import Wrap Attest.

Definition MAX_POLL : Duration := from_secs 3600.
Definition ENROLL_POP_MLDSA_CTX : bytes := str_bytes "signet:attest:v1".

Definition QUOTE : string := String.String (Ascii.ascii_of_byte Byte.x22) EmptyString.
Definition NL : string := String.String LF_char EmptyString.
Definition ADD_PRSN : string := QUOTE +:+ "+ Add PRSN" +:+ QUOTE.

(** The poll cadence, from [SIGNET_ENROLL_POLL_MS]. *)
Definition poll_interval (env : string -> option string) : Duration :=
  match env "SIGNET_ENROLL_POLL_MS" ≫= parse_uint u64_max with
  | Some ms => ms * 1000000
  | None => from_secs 2
  end.

Record PollState := mk_PollState { ps_handle : option string; ps_attestation_id : option string }.

Record EnrollResult := mk_EnrollResult {
  er_handle : string;
  er_key_protection : string;
  er_attestation_id : option string;
  er_config_path : option string;
  er_already_enrolled : bool;
}.

Definition enroll_json_str (v : value) (key : string) : cliresult string :=
  ok_or (invalid_data ("server response missing string field '" +:+ key +:+ "'")) (Text.get_str v key).

(** The error of a status after which waiting is over. *)
Definition terminal (status waiting_for : string) : option CliError :=
  if decide (status = "expired") then
    Some (generic ("the enrollment expired while waiting for " +:+ waiting_for
      +:+ ". Ask your guardian for a fresh code (they start over from " +:+ ADD_PRSN +:+ "), then run `signet enroll <NEW-CODE>`"))
  else if decide (status = "cancelled") then
    Some (generic ("the enrollment was cancelled while waiting for " +:+ waiting_for
      +:+ ". If this is unexpected, ask your guardian; they can start over from " +:+ ADD_PRSN +:+ " with a fresh code"))
  else if decide (status = "failed") then
    Some (generic ("the enrollment failed while waiting for " +:+ waiting_for))
  else None.

(** *** The default configuration *)

Definition should_write_default (existing_default_signing : option string) (new_signing_label : string) : bool :=
  match existing_default_signing with
  | None => true
  | Some cur => bool_decide (cur = new_signing_label)
  end.

Definition default_config_toml (base : string) (signing_meta kem_meta : KeyMeta) : string :=
  "# Signet Drive per-PRSN config (written by `signet enroll`). Optional + hidden," +:+ NL
  +:+ "# preferences only: identity is discovered (SIGNET_HANDLE / the channel pin), not" +:+ NL
  +:+ "# carried here. Private keys live in this Mac's Secure Enclave, never in this file." +:+ NL
  +:+ "server_base_url = " +:+ QUOTE +:+ base +:+ QUOTE +:+ NL
  +:+ "default_signing_key = " +:+ QUOTE +:+ km_label signing_meta +:+ QUOTE +:+ NL
  +:+ "default_kem_key = " +:+ QUOTE +:+ km_label kem_meta +:+ QUOTE +:+ NL.

(** The home of the configuration: its path, what [Config::load] finds there as the
    default signing key, and whether its directory and the file can be written. *)
Record ConfigHome := mk_ConfigHome {
  ch_path : string;
  ch_default_signing : option string;
  ch_dir_ok : bool;
  ch_write_ok : bool;
}.

(** The path, and the text that was written to it. *)
Definition write_default_config (ch : ConfigHome) (base : string) (signing_meta kem_meta : KeyMeta)
    : cliresult (option (string * string)) :=
  if negb (should_write_default (ch_default_signing ch) (km_label signing_meta)) then Ok None
  else
    guard ch_dir_ok ch else filesystem ("creating the directory of " +:+ ch_path ch) ;;
    guard ch_write_ok ch else filesystem ("writing " +:+ ch_path ch) ;;
    Ok (Some (ch_path ch, default_config_toml base signing_meta kem_meta)).

(** The four labels of an enrolment. *)
Record EnrollLabels := mk_EnrollLabels {
  el_signing : KeyLabel; el_kem : KeyLabel; el_signing_pq : KeyLabel; el_kem_pq : KeyLabel }.

Definition label_list (ls : EnrollLabels) : list KeyLabel :=
  [el_signing ls; el_kem ls; el_signing_pq ls; el_kem_pq ls].

Definition enroll_labels (h : string) : cliresult EnrollLabels :=
  let*? s := from_handle h Signing in
  let*? k := from_handle h Kem in
  let*? sq := from_handle h SigningPq in
  let*? kq := from_handle h KemPq in
  Ok (mk_EnrollLabels s k sq kq).

Section Code.
Context `{HS : Sha256, HX : Hex, HB : Base64Url, HG : AesGcm, HHk : Hkdf, HKw : AesKw, HJ : JsonText}.
Context `{HP : P256, !Ecdsa256, HQ : PqSoftware, !MlKemEncaps}.
Context {St E : Type} `{HK : Keystore St, HE : HttpEnv E}.
Context (CLI_VERSION : string) (clock : E -> Z * E) (pause : Duration -> E -> E) (interval : Duration).
Abbreviation W := (World St E).

(** ** Computations

    [None] when the fuel of the waiting runs out. *)

Definition EM (A : Type) : Type := W -> option (cliresult A * W).
Definition ebind {A B} (m : EM A) (k : A -> EM B) : EM B := fun w =>
  match m w with
  | None => None
  | Some (Err e, w) => Some (Err e, w)
  | Some (Ok a, w) => k a w
  end.
Definition estep {A} (f : W -> cliresult A * W) : EM A := fun w => Some (f w).
Definition epure {A} (r : cliresult A) : EM A := fun w => Some (r, w).

Notation "'run?' x ':=' m 'in' k" := (ebind m (fun x => k))
  (at level 10, x name, m at level 100, k at level 200).

Definition tick (w : W) : cliresult Z * W := let '(t, w) := on_env clock w in (Ok t, w).
Definition wait (w : W) : cliresult unit * W := let '(_, w) := on_env (fun e => (tt, pause interval e)) w in (Ok tt, w).

(** ** Waiting *)

Fixpoint poll_loop (fuel : nat) (url target waiting_for : string) (start : Z) : EM PollState :=
  match fuel with
  | O => fun _ => None
  | S fuel =>
      run? resp := estep (get_json CLI_VERSION url []) in
      run? status := epure (enroll_json_str resp "status") in
      if decide (status = target) then
        epure (Ok (mk_PollState (Text.get_str resp "handle") (Text.get_str resp "attestation_id")))
      else
        match terminal status waiting_for with
        | Some e => epure (Err e)
        | None =>
            run? now := estep tick in
            if MAX_POLL <? Z.max 0 (now - start) then
              epure (Err (generic ("timed out after " +:+ pretty (MAX_POLL / NANOS_PER_SEC) +:+ "s waiting for " +:+ waiting_for)))
            else
              run? u := estep wait in
              poll_loop fuel url target waiting_for start
        end
  end.

Definition poll_until (fuel : nat) (base code target waiting_for : string) : EM PollState :=
  run? start := estep tick in
  poll_loop fuel (base +:+ "/v1/prsn-enrollments/status?code=" +:+ code) target waiting_for start.

(** ** The requests *)

Definition join (base code : string) : EM string :=
  let bytes := str_bytes (json_display (json_obj [("code"%string, VString code)])) in
  run? resp := estep (post_json CLI_VERSION (base +:+ "/v1/prsn-enrollments/join") (Some bytes)) in
  epure (enroll_json_str resp "submit_token").

Record PopChallenge := mk_PopChallenge { pc_challenge : bytes; pc_envelope : HybridWrapEnvelope }.

Definition keys_body (code submit_token : string) (s k sq kq : KeyMeta) (tier : Tier) : value :=
  json_obj [
    ("code"%string, VString code);
    ("submit_token"%string, VString submit_token);
    ("subject_signing_pubkey"%string, VString (b64_encode (km_public_key s)));
    ("subject_signing_pubkey_fingerprint"%string, VString (km_fingerprint s));
    ("subject_kem_pubkey"%string, VString (b64_encode (km_public_key k)));
    ("subject_kem_pubkey_fingerprint"%string, VString (km_fingerprint k));
    ("subject_signing_pq_pubkey"%string, VString (b64_encode (km_public_key sq)));
    ("subject_signing_pq_pubkey_fingerprint"%string, VString (km_fingerprint sq));
    ("subject_kem_pq_pubkey"%string, VString (b64_encode (km_public_key kq)));
    ("subject_kem_pq_pubkey_fingerprint"%string, VString (km_fingerprint kq));
    ("key_protection"%string, VString (wire_str tier))].

(** The claim of another tier is a debug build's alone. *)
Definition submit_keys (base code submit_token : string) (s k sq kq : KeyMeta) (tier : Tier) : EM PopChallenge :=
  let bytes := str_bytes (json_display (keys_body code submit_token s k sq kq tier)) in
  run? resp := estep (post_json CLI_VERSION (base +:+ "/v1/prsn-enrollments/keys") (Some bytes)) in
  run? challenge_b64 := epure (enroll_json_str resp "pop_challenge") in
  run? challenge := epure (ok_or (invalid_data "pop_challenge is not base64url") (b64_decode challenge_b64)) in
  run? envelope := epure (ok_or (invalid_data "server response missing pop_nonce_envelope") (value_get resp "pop_nonce_envelope")) in
  run? envelope := epure (ok_or (invalid_data "pop_nonce_envelope is not a hybrid recipient block") (hybrid_from_value envelope)) in
  epure (Ok (mk_PopChallenge challenge envelope)).

Definition submit_pop (base code submit_token : string) (sig_es256 sig_mldsa87 nonce : bytes) : EM unit :=
  let bytes := str_bytes (json_display (json_obj [
    ("code"%string, VString code);
    ("submit_token"%string, VString submit_token);
    ("pop_signature_es256"%string, VString (b64_encode sig_es256));
    ("pop_signature_mldsa87"%string, VString (b64_encode sig_mldsa87));
    ("pop_nonce"%string, VString (b64_encode nonce))])) in
  run? text := estep (post_text CLI_VERSION (base +:+ "/v1/prsn-enrollments/keys/pop") (Some bytes)) in
  epure (Ok tt).

(** ** The enrolment *)

Definition generate (l : KeyLabel) : EM KeyMeta := estep (on_ks (fun st => ks_generate st l (default_alg (purpose l)))).

(** The result, and what was written of the configuration. *)
Definition complete (fuel : nat) (ch : ConfigHome) (base code submit_token handle : string) (ls : EnrollLabels)
    : EM (EnrollResult * option (string * string)) :=
  run? signing_meta := generate (el_signing ls) in
  run? kem_meta := generate (el_kem ls) in
  run? signing_pq_meta := generate (el_signing_pq ls) in
  run? kem_pq_meta := generate (el_kem_pq ls) in
  run? pop := submit_keys base code submit_token signing_meta kem_meta signing_pq_meta kem_pq_meta ks_tier in
  let msg := enroll_pop_signing_base (pc_challenge pop) in
  run? sig_es256 := estep (on_ks (fun st => ks_sign st (el_signing ls) msg)) in
  run? sig_mldsa87 := estep (on_ks (fun st => ks_ml_dsa_sign st (el_signing_pq ls) msg ENROLL_POP_MLDSA_CTX)) in
  run? nonce := estep (on_ks (fun st => unwrap_key_hybrid st (el_kem ls) (el_kem_pq ls) (pc_envelope pop) [])) in
  run? u := submit_pop base code submit_token sig_es256 sig_mldsa87 nonce in
  run? completed := poll_until fuel base code "completed" "the attestation" in
  run? written := epure (write_default_config ch base signing_meta kem_meta) in
  epure (Ok (mk_EnrollResult handle (wire_str ks_tier) (ps_attestation_id completed) (fst <$> written) false, written)).

(** What is left of the keys after a failure; errors are ignored. *)
Fixpoint cleanup_keys (ls : list KeyLabel) (st : St) : St :=
  match ls with
  | [] => st
  | l :: ls =>
      match ks_exists st l with
      | (Ok true, st) => cleanup_keys ls (ks_delete st l).2
      | (_, st) => cleanup_keys ls st
      end
  end.

(** Whether the asserted identity has both classical keys. *)
Definition both_exist (s k : KeyLabel) (w : W) : bool * W :=
  let '(rs, w) := on_ks (fun st => ks_exists st s) w in
  match rs with
  | Ok true => let '(rk, w) := on_ks (fun st => ks_exists st k) w in (match rk with Ok b => b | Err _ => false end, w)
  | _ => (false, w)
  end.

(** The fast path: the state of the access is asked for, and whatever comes the
    answer is the same. *)
Definition already (base h : string) (s : KeyLabel) (w : W) : (EnrollResult * option (string * string)) * W :=
  let '(_, w) := get_json_signed CLI_VERSION s base "/v1/me" w in
  (mk_EnrollResult h (wire_str ks_tier) None None true, None, w).

Definition enroll_with_code (fuel : nat) (ch : ConfigHome) (base : string) (code : option string)
    : EM (EnrollResult * option (string * string)) :=
  run? code := epure (ok_or (invalid_args ("not enrolled yet, and no enrollment CODE was given. Ask your guardian to open "
    +:+ ADD_PRSN +:+ " in Signet and hand you the one-time code, then run `signet enroll <CODE>`. (If you ARE enrolled, set "
    +:+ "SIGNET_HANDLE so I can tell.)")) code) in
  run? submit_token := join base code in
  run? confirmed := poll_until fuel base code "confirmed" "confirmation" in
  run? handle := epure (ok_or (invalid_data "server reported 'confirmed' without a handle") (ps_handle confirmed)) in
  run? ls := epure (enroll_labels handle) in
  fun w =>
    match complete fuel ch base code submit_token handle ls w with
    | Some (Err e, w) =>
        Some (Err e, mk_World (cleanup_keys (label_list ls) (w_ks w)) (w_env w) (w_read_only w) (w_sent w) (w_slept w))
    | r => r
    end.

Definition enroll (fuel : nat) (env : string -> option string) (ch : ConfigHome) (base_url : string)
    (code : option string) : EM (EnrollResult * option (string * string)) :=
  let base := trim_end_char SLASH base_url in
  match asserted_handle env with
  | None => enroll_with_code fuel ch base code
  | Some h =>
      run? s := epure (from_handle h Signing) in
      run? k := epure (from_handle h Kem) in
      fun w =>
        let '(here, w) := both_exist s k w in
        if here then let '(r, w) := already base h s w in Some (Ok r, w)
        else enroll_with_code fuel ch base code w
  end.

End Code.
