(* ===== verification/EnrollTheorems.v ===== *)
(** * Enrolment: what happens to the keys, and how the waiting ends
      (properties of [Enroll]) *)

From S2P Require Import Prelude Prims CryptoCore Text Ecdsa Envelope Wrap WrapTheorems SignedBytes CliError Float64 Keystore SoftKeystore Hybrid HybridTheorems GrantStatus Transfer Http KeyCommands KeyTheorems SharingToy Enroll.
Import Wrap Attest Transfer.

Section Keys.
Context `{HS : Sha256, HX : Hex, HB : Base64Url, HG : AesGcm, HHk : Hkdf, HKw : AesKw, HJ : JsonText}.
Context `{HP : P256, !Ecdsa256, HQ : PqSoftware, !MlKemEncaps}.
Context {St E : Type} `{HK : Keystore St, HL : !KeystoreLocal St, HE : HttpEnv E}.
Context (CLI_VERSION : string) (clock : E -> Z * E) (pause : Duration -> E -> E) (interval : Duration).
Abbreviation W := (World St E).

(** ** The keys through a request *)

Lemma unsigned_loop_ks req url more attempt (w : W) : w_ks (attempt_loop (send_ok req) url more attempt w).2 = w_ks w.
Proof.
  revert attempt w. induction more as [|more IH]; intros attempt w; cbn [attempt_loop]; unfold send_ok, send;
    destruct (he_call (w_env w) req) as [r e]; cbn; [done|]. destruct (transient r); [|done]. by rewrite IH.
Qed.

Lemma get_json_ks url hs (w : W) : w_ks (get_json CLI_VERSION url hs w).2 = w_ks w.
Proof. apply unsigned_loop_ks. Qed.
Lemma post_text_ks url body (w : W) : w_ks (post_text CLI_VERSION url body w).2 = w_ks w.
Proof. unfold post_text. destruct (refuse_write_if_read_only _ _); [apply unsigned_loop_ks|done]. Qed.
Lemma post_json_ks url body (w : W) : w_ks (post_json CLI_VERSION url body w).2 = w_ks w.
Proof. apply post_text_ks. Qed.

(** The computations that leave the keys of [P] as they are. *)
Definition untouched {A} (P : KeyLabel -> Prop) (m : EM (St := St) (E := E) A) : Prop :=
  forall w r w', m w = Some (r, w') -> forall l, P l -> key_at (w_ks w') l = key_at (w_ks w) l.

Lemma untouched_bind {A B} P (m : EM A) (k : A -> EM B) :
  untouched P m -> (forall a, untouched P (k a)) -> untouched P (ebind m k).
Proof.
  intros Hm Hk w r w'. unfold ebind. destruct (m w) as [[[a|e] w1]|] eqn:E1; [| |done].
  - intros Hx l Hl. rewrite (Hk _ _ _ _ Hx l Hl). by eapply Hm.
  - intros [= <- <-] l Hl. by eapply Hm.
Qed.
Lemma ebind_Ok {A B} (m : EM A) (k : A -> EM B) (w : W) b w' :
  ebind m k w = Some (Ok b, w') -> exists a w1, m w = Some (Ok a, w1) /\ k a w1 = Some (Ok b, w').
Proof. unfold ebind. destruct (m w) as [[[a|e] w1]|]; [eauto|done|done]. Qed.
Lemma untouched_pure {A} P (r : cliresult A) : untouched P (epure r).
Proof. by intros w x w' [= <- <-]. Qed.
Lemma untouched_step {A} (P : KeyLabel -> Prop) (f : W -> cliresult A * W) :
  (forall w l, P l -> key_at (w_ks (f w).2) l = key_at (w_ks w) l) -> untouched P (estep f).
Proof. intros Hf w r w' [= Hx] l Hl. specialize (Hf w l Hl). by rewrite Hx in Hf. Qed.
Lemma untouched_same {A} P (f : W -> cliresult A * W) : (forall w, w_ks (f w).2 = w_ks w) -> untouched P (estep f).
Proof. intros Hf. apply untouched_step. intros w l _. by rewrite Hf. Qed.

Lemma on_ks_w {A} (f : St -> cliresult A * St) (w : W) : w_ks (on_ks f w).2 = (f (w_ks w)).2.
Proof. unfold on_ks. by destruct (f (w_ks w)). Qed.

Lemma untouched_kop P l o (f : St -> cliresult kres * St) :
  (forall st, f st = run_kop st l o) -> mutating o = false -> untouched P (estep (on_ks f)).
Proof. intros Hf Ho. apply untouched_step. intros w l' _. rewrite on_ks_w, Hf. by apply key_at_readonly. Qed.

Lemma tick_untouched P : untouched P (estep (tick clock)).
Proof. apply untouched_same. intros w. unfold tick, on_env. by destruct (clock _). Qed.
Lemma wait_untouched P : untouched P (estep (wait pause interval)).
Proof. by apply untouched_same. Qed.

Lemma poll_until_untouched P fuel base code target what :
  untouched P (poll_until CLI_VERSION clock pause interval fuel base code target what).
Proof.
  unfold poll_until. apply untouched_bind; [apply tick_untouched|]. intros start.
  generalize (base +:+ "/v1/prsn-enrollments/status?code=" +:+ code). intros url.
  induction fuel as [|fuel IH]; [by intros w r w'|]. cbn [poll_loop].
  apply untouched_bind; [apply untouched_same; intros; apply get_json_ks|]. intros resp.
  apply untouched_bind; [apply untouched_pure|]. intros status. case_decide; [apply untouched_pure|].
  destruct (terminal status what); [apply untouched_pure|]. apply untouched_bind; [apply tick_untouched|]. intros now.
  destruct (_ <? _); [apply untouched_pure|]. apply untouched_bind; [apply wait_untouched|]. intros. apply IH.
Qed.

Lemma join_untouched P base code : untouched P (join CLI_VERSION base code).
Proof.
  apply untouched_bind; [apply untouched_same; intros; apply post_json_ks|]. intros. apply untouched_pure.
Qed.
Lemma submit_keys_untouched P base code token s k sq kq tier :
  untouched P (submit_keys CLI_VERSION base code token s k sq kq tier).
Proof.
  apply untouched_bind; [apply untouched_same; intros; apply post_json_ks|]. intros.
  repeat (apply untouched_bind; [apply untouched_pure|]; intros). apply untouched_pure.
Qed.
Lemma submit_pop_untouched P base code token a b c : untouched P (submit_pop CLI_VERSION base code token a b c).
Proof. apply untouched_bind; [apply untouched_same; intros; apply post_text_ks|]. intros. apply untouched_pure. Qed.

Lemma sign_keeps (st : St) l m l' : key_at (ks_sign st l m).2 l' = key_at st l'.
Proof. exact (key_at_readonly st l l' (KSign m) eq_refl). Qed.
Lemma ml_dsa_keeps (st : St) l m c l' : key_at (ks_ml_dsa_sign st l m c).2 l' = key_at st l'.
Proof. exact (key_at_readonly st l l' (KMlDsaSign m c) eq_refl). Qed.
Lemma ecdh_keeps (st : St) l p l' : key_at (ks_ecdh st l p).2 l' = key_at st l'.
Proof. exact (key_at_readonly st l l' (KEcdh p) eq_refl). Qed.
Lemma decapsulate_keeps (st : St) l ek l' : key_at (ks_ml_kem_decapsulate st l ek).2 l' = key_at st l'.
Proof. exact (key_at_readonly st l l' (KDecapsulate ek) eq_refl). Qed.
Lemma meta_keeps (st : St) l l' : key_at (ks_meta st l).2 l' = key_at st l'.
Proof. exact (key_at_readonly st l l' KMeta eq_refl). Qed.
Lemma generate_keeps (st : St) l a l' : l <> l' -> key_at (ks_generate st l a).2 l' = key_at st l'.
Proof. exact (key_at_other st l l' (KGenerate a)). Qed.

Lemma unwrap_keeps (st : St) kl kql env pv l : key_at (unwrap_key_hybrid st kl kql env pv).2 l = key_at st l.
Proof.
  unfold unwrap_key_hybrid. destruct (map_err _ _) as [epk|]; [|done]. destruct (base64_decode_field _ _) as [ek|]; [|done].
  pose proof (ecdh_keeps st kl epk l) as H1. destruct (ks_ecdh st kl epk) as [[z|] st1]; cbn in H1; [|done].
  pose proof (decapsulate_keeps st1 kql ek l) as H2. destruct (ks_ml_kem_decapsulate st1 kql ek) as [[y|] st2]; cbn in H2; [|cbn; congruence].
  pose proof (meta_keeps st2 kl l) as H3. destruct (ks_meta st2 kl) as [[m|] st3]; cbn in H3; [|cbn; congruence].
  pose proof (meta_keeps st3 kql l) as H4. destruct (ks_meta st3 kql) as [[m'|] st4]; cbn in H4 |- *; congruence.
Qed.

(** ** Generating *)

Lemma generate_untouched (P : KeyLabel -> Prop) l : (~ P l) -> untouched P (generate l).
Proof.
  intros Hn. apply untouched_step. intros w l' Hl'. rewrite on_ks_w. apply generate_keeps. by intros ->.
Qed.

(** A key that was generated was not there. *)
Lemma generate_free l (w : W) m w' : generate l w = Some (Ok m, w') -> key_at (w_ks w) l = None.
Proof.
  unfold generate, estep, on_ks. destruct (key_at (w_ks w) l) as [b|] eqn:Ek; [|done].
  destruct (generate_exists (w_ks w) l (default_alg (purpose l))) as [m' Hg]; [by eexists|]. by rewrite Hg.
Qed.

(** What holds of the keys before a computation that succeeds. *)
Definition requires {A} (m : EM (St := St) (E := E) A) (P : KeyLabel -> Prop) : Prop :=
  forall w a w', m w = Some (Ok a, w') -> forall l, P l -> key_at (w_ks w) l = None.

Lemma requires_bind {A B} (m : EM A) (k : A -> EM B) (P Q R : KeyLabel -> Prop) :
  requires m P -> untouched Q m -> (forall a, requires (k a) Q) -> (forall l, R l -> P l \/ Q l) -> requires (ebind m k) R.
Proof.
  intros Hbefore Hkeep Hk HR w b w'. unfold ebind. destruct (m w) as [[[a|e] w1]|] eqn:E1; [|done|done]. intros Hx l Hl.
  destruct (HR l Hl) as [Hp|Hq]; [by eapply Hbefore|]. rewrite <- (Hkeep _ _ _ E1 l Hq). by eapply Hk.
Qed.
Lemma requires_none {A} (m : EM A) : requires m (fun _ => False).
Proof. by intros w a w' _ l. Qed.

(** ** Completing *)

Lemma rest_untouched P fuel ch base code token h ls s k sq kq :
  untouched P (
    ebind (submit_keys CLI_VERSION base code token s k sq kq ks_tier) (fun pop =>
    ebind (estep (on_ks (fun st => ks_sign st (el_signing ls) (enroll_pop_signing_base (pc_challenge pop))))) (fun es =>
    ebind (estep (on_ks (fun st => ks_ml_dsa_sign st (el_signing_pq ls) (enroll_pop_signing_base (pc_challenge pop)) ENROLL_POP_MLDSA_CTX))) (fun ml =>
    ebind (estep (on_ks (fun st => unwrap_key_hybrid st (el_kem ls) (el_kem_pq ls) (pc_envelope pop) []))) (fun nonce =>
    ebind (submit_pop CLI_VERSION base code token es ml nonce) (fun _ =>
    ebind (poll_until CLI_VERSION clock pause interval fuel base code "completed" "the attestation") (fun completed =>
    ebind (epure (write_default_config ch base s k)) (fun written =>
    epure (Ok (mk_EnrollResult h (wire_str ks_tier) (ps_attestation_id completed) (fst <$> written) false, written)))))))))).
Proof.
  apply untouched_bind; [apply submit_keys_untouched|]. intros pop.
  apply untouched_bind; [apply untouched_step; intros; rewrite on_ks_w; apply sign_keeps|]. intros es.
  apply untouched_bind; [apply untouched_step; intros; rewrite on_ks_w; apply ml_dsa_keeps|]. intros ml.
  apply untouched_bind; [apply untouched_step; intros; rewrite on_ks_w; apply unwrap_keeps|]. intros nonce.
  apply untouched_bind; [apply submit_pop_untouched|]. intros u.
  apply untouched_bind; [apply poll_until_untouched|]. intros c.
  apply untouched_bind; [apply untouched_pure|]. intros. apply untouched_pure.
Qed.

Lemma complete_untouched fuel ch base code token h ls :
  untouched (fun l => l ∉ label_list ls) (complete CLI_VERSION clock pause interval fuel ch base code token h ls).
Proof.
  unfold complete, label_list. do 4 (apply untouched_bind; [apply generate_untouched; set_solver|]; intros ?).
  apply rest_untouched.
Qed.

(** An enrolment that completes found none of its keys. *)
Lemma complete_requires fuel ch base code token h ls :
  NoDup (label_list ls) ->
  requires (complete CLI_VERSION clock pause interval fuel ch base code token h ls) (fun l => l ∈ label_list ls).
Proof.
  intros Hnd. unfold label_list in *. rewrite !NoDup_cons in Hnd. destruct Hnd as (H1 & H2 & H3 & _).
  assert (Hg : forall l, requires (generate l) (fun l' => l' = l)) by (intros l w a w' Hx l' ->; by eapply generate_free).
  unfold complete.
  eapply requires_bind with (Q := fun l => l ∈ [el_kem ls; el_signing_pq ls; el_kem_pq ls]);
    [apply Hg|by apply generate_untouched|intros s|set_solver].
  eapply requires_bind with (Q := fun l => l ∈ [el_signing_pq ls; el_kem_pq ls]);
    [apply Hg|by apply generate_untouched|intros k|set_solver].
  eapply requires_bind with (Q := fun l => l ∈ [el_kem_pq ls]); [apply Hg|by apply generate_untouched|intros sq|set_solver].
  eapply requires_bind with (Q := fun _ => False); [apply Hg|apply generate_untouched; set_solver|intros; apply requires_none|set_solver].
Qed.

Lemma complete_handle fuel ch base code token h ls (w : W) res cfg w' :
  complete CLI_VERSION clock pause interval fuel ch base code token h ls w = Some (Ok (res, cfg), w') ->
  er_handle res = h /\ er_already_enrolled res = false.
Proof.
  unfold complete. intros Hx. repeat (apply ebind_Ok in Hx as (? & ? & _ & Hx)). by injection Hx as <- <- <-.
Qed.

Lemma enroll_labels_Ok h ls :
  enroll_labels h = Ok ls ->
  NoDup (label_list ls) /\ forall l, l ∈ label_list ls <-> handle l = h.
Proof.
  unfold enroll_labels.
  destruct (from_handle h Signing) as [a|] eqn:E1; [|done]. destruct (from_handle h Kem) as [b|] eqn:E2; [|done].
  destruct (from_handle h SigningPq) as [c|] eqn:E3; [|done]. destruct (from_handle h KemPq) as [d|] eqn:E4; [|done].
  apply from_handle_Ok in E1 as [-> _], E2 as [-> _], E3 as [-> _], E4 as [-> _]. intros [= <-]. unfold label_list. cbn. split.
  - repeat (apply NoDup_cons; split; [set_solver|]). apply NoDup_nil_2.
  - intros [h' p]. rewrite !elem_of_cons. cbn. split; [set_solver|]. intros ->. destruct p; auto.
Qed.

(** ** Cleaning up *)

Lemma cleanup_keeps ls (st : St) l : l ∉ ls -> key_at (cleanup_keys ls st) l = key_at st l.
Proof.
  revert st. induction ls as [|x ls IH]; intros st Hl; [done|]. cbn [cleanup_keys].
  apply not_elem_of_cons in Hl as [Hx Hl]. pose proof (exists_keeps st x l) as He.
  destruct (ks_exists st x) as [[[]|] st1]; cbn in He; rewrite IH by done; [|done|done].
  rewrite delete_keeps; [done|congruence].
Qed.

(** ** The fast path *)

Definition keeps {A} (f : W -> A * W) : Prop := forall w l, key_at (w_ks (f w).2) l = key_at (w_ks w) l.

Lemma on_ks_keeps {A} (f : St -> cliresult A * St) : (forall st l, key_at (f st).2 l = key_at st l) -> keeps (on_ks f).
Proof. intros Hf w l. by rewrite on_ks_w. Qed.

Lemma request_signature_keeps signing m : keeps (request_signature (E := E) signing m).
Proof.
  intros w l. unfold request_signature. destruct (from_handle _ _) as [pq|]; [|done].
  pose proof (on_ks_keeps (fun st => ks_exists st pq) (fun st l => exists_keeps st pq l) w l) as H1.
  destruct (on_ks _ w) as [[b|] w1]; cbn in H1; [|done]. rewrite <- H1.
  pose proof (on_ks_keeps (fun st => ks_sign st signing m) (fun st l => sign_keeps st signing m l) w1 l) as H2.
  destruct (negb b); [done|]. destruct (on_ks _ w1) as [[sg|] w2]; cbn in H2; [|done]. rewrite <- H2.
  pose proof (on_ks_keeps (fun st => ks_ml_dsa_sign st pq m REQUEST_MLDSA_CTX) (fun st l => ml_dsa_keeps st pq m _ l) w2 l) as H3.
  destruct (on_ks _ w2) as [[sq|] w3]; cbn in H3; [|done]. rewrite <- H3. by destruct (negb _).
Qed.

Lemma auth_headers_keeps signing method path body : keeps (auth_headers (E := E) signing method path body).
Proof.
  intros w l. unfold auth_headers.
  pose proof (on_ks_keeps (fun st => ks_meta st signing) (fun st l => meta_keeps st signing l) w l) as H1.
  destruct (on_ks _ w) as [[m|] w1]; cbn in H1; [|done]. rewrite <- H1.
  unfold on_env. destruct (he_now (w_env w1)) as [[t|] e]; [|done].
  cbn. destruct (he_fill e) as [nonce e']. cbn.
  match goal with |- context [request_signature ?a ?b ?c] => pose proof (request_signature_keeps a b c l) as H2;
    destruct (request_signature a b c) as [[sg|] w2] end; cbn in H2 |- *; done.
Qed.

Lemma loop_keeps once url more attempt : keeps once -> keeps (attempt_loop (St := St) (E := E) once url more attempt).
Proof.
  intros Ho. revert attempt. induction more as [|more IH]; intros attempt w l; cbn [attempt_loop];
    pose proof (Ho w l) as H1; destruct (once w) as [[r|] w1]; cbn in H1; try done.
  destruct (transient r); [|done]. by rewrite IH.
Qed.

Lemma signed_call_keeps signing method base path body : keeps (signed_call (E := E) CLI_VERSION signing method base path body).
Proof.
  intros w l. unfold signed_call.
  match goal with |- context [match (if ?b then ?x else ?y) with _ => _ end] => destruct (if b then x else y); [|done] end.
  apply loop_keeps. clear w l. intros w l. unfold signed_once.
  pose proof (auth_headers_keeps signing method path (default [] body) w l) as H1.
  destruct (auth_headers _ _ _ _ w) as [[hs|] w1]; cbn in H1; [|done]. destruct (negb _); [done|]. unfold send_ok, send.
  by destruct (he_call _ _).
Qed.

Lemma both_exist_keeps s k : keeps (both_exist (St := St) (E := E) s k).
Proof.
  intros w l. unfold both_exist.
  pose proof (on_ks_keeps (fun st => ks_exists st s) (fun st l => exists_keeps st s l) w l) as H1.
  destruct (on_ks _ w) as [[[]|] w1]; cbn in H1; try done.
  pose proof (on_ks_keeps (fun st => ks_exists st k) (fun st l => exists_keeps st k l) w1 l) as H2.
  destruct (on_ks _ w1) as [rk w2]. cbn in H2 |- *. congruence.
Qed.

Lemma already_keeps base h s : keeps (already (E := E) CLI_VERSION base h s).
Proof.
  intros w l. unfold already, get_json_signed, parsed.
  pose proof (signed_call_keeps s "GET" base "/v1/me" None w l) as H1. by destruct (signed_call _ _ _ _ _ _ w) as [[t|] w1].
Qed.

(** ** The enrolment *)

(** What becomes of the keys of the identity the server names. *)
Definition names_one (o : cliresult (EnrollResult * option (string * string))) (w w' : W) : Prop :=
  exists h,
    (forall l, handle l <> h -> key_at (w_ks w') l = key_at (w_ks w) l) /\
    forall res cfg, o = Ok (res, cfg) ->
      er_handle res = h /\ er_already_enrolled res = false /\ forall l, handle l = h -> key_at (w_ks w) l = None.

Lemma names_one_before o (w w1 w' : W) :
  (forall l, key_at (w_ks w1) l = key_at (w_ks w) l) -> names_one o w1 w' -> names_one o w w'.
Proof.
  intros Hk (h & Hkeep & Hok). exists h. split; [intros l Hl; by rewrite Hkeep|]. intros res cfg Ho.
  destruct (Hok res cfg Ho) as (? & ? & Hn). split; [done|]. split; [done|]. intros l Hl. rewrite <- Hk. by apply Hn.
Qed.
Lemma names_one_err e (w w' : W) : (forall l, key_at (w_ks w') l = key_at (w_ks w) l) -> names_one (Err e) w w'.
Proof. intros Hk. exists EmptyString. split; [done|]. by intros. Qed.

Lemma names_one_bind {A} (m : EM A) k (w : W) o w' :
  untouched (fun _ => True) m -> ebind m k w = Some (o, w') ->
  (forall a w1, m w = Some (Ok a, w1) -> k a w1 = Some (o, w') -> names_one o w1 w') -> names_one o w w'.
Proof.
  intros Hm Hx Hk. unfold ebind in Hx. destruct (m w) as [[[a|e] w1]|] eqn:Em; [| |done].
  - eapply names_one_before; [|by eapply Hk]. intros l. by eapply Hm.
  - injection Hx as <- <-. apply names_one_err. intros l. by eapply Hm.
Qed.

Lemma with_code_names_one fuel ch base code (w : W) o w' :
  enroll_with_code CLI_VERSION clock pause interval fuel ch base code w = Some (o, w') -> names_one o w w'.
Proof.
  unfold enroll_with_code. intros Hx.
  eapply names_one_bind; [apply untouched_pure|exact Hx|]. clear Hx. intros c w1 _ Hx.
  eapply names_one_bind; [apply join_untouched|exact Hx|]. clear Hx. intros token w2 _ Hx.
  eapply names_one_bind; [apply poll_until_untouched|exact Hx|]. clear Hx. intros confirmed w3 _ Hx.
  eapply names_one_bind; [apply untouched_pure|exact Hx|]. clear Hx. intros h w4 _ Hx.
  eapply names_one_bind; [apply untouched_pure|exact Hx|]. clear Hx. intros ls w5 Hl Hx.
  injection Hl as Hl <-. apply enroll_labels_Ok in Hl as [Hnd Hin]. exists h.
  destruct (complete _ _ _ _ _ _ _ _ _ _ _ w4) as [[[[res cfg]|e] w6]|] eqn:Ec; [| |done].
  - injection Hx as <- <-. split; [intros l Hl; eapply complete_untouched; [exact Ec|]; cbn; by rewrite Hin|]. intros res' cfg' [= <- <-].
    destruct (complete_handle _ _ _ _ _ _ _ _ _ _ _ Ec) as [-> ->]. split; [done|]. split; [done|].
    intros l Hl. eapply complete_requires; [exact Hnd|exact Ec|]. cbn. by rewrite Hin.
  - assert (Hks : w_ks w' = cleanup_keys (label_list ls) (w_ks w6)) by (by apply (f_equal (fmap (fun x => w_ks x.2))) in Hx; injection Hx).
    injection Hx as <- _. split; [|done]. intros l Hl. rewrite Hks. assert (Hni : l ∉ label_list ls) by by rewrite Hin.
    rewrite cleanup_keeps by done. eapply complete_untouched; [exact Ec|done].
Qed.

(** C38: Whatever the server answers and however an enrolment ends, the keys of all
    identities but one are left as they were.  When it reports success, then either
    the identity was the one the environment asserts,
    no key changed and no configuration was written; or it was enrolled now,
    under the handle the server confirmed, and none of its four keys existed before:
    an enrolment never replaces a key. *)
Theorem enrolment_confined fuel env ch base_url code (w : W) o w' :
  enroll CLI_VERSION clock pause interval fuel env ch base_url code w = Some (o, w') ->
  exists h,
    (forall l, handle l <> h -> key_at (w_ks w') l = key_at (w_ks w) l) /\
    forall res cfg, o = Ok (res, cfg) -> er_handle res = h /\
      if er_already_enrolled res
      then asserted_handle env = Some h /\ cfg = None /\ (forall l, key_at (w_ks w') l = key_at (w_ks w) l)
      else forall l, handle l = h -> key_at (w_ks w) l = None.
Proof.
  assert (Hgo : forall (w : W), names_one o w w' -> exists h,
    (forall l, handle l <> h -> key_at (w_ks w') l = key_at (w_ks w) l) /\
    forall res cfg, o = Ok (res, cfg) -> er_handle res = h /\
      if er_already_enrolled res
      then asserted_handle env = Some h /\ cfg = None /\ (forall l, key_at (w_ks w') l = key_at (w_ks w) l)
      else forall l, handle l = h -> key_at (w_ks w) l = None).
  { clear w. intros w (h & Hkeep & Hok). exists h. split; [done|]. intros res cfg Ho.
    destruct (Hok res cfg Ho) as (? & -> & ?). done. }
  unfold enroll. destruct (asserted_handle env) as [h|]; [|intros Hx; apply Hgo; by eapply with_code_names_one].
  unfold ebind, epure. destruct (from_handle h Signing) as [s|e]; [|intros [= <- <-]; by apply Hgo, names_one_err].
  destruct (from_handle h Kem) as [k|e]; [|intros [= <- <-]; by apply Hgo, names_one_err].
  pose proof (both_exist_keeps s k w) as Hb. destruct (both_exist s k w) as [[] w1]; cbn in Hb.
  - pose proof (already_keeps (trim_end_char SLASH base_url) h s w1) as Ha. unfold already in *.
    destruct (get_json_signed _ _ _ _ w1) as [rr w2]. cbn in Ha. intros [= <- <-].
    exists h. split; [intros l _; by rewrite Ha, Hb|]. intros res cfg [= <- <-]. cbn.
    split; [done|]. split; [done|]. split; [done|]. intros l. by rewrite Ha, Hb.
  - intros Hx. apply Hgo. eapply names_one_before; [exact Hb|]. by eapply with_code_names_one.
Qed.

End Keys.

(** ** The waiting ends *)

(** While the system clock is not set back: reading it and calling the server take
    time, and a pause takes at least as long as was asked. *)
Class ForwardClock (E : Type) `{HttpEnv E} (clock : E -> Z * E) (pause : Duration -> E -> E) := {
  time_of : E -> Z;
  clock_reads e : (clock e).1 = time_of e;
  clock_forward e : time_of e <= time_of (clock e).2;
  pause_forward d e : 0 <= d -> time_of e + d <= time_of (pause d e);
  call_forward e q : time_of e <= time_of (he_call e q).2;
}.

Section Ends.
Context `{HS : Sha256, HX : Hex, HB : Base64Url, HG : AesGcm, HHk : Hkdf, HKw : AesKw, HJ : JsonText}.
Context `{HP : P256, !Ecdsa256, HQ : PqSoftware, !MlKemEncaps}.
Context {St E : Type} `{HK : Keystore St, HE : HttpEnv E}.
Context (CLI_VERSION : string) (clock : E -> Z * E) (pause : Duration -> E -> E) (interval : Duration).
Context `{!ForwardClock E clock pause} (Hinterval : 0 <= interval).
Abbreviation W := (World St E).

(** The computations that need no more fuel. *)
Definition settles {A} (m : EM (St := St) (E := E) A) : Prop := forall w, exists r, m w = Some r.

Lemma settles_bind {A B} (m : EM A) (k : A -> EM B) : settles m -> (forall a, settles (k a)) -> settles (ebind m k).
Proof.
  intros Hm Hk w. unfold ebind. destruct (Hm w) as [[[a|e] w1] ->]; [apply Hk|by eexists].
Qed.
Lemma settles_step {A} (f : W -> cliresult A * W) : settles (estep f).
Proof. by eexists. Qed.
Lemma settles_pure {A} (r : cliresult A) : settles (epure r).
Proof. by eexists. Qed.

Lemma get_json_forward url hs (w : W) : time_of (w_env w) <= time_of (w_env (get_json CLI_VERSION url hs w).2).
Proof.
  unfold get_json, parsed, get_text.
  assert (Hloop : forall req more attempt (w : W),
    time_of (w_env w) <= time_of (w_env (attempt_loop (send_ok req) url more attempt w).2)).
  { clear w. intros req more. induction more as [|more IH]; intros attempt w; cbn [attempt_loop]; unfold send_ok, send;
      pose proof (call_forward (w_env w) req) as Hc; destruct (he_call (w_env w) req) as [r e]; cbn in Hc |- *; [done|].
    destruct (transient r); [|done]. etrans; [exact Hc|]. etrans; [|apply IH]. done. }
  apply Hloop.
Qed.

(** With a pause for every interval of the longest wait, the loop ends. *)
Lemma poll_loop_ends fuel url target what start (w : W) :
  MAX_POLL + start < time_of (w_env w) + Z.of_nat fuel * interval ->
  exists r, poll_loop CLI_VERSION clock pause interval (S fuel) url target what start w = Some r.
Proof.
  revert w. induction fuel as [|fuel IH]; intros w Hf; cbn [poll_loop]; unfold ebind at 1, estep at 1;
    pose proof (get_json_forward url [] w) as Hg; destruct (get_json _ _ _ w) as [[resp|e] w1]; try by eexists.
  all: cbn in Hg; unfold ebind at 1, epure at 1; destruct (enroll_json_str resp "status") as [status|]; [|by eexists].
  all: case_decide; [by eexists|]; destruct (terminal status what); [by eexists|].
  all: unfold ebind at 1, estep at 1, tick, on_env.
  all: pose proof (clock_reads (w_env w1)) as Ht; pose proof (clock_forward (w_env w1)) as Hc.
  all: destruct (clock (w_env w1)) as [now e]; cbn in Ht, Hc; subst now.
  all: destruct (MAX_POLL <? _) eqn:El; [by eexists|]; apply Z.ltb_ge in El. { exfalso. lia. }
  unfold ebind at 1, estep at 1, wait, on_env. apply IH. cbn.
  pose proof (pause_forward interval e Hinterval). lia.
Qed.

Lemma poll_until_returns fuel base code target what :
  MAX_POLL < Z.of_nat fuel * interval ->
  settles (poll_until (St := St) CLI_VERSION clock pause interval (S fuel) base code target what).
Proof.
  intros Hf w. unfold poll_until, ebind at 1, estep at 1, tick, on_env.
  pose proof (clock_reads (w_env w)) as Ht; pose proof (clock_forward (w_env w)) as Hc.
  destruct (clock (w_env w)) as [now e]; cbn in Ht, Hc. subst now. apply poll_loop_ends. cbn. lia.
Qed.

Lemma complete_returns fuel ch base code token h ls :
  MAX_POLL < Z.of_nat fuel * interval ->
  settles (complete CLI_VERSION clock pause interval (S fuel) ch base code token h ls).
Proof.
  intros Hf. unfold complete, submit_keys, submit_pop.
  repeat first [ apply settles_pure | apply settles_step | by apply poll_until_returns
               | apply settles_bind; [|intros ?] ].
Qed.

Lemma with_code_returns fuel ch base code :
  MAX_POLL < Z.of_nat fuel * interval ->
  settles (enroll_with_code CLI_VERSION clock pause interval (S fuel) ch base code).
Proof.
  intros Hf. unfold enroll_with_code, join.
  repeat first [ apply settles_pure | apply settles_step | by apply poll_until_returns
               | apply settles_bind; [|intros ?] ].
  intros w. destruct (complete_returns fuel ch base a a0 a2 a3 Hf w) as [[[r|e] w1] ->]; by eexists.
Qed.

(** While the system clock is not set back, an enrolment ends, with an account
    or an error, whatever the server answers: each of its two waits polls at most
    once for every interval of the hour it may take, and once more. *)
Theorem enrolment_ends fuel env ch base_url code (w : W) :
  MAX_POLL < Z.of_nat fuel * interval ->
  exists o w', enroll CLI_VERSION clock pause interval (S fuel) env ch base_url code w = Some (o, w').
Proof.
  intros Hf. cut (settles (enroll (St := St) CLI_VERSION clock pause interval (S fuel) env ch base_url code));
    [intros Hr; destruct (Hr w) as [[o w'] Hx]; by exists o, w'|].
  unfold enroll. destruct (asserted_handle env) as [h|]; [|by apply with_code_returns].
  repeat (apply settles_bind; [apply settles_pure|intros ?]). clear w. intros w.
  destruct (both_exist _ _ w) as [[] w1]; [destruct (already _ _ _ _ w1); by eexists|by apply with_code_returns].
Qed.

End Ends.

(** * Concrete enrolments

    A server that confirms an identity and completes its enrolment, a keystore that
    can prove its keys, and what happens when the keys are there already. *)

Module EnrollToy.
Import Prims.Toy TextToy HybridToy.

Definition docs : JsonText := json_table
  [("J", VObject [("submit_token", VString "t")]);
   ("S", VObject [("handle", VString "mira-ai"); ("status", VString "confirmed")]);
   ("K", VObject [("pop_challenge", VString (b64_encode []));
                  ("pop_nonce_envelope", SharingToy.my_wrap)]);
   ("D", VObject [("attestation_id", VString "a"); ("status", VString "completed")]); ("E", VObject [])]%string eq_refl.
#[export] Instance texts : JsonText := {|
  json_from_str := @json_from_str docs;
  json_to_pretty := @json_to_pretty docs;
  json_display v := "{}"%string;
  json_round_trip := @json_round_trip docs;
|}.

(** The time, and whether the keys have been submitted. *)
Definition site : Type := Z * bool.
Definition answer (e : site) (url : string) : string :=
  if decide (url = "/v1/prsn-enrollments/join") then "J"
  else if decide (url = "/v1/prsn-enrollments/keys") then "K"
  else if decide (url = "/v1/prsn-enrollments/status?code=c") then (if e.2 then "D" else "S")
  else "E".
#[export] Instance guardian : HttpEnv site := {
  he_call e q := (UreqOk 200 (Some (answer e (hr_url q))),
                  (e.1, e.2 || bool_decide (hr_url q = "/v1/prsn-enrollments/keys")));
  he_now e := (Some 17, e);
  he_fill e := (replicate 16 Byte.x00, e);
  he_fill_length _ := eq_refl;
}.
Definition clock (e : site) : Z * site := (e.1, e).
Definition pause (d : Duration) (e : site) : site := (e.1 + d, e.2).

#[export, refine] Instance forward : ForwardClock site clock pause := {| time_of e := e.1 |}.
Proof. all: cbn; intros; lia. Defined.

(** The labels that have a key, with one secret of each kind. *)
#[export] Instance enrolling : Keystore (list KeyLabel) := {
  ks_tier := Software;
  ks_generate := @ks_generate _ KeyToy.labels_only;
  ks_meta st l := (Ok (mk_KeyMeta (full l) "p" "a" "software" "fp"
    (match purpose l with KemPq => mlkem1024_ek seed_d seed_z | _ => p256_x963 (p256_public demo_sk) end)), st);
  ks_sign := @ks_sign _ KeyToy.labels_only;
  ks_ecdh st l p := (lift_crypto (ecdh_p256 demo_sk p), st);
  ks_ml_kem_decapsulate st l ek :=
    (ok_or (decrypt_failed "ml-kem decapsulation failed") (mlkem1024_decapsulate seed_d seed_z ek), st);
  ks_ml_dsa_sign := @ks_ml_dsa_sign _ KeyToy.labels_only;
  ks_list := @ks_list _ KeyToy.labels_only;
  ks_delete := @ks_delete _ KeyToy.labels_only;
  ks_exists := @ks_exists _ KeyToy.labels_only;
}.
#[export, refine] Instance enrolling_local : KeystoreLocal (list KeyLabel) := {|
  key_at := @key_at _ KeyToy.labels_only KeyToy.labels_local;
  env_eq st st' := True;
|}.
Proof.
  - intros st l l' o. pose proof (@key_at_other _ _ KeyToy.labels_local st l l' o) as Hx. destruct o; done || exact Hx.
  - intros st l l' o. by destruct o.
  - done.
  - exact (@generate_exists _ _ KeyToy.labels_local).
  - intros st st' l o He Hk. pose proof (@run_kop_local _ _ KeyToy.labels_local st st' l o I Hk) as Hx.
    destruct o; done || exact Hx.
Defined.

Definition home : ConfigHome := mk_ConfigHome "config.toml" None true true.
Definition start (held : list KeyLabel) : World (list KeyLabel) site := mk_World held (0, false) false [] [].
Definition run (held : list KeyLabel) :=
  enroll "1" clock pause (from_secs 600) 8 (fun _ => None) home "/" (Some "c"%string) (start held).

(** The whole enrolment of a new identity: it found no key of that name, and left
    the others' as they were. *)
Lemma enrolment_confined_witness :
  exists res cfg w',
    run [mk_KeyLabel "ab-ai" Signing] = Some (Ok (res, cfg), w') /\
    er_handle res = "mira-ai"%string /\ er_attestation_id res = Some "a"%string /\
    length (w_ks w') = 5%nat /\
    (forall l, handle l <> "mira-ai"%string -> key_at (w_ks w') l = key_at [mk_KeyLabel "ab-ai" Signing] l) /\
    (forall l, handle l = "mira-ai"%string -> key_at [mk_KeyLabel "ab-ai" Signing] l = None).
Proof.
  destruct (run [mk_KeyLabel "ab-ai" Signing]) as [[o w']|] eqn:Er; [|vm_compute in Er; discriminate Er].
  destruct (enrolment_confined "1" clock pause (from_secs 600) 8 (fun _ => None) home "/" (Some "c"%string)
    (start [mk_KeyLabel "ab-ai" Signing]) o w' Er) as (h & Hkeep & Hok).
  vm_compute in Er. injection Er as <- <-. destruct (Hok _ _ eq_refl) as [<- Hn]. do 3 eexists.
  split; [done|]. split; [done|]. split; [done|]. split; [done|]. split; [exact Hkeep|exact Hn].
Defined.

Lemma enrolment_ends_witness :
  MAX_POLL < Z.of_nat 7 * from_secs 600 /\ exists o w', run [] = Some (o, w').
Proof. split; [done|]. apply (enrolment_ends "1" clock pause (from_secs 600)); done. Defined.

(** The keys of an identity this machine has already: the server names it again, no
    key is generated, and the cleaning up deletes the ones that were there. *)
Lemma cleanup_deletes_existing_keys :
  let held := [mk_KeyLabel "mira-ai" Signing; mk_KeyLabel "mira-ai" Kem;
               mk_KeyLabel "mira-ai" SigningPq; mk_KeyLabel "mira-ai" KemPq] in
  exists w', run held = Some (Err (key_exists "k"), w') /\ w_ks w' = [].
Proof. eexists. by vm_compute. Qed.

(** The enrolment is attested and the configuration cannot be written: the keys the
    attestation is about are deleted. *)
Lemma attested_keys_deleted :
  exists e w', enroll "1" clock pause (from_secs 600) 8 (fun _ => None) (mk_ConfigHome "config.toml" None true false)
      "/" (Some "c"%string) (start []) = Some (Err e, w') /\
    last (hr_url <$> w_sent w') = Some "/v1/prsn-enrollments/status?code=c"%string /\
    answer (w_env w') "/v1/prsn-enrollments/status?code=c" = "D"%string /\ w_ks w' = [].
Proof. do 2 eexists. by vm_compute. Qed.

End EnrollToy.
