(* ===== verification/UploadRun.v ===== *)
(** * The whole upload command ([upload] and [try_resume] of [cli/src/commands.rs])

    From the arguments to the finalized file: the destination and its free name, the
    search for a state to resume from, the fresh key with its wraps for the uploader
    and for every reader of the folder, the initiate request, the transfer, and what
    becomes of the state file.  The labels are resolved; the draws of the generator
    are arguments, those of the recipients' wraps functions of the environment, since
    an attempt may be made twice; [upload_parts] is the transfer with its outcome
    ([UploadFanout] has its steps); what is printed is left out. *)

From S2P Require Import Prelude Prims CryptoCore Text Ecdsa Envelope Wrap CliError Float64 Keystore SoftKeystore Token VrfIndex Receipts RecipientVerify Hybrid Anchors Governor UploadState Transfer Http Resolve Names UploadFanout UploadCommand Sharing.
Import Wrap Names Governor UploadState UploadCommand Transfer.

(** The local file: its metadata if they can be read (size, and modification time in
    Unix seconds, 0 when unknown), its canonical path, its contents if it opens. *)
Record LocalFile := mk_LocalFile {
  lf_path : string;
  lf_meta : option (Z * Z);
  lf_canonical : string;
  lf_contents : option bytes;
}.

Section Code.
Context `{HS : Sha256, HX : Hex, HB : Base64Url, HG : AesGcm, HHk : Hkdf, HKw : AesKw, HJ : JsonText}.
Context `{HP : P256, !Ecdsa256, HQ : PqSoftware, !MlKemEncaps, HU : UuidLib}.
Context `{HJc : Jcs, HM : MlDsa87, HV : Vrf.VrfR255, HT : StateText}.
Context {St E : Type} `{HK : Keystore St, HE : HttpEnv E}.
Context (CLI_VERSION : string) (signing kem : KeyLabel) (url : string).
Context (debug_opt : option string -> string).
Context (anchored_reads : World St E ->
  cliresult (ServerTrust * (Site -> string -> cliresult value)) * World St E).
Abbreviation W := (World St E).
Abbreviation R := (@Resolver HU St E).

(** ** The destination *)

Definition upload_destination (fuel : nat) (dest_path to folder_id root_folder_id name : option string)
    : RM (St := St) (E := E) (uuid * uuid * string) :=
  match dest_path with
  | Some dest =>
      if bool_decide (is_Some to) || bool_decide (is_Some folder_id) || bool_decide (is_Some name) then
        pure (Err (invalid_args "give a destination <path> (its last segment is the file's name) or the --to/--folder-id + --name flags, not both"))
      else
        run? u := fresh_resolver in
        run? pn := resolve_create_parent CLI_VERSION signing kem url fuel dest in
        match pn.1 with
        | Some r => pure (Ok (rd_folder_id r, rd_root_folder_id r, pn.2))
        | None => pure (Err (invalid_args "a file needs a destination folder: give /<folder>/<name> (files cannot live at the top level)"))
        end
  | None =>
      run? name := pure (ok_or (invalid_args "give --name with --to/--folder-id, or a destination <path> whose last segment is the file's name") name) in
      match to, folder_id with
      | Some _, Some _ => pure (Err (invalid_args "give --to <folder-path> or --folder-id, not both"))
      | Some p, None =>
          run? u := fresh_resolver in
          run? r := resolve_folder CLI_VERSION signing kem url fuel p in
          pure (Ok (rd_folder_id r, rd_root_folder_id r, name))
      | None, Some id =>
          run? folder := pure (parse_uuid_arg id "--folder-id") in
          run? root := pure (match root_folder_id with
                             | Some r => parse_uuid_arg r "--root-folder-id"
                             | None => Ok folder
                             end) in
          pure (Ok (folder, root, name))
      | None, None => pure (Err (invalid_args "give a destination <path>, or --to <folder-path> / --folder-id"))
      end
  end.

(** The names of the folder that could be read. *)
Definition taken_names (files : list FileEntry) : gset string := list_to_set (omap fi_name files).

Definition free_name (fuel : nat) (folder root : uuid) (name : string) : RM (St := St) (E := E) string :=
  run? u := fresh_resolver in
  run? files := list_files CLI_VERSION signing kem url fuel folder root in
  match dedupe_name name (taken_names files) with
  | Some deduped => pure (Ok deduped)
  | None => fun _ => None
  end.

Definition upload_target (fuel : nat) (dest_path to folder_id root_folder_id name : option string)
    : RM (uuid * uuid * string) :=
  run? frn := upload_destination fuel dest_path to folder_id root_folder_id name in
  run? name := free_name fuel frn.1.1 frn.1.2 frn.2 in
  run? fits := pure (name_fits name) in
  pure (Ok (frn.1.1, frn.1.2, name)).

(** ** The readers *)

Definition wrap_targets (recipients : value) : list value :=
  option_list (value_get recipients "owner") ++ default [] (get_array recipients "recipients").

(** Each account is wrapped to once; the trust is fetched at the first that is. *)
Fixpoint wrap_to_each (coins : nat -> Coins) (dek : bytes) (i : nat) (targets : list value) (seen : gset string)
    (trust : option (ServerTrust * (Site -> string -> cliresult value))) (w : W)
    : cliresult (list (string * value)) * W :=
  match targets with
  | [] => (Ok [], w)
  | r :: targets =>
      match Text.get_str r "recipient_account_id" with
      | None => (Err (invalid_data "recipient missing account_id"), w)
      | Some rid =>
          if decide (rid ∈ seen) then wrap_to_each coins dek i targets seen trust w
          else
            do? tr := (match trust with Some tr => (Ok tr, w) | None => anchored_reads w end) on w in
            match
              let*? keys := verified_wrap_keys debug_opt tr.2 url tr.1 r ServerListed "recipient" in
              wrap_dek_for (coins i) keys dek
            with
            | Err e => (Err e, w)
            | Ok wrap =>
                do? rest := wrap_to_each coins dek (S i) targets ({[rid]} ∪ seen) (Some tr) w on w in
                (Ok ((rid, wrap) :: rest), w)
            end
      end
  end.

Definition recipients_path (root : uuid) : string := "/v1/share-folders/" +:+ uuid_to_string root +:+ "/recipients".

Definition recipient_wraps (coins : E -> nat -> Coins) (dek : bytes) (root : uuid) (account_id : string) (w : W)
    : cliresult (list (string * value)) * W :=
  once_more_on_epoch_change (read_only (fun w =>
    do? recipients := get_json_signed CLI_VERSION signing url (recipients_path root) w on w in
    wrap_to_each (coins (w_env w)) dek 0 (wrap_targets recipients) {[account_id]} None w)) w.

(** ** The initiate request *)

Definition preflight (me : value) (declared_size : Z) : RM (St := St) (E := E) unit :=
  step (fun rv => let '(quota, rv) := get_signed CLI_VERSION signing url "/v1/me/quota" rv in
                  (preflight_capacity me quota declared_size, rv)).

(** The metadata key, without the cache of a resolver. *)
Definition folder_key (root : uuid) : RM (St := St) (E := E) bytes :=
  run? mkw := step (get_signed CLI_VERSION signing url ("/v1/folders/" +:+ uuid_to_string root +:+ "/metadata-key-wrap")) in
  run? wrapped := pure (ok_or (invalid_data "metadata-key-wrap response missing wrapped_key") (value_get mkw "wrapped_key")) in
  step (on_world (on_ks (fun st => unwrap_metadata_key_envelope st wrapped (uuid_as_bytes root) kem))).

Definition initiate_path (file_id : uuid) : string := "/v1/files/" +:+ uuid_to_string file_id +:+ "/multipart".

Definition initiate_body (folder : uuid) (encrypted_name : value) (wrapped_deks : list (string * value))
    (declared_size chunk_size chunk_count : Z) : value :=
  VObject [("folder_id", VString (uuid_to_string folder)); ("encrypted_name", encrypted_name);
           ("wrapped_deks", VArray (map (fun aw => VObject [("recipient_account_id", VString aw.1); ("wrapped_dek", aw.2)]) wrapped_deks));
           ("declared_size", VNumber declared_size); ("chunk_size", VNumber chunk_size);
           ("chunk_count", VNumber chunk_count); ("algorithm", VString "A256GCM")].

Definition initiate (file_id : uuid) (dek iv : bytes) (c : Coins) (coins : E -> nat -> Coins)
    (folder root : uuid) (name : string) (declared_size chunk_size chunk_count : Z) : RM value :=
  run? me := step (get_signed CLI_VERSION signing url "/v1/me") in
  run? account_id := pure (ok_or (invalid_data "/v1/me response missing account_id") (Text.get_str me "account_id")) in
  run? room := preflight me declared_size in
  run? self_keys := step (on_world (on_ks (fun st => self_wrap_keys st me kem))) in
  run? wrapped_dek := pure (wrap_dek_for c self_keys dek) in
  run? metadata_key := folder_key root in
  run? encrypted_name := pure (encrypted iv metadata_key root file_id name) in
  run? others := step (on_world (recipient_wraps coins dek root account_id)) in
  post CLI_VERSION signing url (initiate_path file_id)
    (initiate_body folder encrypted_name ((account_id, wrapped_dek) :: others) declared_size chunk_size chunk_count).

(** ** The transfer and the finalize *)

Context (faults : fs_faults) (at_ : string) (now : E -> Z).
(** The key, the file's id, the chunk size and count, the part URLs, the knobs, the
    governor, how far ahead to prepare and how many parts to send at once. *)
Context (upload_parts : bytes -> bytes -> Z -> Z -> list value -> TransferKnobs -> TransferGovernor -> Z -> Z -> E ->
  (cliresult (list UploadFanout.PartInput) * TransferGovernor) * E).

(** With the knobs the response serves. *)
Definition send_parts (dek file_id : bytes) (chunk_size chunk_count : Z) (response : value) (part_urls : list value)
    (g : TransferGovernor) (w : W) : (cliresult (list UploadFanout.PartInput) * TransferGovernor) * W :=
  on_env (upload_parts dek file_id chunk_size chunk_count part_urls (transfer_knobs response) g
    (upload_prepare_ahead response) (upload_concurrency response)) w.

Definition complete_body (parts : list UploadFanout.PartInput) : value :=
  VObject [("parts", VArray (map (fun p =>
    VObject [("part_number", VNumber (UploadFanout.part_number p)); ("etag", VString (UploadFanout.etag p))]) parts))].

Definition multipart_path (file_id upload_id : string) : string := "/v1/files/" +:+ file_id +:+ "/multipart/" +:+ upload_id.

Definition complete_upload (s : UploadState) (parts : list UploadFanout.PartInput) (w : W) : cliresult value * W :=
  post_json_signed CLI_VERSION signing url (multipart_path (UploadState.file_id s) (upload_id s) +:+ "/complete") (to_vec (complete_body parts)) w.
Definition abort_upload (file_id upload_id : string) (w : W) : cliresult unit * W :=
  delete_signed CLI_VERSION signing url (multipart_path file_id upload_id) w.

(** From the saving of the state on. *)
Definition transfer_and_finish (s : UploadState) (dek file_id : bytes) (response : value) (part_urls : list value)
    (d : dir) (w : W) : cliresult value * dir * W :=
  let d := save_state faults at_ d s in
  match send_parts dek file_id (chunk_size s) (chunk_count s) response part_urls (new (from_response response)) w with
  | ((Ok parts, _), w) =>
      let '(answer, w) := complete_upload s parts w in
      (finish faults d s answer, w)
  | ((Err error, g), w) =>
      if bool_decide (code error = "transfer_stalled") then
        (Err error, persist_rate_estimate faults at_ d s g (now (w_env w)), w)
      else
        let '(answer, w) := abort_upload (UploadState.file_id s) (upload_id s) w in
        (Err error, abort_then_forget faults d s answer, w)
  end.

(** *** Resuming *)

Definition resume_transfer (s : UploadState) (dek file_id : bytes) (resume : value) (d : dir) (w : W)
    : cliresult (option value) * dir * W :=
  let uploaded := default [] (get_array resume "uploaded_parts") in
  let part_urls := default [] (get_array resume "part_urls") in
  match send_parts dek file_id (geometry resume).1 (geometry resume).2 resume part_urls
          (resume_governor s resume (now (w_env w))) w with
  | ((Err error, g), w) =>
      (Err error,
       if bool_decide (code error = "transfer_stalled") then persist_rate_estimate faults at_ d s g (now (w_env w)) else d,
       w)
  | ((Ok new_parts, _), w) =>
      let '(answer, w) := complete_upload s (parts_of uploaded ++ new_parts) w in
      let '(r, d) := finish faults d s answer in
      (match r with Ok view => Ok (Some view) | Err e => Err e end, d, w)
  end.

Definition resume_upload (s : UploadState) (d : dir) (w : W) : cliresult (option value) * dir * W :=
  let '(answer, w) := post_signed CLI_VERSION signing url (multipart_path (UploadState.file_id s) (upload_id s) +:+ "/resume") w in
  match answer with
  | Err error =>
      if bool_decide (code error = "not_found") then (Ok None, forget faults d (UploadState.file_id s), w) else (Err error, d, w)
  | Ok text =>
      match json_from_str text with
      | Err e => (Err (invalid_data ("resume response: " +:+ e)), d, w)
      | Ok resume =>
          if geometry_agrees s resume then
            match value_get resume "wrapped_dek" with
            | None => (Err (invalid_data "resume response missing wrapped_dek"), d, w)
            | Some wrapped =>
                match on_ks (fun st => unwrap_dek_value st wrapped kem) w with
                | (Err e, w) => (Err e, d, w)
                | (Ok dek, w) =>
                    match uuid_parse_str (UploadState.file_id s) with
                    | None => (Err (invalid_data "upload state carries an invalid file id"), d, w)
                    | Some id => resume_transfer s dek (uuid_as_bytes id) resume d w
                    end
                end
            end
          else
            let w := match uuid_parse_str (UploadState.file_id s) with
                     | Some id => (abort_upload (uuid_to_string id) (upload_id s) w).2
                     | None => w
                     end in
            (Ok None, forget faults d (UploadState.file_id s), w)
      end
  end.

(** ** The command *)

(** After no state could be resumed from. *)
Definition upload_anew (file_id : uuid) (dek iv : bytes) (c : Coins) (coins : E -> nat -> Coins)
    (folder root : uuid) (name : string) (src : LocalFile) (size mtime chunk_size : Z) (source_anchor : option string)
    (d : dir) (rv : R) : option (cliresult value * dir * R) :=
  match
    let*? plan := chunk_plan size chunk_size in
    let*? floor := check_multipart_floor plan.1 chunk_size in
    Ok plan
  with
  | Err e => Some (Err e, d, rv)
  | Ok (chunk_count, declared_size) =>
      match initiate file_id dek iv c coins folder root name declared_size chunk_size chunk_count rv with
      | None => None
      | Some (Err e, rv) => Some (Err e, d, rv)
      | Some (Ok response, rv) =>
          match
            let*! upload_id := Text.get_str response "upload_id" else invalid_data "initiate response missing upload_id" in
            let*! part_urls := get_array response "part_urls" else invalid_data "initiate response missing part_urls" in
            Ok (upload_id, part_urls)
          with
          | Err e => Some (Err e, d, rv)
          | Ok (upload_id, part_urls) =>
              let s := fresh_state (uuid_to_string file_id) upload_id url (uuid_to_string folder) (uuid_to_string root) name
                         (lf_canonical src) size mtime source_anchor chunk_size chunk_count in
              let '(r, d, w) := transfer_and_finish s dek (uuid_as_bytes file_id) response part_urls d (rv_world rv) in
              Some (r, d, mk_Resolver w (rv_keys rv))
          end
      end
  end.

Definition upload (fuel : nat) (file_id : uuid) (dek iv : bytes) (c : Coins) (coins : E -> nat -> Coins)
    (src : LocalFile) (dest_path to folder_id root_folder_id name : option string) (chunk_size : option Z)
    (d : dir) (rv : R) : option (cliresult value * dir * R) :=
  let chunk_size := default DEFAULT_CHUNK_SIZE chunk_size in
  if (chunk_size =? 0) || (2147483647 <? chunk_size) then
    Some (Err (invalid_args "--chunk-size must be between 1 and 2147483647 bytes"), d, rv)
  else
    match upload_target fuel dest_path to folder_id root_folder_id name rv with
    | None => None
    | Some (Err e, rv) => Some (Err e, d, rv)
    | Some (Ok (folder, root, name), rv) =>
        match lf_meta src with
        | None => Some (Err (input_read ("reading " +:+ lf_path src)), d, rv)
        | Some (size, mtime) =>
            let source_anchor := content_anchor (lf_contents src) size chunk_size in
            let '(found, d') := find_match_in faults (Some d)
              (mk_ResumeKey url (uuid_to_string folder) name (lf_canonical src) size mtime source_anchor) in
            let d := default d d' in
            let '(resumed, d, w) :=
              match found with
              | Some s => resume_upload s d (rv_world rv)
              | None => (Ok None, d, rv_world rv)
              end in
            let rv := mk_Resolver w (rv_keys rv) in
            match resumed with
            | Err e => Some (Err e, d, rv)
            | Ok (Some view) => Some (Ok view, d, rv)
            | Ok None => upload_anew file_id dek iv c coins folder root name src size mtime chunk_size source_anchor d rv
            end
        end
    end.

End Code.
