(* ===== verification/UploadRunTheorems.v ===== *)
(** * What the upload command guarantees (properties of [UploadRun])

    The requests up to the initiate only read; what the initiate request carries, the
    uploader and every reader of the folder can open, to the key the parts are sealed
    under; and the fate of the state file is the one [UploadCommand] decides. *)

From S2P Require Import Prelude Prims CryptoCore Text Ecdsa Envelope Wrap WrapTheorems CliError Float64 Keystore SoftKeystore Token VrfIndex Receipts RecipientVerify Hybrid HybridTheorems GrantStatus Anchors Governor UploadState Transfer Http HttpTheorems Resolve Names UploadFanout UploadCommand Sharing SharingTheorems UploadRun.
Import Wrap Names Governor UploadState UploadCommand Transfer.

Section Readers.
Context `{HS : Sha256, HX : Hex, HB : Base64Url, HG : AesGcm, HHk : Hkdf, HKw : AesKw, HJ : JsonText}.
Context `{HP : P256, !Ecdsa256, HQ : PqSoftware, !MlKemEncaps, HU : UuidLib}.
Context `{HJc : Jcs, HM : MlDsa87, HV : Vrf.VrfR255, HT : StateText}.
Context {St E : Type} `{HK : Keystore St, HE : HttpEnv E}.
Context (CLI_VERSION : string) (signing kem : KeyLabel) (url : string).
Context (debug_opt : option string -> string).
Context (anchored_reads : World St E ->
  cliresult (ServerTrust * (Site -> string -> cliresult value)) * World St E).
Abbreviation W := (World St E).
Abbreviation R := (@Resolver HU St E).

(** ** The readers *)

(** The wrap for the account [id], of the key [dek], made to the keys that were
    verified for the entry [r] of the listing. *)
Definition wrapped_to (dek : bytes) (ok : Coins -> Prop) (targets : list value) (aw : string * value) : Prop :=
  exists r (w w1 : W) tr keys c, r ∈ targets /\ Text.get_str r "recipient_account_id" = Some aw.1 /\
    anchored_reads w = (Ok tr, w1) /\
    verified_wrap_keys debug_opt tr.2 url tr.1 r ServerListed "recipient" = Ok keys /\
    ok c /\ wrap_dek_for c keys dek = Ok aw.2.

Lemma wrapped_to_cons dek ok r rs aw : wrapped_to dek ok rs aw -> wrapped_to dek ok (r :: rs) aw.
Proof. intros (x & w & w1 & tr & keys & c & Hin & Hrest). exists x, w, w1, tr, keys, c. split; [by right|exact Hrest]. Qed.

Definition id_of (r : value) : option string := Text.get_str r "recipient_account_id".

Lemma wrap_to_each_Ok (ok : Coins -> Prop) coins dek targets i seen trust (w w' : W) ws :
  (forall i, ok (coins i)) ->
  match trust with Some tr => exists w0 w1, anchored_reads w0 = (Ok tr, w1) | None => True end ->
  wrap_to_each url debug_opt anchored_reads coins dek i targets seen trust w = (Ok ws, w') ->
  NoDup ws.*1 /\ (forall id, id ∈ ws.*1 <-> id ∉ seen /\ Some id ∈ id_of <$> targets) /\
  Forall (wrapped_to dek ok targets) ws /\ Forall (fun r => is_Some (id_of r)) targets.
Proof.
  intros Hok. revert i seen trust w w' ws. induction targets as [|r rs IH]; intros i seen trust w w' ws Htr; cbn [wrap_to_each].
  { intros [= <- _]. split_and!; [constructor| |constructor|constructor]. set_solver. }
  destruct (Text.get_str r "recipient_account_id") as [rid|] eqn:Er; [|done].
  assert (Hir : id_of r = Some rid) by exact Er.
  case_decide as Hs.
  { intros Hx. apply IH in Hx as (Hnd & Hin & Hf & Hi); [|done]. split_and!; [done| | |by constructor].
    - intros id. rewrite Hin, fmap_cons, Hir. set_solver.
    - eapply Forall_impl; [exact Hf|]. intros aw. apply wrapped_to_cons. }
  destruct (match trust with Some tr => (Ok tr, w) | None => anchored_reads w end) as [[tr|e] w1] eqn:Et; [|done].
  assert (Ha : exists w0 w1, anchored_reads w0 = (Ok tr, w1)).
  { destruct trust as [tr0|]; [by injection Et as -> _|by eexists _, _]. }
  destruct (verified_wrap_keys _ _ _ _ _ _ _) as [keys|e] eqn:Ev; [|done].
  destruct (wrap_dek_for (coins i) keys dek) as [wrap|e] eqn:Ew; [|done].
  destruct (wrap_to_each _ _ _ _ _ _ _ _ _ w1) as [[rest|e] w2] eqn:Ex; [|done]. intros [= <- _].
  apply IH in Ex as (Hnd & Hin & Hf & Hi); [|done]. split_and!.
  - cbn. apply NoDup_cons. split; [rewrite Hin; set_solver|done].
  - intros id. cbn. rewrite elem_of_cons, Hin, elem_of_cons, Hir, not_elem_of_union, not_elem_of_singleton.
    destruct (decide (id = rid)) as [->|]; naive_solver.
  - constructor; [|eapply Forall_impl; [exact Hf|]; intros aw; apply wrapped_to_cons].
    destruct Ha as (w3 & w4 & Ha). exists r, w3, w4, tr, keys, (coins i). split; [by left|]. done.
  - by constructor.
Qed.

(** Each attempt asks for the readers of the folder. *)
Lemma recipient_wraps_Ok (ok : Coins -> Prop) coins dek root account (w w' : W) ws :
  (forall e i, ok (coins e i)) ->
  recipient_wraps CLI_VERSION signing url debug_opt anchored_reads coins dek root account w = (Ok ws, w') ->
  exists recipients (w0 w1 : W),
    get_json_signed CLI_VERSION signing url (recipients_path root) w0 = (Ok recipients, w1) /\
    NoDup (account :: ws.*1) /\
    (forall id, id ∈ account :: ws.*1 <-> id = account \/ Some id ∈ id_of <$> wrap_targets recipients) /\
    Forall (wrapped_to dek ok (wrap_targets recipients)) ws.
Proof.
  intros Hok. unfold recipient_wraps, once_more_on_epoch_change.
  set (attempt := read_only _). assert (Hatt : forall w w', attempt w = (Ok ws, w') -> exists recipients (w0 w1 : W),
    get_json_signed CLI_VERSION signing url (recipients_path root) w0 = (Ok recipients, w1) /\
    NoDup (account :: ws.*1) /\
    (forall id, id ∈ account :: ws.*1 <-> id = account \/ Some id ∈ id_of <$> wrap_targets recipients) /\
    Forall (wrapped_to dek ok (wrap_targets recipients)) ws).
  { clear w w'. intros w w'. unfold attempt, read_only.
    destruct (get_json_signed _ _ _ _ (set_read_only true w)) as [[recipients|e] w1] eqn:Eg; [|done].
    destruct (wrap_to_each _ _ _ _ _ _ _ _ _ w1) as [[ws1|e] w2] eqn:Ew; [|done]. intros [= <- _].
    eapply wrap_to_each_Ok in Ew as (Hnd & Hin & Hf & _); [|apply Hok|done].
    exists recipients, (set_read_only true w), w1. split; [done|]. split.
    { apply NoDup_cons. split; [rewrite Hin; set_solver|done]. }
    split; [|done]. intros id. rewrite elem_of_cons, Hin. destruct (decide (id = account)); set_solver. }
  destruct (attempt w) as [[x|e] w1] eqn:E1; [intros [= -> <-]; by eapply Hatt|].
  destruct (epoch_moved e); [apply Hatt|done].
Qed.

(** ** Reads before the write *)

Hypothesis anchored_reads_http : via_http CLI_VERSION anchored_reads.

Lemma wrap_to_each_reads coins dek i targets seen trust (w : W) :
  w_read_only w = true ->
  extends is_read w (wrap_to_each url debug_opt anchored_reads coins dek i targets seen trust w).2.
Proof.
  revert i seen trust w. induction targets as [|r rs IH]; intros i seen trust w Hw; cbn [wrap_to_each]; [apply extends_refl|].
  destruct (Text.get_str r _) as [rid|]; [|apply extends_refl]. case_decide; [by apply IH|].
  apply (extends_bind (fun w => match trust with Some tr => (Ok tr, w) | None => anchored_reads w end) (fun tr w => _)); [done| |].
  { intros w0 Hw0. destruct trust; [apply extends_refl|by eapply via_http_reads]. }
  intros tr w0 Hw0. destruct (verified_wrap_keys _ _ _ _ _ _ _) as [keys|]; cbn; [|apply extends_refl].
  destruct (wrap_dek_for _ _ _); [|apply extends_refl].
  apply (extends_bind _ (fun rest w => _)); [done|intros; by apply IH|]. intros. apply extends_refl.
Qed.

Lemma recipient_wraps_reads coins dek root account (w : W) :
  extends is_read w (recipient_wraps CLI_VERSION signing url debug_opt anchored_reads coins dek root account w).2.
Proof.
  apply once_more_reads, read_only_reads. intros w0 Hw0. apply extends_bind; [done|intros; apply get_json_signed_reads|].
  intros rs w1 Hw1. by apply wrap_to_each_reads.
Qed.

Lemma folder_key_quiet root : quiet (folder_key CLI_VERSION signing kem url root).
Proof.
  unfold folder_key. apply quiet_bind; [apply quiet_get|]. intros mkw. apply quiet_bind; [apply quiet_pure|].
  intros wrapped. apply quiet_ks.
Qed.

Lemma preflight_quiet me size : quiet (preflight CLI_VERSION signing url me size).
Proof.
  apply quiet_step. intros rv. pose proof (get_signed_calm CLI_VERSION signing url "/v1/me/quota" rv) as Hg.
  by destruct (get_signed _ _ _ _ rv).
Qed.

Lemma initiate_writes id dek iv c coins folder root name size csize ccount :
  one_write (initiate CLI_VERSION signing kem url debug_opt anchored_reads id dek iv c coins folder root name size csize ccount).
Proof.
  unfold initiate. repeat (apply one_write_quiet; [|intros ?]); try apply quiet_pure; try apply quiet_get.
  - apply preflight_quiet.
  - apply quiet_ks.
  - apply folder_key_quiet.
  - apply quiet_world, recipient_wraps_reads.
  - apply post_writes.
Qed.

(** ** The initiate request *)

(** The entries of a listing of the readers. *)
Definition is_reader (recipients r : value) : Prop :=
  value_get recipients "owner" = Some r \/ exists rs, get_array recipients "recipients" = Some rs /\ r ∈ rs.

Lemma wrap_targets_readers recipients r : r ∈ wrap_targets recipients <-> is_reader recipients r.
Proof.
  unfold wrap_targets, is_reader. rewrite elem_of_app. destruct (value_get recipients "owner"), (get_array recipients "recipients");
    cbn; rewrite ?list_elem_of_singleton; set_solver.
Qed.

(** The keys the wrap of an account is made to: the uploader's own, or those that
    were verified for its entry in the listing of the readers. *)
Definition keys_for (account : string) (recipients : value) (id : string) (keys : RecipientWrapKeys) : Prop :=
  (id = account /\ exists st me st', self_wrap_keys st me kem = (Ok keys, st')) \/
  exists r (w w1 : W) tr, is_reader recipients r /\ id_of r = Some id /\ anchored_reads w = (Ok tr, w1) /\
    verified_wrap_keys debug_opt tr.2 url tr.1 r ServerListed "recipient" = Ok keys.

Lemma encrypted_decrypts iv key root target name v :
  length iv = 12%nat -> utf8_valid (str_bytes name) = true -> encrypted iv key root target name = Ok v ->
  decrypt_entry_name key root target v = Ok name.
Proof.
  intros Hiv Hu Hx. unfold encrypted in Hx.
  destruct (encrypt_name iv key (uuid_as_bytes root) (uuid_as_bytes target) name) as [env|] eqn:Ee; [|done].
  injection Hx as <-. unfold decrypt_entry_name. rewrite name_from_to.
  - by rewrite (proj1 (name_round_trip_and_binding iv key _ _ name env (uuid_as_bytes root) (uuid_as_bytes target) name Hiv Hu
      (uuid_as_bytes_length _) (uuid_as_bytes_length _) Ee)).
  - unfold encrypt_name in Ee. destruct (seal _ _ _ _); [|done]. destruct (bool_decide _) in Ee; [|done]. by injection Ee as <-.
Qed.

Lemma dek_wrap_opens_for {St'} `{HK' : Keystore St'} l sk d z (P : St' -> Prop) `{!KemHolder l sk d z P} c dek v st :
  P st -> secrets_ok sk d z -> is_Some (p256_scalar (c_eph c)) -> length dek = 32%nat ->
  wrap_dek_for c (bundle sk d z) dek = Ok v -> (unwrap_dek_value st v l).1 = Ok dek.
Proof.
  intros Hst Hsec Hc Hl Hv. destruct (dek_wrap_opens l sk d z P st c dek Hst Hsec Hc Hl) as (v' & st' & Hv' & _ & Ho & _).
  assert (v' = v) as -> by congruence. by rewrite Ho.
Qed.

(** C39: A file that is uploaded reaches everyone who may read the folder.  When the
    step that begins an upload ([initiate]: from asking for the account to the initiate
    request) succeeds, all its requests before the last were reads and its only write is
    the initiate request, sent with the same body each time; it carries one wrap
    of the file's key for the uploader and for every reader (the owner and the
    recipients) of the listing the server gave for the folder, and for no one else; the
    encrypted name decrypts to the file's name under the folder's key; and whoever
    holds the keys a wrap was made to, which for a reader are the verified ones, opens
    it to the key the parts are sealed under. *)
Theorem upload_reaches_readers {St'} `{HK' : Keystore St'} l sk d z (P : St' -> Prop) `{!KemHolder l sk d z P}
    file_id dek iv c coins folder root name size csize ccount (rv rv' : R) response :
  length dek = 32%nat -> length iv = 12%nat -> utf8_valid (str_bytes name) = true -> secrets_ok sk d z ->
  is_Some (p256_scalar (c_eph c)) -> (forall e i, is_Some (p256_scalar (c_eph (coins e i)))) ->
  initiate CLI_VERSION signing kem url debug_opt anchored_reads file_id dek iv c coins folder root name size csize ccount rv
    = Some (Ok response, rv') ->
  exists account recipients (w0 w1 : W) (rvk rvk' : R) key encrypted_name wraps reads writes,
    w_sent (rv_world rv') = w_sent (rv_world rv) ++ reads ++ writes /\ Forall is_read reads /\ writes <> [] /\
    Forall (fun q => hr_method q = "POST"%string /\ hr_url q = url +:+ initiate_path file_id /\
      hr_body q = Some (to_vec (initiate_body folder encrypted_name wraps size csize ccount))) writes /\
    get_json_signed CLI_VERSION signing url (recipients_path root) w0 = (Ok recipients, w1) /\
    NoDup wraps.*1 /\
    (forall id, id ∈ wraps.*1 <-> id = account \/ exists r, is_reader recipients r /\ id_of r = Some id) /\
    folder_key CLI_VERSION signing kem url root rvk = Some (Ok key, rvk') /\
    decrypt_entry_name key root file_id encrypted_name = Ok name /\
    Forall (fun aw => exists keys, keys_for account recipients aw.1 keys /\
      (keys = bundle sk d z -> forall st, P st -> (unwrap_dek_value st aw.2 l).1 = Ok dek)) wraps.
Proof.
  intros Hdek Hiv Hutf Hsec Hc Hcs Hx.
  destruct (initiate_writes _ _ _ _ _ _ _ _ _ _ _ _ _ _ Hx) as (reads & writes & mt & u & b & [_ Hsent] & Hreads & _ & _ & Hw & Hne).
  specialize (Hne eq_refl). unfold initiate in Hx.
  apply rbind_Ok in Hx as (me & rv1 & _ & Hx). apply rbind_Ok in Hx as (account & rv2 & _ & Hx).
  apply rbind_Ok in Hx as (room & rv3 & _ & Hx). apply rbind_Ok in Hx as (self_keys & rv4 & Hself & Hx).
  apply rbind_Ok in Hx as (mine & rv5 & Hmine & Hx). injection Hmine as Hmine <-.
  apply rbind_Ok in Hx as (key & rv6 & Hkey & Hx). apply rbind_Ok in Hx as (ename & rv7 & Hname & Hx).
  injection Hname as Hname <-. apply rbind_Ok in Hx as (others & rv8 & Hothers & Hx).
  unfold step, on_world in Hothers. destruct (recipient_wraps _ _ _ _ _ _ _ _ _ (rv_world rv6)) as [ro w'] eqn:Ero.
  injection Hothers as -> <-.
  apply (recipient_wraps_Ok (fun c => is_Some (p256_scalar (c_eph c)))) in Ero as (recipients & w0 & w1 & Hg & Hnd & Hin & Hf); [|done].
  apply post_last in Hx as (q & Hl & Hq).
  exists account, recipients, w0, w1, rv4, rv6, key, ename, ((account, mine) :: others), reads, writes.
  split_and!; try done.
  - destruct (exists_last Hne) as (ws & q' & Hws). rewrite Hsent, Hws, !app_assoc, last_snoc in Hl. injection Hl as ->.
    rewrite Hws in Hw |- *. pose proof Hw as (_ & Hlast)%Forall_app. inversion Hlast as [|? ? (Hm & Hu & Hb) _]. subst mt u b.
    eapply Forall_impl; [exact Hw|]. intros q0 (-> & -> & ->). done.
  - intros id. change (((account, mine) :: others).*1) with (account :: others.*1). rewrite Hin.
    split; (intros [->|Hid]; [by left|right]).
    + apply list_elem_of_fmap in Hid as (r & Hr & Hri). exists r. by rewrite <- wrap_targets_readers.
    + destruct Hid as (r & Hr & Hri). apply list_elem_of_fmap. exists r. by rewrite wrap_targets_readers.
  - by eapply encrypted_decrypts.
  - constructor.
    + exists self_keys. split.
      * left. split; [done|]. unfold step, on_world, on_ks in Hself.
        destruct (self_wrap_keys _ me kem) as [rk st1] eqn:Es. injection Hself as -> _. by eexists _, _, _.
      * intros -> st Hst. by eapply dek_wrap_opens_for.
    + eapply Forall_impl; [exact Hf|]. intros aw (r & w2 & w3 & tr & keys & c' & Hr & Hid & Ha & Hv & Hc' & Hwr).
      exists keys. split; [right; exists r, w2, w3, tr; by rewrite <- wrap_targets_readers|]. intros -> st Hst. by eapply dek_wrap_opens_for.
Qed.

End Readers.

Section StateFile.
Context `{HS : Sha256, HX : Hex, HB : Base64Url, HG : AesGcm, HHk : Hkdf, HKw : AesKw, HJ : JsonText}.
Context `{HP : P256, !Ecdsa256, HQ : PqSoftware, !MlKemEncaps, HU : UuidLib}.
Context `{HJc : Jcs, HM : MlDsa87, HV : Vrf.VrfR255, HT : StateText}.
Context {St E : Type} `{HK : Keystore St, HE : HttpEnv E}.
Context (CLI_VERSION : string) (signing kem : KeyLabel) (url : string).
Context (debug_opt : option string -> string).
Context (anchored_reads : World St E ->
  cliresult (ServerTrust * (Site -> string -> cliresult value)) * World St E).
Context (faults : fs_faults) (at_ : string) (now : E -> Z).
Context (upload_parts : bytes -> bytes -> Z -> Z -> list value -> TransferKnobs -> TransferGovernor -> Z -> Z -> E ->
  (cliresult (list UploadFanout.PartInput) * TransferGovernor) * E).
Abbreviation W := (World St E).
Abbreviation R := (@Resolver HU St E).

(** ** The state file *)

Abbreviation sends := (send_parts (St := St) upload_parts).
Abbreviation completes := (complete_upload CLI_VERSION signing url).
Abbreviation aborts := (abort_upload CLI_VERSION signing url).
Abbreviation resumes_from := (resume_upload CLI_VERSION signing kem url faults at_ now upload_parts).

(** [upload_fresh] at what the run from the world [w] sees: the transfer it makes, the
    clock after it, and the answers the server gives to the finalize or the abort that
    it sends next. *)
Definition fresh_seen (s : UploadState) (dek fid : bytes) (response : value) (urls : list value) (d : dir) (w : W)
    : cliresult value * dir :=
  let sent := sends dek fid (chunk_size s) (chunk_count s) response urls (new (from_response response)) w in
  upload_fresh faults at_ d s sent.1 (now (w_env sent.2)) (fun parts => (completes s parts sent.2).1)
    (aborts (UploadState.file_id s) (upload_id s) sent.2).1.

Lemma transfer_refines s dek fid response urls d (w : W) :
  (transfer_and_finish CLI_VERSION signing url faults at_ now upload_parts s dek fid response urls d w).1 =
  fresh_seen s dek fid response urls d w.
Proof.
  unfold transfer_and_finish, fresh_seen, upload_fresh.
  destruct (sends dek fid _ _ response urls _ w) as [[[parts|e] g] w1]; cbn [fst snd].
  - by destruct (completes s parts w1) as [answer w2].
  - case_bool_decide; [done|]. by destruct (aborts _ _ w1) as [answer w2].
Qed.

(** What a resume from the world [w] sees, in turn: the answer to the resume request,
    its own wrap opened, the transfer, the clock before and after it, and the answer to
    the finalize. *)
Definition attempt_seen (s : UploadState) (w : W) : attempt :=
  let asked := post_signed CLI_VERSION signing url (multipart_path (UploadState.file_id s) (upload_id s) +:+ "/resume") w in
  let answer := map_ok json_from_str asked.1 in
  let resume := match answer with Ok (Ok v) => v | _ => VNull end in
  let opened := on_ks (fun st => unwrap_dek_value st (default VNull (value_get resume "wrapped_dek")) kem) asked.2 in
  let fid := default [] (uuid_as_bytes <$> uuid_parse_str (UploadState.file_id s)) in
  let transfer dek urls g := sends dek fid (geometry resume).1 (geometry resume).2 resume urls g opened.2 in
  let sent := transfer (ok_default [] opened.1) (default [] (get_array resume "part_urls"))
                (resume_governor s resume (now (w_env opened.2))) in
  mk_attempt answer (fun _ => opened.1) (bool_decide (is_Some (uuid_parse_str (UploadState.file_id s))))
    (fun dek urls g => (transfer dek urls g).1) (now (w_env opened.2)) (now (w_env sent.2))
    (fun parts => (completes s parts sent.2).1).

Lemma resume_refines s d (w : W) : (resumes_from s d w).1 = run_attempt faults at_ d s (attempt_seen s w).
Proof.
  unfold resume_upload, run_attempt, try_resume, attempt_seen. cbv zeta.
  cbn [a_resume a_unwrap a_uuid_ok a_transfer a_now a_now' a_complete].
  destruct (post_signed _ _ _ _ w) as [[text|e] w1]; cbn [fst snd map_ok]; [|by case_bool_decide].
  destruct (json_from_str text) as [resume|e]; [|done].
  destruct (geometry_agrees s resume) eqn:Eg; [|done].
  destruct (value_get resume "wrapped_dek") as [wrapped|]; [|done]. cbn [default from_option id].
  destruct (on_ks _ w1) as [[dek|e] w2]; [|done]. cbn [fst snd ok_default].
  destruct (uuid_parse_str _) as [id|]; [|by rewrite bool_decide_false by by intros []].
  rewrite bool_decide_true by by eexists. cbn [negb default from_option fmap option_fmap option_map].
  unfold resume_transfer. change (default [] (Some (uuid_as_bytes id))) with (uuid_as_bytes id).
  destruct (sends _ _ _ _ _ _ _ w2) as [[[ps|e] g] w3]; cbn [fst snd]; [|done].
  destruct (completes s _ w3) as [answer w4]. cbn [fst]. by destruct (finish faults d s answer) as [[view|e] d1].
Qed.

(** What a fresh upload from the resolver [rv] does to the directory: nothing before
    the server has given the upload an id and addresses for its parts, and from then on
    what [upload_fresh] does at what the run sees. *)
Definition fresh_fate (file_id : uuid) (dek iv : bytes) (c : Coins) (coins : E -> nat -> Coins) (folder root : uuid)
    (name : string) (src : LocalFile) (size mtime csize : Z) (anchor : option string) (d : dir) (rv : R)
    (r : cliresult value) (d' : dir) : Prop :=
  match chunk_plan size csize with
  | Err e => r = Err e /\ d' = d
  | Ok (ccount, declared) =>
      match check_multipart_floor ccount csize with
      | Err e => r = Err e /\ d' = d
      | Ok _ =>
          match initiate CLI_VERSION signing kem url debug_opt anchored_reads file_id dek iv c coins folder root name
                  declared csize ccount rv with
          | None => False
          | Some (Err e, _) => r = Err e /\ d' = d
          | Some (Ok response, rv1) =>
              match Text.get_str response "upload_id", get_array response "part_urls" with
              | Some uid, Some urls =>
                  (r, d') = fresh_seen (fresh_state (uuid_to_string file_id) uid url (uuid_to_string folder)
                      (uuid_to_string root) name (lf_canonical src) size mtime anchor csize ccount)
                    dek (uuid_as_bytes file_id) response urls d (rv_world rv1)
              | _, _ => is_ok r = false /\ d' = d
              end
          end
      end
  end.

Lemma anew_fate file_id dek iv c coins folder root name src size mtime csize anchor d (rv rv' : R) r d' :
  upload_anew CLI_VERSION signing kem url debug_opt anchored_reads faults at_ now upload_parts
    file_id dek iv c coins folder root name src size mtime csize anchor d rv = Some (r, d', rv') ->
  fresh_fate file_id dek iv c coins folder root name src size mtime csize anchor d rv r d'.
Proof.
  unfold upload_anew, fresh_fate. destruct (chunk_plan size csize) as [[ccount declared]|e]; [|by intros [= <- <- _]].
  cbn [fst]. destruct (check_multipart_floor ccount csize) as [[]|e]; [|by intros [= <- <- _]].
  destruct (initiate _ _ _ _ _ _ _ _ _ _ _ _ _ _ _ _ _ rv) as [[[response|e] rv1]|]; [|by intros [= <- <- _]|done].
  destruct (Text.get_str response "upload_id") as [uid|]; [|by intros [= <- <- _]].
  destruct (get_array response "part_urls") as [urls|]; [|by intros [= <- <- _]].
  match goal with |- context [transfer_and_finish ?v ?g ?u ?f ?a ?n ?p ?s ?k ?i ?x ?y ?z ?w] =>
    pose proof (transfer_refines s k i x y z w) as Ht;
    destruct (transfer_and_finish v g u f a n p s k i x y z w) as [[r0 d0] w0] end.
  cbn [fst] in Ht. intros [= <- <- _]. exact Ht.
Qed.

(** C37: The upload command treats the directory of resume states as [UploadCommand]
    decides, at what the run itself sees.  Whatever the server, the transfer and the
    file system do, a run that is refused its chunk size, its target or its source
    leaves the directory alone; otherwise the search answers from the directory with the
    run's own key; a state it finds is resumed from by the attempt of [try_resume] whose
    answers, transfer and clock are those of this run, which ends the run unless it
    reports that there was nothing to resume; and only then, or when none was found, a
    fresh upload begins, which leaves the directory as it is until the server has named
    the upload and then goes by [upload_fresh] at the transfer this run made and the
    answers it got to its finalize or its abort. *)
Theorem upload_refines_state fuel file_id dek iv c coins src dest_path to folder_id root_folder_id name chunk_size
    d (rv rv' : R) r d' :
  upload CLI_VERSION signing kem url debug_opt anchored_reads faults at_ now upload_parts
    fuel file_id dek iv c coins src dest_path to folder_id root_folder_id name chunk_size d rv = Some (r, d', rv') ->
  let csize := default DEFAULT_CHUNK_SIZE chunk_size in
  let target := upload_target CLI_VERSION signing kem url fuel dest_path to folder_id root_folder_id name rv in
  (d' = d /\ is_ok r = false /\
   (csize = 0 \/ 2147483647 < csize \/ (exists e rv1, target = Some (Err e, rv1)) \/ lf_meta src = None)) \/
  exists folder root nm size mtime found d1 rv1,
    let anchor := content_anchor (lf_contents src) size csize in
    let fresh d rv := fresh_fate file_id dek iv c coins folder root nm src size mtime csize anchor d rv r d' in
    target = Some (Ok (folder, root, nm), rv1) /\ lf_meta src = Some (size, mtime) /\
    find_match_in faults (Some d) (mk_ResumeKey url (uuid_to_string folder) nm (lf_canonical src) size mtime anchor)
      = (found, Some d1) /\
    match found with
    | None => fresh d1 rv1
    | Some s =>
        match run_attempt faults at_ d1 s (attempt_seen s (rv_world rv1)) with
        | (Err e, d2) => r = Err e /\ d' = d2
        | (Ok (Some view), d2) => r = Ok view /\ d' = d2
        | (Ok None, d2) => fresh d2 (mk_Resolver (resumes_from s d1 (rv_world rv1)).2 (rv_keys rv1))
        end
    end.
Proof.
  cbv zeta. unfold upload. set (csize := default DEFAULT_CHUNK_SIZE chunk_size).
  destruct (_ || _) eqn:Esz.
  { intros [= <- <- _]. left. split_and!; [done|done|]. apply orb_true_iff in Esz as [Hs|Hs]; lia. }
  destruct (upload_target _ _ _ _ _ _ _ _ _ _ rv) as [[[[[folder root] nm]|e] rv1]|] eqn:Et; [| |done].
  2:{ intros [= <- <- _]. left. split_and!; [done|done|]. right; right; left. by eexists _, _. }
  destruct (lf_meta src) as [[size mtime]|] eqn:Em; [|intros [= <- <- _]; left; split_and!; [done|done|by do 3 right]].
  destruct (find_match_in _ _ _) as [found od] eqn:Ef.
  assert (exists d1, od = Some d1) as [d1 ->].
  { unfold find_match_in in Ef. destruct (find_match_loop _ _ _ _). injection Ef as _ <-. by eexists. }
  intros Hx. right. exists folder, root, nm, size, mtime, found, d1, rv1. split; [done|]. split; [done|]. split; [done|].
  cbn [default] in Hx. change (id d1) with d1 in Hx. destruct found as [s|].
  2:{ apply anew_fate in Hx. by destruct rv1. }
  rewrite <- resume_refines. destruct (resumes_from s d1 (rv_world rv1)) as [[rr d2] w]. cbn [fst snd].
  destruct rr as [[view|]|e]; [by injection Hx as <- <- _|by apply anew_fate in Hx|by injection Hx as <- <- _].
Qed.

End StateFile.
