(* ===== verification/DownloadCommand.v ===== *)
(** * The download command ([download] of [cli/src/commands.rs])

    The requests before the loop of [DownloadLoop], the temporary file, and the rename
    that commits it.  A path is its components, the file system a map from paths to
    contents.  The loop runs over all interleavings, so the command is a relation
    between the state before and the results it may have. *)

From S2P Require Import Prelude Prims CryptoCore Text Ecdsa Envelope Wrap CliError Float64 Keystore SoftKeystore Token Hybrid Governor Transfer Http Resolve Sharing SharingTheorems DownloadLoop DownloadTheorems.
Import Wrap Governor Envelope Transfer DownloadLoop DownloadTheorems.

(** ** Paths and the file system *)

Abbreviation path := (list string).

(** [Path::file_name], [Path::with_file_name]. *)
Definition file_name (p : path) : option string :=
  n ← last p; if decide (n = "..") then None else Some n.
Definition with_file_name (p : path) (n : string) : path :=
  match file_name p with
  | Some _ => removelast p ++ [n]
  | None => p ++ [n]
  end.

Definition download_temp_path (out_path : path) : path :=
  with_file_name out_path (default EmptyString (file_name out_path) +:+ ".part").

Abbreviation fs := (gmap path bytes).

(** What the file system refuses: to create the file, to rename it, to remove it. *)
Record disk_faults := mk_disk_faults {
  create_fails : option string;
  rename_fails : option string;
  remove_fails : bool;
}.

(** The guard is dropped while armed. *)
Definition drop_guard (k : disk_faults) (tmp : path) (m : fs) : fs :=
  if remove_fails k then m else delete tmp m.

(** [std::fs::rename]. *)
Definition rename (tmp out : path) (m : fs) : fs :=
  match m !! tmp with
  | Some f => <[out := f]> (delete tmp m)
  | None => m
  end.

Section Code.
Context `{HS : Sha256, HX : Hex, HB : Base64Url, HG : AesGcm, HHk : Hkdf, HKw : AesKw, HJ : JsonText}.
Context `{HP : P256, !Ecdsa256, HQ : PqSoftware, !MlKemEncaps, HU : UuidLib}.
Context {St E : Type} `{HK : Keystore St, HE : HttpEnv E}.
Context (CLI_VERSION : string) (signing kem : KeyLabel) (server_url : string).
Abbreviation R := (@Resolver HU St E).

(** What the requests before the loop establish. *)
Record Plan := mk_Plan {
  pl_file_id : uuid;
  pl_dek : bytes;
  pl_url : string;
  pl_size_bytes : Z;
  pl_chunks : option Z;
  pl_chunk_size : option Z;
  pl_concurrency : Z;
}.

Definition download_plan (fuel : nat) (path file_id : option string) : RM (St := St) (E := E) Plan :=
  run? id := resolve_file_id CLI_VERSION signing kem server_url fuel path file_id in
  run? wd := step (get_signed CLI_VERSION signing server_url ("/v1/files/" +:+ uuid_to_string id +:+ "/wrapped-dek")) in
  run? wrapped := pure (ok_or (invalid_data "wrapped-dek response missing wrapped_dek") (value_get wd "wrapped_dek")) in
  run? dek := step (on_world (on_ks (fun st => unwrap_dek_value st wrapped kem))) in
  run? du := step (get_signed CLI_VERSION signing server_url ("/v1/files/" +:+ uuid_to_string id +:+ "/download-url")) in
  run? download_url := pure (ok_or (invalid_data "download-url response missing download_url") (Text.get_str du "download_url")) in
  run? size_bytes := pure (ok_or (invalid_data "download-url response missing size_bytes") (get_i64 du "size_bytes")) in
  pure (Ok (mk_Plan id dek download_url (Z.max 0 size_bytes) (get_i64 du "multipart_chunks") (get_i64 du "chunk_size")
              (download_concurrency (get_i64 du "concurrency")))).

Context (serves : nat -> Z * Z -> cliresult bytes -> Prop) (k : disk_faults).

(** From the creation of the temporary file on; the loop may leave anything in it. *)
Definition fetch_and_commit (pl : Plan) (out_path : path) (m : fs) (r : cliresult Z) (m' : fs) : Prop :=
  let tmp := download_temp_path out_path in
  match create_fails k with
  | Some e => r = Err (output_write ("creating the temporary file: " +:+ e)) /\ m' = m
  | None =>
      match pl_chunks pl, pl_chunk_size pl with
      | Some chunks, Some csize =>
          exists f looped, download_loop (pl_dek pl) (uuid_as_bytes (pl_file_id pl)) chunks csize (pl_size_bytes pl) serves
                             (pl_concurrency pl) f looped /\
          match looped with
          | Err e => exists left_over, r = Err e /\ m' = drop_guard k tmp (<[tmp := left_over]> m)
          | Ok plaintext_written =>
              match rename_fails k with
              | Some e => r = Err (output_write ("renaming: " +:+ e)) /\ m' = drop_guard k tmp (<[tmp := f]> m)
              | None => r = Ok plaintext_written /\ m' = rename tmp out_path (<[tmp := f]> m)
              end
          end
      | _, _ =>
          r = Err (invalid_data "download-url returned no multipart chunk metadata (the single-PUT transport is retired)") /\
          m' = drop_guard k tmp (<[tmp := []]> m)
      end
  end.

Definition download (fuel : nat) (path file_id : option string) (out_path : list string)
    (rv : R) (m : fs) (r : cliresult Z) (m' : fs) : Prop :=
  match download_plan fuel path file_id rv with
  | None => False
  | Some (Err e, _) => r = Err e /\ m' = m
  | Some (Ok pl, _) => fetch_and_commit pl out_path m r m'
  end.

End Code.

(** ** All or nothing *)

Lemma append_part_ne (s : string) : s +:+ ".part" <> s.
Proof.
  intros Hs. apply (f_equal String.length) in Hs. induction s as [|a s IH]; [done|]. cbn in Hs. injection Hs as Hs. by apply IH.
Qed.

(** The temporary file is a sibling of the one asked for. *)
Lemma temp_path_ne p : download_temp_path p <> p.
Proof.
  unfold download_temp_path, with_file_name. destruct (file_name p) as [n|] eqn:En.
  - unfold file_name in En. destruct p as [|c p _] using rev_ind; [done|]. rewrite last_snoc in En. cbn in En.
    case_decide; [done|]. injection En as ->. rewrite removelast_last. cbn.
    intros [_ Hn]%app_inj_tail. by apply append_part_ne in Hn.
  - intros Hp. apply (f_equal length) in Hp. rewrite length_app in Hp. cbn in Hp. lia.
Qed.

Section Theorems.
Context `{HS : Sha256, HX : Hex, HB : Base64Url, HG : AesGcm, HHk : Hkdf, HKw : AesKw, HJ : JsonText}.
Context `{HP : P256, !Ecdsa256, HQ : PqSoftware, !MlKemEncaps, HU : UuidLib}.
Context {St E : Type} `{HK : Keystore St, HE : HttpEnv E}.
Context (CLI_VERSION : string) (signing kem : KeyLabel) (server_url : string).
Context (serves : nat -> Z * Z -> cliresult bytes -> Prop) (k : disk_faults).
Abbreviation R := (@Resolver HU St E).

(** A failed download changes no file but the temporary one. *)
Lemma commit_keeps pl out m r m' p :
  fetch_and_commit serves k pl out m r m' -> is_ok r = false -> p <> download_temp_path out -> m' !! p = m !! p.
Proof.
  unfold fetch_and_commit, drop_guard. intros Hx Hr Hp.
  assert (Hd : forall g, (if remove_fails k then <[download_temp_path out := g]> m
    else delete (download_temp_path out) (<[download_temp_path out := g]> m)) !! p = m !! p).
  { intros g. destruct (remove_fails k); [|rewrite lookup_delete_ne by done]; by rewrite lookup_insert_ne. }
  destruct (create_fails k); [by destruct Hx as [_ ->]|].
  destruct (pl_chunks pl) as [chunks|]; [|destruct Hx as [_ ->]; apply Hd].
  destruct (pl_chunk_size pl) as [csize|]; [|destruct Hx as [_ ->]; apply Hd].
  destruct Hx as (f & [len|e] & _ & Hx); [|destruct Hx as (g & _ & ->); apply Hd].
  destruct (rename_fails k); destruct Hx as [-> ->]; [apply Hd|done].
Qed.

(** A download that succeeds has put what the loop left in the place asked for. *)
Lemma commit_Ok pl out m len m' :
  fetch_and_commit serves k pl out m (Ok len) m' ->
  exists chunks csize f, pl_chunks pl = Some chunks /\ pl_chunk_size pl = Some csize /\
    download_loop (pl_dek pl) (uuid_as_bytes (pl_file_id pl)) chunks csize (pl_size_bytes pl) serves (pl_concurrency pl) f (Ok len) /\
    m' = <[out := f]> (delete (download_temp_path out) m).
Proof.
  unfold fetch_and_commit. destruct (create_fails k); [by intros [? _]|].
  destruct (pl_chunks pl) as [chunks|]; [|by intros [? _]]. destruct (pl_chunk_size pl) as [csize|]; [|by intros [? _]].
  intros (f & [w|e] & Hl & Hx); [|by destruct Hx as (g & ? & _)].
  destruct (rename_fails k); [by destruct Hx|]. destruct Hx as [[= <-] ->]. exists chunks, csize, f.
  split_and!; try done. unfold rename. rewrite lookup_insert_eq. by rewrite delete_insert_eq.
Qed.

(** C35: A download commits the whole file or nothing.  Whatever the server, the store
    and the file system do, and for every interleaving of the workers: a download that
    fails leaves every file but its temporary one as it was, the one it was asked for
    included; and one that succeeds changes that one and removes the temporary one,
    and what it puts there, if the store serves only chunks that were sealed for a file
    under the key and id of the plan and the plan has at least one chunk and the chunk
    size they were sealed with, is that file, of the length it reports, or one AES-GCM
    ciphertext opens under two different associated data. *)
Theorem download_all_or_nothing fuel path file_id out (rv : R) m r m' :
  download CLI_VERSION signing kem server_url serves k fuel path file_id out rv m r m' ->
  (is_ok r = false -> m' !! out = m !! out /\ forall p, p <> download_temp_path out -> m' !! p = m !! p) /\
  (forall len, r = Ok len ->
     exists pl rv' chunks csize f,
       download_plan CLI_VERSION signing kem server_url fuel path file_id rv = Some (Ok pl, rv') /\
       pl_chunks pl = Some chunks /\ pl_chunk_size pl = Some csize /\
       m' = <[out := f]> (delete (download_temp_path out) m) /\
       forall c n, 0 < csize < 2 ^ 31 -> 1 <= n <= MAX_PARTS -> (n - 1) * csize <= Z.of_nat (length c) <= n * csize ->
         1 <= chunk_count_u32 chunks ->
         (forall i r env, serves i r (Ok env) -> exists j : nat, Z.of_nat j < n /\
            seal_chunk (pl_dek pl) (uuid_as_bytes (pl_file_id pl)) (Z.of_nat j) n (chunk_of c csize j) = Ok env) ->
         (f = c /\ len = Z.of_nat (length c)) \/ forged (pl_dek pl) (uuid_as_bytes (pl_file_id pl)) n chunks).
Proof.
  unfold download. destruct (download_plan _ _ _ _ _ _ _ rv) as [[[pl|e] rv']|]; [| |done].
  - intros Hx. split.
    + intros Hr. split; [|intros p Hp; by eapply commit_keeps].
      eapply commit_keeps; [exact Hx|done|]. intros He. symmetry in He. by apply temp_path_ne in He.
    + intros len ->. apply commit_Ok in Hx as (chunks & csize & f & Hc & Hs & Hl & ->).
      exists pl, rv', chunks, csize, f. split_and!; try done. intros c n Hcs Hn Hlen Hm Hserves.
      destruct (download_sound _ _ c csize n chunks (pl_size_bytes pl) serves Hcs Hn Hlen Hm Hserves _ _ _ Hl)
        as [(_ & Hf & Hw)|]; [by left|by right].
  - intros [-> ->]. done.
Qed.

(** A file of the caller's that has the name of the temporary one is lost, however the
    download ends once it has begun. *)
Theorem part_sibling_lost pl out m r m' :
  create_fails k = None -> remove_fails k = false ->
  fetch_and_commit serves k pl out m r m' -> m' !! download_temp_path out = None.
Proof.
  intros Hc Hr Hx. destruct r as [len|e].
  - apply commit_Ok in Hx as (chunks & csize & f & _ & _ & _ & ->).
    rewrite lookup_insert_ne by (intros He; symmetry in He; by apply temp_path_ne in He). apply lookup_delete_eq.
  - unfold fetch_and_commit, drop_guard in Hx. rewrite Hc, Hr in Hx.
    destruct (pl_chunks pl) as [chunks|]; [|destruct Hx as [_ ->]; apply lookup_delete_eq].
    destruct (pl_chunk_size pl) as [csize|]; [|destruct Hx as [_ ->]; apply lookup_delete_eq].
    destruct Hx as (f & [len|e'] & _ & Hx); [|destruct Hx as (g & _ & ->); apply lookup_delete_eq].
    destruct (rename_fails k); destruct Hx as [? ->]; [apply lookup_delete_eq|done].
Qed.

End Theorems.
