(* ===== verification/TransferToy.v ===== *)
(** * A concrete upload and a concrete download

    A share folder with one reader, to which this identity uploads a file and from
    which it downloads it. *)

From S2P Require Import Prelude Prims CryptoCore Text Ecdsa Envelope Wrap WrapTheorems CliError Float64 Keystore SoftKeystore Token VrfIndex Receipts RecipientVerify RecipientToy Hybrid HybridTheorems Anchors GrantStatus Governor UploadState Transfer Http HttpTheorems Resolve ResolveTheorems Names UploadFanout UploadCommand DownloadLoop DownloadTheorems Sharing SharingTheorems SharingToy UploadRun UploadRunTheorems DownloadCommand.
Import Wrap Prims.Toy TextToy Vrf.VrfToy Governor UploadState Transfer DownloadLoop.

Module TransferToy.
Import RecipientToy HybridToy.
#[export] Instance ids : UuidLib := ResolveToy.uuid_bool.
#[export] Instance my_vrf : Vrf.VrfR255 := Vrf.VrfToy.vrf_toy.

(** The metadata key of the folder, wrapped to this identity. *)
Definition key_wrap : value := Eval vm_compute in
  match wrap_metadata_key_for coins (HybridTheorems.bundle demo_sk seed_d seed_z) dek (uuid_as_bytes false) with
  | Ok v => v | Err _ => VNull end.
Definition me : value := Eval vm_compute in
  VObject [("account_id", VString "me"); ("kem_pq_pubkey", VString (b64_encode SharingToy.ek_key))]%string.
(** The owner is this identity; the reader is listed twice. *)
Definition reader : value := Eval vm_compute in
  match SharingToy.gus with
  | VObject ms => VObject (("recipient_account_id", VString "a1") :: ms)
  | v => v
  end%string.
Definition readers : value := Eval vm_compute in
  VObject [("owner", VObject [("recipient_account_id", VString "me")]);
           ("recipients", VArray [reader; reader])]%string.

Definition docs : JsonText := json_table
  [("M", me); ("R", readers); ("K", VObject [("wrapped_key", key_wrap)]);
   ("I", VObject [("part_urls", VArray []); ("upload_id", VString "u")]);
   ("D", VObject [("wrapped_dek", SharingToy.my_wrap)]);
   ("L", VObject [("chunk_size", VNumber 16); ("download_url", VString "b"); ("multipart_chunks", VNumber 1);
                  ("size_bytes", VNumber 39)]); ("E", VObject [])]%string eq_refl.
#[export] Instance texts : JsonText := {|
  json_from_str := @json_from_str docs;
  json_to_pretty := @json_to_pretty docs;
  json_display v := "{}"%string;
  json_round_trip := @json_round_trip docs;
|}.

Definition text_of (url : string) : string :=
  if decide (url = "/v1/me") then "M"
  else if decide (url = "/v1/share-folders/0/recipients") then "R"
  else if decide (url = "/v1/folders/0/metadata-key-wrap") then "K"
  else if decide (url = "/v1/files/1/multipart") then "I"
  else if decide (url = "/v1/files/1/wrapped-dek") then "D"
  else if decide (url = "/v1/files/1/download-url") then "L" else "E".

#[export] Instance server : HttpEnv unit := {
  he_call e q := (UreqOk 200 (Some (text_of (hr_url q))), e);
  he_now e := (Some 17, e);
  he_fill e := (replicate 16 Byte.x00, e);
  he_fill_length _ := eq_refl;
}.
#[export] Instance my_keys : Keystore unit := SharingToy.my_keys.

Definition start : @Resolver ids unit unit := mk_Resolver (mk_World tt tt false [] []) ∅.
Definition anchored : World unit unit -> cliresult (ServerTrust * (Site -> string -> cliresult value)) * World unit unit :=
  SharingToy.anchored.
Lemma anchoring_via_http : via_http "1" anchored.
Proof. by exists (PRet _ (Ok (RecipientToy.trust, SharingToy.receipts_of))). Qed.

Abbreviation begin_upload := (initiate (HU := ids) "1" ResolveToy.me mira_kem "" show_opt anchored true dek ResolveToy.iv
  coins (fun _ _ => coins) false false "a.txt" 39 16 1).

Lemma begin_ok : match begin_upload start with Some (Ok _, _) => true | _ => false end = true.
Proof. by vm_compute. Qed.

(** The request is made, with a wrap for the uploader and one for the reader. *)
Lemma upload_reaches_readers_witness :
  exists response rv' account recipients encrypted_name wraps q,
    begin_upload start = Some (Ok response, rv') /\ q ∈ w_sent (rv_world rv') /\ hr_method q = "POST"%string /\
    hr_body q = Some (to_vec (initiate_body false encrypted_name wraps 39 16 1)) /\
    (forall id, id ∈ wraps.*1 <-> id = account \/ exists r, is_reader recipients r /\ id_of r = Some id) /\
    Forall (fun aw => exists keys, keys_for mira_kem "" show_opt anchored account recipients aw.1 keys /\
      (keys = HybridTheorems.bundle demo_sk seed_d seed_z -> (unwrap_dek_value tt aw.2 mira_kem).1 = Ok dek)) wraps.
Proof.
  pose proof begin_ok as Hok. destruct (begin_upload start) as [[[response|e] rv']|] eqn:Ei; [|done..]. clear Hok.
  destruct (upload_reaches_readers (HU := ids) "1" ResolveToy.me mira_kem "" show_opt anchored anchoring_via_http
    mira_kem demo_sk seed_d seed_z (fun _ : unit => True) true dek ResolveToy.iv coins (fun _ _ => coins)
    false false "a.txt" 39 16 1 start rv' response)
    as (account & recipients & w0 & w1 & rvk & rvk' & key & name & wraps & reads & writes & Hs & Hr & Hne & Hw & Hg & Hnd & Hin & _ & _ & Hf);
    [done|done|by vm_compute|exact secrets_demo|exact demo_eph_scalar|intros _ _; exact demo_eph_scalar|exact Ei|].
  destruct writes as [|q writes]; [destruct (Hne eq_refl)|]. apply Forall_cons in Hw as [(Hm & _ & Hb) _].
  exists response, rv', account, recipients, name, wraps, q. split; [reflexivity|].
  split; [rewrite Hs; apply elem_of_app; right; apply elem_of_app; right; apply list_elem_of_here|]. split; [exact Hm|]. split; [exact Hb|]. split; [exact Hin|].
  eapply Forall_impl; [exact Hf|]. intros aw (keys & Hk & Ho). exists keys. split; [exact Hk|].
  intros Hkeys. exact (Ho Hkeys tt I).
Defined.

(** A state that cannot be written; the upload goes on without. *)
#[local] Instance unwritable : StateText.
Proof. refine {| to_vec_pretty s := Err "refused"%string; from_slice b := None |}. done. Defined.

Definition stored (dek fid : bytes) (csize ccount : Z) (urls : list value) (kn : TransferKnobs) (g : TransferGovernor)
    (ahead conc : Z) (e : unit) : (cliresult (list UploadFanout.PartInput) * TransferGovernor) * unit :=
  ((Ok [UploadFanout.mk_PartInput 1 "t"], g), e).
Definition local_file : LocalFile := mk_LocalFile "a.txt" (Some (5, 17)) "/a.txt" (Some (str_bytes "hello")).
Abbreviation run_upload d :=
  (upload (HU := ids) "1" ResolveToy.me mira_kem "" show_opt anchored no_faults "/s" (fun _ => 0) stored
    3 true dek ResolveToy.iv coins (fun _ _ => coins) local_file
    None None (Some "0"%string) None (Some "a.txt"%string) (Some 16) d start).

(** An upload from its arguments to the finalize. *)
Lemma upload_refines_state_witness :
  exists view d' rv' folder root nm size mtime d1 rv1,
    run_upload [("x.json"%string, Some [])] = Some (Ok view, d', rv') /\
    upload_target "1" ResolveToy.me mira_kem "" 3 None None (Some "0"%string) None (Some "a.txt"%string) start
      = Some (Ok (folder, root, nm), rv1) /\ lf_meta local_file = Some (size, mtime) /\
    fresh_fate (HU := ids) "1" ResolveToy.me mira_kem "" show_opt anchored no_faults "/s" (fun _ => 0) stored true dek
      ResolveToy.iv coins (fun _ _ => coins) folder root nm local_file size mtime 16
      (content_anchor (lf_contents local_file) size 16) d1 rv1 (Ok view) d'.
Proof.
  destruct (run_upload [("x.json"%string, Some [])]) as [[[r d'] rv']|] eqn:Eu; [|vm_compute in Eu; discriminate Eu].
  destruct (upload_refines_state (HU := ids) "1" ResolveToy.me mira_kem "" show_opt anchored no_faults "/s" (fun _ => 0) stored
    3 true dek ResolveToy.iv coins (fun _ _ => coins) local_file None None (Some "0"%string) None (Some "a.txt"%string) (Some 16)
    [("x.json"%string, Some [])] start rv' r d' Eu)
    as [(_ & He & _)|(folder & root & nm & size & mtime & found & d1 & rv1 & Ht & Hm & Hfound & Hx)].
  { vm_compute in Eu. injection Eu as <- _ _. discriminate He. }
  assert (Hr : exists view, r = Ok view) by (vm_compute in Eu; injection Eu as <- _ _; by eexists). destruct Hr as [view ->].
  assert (found = None) as -> by (cbn in Hfound; by injection Hfound as <- _).
  exists view, d', rv', folder, root, nm, size, mtime, d1, rv1.
  split; [reflexivity|]. split; [exact Ht|]. split; [exact Hm|exact Hx].
Defined.

(** ** The download *)

Definition hello : bytes := Eval vm_compute in str_bytes "hello".
Definition envelope : bytes := Eval vm_compute in
  match Envelope.seal_chunk dek (uuid_as_bytes true) 0 1 hello with Ok e => e | Err _ => [] end.
Lemma sealed : Envelope.seal_chunk dek (uuid_as_bytes true) 0 1 hello = Ok envelope.
Proof. by vm_compute. Qed.

Definition disk : disk_faults := mk_disk_faults None None false.
Definition plan : Plan := mk_Plan true dek "b" 39 (Some 1) (Some 16) 1.
Abbreviation plan_run := (download_plan (HU := ids) "1" ResolveToy.me mira_kem "" 2 None (Some "1"%string) start).

Lemma planned : exists rv', plan_run = Some (Ok plan, rv').
Proof. eexists. vm_compute. reflexivity. Qed.

(** A sibling with the name of the temporary file is there before. *)
Definition before : gmap (list string) bytes := {[ ["a.txt.part"%string] := [Byte.x00] ]}.
Abbreviation run_download := (download (HU := ids) "1" ResolveToy.me mira_kem "" (DownloadTheorems.in_order [envelope]) disk
  2 None (Some "1"%string) ["a.txt"%string] start before).

Lemma downloads : run_download (Ok 5) (<[ ["a.txt"%string] := hello ]> (delete ["a.txt.part"%string] before)).
Proof.
  unfold download. destruct planned as [rv' ->]. unfold fetch_and_commit. cbn [create_fails disk pl_chunks pl_chunk_size plan].
  exists hello, (Ok 5). split.
  - exact (EndToEnd.single_chunk_download dek (uuid_as_bytes true) 16 39 hello envelope sealed).
  - cbn [rename_fails disk]. split; [done|]. unfold rename.
    replace (download_temp_path ["a.txt"%string]) with ["a.txt.part"%string] by reflexivity.
    rewrite lookup_insert_eq. by rewrite delete_insert_eq.
Qed.

Lemma download_all_or_nothing_witness :
  exists m', run_download (Ok 5) m' /\
    (m' !! ["a.txt"%string] = Some hello \/ DownloadTheorems.forged dek (uuid_as_bytes true) 1 1).
Proof.
  exists (<[ ["a.txt"%string] := hello ]> (delete ["a.txt.part"%string] before)). split; [exact downloads|].
  destruct (download_all_or_nothing (HU := ids) "1" ResolveToy.me mira_kem "" (DownloadTheorems.in_order [envelope]) disk
    2 None (Some "1"%string) ["a.txt"%string] start before (Ok 5) _ downloads) as [_ Hok].
  destruct (Hok 5 eq_refl) as (pl & rv' & chunks & csize & f & Hp & Hc & Hs & Hm & Hsound).
  destruct planned as [rv1 Hp1]. rewrite Hp1 in Hp. injection Hp as <- _. injection Hc as <-. injection Hs as <-.
  destruct (Hsound hello 1) as [[-> _]|Hf].
  - lia.
  - split; [lia|]. vm_compute. discriminate.
  - vm_compute. split; discriminate.
  - vm_compute. discriminate.
  - intros [|i] r env (e & He & Henv); cbn in He; [|discriminate He].
    injection Henv as ->. injection He as <-. exists 0%nat. split; [lia|]. exact sealed.
  - left. rewrite Hm. apply lookup_insert_eq.
  - right. exact Hf.
Defined.

(** The caller's own file of that name is gone. *)
Lemma part_sibling_lost_example :
  before !! ["a.txt.part"%string] = Some [Byte.x00] /\
  exists m', run_download (Ok 5) m' /\ m' !! ["a.txt.part"%string] = None.
Proof.
  split; [by vm_compute|]. eexists. split; [exact downloads|]. by vm_compute.
Qed.

End TransferToy.
