(* ===== verification/HostChannel.v ===== *)
(** * Provisioning of channels ([cli/src/host_channel.rs])

    The host's side of setting a channel up and taking it down: the registry the host
    signer reads at its start, the channel's folder, the copy of the secret the
    container reads, and the file of its pinned handle.  The draws of the generator and
    the delivered helper binary are arguments; the guidance that is printed and the
    restart of the daemon are left out.  [toml] is an interface. *)

From S2P Require Import Prelude Prims CryptoCore Text Wrap Channel CliError Keystore HostSigner.
Import Channel.Wire Channel.Transport.

Module HostChannel.

Record ChannelEntry := mk_ChannelEntry { ce_id : string; ce_dir : string; ce_secret_hex : string }.
Record Registry := mk_Registry { state_dir : string; channels : list ChannelEntry }.

(** What the host signer takes from an entry. *)
Definition config_of (e : ChannelEntry) : ChannelConfig := mk_ChannelConfig (ce_id e) (ce_secret_hex e).

(** [toml::to_string] and [toml::from_str] at [Registry]: a written registry reads back. *)
Class RegistryText := {
  toml_to_string : Registry -> result string string;
  toml_from_str : string -> result string Registry;
  toml_round_trip r t : toml_to_string r = Ok t -> toml_from_str t = Ok r;
}.

(** The files: the text of the registry, the folders, the secret file of a channel
    under [secrets], and the pin files of the registry's state directory. *)
Record HostFiles := mk_HostFiles {
  hf_registry : option string;
  hf_dirs : gset string;
  hf_secrets : gmap string string;
  hf_pins : gmap string bytes;
}.

(** What may fail: making or securing a folder, reading the registry, writing a file
    (and what is left of it then), securing it, removing one. *)
Record host_faults := mk_host_faults {
  dir_error : string -> option string;
  read_error : option string;
  secret_error : option (string * option string);
  registry_error : option (string * option string);
  mode_error : string -> option string;
  unremovable : string -> bool;
}.
Definition no_host_faults : host_faults :=
  mk_host_faults (fun _ => None) None None None (fun _ => None) (fun _ => false).

(** [Path::join] of a relative name. *)
Definition join (a b : string) : string := a +:+ "/" +:+ b.

Definition IN_CONTAINER_CHANNEL_DIR : string := "/run/signet/channel".
Definition IN_CONTAINER_SECRET_DIR : string := "/run/signet/secret".
Definition IN_CONTAINER_SECRET_FILE : string := "/run/signet/secret/secret.hex".
Definition IN_CONTAINER_BIN_DIR : string := "/run/signet/bin".

Definition id_byte (b : byte) : bool := byte_in b 97 122 || byte_in b 48 57 || (byte_to_Z b =? 45).

Definition validate_channel_id (s : string) : cliresult unit :=
  let b := str_bytes s in
  guard bool_decide (1 <= length b <= 64)%nat && forallb id_byte b
        && negb (bool_decide (head b = Some Byte.x2d)) && negb (bool_decide (last b = Some Byte.x2d)) else
    invalid_args ("channel id '" +:+ s +:+ "' must be 1–64 chars of [a-z0-9-], not starting/ending with '-'") ;;
  Ok tt.

(** The line continuation of the snippets. *)
Definition BREAK : string :=
  " " +:+ String.String (Ascii.ascii_of_byte Byte.x5c) (String.String (Ascii.ascii_of_byte Byte.x0a) "  ").

Definition run_snippet (runtime id channel_dir secret_dir : string) (bin_dir handle : option string) : string :=
  let bin_mount := match bin_dir with
                   | Some b => "-v " +:+ b +:+ ":" +:+ IN_CONTAINER_BIN_DIR +:+ ":ro" +:+ BREAK
                   | None => EmptyString
                   end in
  let handle := default "<your-PRSN-handle>" handle in
  runtime +:+ " run -d" +:+ BREAK +:+ bin_mount
    +:+ "-v " +:+ channel_dir +:+ ":" +:+ IN_CONTAINER_CHANNEL_DIR +:+ BREAK
    +:+ "-v " +:+ secret_dir +:+ ":" +:+ IN_CONTAINER_SECRET_DIR +:+ ":ro" +:+ BREAK
    +:+ "-e SIGNET_HOST_CHANNEL_DIR=" +:+ IN_CONTAINER_CHANNEL_DIR +:+ BREAK
    +:+ "-e SIGNET_HOST_CHANNEL_ID=" +:+ id +:+ BREAK
    +:+ "-e SIGNET_HOST_CHANNEL_SECRET_FILE=" +:+ IN_CONTAINER_SECRET_FILE +:+ BREAK
    +:+ "-e SIGNET_HANDLE=" +:+ handle +:+ BREAK +:+ "<your-image>".

Record ProvisionReceipt := mk_ProvisionReceipt {
  pr_channel_id : string;
  pr_channel_dir : string;
  pr_secret_file : string;
  pr_registry_path : string;
  pr_signet_in_container : string;
  pr_bin_delivered : bool;
  pr_docker_snippet : string;
  pr_apple_snippet : string;
}.

Notation "'do?' x ':=' r 'on' st 'in' k" :=
  (match r with (Err e, st) => (Err e, st) | (Ok x, st) => k end)
  (at level 10, x name, st name, r at level 100, k at level 200).

Section Code.
Context `{HX : Hex, HT : RegistryText} (k : host_faults) (host_signer_dir : string).

Definition registry_path : string := join host_signer_dir "registry.toml".

Definition random_channel_id (b : bytes) : string := hex_encode b.

(** ** The registry *)

Definition load_registry (f : HostFiles) : cliresult Registry :=
  match hf_registry f, read_error k with
  | Some text, None => map_err (fun e => config ("parsing host-signer registry: " +:+ e)) (toml_from_str text)
  | _, _ => Err (config ("reading host-signer registry " +:+ registry_path))
  end.

Definition load_or_init (default_state_dir : string) (f : HostFiles) : cliresult Registry :=
  match hf_registry f with
  | Some _ => load_registry f
  | None => Ok (mk_Registry default_state_dir [])
  end.

Definition create_dir_secure (dir : string) (f : HostFiles) : cliresult unit * HostFiles :=
  match dir_error k dir with
  | Some e => (Err (filesystem ("creating " +:+ dir +:+ ": " +:+ e)), f)
  | None => (Ok tt, mk_HostFiles (hf_registry f) ({[dir]} ∪ hf_dirs f) (hf_secrets f) (hf_pins f))
  end.

Definition set_mode_0600 (path : string) (f : HostFiles) : cliresult unit * HostFiles :=
  match mode_error k path with
  | Some e => (Err (filesystem ("securing " +:+ path +:+ ": " +:+ e)), f)
  | None => (Ok tt, f)
  end.

Definition set_registry (t : option string) (f : HostFiles) : HostFiles :=
  mk_HostFiles t (hf_dirs f) (hf_secrets f) (hf_pins f).
Definition set_secret (id : string) (t : option string) (f : HostFiles) : HostFiles :=
  mk_HostFiles (hf_registry f) (hf_dirs f) (partial_alter (fun _ => t) id (hf_secrets f)) (hf_pins f).

Definition write_registry (r : Registry) (f : HostFiles) : cliresult unit * HostFiles :=
  do? u := create_dir_secure host_signer_dir f on f in
  match toml_to_string r with
  | Err e => (Err (config ("serializing the registry: " +:+ e)), f)
  | Ok text =>
      match registry_error k with
      | Some (e, left_over) => (Err (filesystem ("writing " +:+ registry_path +:+ ": " +:+ e)), set_registry left_over f)
      | None => set_mode_0600 registry_path (set_registry (Some text) f)
      end
  end.

Definition write_secret_file (id path hex_str : string) (f : HostFiles) : cliresult unit * HostFiles :=
  match secret_error k with
  | Some (e, left_over) => (Err (filesystem ("writing " +:+ path +:+ ": " +:+ e)), set_secret id left_over f)
  | None => set_mode_0600 path (set_secret id (Some hex_str) f)
  end.

(** ** Setting a channel up *)

Definition chosen_id (channel_id : option string) (drawn : bytes) : cliresult string :=
  match channel_id with
  | Some s => let*? u := validate_channel_id s in Ok s
  | None => Ok (random_channel_id drawn)
  end.

Definition provision_core (drawn secret : bytes) (bin_dir : option string) (channel_id handle : option string)
    (f : HostFiles) : cliresult ProvisionReceipt * HostFiles :=
  match chosen_id channel_id drawn with
  | Err e => (Err e, f)
  | Ok id =>
      let state_dir := join host_signer_dir "state" in
      let channel_dir := join (join host_signer_dir "channels") id in
      let secret_dir := join (join host_signer_dir "secrets") id in
      match load_or_init state_dir f with
      | Err e => (Err e, f)
      | Ok registry =>
          if existsb (fun c => bool_decide (ce_id c = id)) (channels registry) then
            (Err (invalid_args ("channel id '" +:+ id +:+ "' is already registered in " +:+ registry_path)), f)
          else
            let secret_hex := hex_encode secret in
            do? u := create_dir_secure channel_dir f on f in
            do? u := create_dir_secure secret_dir f on f in
            do? u := create_dir_secure state_dir f on f in
            let secret_file := join secret_dir "secret.hex" in
            do? u := write_secret_file id secret_file secret_hex f on f in
            let registry := mk_Registry (HostChannel.state_dir registry)
                              (channels registry ++ [mk_ChannelEntry id channel_dir secret_hex]) in
            do? u := write_registry registry f on f in
            (Ok (mk_ProvisionReceipt id channel_dir secret_file registry_path
                   (if bin_dir then "/run/signet/bin/signet" else "signet") (bool_decide (is_Some bin_dir))
                   (run_snippet "docker" id channel_dir secret_dir bin_dir handle)
                   (run_snippet "container" id channel_dir secret_dir bin_dir handle)), f)
      end
  end.

(** ** Listing and taking down *)

(** The id, the folder and the pinned handle of each channel. *)
Definition list_channels (f : HostFiles) : cliresult (list (string * string * option string)) :=
  match hf_registry f with
  | None => Ok []
  | Some _ =>
      let*? registry := load_registry f in
      Ok (map (fun c =>
            (ce_id c, ce_dir c,
             s ← hf_pins f !! (ce_id c +:+ ".handle") ≫= from_utf8;
             if decide (trim s = EmptyString) then None else Some (trim s))) (channels registry))
  end.

(** [position] and [remove] of the entry with the id. *)
Fixpoint take_out (id : string) (cs : list ChannelEntry) : option (ChannelEntry * list ChannelEntry) :=
  match cs with
  | [] => None
  | c :: cs =>
      if decide (ce_id c = id) then Some (c, cs)
      else '(x, rest) ← take_out id cs; Some (x, c :: rest)
  end.

(** The files that can be removed are. *)
Definition clean_up (id dir : string) (f : HostFiles) : HostFiles :=
  let secret_dir := join (join host_signer_dir "secrets") id in
  let pin := id +:+ ".handle" in
  mk_HostFiles (hf_registry f)
    ((if unremovable k dir then hf_dirs f else hf_dirs f ∖ {[dir]})
       ∖ (if unremovable k secret_dir then ∅ else {[secret_dir]}))
    (if unremovable k secret_dir then hf_secrets f else delete id (hf_secrets f))
    (if unremovable k pin then hf_pins f else delete pin (hf_pins f)).

Definition remove (channel_id : string) (force : bool) (f : HostFiles) : cliresult unit * HostFiles :=
  match hf_registry f with
  | None => (Err (invalid_args ("no host-signer registry at " +:+ registry_path)), f)
  | Some _ =>
      match load_registry f with
      | Err e => (Err e, f)
      | Ok registry =>
          match take_out channel_id (channels registry) with
          | None => (Err (invalid_args ("no channel '" +:+ channel_id +:+ "' in the registry")), f)
          | Some (removed, rest) =>
              if negb force then
                (Err (invalid_args ("removing channel '" +:+ channel_id +:+ "' deletes its host-side folders + registry entry "
                  +:+ "(NOT the PRSN's SE keys or account: those are device-bound and separate); re-run with --force")), f)
              else
                do? u := write_registry (mk_Registry (state_dir registry) rest) f on f in
                (Ok tt, clean_up channel_id (ce_dir removed) f)
          end
      end
  end.

End Code.

(** ** A channel that is set up is served *)

Section Theorems.
Context `{HX : Hex, HT : RegistryText}.

Lemma trim_hex x : trim (hex_encode x) = hex_encode x.
Proof.
  pose proof (hex_encode_digits x) as Hd. pose proof (hex_encode_length x) as Hl.
  assert (Hin : forall b, b ∈ str_bytes (hex_encode x) -> byte_in b 33 126 = true).
  { intros b Hb. apply list_elem_of_In in Hb. rewrite forallb_forall in Hd. specialize (Hd b Hb). by destruct b. }
  destruct (str_bytes (hex_encode x)) as [|b l] eqn:Eb.
  - destruct x; [|cbn in Hl; lia]. destruct (hex_encode []) as [|a s] eqn:Es; [by vm_compute|done].
  - destruct (exists_last (l := b :: l)) as (m & c & Hm); [done|].
    apply (trim_id _ b l m c); [done|by rewrite Eb|apply Hin; by left|apply Hin; rewrite Hm, elem_of_app; right; by left].
Qed.

Lemma parse_secret_encoded secret : length secret = 32%nat -> parse_secret_hex (hex_encode secret) = Ok secret.
Proof.
  intros Hl. unfold parse_secret_hex. rewrite trim_hex, hex_decode_encode. by apply to_array_Ok.
Qed.

Lemma start_snoc d pins cfgs cfg actives secret st :
  start d pins cfgs = Ok actives -> parse_secret_hex (cc_secret_hex cfg) = Ok secret -> load (cc_id cfg) d pins = Ok st ->
  start d pins (cfgs ++ [cfg]) = Ok (actives ++ [mk_Active (new_server (cc_id cfg) secret) st (cc_id cfg) 0]).
Proof.
  intros Hs Hp Hload. revert actives Hs. induction cfgs as [|c cfgs IH]; intros actives; cbn [start app].
  - intros [= <-]. by rewrite Hp, Hload.
  - destruct (parse_secret_hex (cc_secret_hex c)) as [sc|]; [|done]. destruct (load (cc_id c) d pins) as [s0|]; [|done].
    destruct (start d pins cfgs) as [rest|]; [|done]. intros [= <-]. by rewrite (IH rest eq_refl).
Qed.

Lemma write_registry_Ok k dir r f f' :
  write_registry k dir r f = (Ok tt, f') ->
  exists text, hf_registry f' = Some text /\ toml_from_str text = Ok r /\ hf_secrets f' = hf_secrets f /\
    hf_pins f' = hf_pins f /\ hf_dirs f ⊆ hf_dirs f'.
Proof.
  unfold write_registry, create_dir_secure. destruct (dir_error k dir); [done|].
  destruct (toml_to_string r) as [text|] eqn:Et; [|done]. destruct (registry_error k) as [[e l]|]; [done|].
  unfold set_mode_0600. destruct (mode_error k _); [done|]. intros [= <-]. exists text. cbn.
  split; [done|]. split; [by apply toml_round_trip|]. set_solver.
Qed.

Lemma existsb_ids id cs : existsb (fun c => bool_decide (ce_id c = id)) cs = false -> id ∉ ce_id <$> cs.
Proof.
  intros Hx Hin. apply list_elem_of_fmap in Hin as (c & -> & Hc). apply list_elem_of_In in Hc.
  assert (He : existsb (fun c0 => bool_decide (ce_id c0 = ce_id c)) cs = true)
    by (apply existsb_exists; exists c; split; [done|by apply bool_decide_eq_true]). congruence.
Qed.

(** C31: A channel that is provisioned is served, and only added.  When provisioning
    succeeds, the id was not registered before; the registry reads back as the old one
    with the new channel at its end; the container's copy of the secret is the one the
    host signer will use; the other channels' secrets and all pins are as they were;
    and a host signer that starts on the new registry serves every channel it served
    before, unchanged, and the new one under its secret, with the handle its pin file
    has, if there is one. *)
Theorem provisioned_channel_served k k' dir drawn secret bin_dir channel_id handle f receipt f' :
  length secret = 32%nat -> read_error k' = None ->
  provision_core k dir drawn secret bin_dir channel_id handle f = (Ok receipt, f') ->
  let id := pr_channel_id receipt in
  exists reg reg',
    load_or_init k dir (join dir "state") f = Ok reg /\ load_registry k' dir f' = Ok reg' /\
    id ∉ ce_id <$> channels reg /\
    (exists e, channels reg' = channels reg ++ [e] /\ ce_id e = id /\ ce_dir e = pr_channel_dir receipt) /\
    (parse_secret_hex <$> hf_secrets f' !! id) = Some (Ok secret) /\
    (forall id', id' <> id -> hf_secrets f' !! id' = hf_secrets f !! id') /\ hf_pins f' = hf_pins f /\
    pr_channel_dir receipt ∈ hf_dirs f' /\
    forall d actives st, start d (hf_pins f) (config_of <$> channels reg) = Ok actives -> load id d (hf_pins f) = Ok st ->
      start d (hf_pins f') (config_of <$> channels reg') = Ok (actives ++ [mk_Active (new_server id secret) st id 0]).
Proof.
  intros Hl Hk' Hx id. unfold provision_core in Hx. destruct (chosen_id channel_id drawn) as [i|]; [|done].
  destruct (load_or_init k dir (join dir "state") f) as [reg|] eqn:Er; [|done].
  destruct (existsb _ _) eqn:Ee; [done|]. unfold create_dir_secure in Hx.
  destruct (dir_error k (join (join dir "channels") i)); [done|]. destruct (dir_error k (join (join dir "secrets") i)); [done|].
  destruct (dir_error k (join dir "state")); [done|]. unfold write_secret_file in Hx.
  destruct (secret_error k) as [[e lo]|]; [done|]. unfold set_mode_0600 in Hx at 1. destruct (mode_error k _); [done|].
  destruct (write_registry _ _ _ _) as [[[]|] f2] eqn:Ew; [|done]. injection Hx as <- <-. cbn in id. subst id.
  apply write_registry_Ok in Ew as (text & Ht & Hp & Hs & Hpins & Hd). cbn in Hs, Hpins, Hd.
  set (entry := mk_ChannelEntry i (join (join dir "channels") i) (hex_encode secret)) in *.
  exists reg, (mk_Registry (state_dir reg) (channels reg ++ [entry])). cbn [pr_channel_id pr_channel_dir].
  assert (Hsec : parse_secret_hex (hex_encode secret) = Ok secret) by by apply parse_secret_encoded.
  split; [done|]. split; [unfold load_registry; by rewrite Ht, Hk', Hp|]. split; [by apply existsb_ids|].
  split; [by exists entry|]. rewrite Hs. split.
  { rewrite lookup_partial_alter_eq. cbn. by rewrite Hsec. }
  split; [intros id' Hne; by rewrite lookup_partial_alter_ne|]. split; [done|]. split; [set_solver|].
  intros d actives st Hst Hload. rewrite Hpins. cbn [channels]. rewrite fmap_app. exact (start_snoc d (hf_pins f) _ (config_of entry) actives secret st Hst Hsec Hload).
Qed.

(** ** Taking a channel down *)

Lemma take_out_Some id cs x rest :
  take_out id cs = Some (x, rest) -> ce_id x = id /\ exists l r, cs = l ++ x :: r /\ rest = l ++ r.
Proof.
  revert rest. induction cs as [|c cs IH]; intros rest; [done|]. cbn [take_out]. case_decide as Hc.
  - intros [= <- <-]. split; [done|]. by exists [], cs.
  - destruct (take_out id cs) as [[y rest']|]; [|done]. intros [= <- <-].
    destruct (IH rest' eq_refl) as [Hi (l & r & -> & ->)]. split; [done|]. by exists (c :: l), r.
Qed.

(** A channel that was removed leaves no pin behind, if the file can be removed: set up
    again, it is bound to no identity until its first key. *)
Theorem removed_channel_unpinned k k' dir id f f' d :
  remove k dir id true f = (Ok tt, f') -> unremovable k (id +:+ ".handle") = false -> read_error k' = None ->
  load id d (hf_pins f') = Ok (mk_ChannelState None (id +:+ ".handle")) /\
  exists reg reg' x l r, load_registry k dir f = Ok reg /\ load_registry k' dir f' = Ok reg' /\
    channels reg = l ++ x :: r /\ ce_id x = id /\ channels reg' = l ++ r.
Proof.
  unfold remove. destruct (hf_registry f) as [text0|]; [|done]. destruct (load_registry k dir f) as [reg|]; [|done].
  destruct (take_out id (channels reg)) as [[x rest]|] eqn:Et; [|done]. cbn [negb].
  destruct (write_registry _ _ _ f) as [[[]|] f1] eqn:Ew; [|done]. intros [= <-] Hpin Hk'.
  apply write_registry_Ok in Ew as (text & Ht & Hp & _ & Hpins & _). apply take_out_Some in Et as [Hi (l & r & Hc & ->)].
  split.
  - unfold load, clean_up. cbn. rewrite Hpin. by rewrite lookup_delete_eq.
  - exists reg, (mk_Registry (state_dir reg) (l ++ r)), x, l, r. split; [done|].
    split; [unfold load_registry, clean_up; cbn; by rewrite Ht, Hk', Hp|]. done.
Qed.

End Theorems.

(** ** A concrete host *)

Import Toy TextToy.

#[local] Instance entry_eq : EqDecision ChannelEntry.
Proof. solve_decision. Defined.
#[local] Instance entry_countable : Countable ChannelEntry.
Proof.
  refine (inj_countable' (fun e => (ce_id e, ce_dir e, ce_secret_hex e)) (fun x => mk_ChannelEntry x.1.1 x.1.2 x.2) _). by intros [].
Defined.

(** A text form of registries. *)
#[local] Instance registry_text : RegistryText.
Proof.
  refine {| toml_to_string r := Ok (pos_text (countable.encode (state_dir r, channels r)));
            toml_from_str t := match (countable.decode (text_pos t) : option (string * list ChannelEntry)) with
                               | Some x => Ok (mk_Registry x.1 x.2) | None => Err "toml"%string end |}.
  intros [sd cs] t [= <-]. by rewrite text_pos_text, decode_encode.
Defined.

Definition empty_host : HostFiles := mk_HostFiles None ∅ ∅ ∅.
Definition demo_secret : bytes := replicate 32 Byte.x07.
Definition disk_ok : PinDisk := mk_PinDisk true true None true.
Definition set_up (f : HostFiles) : cliresult ProvisionReceipt * HostFiles :=
  provision_core no_host_faults "/h" [] demo_secret None (Some "c1"%string) None f.

Lemma set_up_ok : is_ok (set_up empty_host).1 = true.
Proof. by vm_compute. Qed.

Lemma provisioned_channel_served_witness :
  exists receipt f', set_up empty_host = (Ok receipt, f') /\
    start disk_ok (hf_pins f') [config_of (mk_ChannelEntry (pr_channel_id receipt) (pr_channel_dir receipt) (hex_encode demo_secret))]
      = Ok [mk_Active (new_server (pr_channel_id receipt) demo_secret) (mk_ChannelState None (pr_channel_id receipt +:+ ".handle")) (pr_channel_id receipt) 0] /\
    (parse_secret_hex <$> hf_secrets f' !! pr_channel_id receipt) = Some (Ok demo_secret).
Proof.
  pose proof set_up_ok as Hok. destruct (set_up empty_host) as [[receipt|] f'] eqn:Es; [|discriminate Hok].
  destruct (provisioned_channel_served no_host_faults no_host_faults "/h" [] demo_secret None (Some "c1"%string) None
    empty_host receipt f' eq_refl eq_refl Es) as (reg & reg' & Hr & Hr' & Hn & (e & He & Hi & Hd) & Hsec & Ho & Hp & Hdir & Hst).
  exists receipt, f'. split; [reflexivity|]. injection Hr as <-. split; [|exact Hsec].
  vm_compute in Es. injection Es as <- <-. by vm_compute.
Defined.

(** The pin of an enrolled channel cannot be removed, which removing the channel does
    not report; a channel set up again under the id is bound to the old identity. *)
Lemma leftover_pin_binds_new_channel :
  let enrolled f := mk_HostFiles (hf_registry f) (hf_dirs f) (hf_secrets f) {[ "c1.handle"%string := str_bytes "mira-ai" ]} in
  let stuck := mk_host_faults (fun _ => None) None None None (fun _ => None) (fun p => bool_decide (p = "c1.handle"%string)) in
  let removed := remove stuck "/h" "c1" true (enrolled (set_up empty_host).2) in
  removed.1 = Ok tt /\ is_ok (set_up removed.2).1 = true /\
  load "c1" disk_ok (hf_pins (set_up removed.2).2) = Ok (mk_ChannelState (Some "mira-ai") "c1.handle").
Proof. by vm_compute. Qed.

End HostChannel.
